(** * Asteroids game engine (game.c, project.c): model and verification

    The engine keeps its state in C globals: the base position, two
    arrays-with-count (asteroids, projectiles) of bit-packed positions, and
    the number of lives.  The model below is a shallow embedding:

    - the globals of game.c, the score of score.c and the sequencer globals
      of project.c are the fields of one record [State];
    - the arrays are lists of their declared length, read and written by
      index; the counts are separate fields, as in the source, so that slots
      past the count keep their stale contents;
    - conversions to [uint8_t] and [int8_t] are written out where the
      source stores or passes a value of that type;
    - [random()] reads from a list of pending draws kept in the state; a
      retry loop that exhausts the draws without leaving has no result
      ([None]), so "the loop never exits" reads "no list of draws gives a
      result";
    - writes to the LED matrix, the terminal, the LED port and the buzzer
      registers change none of the modelled variables and are left out. *)

From Stdlib Require Import ZArith NArith Lia List Ascii.
From stdpp Require Import base tactics option list.

Open Scope Z_scope.

(** ** Machine integers *)

(** Conversion to [uint8_t]. *)
Definition uint8 (z : Z) : Z := z mod 256.

(** Conversion to [int8_t] (two's complement, as avr-gcc does). *)
Definition int8 (z : Z) : Z := (z + 128) mod 256 - 128.

(** Conversion to [uint32_t]. *)
Definition uint32 (z : Z) : Z := z mod 4294967296.

(** ** Floating point *)

(** avr-gcc's [double] is the 32-bit IEEE format, with 24 significant
    bits: an operation gives the number of that format that is nearest to
    the exact result, the one with the even last digit when two are as
    near.  The numbers that the two floating-point tests of project.c work
    with are whole multiples of [2^-23]; they are held as whole numbers in
    that unit, so that [double_unit] is the number 1.  None of them is
    large or small enough to leave the range of the format. *)
Definition double_unit : Z := 2 ^ 23.

(** [n / 2^d] as the nearest whole number, the even one of two. *)
Definition round_to_even (n d : Z) : Z :=
  let q := n / 2 ^ d in
  let r := n mod 2 ^ d in
  if 2 * r <? 2 ^ d then q
  else if 2 ^ d <? 2 * r then q + 1
  else if Z.even q then q else q + 1.

(** The nearest number with 24 significant bits. *)
Definition round24 (n : Z) : Z :=
  let d := Z.log2 (Z.abs n) - 23 in
  if d <=? 0 then n else round_to_even n d * 2 ^ d.

(** The conversion of a [uint32_t] to [double]. *)
Definition double_of_uint32 (n : Z) : Z := round24 n * double_unit.

(** The constant [1.8]: the nearest [double] is [15099494 * 2^-23]
    (1.8 * 2^23 = 15099494.4). *)
Definition double_1_8 : Z := 15099494.

(** ** Positions (game.c, lines 36-39) *)

Definition GAME_POSITION (x y : Z) : Z := Z.lor (Z.shiftl x 4) (Z.land y 15).
Definition GET_X_POSITION (posn : Z) : Z := Z.shiftr posn 4.
Definition GET_Y_POSITION (posn : Z) : Z := Z.land posn 15.
Definition INVALID_POSITION : Z := 255.

(** Modelled from the spec: game.h is not part of the sources; the field is
    the 8 x 16 grid of the glossary (x in 0..7, y in 0..15), which is also
    what the comments and the loop bounds of game.c use. *)
Definition FIELD_WIDTH : Z := 8.
Definition FIELD_HEIGHT : Z := 16.

(** ** Arrays *)

(** [a[i]] and [a[i] = v] on an array held as a list.  An index outside the
    array is undefined behaviour in C; here the read gives 0 and the write
    does nothing. *)
Definition rd (a : list Z) (i : Z) : Z :=
  if i <? 0 then 0 else default 0 (a !! Z.to_nat i).
Definition wr (a : list Z) (i : Z) (v : Z) : list Z :=
  if i <? 0 then a else <[Z.to_nat i := v]> a.

(** ** The state *)

(** The globals of game.c (lines 78-83). *)
Record Game : Type := mkGame {
  basePosition : Z;              (* int8_t *)
  numProjectiles : Z;            (* int8_t *)
  projectiles : list Z;          (* uint8_t [MAX_PROJECTILES] *)
  numAsteroids : Z;              (* int8_t *)
  asteroids : list Z;            (* uint8_t [MAX_ASTEROIDS] *)
  lives : Z                      (* int *)
}.

(** The globals of project.c that the sound and animation sequences use
    (lines 53-62). *)
Record Sequencer : Type := mkSequencer {
  start_shoot_time : Z;          (* uint32_t *)
  base_hit_sound : Z;            (* int *)
  basehit_sequence : Z;          (* int *)
  basehit_time : Z;              (* uint32_t *)
  animation_x : Z;               (* int *)
  animation_y : Z;               (* int *)
  asteroid_animation_on : Z;     (* int *)
  asteroid_sequence : Z;         (* int *)
  asteroid_animation_time : Z    (* uint32_t *)
}.

Record State : Type := mkState {
  game : Game;
  score : Z;                     (* score.c, uint32_t *)
  sequencer : Sequencer;
  clock : Z;                     (* what get_current_time() returns *)
  sound_enabled : bool;          (* PIND & (1 << 3) *)
  rand : list N                  (* the next results of random() *)
}.

Definition set_basePosition (v : Z) (g : Game) : Game :=
  mkGame v (numProjectiles g) (projectiles g) (numAsteroids g) (asteroids g) (lives g).

Definition set_numProjectiles (v : Z) (g : Game) : Game :=
  mkGame (basePosition g) v (projectiles g) (numAsteroids g) (asteroids g) (lives g).

Definition set_projectiles (v : list Z) (g : Game) : Game :=
  mkGame (basePosition g) (numProjectiles g) v (numAsteroids g) (asteroids g) (lives g).

Definition set_numAsteroids (v : Z) (g : Game) : Game :=
  mkGame (basePosition g) (numProjectiles g) (projectiles g) v (asteroids g) (lives g).

Definition set_asteroids (v : list Z) (g : Game) : Game :=
  mkGame (basePosition g) (numProjectiles g) (projectiles g) (numAsteroids g) v (lives g).

Definition set_lives (v : Z) (g : Game) : Game :=
  mkGame (basePosition g) (numProjectiles g) (projectiles g) (numAsteroids g)
    (asteroids g) v.

Definition set_start_shoot_time (v : Z) (q : Sequencer) : Sequencer :=
  mkSequencer v (base_hit_sound q) (basehit_sequence q) (basehit_time q)
    (animation_x q) (animation_y q) (asteroid_animation_on q)
    (asteroid_sequence q) (asteroid_animation_time q).

Definition set_base_hit_sound (v : Z) (q : Sequencer) : Sequencer :=
  mkSequencer (start_shoot_time q) v (basehit_sequence q) (basehit_time q)
    (animation_x q) (animation_y q) (asteroid_animation_on q)
    (asteroid_sequence q) (asteroid_animation_time q).

Definition set_basehit_sequence (v : Z) (q : Sequencer) : Sequencer :=
  mkSequencer (start_shoot_time q) (base_hit_sound q) v (basehit_time q)
    (animation_x q) (animation_y q) (asteroid_animation_on q)
    (asteroid_sequence q) (asteroid_animation_time q).

Definition set_basehit_time (v : Z) (q : Sequencer) : Sequencer :=
  mkSequencer (start_shoot_time q) (base_hit_sound q) (basehit_sequence q) v
    (animation_x q) (animation_y q) (asteroid_animation_on q)
    (asteroid_sequence q) (asteroid_animation_time q).

(** The five animation variables, written together. *)
Definition set_animation (x y on sq t : Z) (q : Sequencer) : Sequencer :=
  mkSequencer (start_shoot_time q) (base_hit_sound q) (basehit_sequence q)
    (basehit_time q) x y on sq t.

(** A change of the globals of game.c only. *)
Definition with_game (f : Game -> Game) (s : State) : State :=
  mkState (f (game s)) (score s) (sequencer s) (clock s) (sound_enabled s) (rand s).

(** A change of the sequencer globals only. *)
Definition with_sequencer (f : Sequencer -> Sequencer) (s : State) : State :=
  mkState (game s) (score s) (f (sequencer s)) (clock s) (sound_enabled s) (rand s).

Definition set_score (v : Z) (s : State) : State :=
  mkState (game s) v (sequencer s) (clock s) (sound_enabled s) (rand s).

Definition set_rand (v : list N) (s : State) : State :=
  mkState (game s) (score s) (sequencer s) (clock s) (sound_enabled s) v.

(** What the surroundings change between two calls of the engine: the
    timer tick, the sound switch and the random source. *)
Definition set_env (t : Z) (snd : bool) (r : list N) (s : State) : State :=
  mkState (game s) (score s) (sequencer s) t snd r.

(** ** Computations that may draw random numbers *)

Definition M (A : Type) : Type := State -> option (A * State).

Definition ret {A : Type} (a : A) : M A := fun s => Some (a, s).

Definition bind {A B : Type} (m : M A) (k : A -> M B) : M B :=
  fun s => match m s with
           | Some (a, s') => k a s'
           | None => None
           end.

(** A state update that cannot fail. *)
Definition lift (f : State -> State) : M unit := fun s => Some (tt, f s).

Declare Scope game_scope.
Delimit Scope game_scope with game.
Notation "'let*' x ':=' m 'in' k" := (bind m (fun x => k))
  (at level 10, x name, m at level 100, k at level 200) : game_scope.
Notation "m '>>' k" := (bind m (fun _ => k))
  (at level 90, right associativity) : game_scope.
Open Scope game_scope.

(** A counted [for] loop: [for (i = i0; ...; i++) body(i)], run [n] times. *)
Fixpoint for_loop (n : nat) (i : Z) (body : Z -> M unit) : M unit :=
  match n with
  | O => ret tt
  | S n' => body i >> for_loop n' (i + 1) body
  end.

(** ** Internal functions of game.c *)

(** The search loop of [asteroid_at] and [projectile_at]:
    [for (i = 0; i < num; i++) if (a[i] == positionToCheck) return i;
     return -1;] with [i] a [uint8_t] and the result an [int8_t].  The
    count is an [int8_t], so the loop makes at most 127 rounds. *)
Fixpoint position_search (a : list Z) (positionToCheck : Z) (n : nat) (i : Z) : Z :=
  match n with
  | O => -1
  | S n' =>
      if rd a i =? positionToCheck then int8 i
      else position_search a positionToCheck n' (uint8 (i + 1))
  end.

(** game.c, lines 434-445.  The arguments are converted to [uint8_t]. *)
Definition asteroid_at (x y : Z) (g : Game) : Z :=
  let x := uint8 x in
  let y := uint8 y in
  let positionToCheck := uint8 (GAME_POSITION x y) in
  position_search (asteroids g) positionToCheck (Z.to_nat (numAsteroids g)) 0.

(** game.c, lines 450-461. *)
Definition projectile_at (x y : Z) (g : Game) : Z :=
  let x := uint8 x in
  let y := uint8 y in
  let positionToCheck := uint8 (GAME_POSITION x y) in
  position_search (projectiles g) positionToCheck (Z.to_nat (numProjectiles g)) 0.

(** game.c, lines 466-482: the last asteroid takes the freed slot. *)
Definition remove_asteroid (asteroidNumber : Z) (g : Game) : Game :=
  if (asteroidNumber <? 0) || (asteroidNumber >=? numAsteroids g) then g
  else
    let g1 :=
      if asteroidNumber <? numAsteroids g - 1
      then set_asteroids
             (wr (asteroids g) asteroidNumber (rd (asteroids g) (numAsteroids g - 1))) g
      else g in
    set_numAsteroids (int8 (numAsteroids g1 - 1)) g1.

(** The loop of [remove_projectile]:
    [for (i = ...; i < numProjectiles; i++) projectiles[i-1] = projectiles[i];] *)
Fixpoint close_gap (p : list Z) (n : nat) (i : Z) : list Z :=
  match n with
  | O => p
  | S n' => close_gap (wr p (i - 1) (rd p i)) n' (uint8 (i + 1))
  end.

(** game.c, lines 486-502: the later projectiles move one slot down. *)
Definition remove_projectile (projectileNumber : Z) (g : Game) : Game :=
  if (projectileNumber <? 0) || (projectileNumber >=? numProjectiles g) then g
  else
    let i := uint8 (projectileNumber + 1) in
    let g1 := set_projectiles
                (close_gap (projectiles g) (Z.to_nat (numProjectiles g - i)) i) g in
    set_numProjectiles (int8 (numProjectiles g1 - 1)) g1.

(** game.c, lines 421-426. *)
Definition is_game_over (g : Game) : Z :=
  if lives g <? 1 then 1 else 0.

(** ** score.c *)

(** Modelled from the spec: score.c is not part of the sources.  The score
    is "an accumulator incremented by fixed amounts on each successful hit"
    ([score.add(amount)]), read with [score.get()] and cleared with
    [score.reset()]. *)
Definition add_to_score (value : Z) (s : State) : State :=
  set_score (score s + value) s.
Definition get_score (s : State) : Z := score s.
Definition init_score (s : State) : State := set_score 0 s.

(** ** Sound and animation triggers of project.c *)

(** project.c, lines 148-154:
    [if (PIND & (1 << 3)) { play_sound(3000); start_shoot_time = get_current_time(); }] *)
Definition shoot_sound (s : State) : State :=
  with_sequencer
    (fun q => if sound_enabled s then set_start_shoot_time (clock s) q else q) s.

(** project.c, lines 156-162. *)
Definition hit_sound (s : State) : State :=
  with_sequencer
    (fun q => if sound_enabled s then set_start_shoot_time (clock s) q else q) s.

(** project.c, lines 464-467. *)
Definition enable_basehit_sound (s : State) : State :=
  with_sequencer
    (fun q => let q := set_base_hit_sound 1 q in set_basehit_sequence 1 q) s.

(** project.c, lines 508-519. *)
Definition enable_asteroid_animation (x y : Z) (s : State) : State :=
  with_sequencer
    (fun q => if asteroid_animation_on q =? 0
              then set_animation x y 1 1 (clock s) q
              else q) s.

(** project.c, lines 469-492; the pixels drawn by [explosion] and the
    redraws are not part of the state. *)
Definition handle_asteroid_animation (s : State) : State :=
  with_sequencer
    (fun q =>
       if uint32 (clock s - 10) >=? asteroid_animation_time q then
         let on := if asteroid_sequence q =? 4 then 0 else asteroid_animation_on q in
         set_animation (animation_x q) (animation_y q) on
           (asteroid_sequence q + 1) (clock s) q
       else q) s.

(** ** Asteroid regeneration *)

(** The retry loop shared, word for word, by [regen_asteroid] (game.c, lines
    376-381) and by the respawn of an asteroid that left the bottom row
    ([advance_asteroids], lines 290-292):
    [do { new_x = (uint8_t)(random() % FIELD_WIDTH); }
     while (asteroid_at(new_x, 15) != -1);]
    It gives the column found and the draws left. *)
Fixpoint top_row_search (draws : list N) (g : Game) : option (Z * list N) :=
  match draws with
  | [] => None
  | r :: rest =>
      let new_x := uint8 (Z.rem (Z.of_N r) FIELD_WIDTH) in
      if asteroid_at new_x 15 g =? -1 then Some (new_x, rest)
      else top_row_search rest g
  end.

Definition top_row_loop : M Z :=
  fun s => match top_row_search (rand s) (game s) with
           | Some (new_x, rest) => Some (new_x, set_rand rest s)
           | None => None
           end.

(** The two statements that follow the loop in [regen_asteroid]:
    [numAsteroids++; asteroids[numAsteroids-1] = GAME_POSITION(new_x,15);] *)
Definition add_asteroid (posn : Z) (g : Game) : Game :=
  let g := set_numAsteroids (int8 (numAsteroids g + 1)) g in
  set_asteroids (wr (asteroids g) (numAsteroids g - 1) (uint8 posn)) g.

(** game.c, lines 369-387. *)
Definition regen_asteroid : M unit :=
  let* new_x := top_row_loop in
  lift (with_game (add_asteroid (GAME_POSITION new_x 15))).

(** ** The engine operations of game.c *)

Section Engine.

(** Modelled from the spec: the constants of game.h, which is not part of
    the sources.  The spec names the capacities [MAX_ASTEROIDS] and
    [MAX_PROJECTILES] and the two directions without giving values, so
    they are parameters here. *)
Variables MAX_ASTEROIDS MAX_PROJECTILES : Z.
Variables MOVE_LEFT MOVE_RIGHT : Z.

(** The retry loop of [initialise_game] (game.c, lines 146-154): two draws
    for each try, first the column, then the row. *)
Fixpoint initial_cell_search (draws : list N) (g : Game) : option (Z * Z * list N) :=
  match draws with
  | rx :: ry :: rest =>
      let x := uint8 (Z.rem (Z.of_N rx) FIELD_WIDTH) in
      let y := uint8 (3 + Z.rem (Z.of_N ry) (FIELD_HEIGHT - 3)) in
      if asteroid_at x y g =? -1 then Some (x, y, rest)
      else initial_cell_search rest g
  | _ => None
  end.

Definition initial_cell_loop : M (Z * Z) :=
  fun s => match initial_cell_search (rand s) (game s) with
           | Some (x, y, rest) => Some ((x, y), set_rand rest s)
           | None => None
           end.

(** game.c, lines 131-162.  [srand] only chooses which draws follow.  The
    loop counter [i] is a [uint8_t]; the capacity is at most 127. *)
Definition initialise_game : M unit :=
  lift (with_game (fun g =>
    let g := set_basePosition 3 g in
    let g := set_numProjectiles 0 g in
    let g := set_numAsteroids 0 g in
    set_lives 4 g)) >>
  for_loop (Z.to_nat MAX_ASTEROIDS) 0 (fun i =>
    let* xy := initial_cell_loop in
    lift (with_game (fun g =>
      let g := set_asteroids
                 (wr (asteroids g) i (uint8 (GAME_POSITION (fst xy) (snd xy)))) g in
      set_numAsteroids (int8 (numAsteroids g + 1)) g))).

(** One of the four collision blocks of [move_base] (game.c, lines 187-191,
    192-196, 202-206, 207-211), which differ in the cell only:
    [if (asteroid_at(x,y) != -1) { enable_basehit_sound();
       lives = lives - 1; remove_asteroid(asteroid_at(x,y)); }] *)
Definition ram_check (x y : Z) (s : State) : State :=
  if negb (asteroid_at x y (game s) =? -1) then
    let s := enable_basehit_sound s in
    let s := with_game (fun g => set_lives (lives g - 1) g) s in
    with_game (fun g => remove_asteroid (asteroid_at x y g) g) s
  else s.

(** game.c, lines 170-220. *)
Definition move_base (direction : Z) (s : State) : Z * State :=
  if (direction =? MOVE_LEFT) && negb (basePosition (game s) =? 0) then
    let s := ram_check (basePosition (game s) - 2) 0 s in
    let s := ram_check (basePosition (game s) - 1) 1 s in
    let s := with_game (fun g => set_basePosition (int8 (basePosition g - 1)) g) s in
    (1, s)
  else if (direction =? MOVE_RIGHT) && negb (basePosition (game s) =? 7) then
    let s := ram_check (basePosition (game s) + 2) 0 s in
    let s := ram_check (basePosition (game s) + 1) 1 s in
    let s := with_game (fun g => set_basePosition (int8 (basePosition g + 1)) g) s in
    (1, s)
  else (0, s).

(** The [else] branch of [fire_projectile] (game.c, lines 242-243):
    [newProjectileNumber = numProjectiles++;
     projectiles[newProjectileNumber] = GAME_POSITION(basePosition, 2);] *)
Definition add_projectile (g : Game) : Game :=
  let newProjectileNumber := uint8 (numProjectiles g) in
  let g := set_numProjectiles (int8 (numProjectiles g + 1)) g in
  set_projectiles
    (wr (projectiles g) newProjectileNumber
        (uint8 (GAME_POSITION (basePosition g) 2))) g.

(** game.c, lines 227-250. *)
Definition fire_projectile : M Z :=
  fun s =>
  if (numProjectiles (game s) <? MAX_PROJECTILES)
     && (projectile_at (basePosition (game s)) 2 (game s) =? -1)
  then
    let s := shoot_sound s in
    if negb (asteroid_at (basePosition (game s)) 2 (game s) =? -1) then
      (lift (with_game (fun g => remove_asteroid (asteroid_at (basePosition g) 2 g) g)) >>
       regen_asteroid >>
       lift hit_sound >>
       lift (add_to_score 1) >>
       lift (fun s => enable_asteroid_animation (basePosition (game s)) 2 s) >>
       ret 1) s
    else Some (1, with_game add_projectile s)
  else Some (0, s).

(** The test of game.c, line 277:
    [(basePosition == x && y == 2) || (basePosition == x+1 && y == 1)
     || (basePosition == x-1 && y == 1)]. *)
Definition base_collision (basePosition x y : Z) : bool :=
  ((basePosition =? x) && (y =? 2))
  || ((basePosition =? x + 1) && (y =? 1))
  || ((basePosition =? x - 1) && (y =? 1)).

(** The body of the two nested loops of [advance_asteroids] (game.c, lines
    257-300) for the cell [(x, y)]; [x] and [y] are [int]s. *)
Definition advance_cell (x y : Z) : M unit :=
  fun s =>
  if negb (asteroid_at x y (game s) =? -1) then
    let s := with_game (fun g => remove_asteroid (asteroid_at x y g) g) s in
    if negb (projectile_at x y (game s) =? -1) then
      (lift hit_sound >>
       lift (with_game (fun g => remove_projectile (projectile_at x y g) g)) >>
       lift (add_to_score 1) >>
       regen_asteroid >>
       lift (enable_asteroid_animation x y)) s
    else if negb (projectile_at x (y - 1) (game s) =? -1) then
      (lift hit_sound >>
       lift (with_game (fun g => remove_projectile (projectile_at x (y - 1) g) g)) >>
       lift (add_to_score 1) >>
       regen_asteroid >>
       lift (enable_asteroid_animation x (y - 1))) s
    else if base_collision (basePosition (game s)) x y then
      (lift (with_game (fun g => set_lives (lives g - 1) g)) >>
       lift enable_basehit_sound >>
       regen_asteroid) s
    else
      let s := with_game (fun g => set_numAsteroids (int8 (numAsteroids g + 1)) g) s in
      if negb (y =? 0) then
        Some (tt, with_game (fun g =>
                    set_asteroids
                      (wr (asteroids g) (numAsteroids g - 1)
                          (uint8 (GAME_POSITION x (y - 1)))) g) s)
      else
        (let* new_x := top_row_loop in
         lift (with_game (fun g =>
           set_asteroids
             (wr (asteroids g) (numAsteroids g - 1)
                 (uint8 (GAME_POSITION new_x 15))) g))) s
  else Some (tt, s).

(** game.c, lines 254-304. *)
Definition advance_asteroids : M unit :=
  for_loop 8 0 (fun x => for_loop 16 0 (fun y => advance_cell x y)).

(** The body of the loop of [advance_projectiles] (game.c, lines 314-365);
    the result is the next value of [projectileNumber]. *)
Definition advance_projectile (projectileNumber : Z) : M Z :=
  fun s =>
  let x := GET_X_POSITION (rd (projectiles (game s)) projectileNumber) in
  let y := GET_Y_POSITION (rd (projectiles (game s)) projectileNumber) in
  let y := uint8 (y + 1) in
  if y =? FIELD_HEIGHT then
    Some (projectileNumber, with_game (remove_projectile projectileNumber) s)
  else if negb (asteroid_at x y (game s) =? -1) then
    (lift (with_game (remove_projectile projectileNumber)) >>
     lift (with_game (fun g => remove_asteroid (asteroid_at x y g) g)) >>
     lift hit_sound >>
     lift (add_to_score 1) >>
     regen_asteroid >>
     lift (enable_asteroid_animation x y) >>
     ret projectileNumber) s
  else
    Some (int8 (projectileNumber + 1),
          with_game (fun g =>
            set_projectiles
              (wr (projectiles g) projectileNumber (uint8 (GAME_POSITION x y))) g) s).

(** [while (projectileNumber < numProjectiles) { ... }].  Every round either
    removes a projectile or steps to the next one, so [fuel] rounds are
    enough when [fuel] is the number of projectiles at the start (see
    [advance_projectiles_loop_exit]). *)
Fixpoint advance_projectiles_loop (fuel : nat) (projectileNumber : Z) : M Z :=
  fun s =>
  if projectileNumber <? numProjectiles (game s) then
    match fuel with
    | O => Some (projectileNumber, s)
    | S fuel' =>
        (let* next := advance_projectile projectileNumber in
         advance_projectiles_loop fuel' next) s
    end
  else Some (projectileNumber, s).

(** game.c, lines 308-367. *)
Definition advance_projectiles : M unit :=
  fun s =>
  (advance_projectiles_loop (Z.to_nat (numProjectiles (game s))) 0 >> ret tt) s.

(** ** The game loop of project.c *)

(** project.c, lines 188-214. *)
Definition new_game : M unit :=
  initialise_game >>
  lift init_score >>
  lift (fun s =>
    with_sequencer (fun q =>
      let q := set_basehit_sequence 1 q in
      let q := set_basehit_time (clock s) q in
      set_animation 0 0 0 1 (asteroid_animation_time q) q) s).

(** The interval [500 - get_score()*1.8] of project.c, line 365, in exact
    arithmetic, in tenths of a time unit. *)
Definition asteroid_interval_tenths (score : Z) : Z := 5000 - 18 * score.

(** The test of project.c, line 365, that lets the asteroids advance:
    [current_time >= last_asteroid_time + 500 - get_score()*1.8].  The two
    times and the score are [uint32_t]s: the sum [last_asteroid_time + 500]
    is a [uint32_t], the product, the difference and the comparison are
    made in [double]. *)
Definition asteroids_due (current_time last_asteroid_time score : Z) : bool :=
  let sum := double_of_uint32 (uint32 (last_asteroid_time + 500)) in
  let product := round24 (round24 score * double_1_8) in
  round24 (sum - product) <=? double_of_uint32 current_time.

(** The test of project.c, line 439,
    [get_current_time()-(300-200*sin(basehit_sequence/0.8)) >= basehit_time],
    is a floating-point computation; it is kept abstract, as a function of
    the clock, the step and the time stamp. *)
Variable basehit_step_due : Z -> Z -> Z -> bool.

(** project.c, lines 438-462; the tone played is not part of the state. *)
Definition handle_basehit_sound (s : State) : State :=
  with_sequencer
    (fun q =>
       let q :=
         if basehit_step_due (clock s) (basehit_sequence q) (basehit_time q) then
           let q := set_basehit_sequence (basehit_sequence q + 1) q in
           set_basehit_time (clock s) q
         else q in
       if basehit_sequence q =? 4 then set_base_hit_sound 0 q else q) s.

(** The state of the globals when [main] starts: C clears them. *)
Definition power_up (t : Z) (snd : bool) (r : list N) : State :=
  mkState
    (mkGame 0 0 (replicate (Z.to_nat MAX_PROJECTILES) 0)
            0 (replicate (Z.to_nat MAX_ASTEROIDS) 0) 0)
    0 (mkSequencer 0 0 0 0 0 0 0 0 0) t snd r.

(** The states the program goes through: [main] calls [new_game], then
    [play_game] calls the engine and the sequencer, each call guarded by
    [!is_game_over()] (lines 245, 365, 374, 384, 417, 422); after the game
    is over [handle_game_over] (lines 532-548) starts the alarm and keeps
    serving it, and [main] starts a new game.  Between calls the clock, the
    sound switch and the random source may change. *)
Inductive reachable : State -> Prop :=
| reach_start t snd r s :
    new_game (power_up t snd r) = Some (tt, s) -> reachable s
| reach_restart s s' :
    reachable s -> is_game_over (game s) = 1 ->
    new_game s = Some (tt, s') -> reachable s'
| reach_env s t snd r :
    reachable s -> reachable (set_env t snd r s)
| reach_move_base s direction :
    reachable s -> is_game_over (game s) = 0 ->
    reachable (snd (move_base direction s))
| reach_fire_projectile s r s' :
    reachable s -> is_game_over (game s) = 0 ->
    fire_projectile s = Some (r, s') -> reachable s'
| reach_advance_asteroids s s' :
    reachable s -> is_game_over (game s) = 0 ->
    advance_asteroids s = Some (tt, s') -> reachable s'
| reach_advance_projectiles s s' :
    reachable s -> is_game_over (game s) = 0 ->
    advance_projectiles s = Some (tt, s') -> reachable s'
| reach_handle_basehit_sound s :
    reachable s -> base_hit_sound (sequencer s) <> 0 ->
    reachable (handle_basehit_sound s)
| reach_handle_game_over s :
    reachable s -> is_game_over (game s) = 1 ->
    reachable (enable_basehit_sound s)
| reach_handle_asteroid_animation s :
    reachable s -> is_game_over (game s) = 0 ->
    asteroid_animation_on (sequencer s) <> 0 ->
    reachable (handle_asteroid_animation s).

(** ** The live part of the two arrays *)

Definition live_asteroids (g : Game) : list Z :=
  take (Z.to_nat (numAsteroids g)) (asteroids g).

Definition live_projectiles (g : Game) : list Z :=
  take (Z.to_nat (numProjectiles g)) (projectiles g).

Definition is_byte (z : Z) : Prop := 0 <= z < 256.

(** The byte that [asteroid_at x y] and [projectile_at x y] look for. *)
Definition checked_position (x y : Z) : Z :=
  uint8 (GAME_POSITION (uint8 x) (uint8 y)).

(** Well-formed game data: the counts are within the capacities, the
    arrays have their declared size and hold bytes, and neither live part
    has the same position twice. *)
Record wf_asteroids (g : Game) : Prop := mk_wf_asteroids {
  wfa_count : 0 <= numAsteroids g <= MAX_ASTEROIDS;
  wfa_length : Z.of_nat (length (asteroids g)) = MAX_ASTEROIDS;
  wfa_bytes : Forall is_byte (asteroids g);
  wfa_NoDup : NoDup (live_asteroids g)
}.

Record wf_projectiles (g : Game) : Prop := mk_wf_projectiles {
  wfp_count : 0 <= numProjectiles g <= MAX_PROJECTILES;
  wfp_length : Z.of_nat (length (projectiles g)) = MAX_PROJECTILES;
  wfp_bytes : Forall is_byte (projectiles g)
}.

Record wf_game (g : Game) : Prop := mk_wf_game {
  wf_base : 0 <= basePosition g <= 7;
  wf_asteroids_ok : wf_asteroids g;
  wf_projectiles_ok : wf_projectiles g;
  wf_projectiles_NoDup : NoDup (live_projectiles g)
}.

(** The number of cells that pass the collision test of line 277 among the
    first [c] cells that [advance_asteroids] visits (column by column,
    bottom row first). *)
Fixpoint collisions_before (b : Z) (c : nat) : Z :=
  match c with
  | O => 0
  | S c' =>
      collisions_before b c'
      + (if base_collision b (Z.of_nat c' / 16) (Z.of_nat c' mod 16) then 1 else 0)
  end.

(** What holds between two rounds of the loop of [advance_projectiles],
    when [projectileNumber] is [k]: the projectiles before [k] have moved
    and are apart, those from [k] on wait and are apart, and no waiting
    projectile will move onto one that has moved. *)
Record projectiles_inv (k : Z) (g : Game) : Prop := mk_projectiles_inv {
  pi_typed : wf_projectiles g;
  pi_index : 0 <= k <= numProjectiles g;
  pi_moved : NoDup (take (Z.to_nat k) (live_projectiles g));
  pi_waiting : NoDup (drop (Z.to_nat k) (live_projectiles g));
  pi_apart : forall q,
    q ∈ drop (Z.to_nat k) (live_projectiles g) -> GET_Y_POSITION q <> 15 ->
    q + 1 ∉ take (Z.to_nat k) (live_projectiles g)
}.

(** The arrays as C declares them, whatever the counts say. *)
Record typed_game (g : Game) : Prop := mk_typed_game {
  tg_asteroids_length : Z.of_nat (length (asteroids g)) = MAX_ASTEROIDS;
  tg_asteroids_bytes : Forall is_byte (asteroids g);
  tg_projectiles_length : Z.of_nat (length (projectiles g)) = MAX_PROJECTILES;
  tg_projectiles_bytes : Forall is_byte (projectiles g)
}.

(** No position occurs twice among the asteroids, nor among the
    projectiles. *)
Definition cells_apart (g : Game) : Prop :=
  NoDup (live_asteroids g) /\ NoDup (live_projectiles g).

(** A sequence of calls of [move_base], one for each direction of the
    list. *)
Fixpoint move_base_sequence (directions : list Z) (s : State) : State :=
  match directions with
  | [] => s
  | direction :: rest => move_base_sequence rest (snd (move_base direction s))
  end.

(** Draws that send the asteroids number [k], [k+1], ... of
    [initialise_game] to cells of their own: asteroid [k] goes to column
    [k mod 8] of row [3 + k / 8]. *)
Fixpoint spread_draws (k : Z) (n : nat) : list N :=
  match n with
  | O => []
  | S n' => Z.to_N (k mod 8) :: Z.to_N (k / 8) :: spread_draws (k + 1) n'
  end.

(** The number of positions of a list that are in the top row. *)
Fixpoint top_row_count (l : list Z) : Z :=
  match l with
  | [] => 0
  | q :: rest => (if GET_Y_POSITION q =? 15 then 1 else 0) + top_row_count rest
  end.


End Engine.

(** * The display, the LEDs and the keys *)

(** ** The lives on the LEDs (game.c, lines 389-416) *)

(** [update_led]: a [switch] on [lives] that sets or clears bits of the
    8-bit port register [PORTA]; the result is the new value of the
    register.  A value of [lives] without a [case] leaves it alone. *)
Definition update_led (lives PORTA : Z) : Z :=
  if lives =? 4 then
    uint8 (Z.lor PORTA
             (Z.lor (Z.lor (Z.lor (Z.shiftl 1 2) (Z.shiftl 1 3)) (Z.shiftl 1 4))
                    (Z.shiftl 1 5)))
  else if lives =? 3 then uint8 (Z.land PORTA (Z.lnot (Z.shiftl 1 5)))
  else if lives =? 2 then uint8 (Z.land PORTA (Z.lnot (Z.shiftl 1 2)))
  else if lives =? 1 then uint8 (Z.land PORTA (Z.lnot (Z.shiftl 1 4)))
  else if lives =? 0 then uint8 (Z.land PORTA (Z.lnot (Z.shiftl 1 3)))
  else PORTA.

(** [update_terminal] (game.c, lines 403-416) prints the score and the
    lives and calls [update_led]; of the variables modelled it changes the
    port only. *)
Definition update_terminal (s : State) (PORTA : Z) : Z :=
  update_led (lives (game s)) PORTA.

(** The number of LEDs that are on among the four of the lives (bits 2 to
    5 of the port). *)
Definition lives_leds (PORTA : Z) : Z :=
  (if Z.testbit PORTA 2 then 1 else 0) + (if Z.testbit PORTA 3 then 1 else 0)
  + (if Z.testbit PORTA 4 then 1 else 0) + (if Z.testbit PORTA 5 then 1 else 0).

(** The port after [update_led] has shown the values of a list, one after
    the other. *)
Definition show_lives (shown : list Z) (PORTA : Z) : Z :=
  fold_left (fun port l => update_led l port) shown PORTA.

(** The values 4, 3, ... down to [l]. *)
Definition lives_down_to (l : Z) : list Z :=
  List.filter (fun v => l <=? v) [4; 3; 2; 1; 0].

(** ** The tone generator (project.c, lines 113-115) *)

Definition uint16 (z : Z) : Z := z mod 65536.

(** [freq_to_clock_period]: [return (1000000UL / freq);] with a [uint16_t]
    argument and result.  A frequency of 0 is a division by zero in C and is
    left out of the facts below. *)
Definition freq_to_clock_period (freq : Z) : Z :=
  uint16 (1000000 / uint16 freq).

(** ** Pixels (game.c, lines 41-52 and 506-557; project.c, lines 494-506) *)

(** One call of [ledmatrix_update_pixel]: its arguments [x], [y] and
    [colour].  A redraw function is modelled by the calls it makes, in
    order. *)
Definition Pixel : Type := Z * Z * Z.

Definition LED_MATRIX_POSN_FROM_XY (gameX gameY colour : Z) : Pixel :=
  (gameY, 7 - gameX, colour).

Definition LED_MATRIX_POSN_FROM_GAME_POSN (posn colour : Z) : Pixel :=
  LED_MATRIX_POSN_FROM_XY (GET_X_POSITION posn) (GET_Y_POSITION posn) colour.

(** The LED matrix has 16 columns and 8 rows (game.c, lines 43-46: "x values
    on the LED matrix (0 to 15)", "LED matrix y values from 7 to 0"). *)
Definition in_matrix (p : Pixel) : Prop :=
  0 <= fst (fst p) < 16 /\ 0 <= snd (fst p) < 8.

(** The loop of [redraw_base]:
    [for (int8_t x = basePosition - 1; x <= basePosition + 1; x++)
       if (x >= 0 && x < FIELD_WIDTH) ledmatrix_update_pixel(..., colour);]
    It makes three rounds when [basePosition + 1] is an [int8_t] value. *)
Fixpoint redraw_base_loop (n : nat) (x basePosition colour : Z) : list Pixel :=
  match n with
  | O => []
  | S n' =>
      if x <=? basePosition + 1 then
        (if (0 <=? x) && (x <? FIELD_WIDTH)
         then [LED_MATRIX_POSN_FROM_XY x 0 colour] else [])
        ++ redraw_base_loop n' (int8 (x + 1)) basePosition colour
      else []
  end.

(** game.c, lines 516-525. *)
Definition redraw_base (colour : Z) (g : Game) : list Pixel :=
  redraw_base_loop 3 (int8 (basePosition g - 1)) (basePosition g) colour
  ++ [LED_MATRIX_POSN_FROM_XY (basePosition g) 1 colour].

(** game.c, lines 534-540; the index is a [uint8_t]. *)
Definition redraw_asteroid (asteroidNumber colour : Z) (g : Game) : list Pixel :=
  let asteroidNumber := uint8 asteroidNumber in
  if asteroidNumber <? numAsteroids g
  then [LED_MATRIX_POSN_FROM_GAME_POSN (rd (asteroids g) asteroidNumber) colour]
  else [].

(** game.c, lines 549-557. *)
Definition redraw_projectile (projectileNumber colour : Z) (g : Game) : list Pixel :=
  let projectileNumber := uint8 projectileNumber in
  if projectileNumber <? numProjectiles g
  then [LED_MATRIX_POSN_FROM_GAME_POSN (rd (projectiles g) projectileNumber) colour]
  else [].

(** The loop of [redraw_all_asteroids] and [redraw_all_projectiles]:
    [for (uint8_t i = 0; i < num; i++) redraw(i, colour);] *)
Fixpoint redraw_loop (redraw : Z -> list Pixel) (n : nat) (i : Z) : list Pixel :=
  match n with
  | O => []
  | S n' => redraw i ++ redraw_loop redraw n' (uint8 (i + 1))
  end.

(** project.c, lines 494-506; [x] and [y] are [int]s. *)
Definition explosion (x y colour : Z) : list Pixel :=
  [(y, 7 - x, colour); (y, 7 - x + 1, colour); (y, 7 - x - 1, colour);
   (y + 1, 7 - x, colour)]
  ++ (if 3 <=? y - 1 then [(y - 1, 7 - x, colour)] else []).

Section Display.

(** Modelled from the spec: pixel_colour.h is not part of the sources; the
    colours that game.c and project.c name are parameters. *)
Variables COLOUR_BLACK COLOUR_GREEN COLOUR_RED COLOUR_YELLOW : Z.
Variables COLOUR_ORANGE COLOUR_LIGHT_ORANGE : Z.

(** game.c, lines 22-24. *)
Definition COLOUR_ASTEROID : Z := COLOUR_GREEN.
Definition COLOUR_PROJECTILE : Z := COLOUR_RED.
Definition COLOUR_BASE : Z := COLOUR_YELLOW.

(** game.c, lines 527-532. *)
Definition redraw_all_asteroids (g : Game) : list Pixel :=
  redraw_loop (fun i => redraw_asteroid i COLOUR_ASTEROID g)
              (Z.to_nat (numAsteroids g)) 0.

(** game.c, lines 542-547. *)
Definition redraw_all_projectiles (g : Game) : list Pixel :=
  redraw_loop (fun i => redraw_projectile i COLOUR_PROJECTILE g)
              (Z.to_nat (numProjectiles g)) 0.

(** game.c, lines 506-514: what is drawn after [ledmatrix_clear()]. *)
Definition redraw_whole_display (g : Game) : list Pixel :=
  redraw_base COLOUR_BASE g ++ redraw_all_asteroids g ++ redraw_all_projectiles g.

End Display.

(** ** The keys of play_game (project.c, lines 280-358) *)

(** project.c, line 50. *)
Definition ESCAPE_CHAR : Z := 27.

(** A character constant of the source. *)
Definition chr (c : ascii) : Z := Z.of_N (N_of_ascii c).

(** Conversion to [char].  avr-gcc's plain [char] is signed; were it
    unsigned, the byte 255 would still be the one that equals [-1], and
    every comparison below would give the same result. *)
Definition to_char (z : Z) : Z := int8 z.

(** The three variables of [play_game] that hold the input. *)
Record Keys : Type := mkKeys {
  serial_input : Z;                       (* char *)
  escape_sequence_char : Z;               (* char *)
  characters_into_escape_sequence : Z     (* uint8_t *)
}.

(** The pause loop (project.c, lines 349-354):
    [while (serial_input != 'p' && serial_input != 'P')
       if (serial_input_available()) serial_input = fgetc(stdin);]
    It reads the characters that come in until one is [p] or [P], and gives
    what comes after it; with no such character it does not end. *)
Fixpoint pause_wait (incoming : list Z) : option (list Z) :=
  match incoming with
  | [] => None
  | c :: rest =>
      if (to_char c =? chr "p") || (to_char c =? chr "P") then Some rest
      else pause_wait rest
  end.

Section Keys.

(** Modelled from the spec: buttons.h and game.h are not part of the
    sources; the value that [button_pushed()] gives when no button was
    pushed, the capacity and the two directions are parameters. *)
Variable NO_BUTTON_PUSHED : Z.
Variable MAX_PROJECTILES : Z.
Variables MOVE_LEFT MOVE_RIGHT : Z.

(** project.c, lines 290-321.  [button] is the result of [button_pushed()],
    [escape_count] the value of [characters_into_escape_sequence] before
    the round, and [incoming] holds the characters of the serial line that have not
    been read, the first of them ready for [fgetc] when [available] (the
    result of [serial_input_available()]) is set.  The result is the three
    input variables and the characters left. *)
Definition read_keys (button : Z) (available : bool) (incoming : list Z)
    (escape_count : Z) : Keys * list Z :=
  if button =? NO_BUTTON_PUSHED then
    match available, incoming with
    | true, c :: rest =>
        let serial_input := to_char c in
        if (escape_count =? 0) && (serial_input =? ESCAPE_CHAR) then
          (mkKeys (-1) (-1) (uint8 (escape_count + 1)), rest)
        else if (escape_count =? 1) && (serial_input =? chr "[") then
          (mkKeys (-1) (-1) (uint8 (escape_count + 1)), rest)
        else if escape_count =? 2 then
          (mkKeys (-1) serial_input 0, rest)
        else
          (mkKeys serial_input (-1) 0, rest)
    | _, _ => (mkKeys (-1) (-1) escape_count, incoming)
    end
  else (mkKeys (-1) (-1) escape_count, incoming).

(** project.c, lines 323-358: the action for the input.  The result is the
    characters left. *)
Definition process_input (button : Z) (k : Keys) (incoming : list Z) : M (list Z) :=
  fun s =>
  if (button =? 3) || (escape_sequence_char k =? chr "D")
     || (serial_input k =? chr "L") || (serial_input k =? chr "l") then
    Some (incoming, snd (move_base MOVE_LEFT MOVE_RIGHT MOVE_LEFT s))
  else if (button =? 2) || (escape_sequence_char k =? chr "A")
          || (serial_input k =? chr " ") then
    (fire_projectile MAX_PROJECTILES >> ret incoming) s
  else if (button =? 1) || (escape_sequence_char k =? chr "B") then
    Some (incoming, s)
  else if (button =? 0) || (escape_sequence_char k =? chr "C")
          || (serial_input k =? chr "R") || (serial_input k =? chr "r") then
    Some (incoming, snd (move_base MOVE_LEFT MOVE_RIGHT MOVE_RIGHT s))
  else if (serial_input k =? chr "p") || (serial_input k =? chr "P") then
    match pause_wait incoming with
    | Some rest => Some (rest, s)
    | None => None
    end
  else Some (incoming, s).

(** The input part of one round of the loop of [play_game] (project.c,
    lines 290-358): the new value of [characters_into_escape_sequence] and
    the characters left. *)
Definition handle_input (button : Z) (available : bool) (incoming : list Z)
    (escape_count : Z) : M (Z * list Z) :=
  let read := read_keys button available incoming escape_count in
  let* rest := process_input button (fst read) (snd read) in
  ret (characters_into_escape_sequence (fst read), rest).

End Keys.

(** ** The cells in the order of advance_asteroids *)

(** [advance_asteroids] visits the cells column by column, each from the
    bottom row up: the cell of column [x] and row [y] is the one numbered
    [16 * x + y], which is also its position byte.  An asteroid that is
    moved goes from [q] to [q - 1]; this is where an asteroid that started
    at [q] is when the cells below number [c] have been visited and every
    asteroid met was moved. *)
Definition moved_before (c q : Z) : Z := if q <? c then q - 1 else q.

(** ** Positions on the field *)

(** An asteroid is on the field when its column is one of 0..7, a
    projectile when moreover its row is 2 or higher (row 2 is the firing
    row, just above the base). *)
Definition asteroid_cell (q : Z) : Prop := 0 <= q < 128.
Definition projectile_cell (q : Z) : Prop := 0 <= q < 128 /\ 2 <= GET_Y_POSITION q.

Definition on_field (g : Game) : Prop :=
  Forall asteroid_cell (live_asteroids g) /\
  Forall projectile_cell (live_projectiles g).

(** ** The alarm in the states of the program *)

(** What a call of the engine does to the alarm: it leaves it as it is or
    starts it at step 1. *)
Definition alarm_kept (q q' : Sequencer) : Prop :=
  (base_hit_sound q' = base_hit_sound q /\ basehit_sequence q' = basehit_sequence q)
  \/ (base_hit_sound q' = 1 /\ basehit_sequence q' = 1).

(** While the alarm is on it is at one of its steps 1, 2 and 3. *)
Definition alarm_on_step (q : Sequencer) : Prop :=
  base_hit_sound q <> 0 -> 1 <= basehit_sequence q <= 3.

(** ** The sequencer between two calls *)

(** The state when the timer shows [t]; nothing else has changed. *)
Definition at_time (t : Z) (s : State) : State :=
  set_env t (sound_enabled s) (rand s) s.

(** * A game played *)

(** The facts above hold for every capacity up to 127 and every pair of
    directions.  The runs below fix 20 asteroids, 4 projectiles, the
    directions 0 (left) and 1 (right), and the delay test of the alarm. *)

(** The delay [300 - 200*sin(basehit_sequence/0.8)] of project.c, line 439,
    as a [double], in units of [2^-23].  [sin] is the function of the C
    library: [sin 1.25 = 0.94898...], [sin 2.5 = 0.59847...] and
    [sin 3.75 = -0.57156...], which gives 110.203..., 180.305... and
    414.312... time units for the steps 1, 2 and 3.  The alarm is served
    at these steps only (see [alarm_steps]); for another step the sine is
    left out. *)
Definition basehit_delay (step : Z) : Z :=
  if step =? 1 then 924450432
  else if step =? 2 then 1512512768
  else if step =? 3 then 3475503104
  else 300 * double_unit.

(** The test of project.c, line 439:
    [get_current_time() - (300-200*sin(basehit_sequence/0.8)) >= basehit_time],
    the two times converted to [double] and the difference made in
    [double]. *)
Definition alarm_step_due (now step stamp : Z) : bool :=
  double_of_uint32 stamp <=? round24 (double_of_uint32 now - basehit_delay step).

Definition reachable_state : State -> Prop := reachable 20 4 0 1 alarm_step_due.

(** The state a computation ends in (the state it started from when it
    does not end). *)
Definition state_after {A : Type} (m : M A) (s : State) : State :=
  match m s with
  | Some (_, s') => s'
  | None => s
  end.

(** Draws for [initialise_game]: five asteroids low above the base, at
    (2,3), (4,3), (3,4), (1,3) and (2,4), and fifteen in rows 8 to 12 of the
    columns 5 to 7. *)
Definition opening_draws : list N :=
  [2; 0;  4; 0;  3; 1;  1; 0;  2; 1;
   5; 5;  5; 6;  5; 7;  5; 8;  5; 9;
   6; 5;  6; 6;  6; 7;  6; 8;  6; 9;
   7; 5;  7; 6;  7; 7;  7; 8;  7; 9]%N.

(** A new game, two advances of the asteroids, and a third one in which
    three asteroids reach the base at once; then a move to the left into
    two asteroids. *)
Definition game_0 : State :=
  state_after (new_game 20) (power_up 20 4 0 true opening_draws).
Definition game_1 : State := state_after advance_asteroids game_0.
Definition game_2 : State := state_after advance_asteroids game_1.
Definition game_3 : State :=
  state_after advance_asteroids (set_env 1500 true [0; 1; 2]%N game_2).
Definition game_4 : State := snd (move_base 0 1 0 game_3).

(** From [game_2], where an asteroid is in the firing cell (3,2): a draw
    for column 5 is pending. *)
Definition game_2_armed : State := set_env 1000 true [5]%N game_2.

(** From [game_3]: a projectile is fired and advances thirteen times, up to
    the top row. *)
Definition game_3_fired : State := state_after (fire_projectile 4) game_3.

Fixpoint advance_projectiles_times (n : nat) (s : State) : State :=
  match n with
  | O => s
  | S n' => advance_projectiles_times n' (state_after advance_projectiles s)
  end.

Definition game_3_top : State := advance_projectiles_times 13 game_3_fired.

(** From [game_0]: the base goes left three times, to the edge. *)
Definition game_0_left : State := move_base_sequence 0 1 [0; 0; 0] game_0.

(** Another new game, with 8 of the 20 asteroids in row 15, and draws
    pending. *)
Definition crowded_draws : list N :=
  [0; 12;  1; 12;  2; 12;  3; 12;  4; 12;  5; 12;  6; 12;  7; 12;
   0; 0;  1; 0;  2; 0;  3; 0;  4; 0;  5; 0;  6; 0;  7; 0;
   0; 1;  1; 1;  2; 1;  3; 1]%N.

Definition crowded_game : State :=
  set_env 0 true [0; 1; 2; 3; 4; 5; 6; 7; 8; 9]%N
    (state_after (new_game 20) (power_up 20 4 0 true crowded_draws)).

(** From [game_3], where the alarm runs: its first step is served at time
    1500, and the clock goes on to 1600. *)
Definition game_3_alarm : State :=
  set_env 1600 true [] (handle_basehit_sound alarm_step_due game_3).

(** Draws for a third new game: asteroids at (1,3) and (2,4), three high in
    column 0, and the fifteen of the columns 5 to 7 as in the first one.
    After three advances the first two are at (1,0) and (2,1), the two cells
    that a move of the base from column 3 to the left runs into, and the
    lives are still 4. *)
Definition ram_draws : list N :=
  [1; 0;  2; 1;  0; 7;  0; 8;  0; 9;
   5; 5;  5; 6;  5; 7;  5; 8;  5; 9;
   6; 5;  6; 6;  6; 7;  6; 8;  6; 9;
   7; 5;  7; 6;  7; 7;  7; 8;  7; 9]%N.

Definition ram_game_0 : State :=
  state_after (new_game 20) (power_up 20 4 0 true ram_draws).
Definition ram_game_1 : State := state_after advance_asteroids ram_game_0.
Definition ram_game_2 : State := state_after advance_asteroids ram_game_1.
Definition ram_game : State := state_after advance_asteroids ram_game_2.

(** From [game_1], where an asteroid is at (3,3), one row above the firing
    cell: a projectile is fired, and a draw for column 5 is pending. *)
Definition game_1_fired : State :=
  set_env 500 true [5]%N (state_after (fire_projectile 4) game_1).

(** [game_2] when the asteroids are due, with the three draws of [game_3]
    pending. *)
Definition game_2_late : State := set_env 1500 true [0; 1; 2]%N game_2.

(** [game_3], where an asteroid is in the bottom row at (1,0), with a draw
    for column 5 pending. *)
Definition game_3_draw : State := set_env 1600 true [5]%N game_3.

(** From [game_3_fired]: the projectile advances and a second one is fired,
    so that projectiles are at (3,3) and (3,2). *)
Definition game_3_twice : State :=
  state_after (fire_projectile 4) (state_after advance_projectiles game_3_fired).

(** A state written down by hand, for 2 asteroids and 1 projectile: the base
    is at column 6, the asteroids are at (1,0) and (4,8), the projectile is
    at (1,15), and a draw for column 4 is pending. *)
Definition wrap_game : State :=
  mkState (mkGame 6 1 [31] 2 [16; 72] 3)
          0 (mkSequencer 0 0 1 0 0 0 0 1 0) 0 true [4]%N.

(** One call of the alarm and of the animation at a given time. *)
Definition alarm_step (t : Z) (s : State) : State :=
  handle_basehit_sound alarm_step_due (at_time t s).

Definition animation_frame (t : Z) (s : State) : State :=
  handle_asteroid_animation (at_time t s).


(** The calls that [play_game] makes of the engine while the game is not
    over, and a change of the clock, the sound switch and the draws
    between two calls. *)
Inductive Call : Type :=
| call_env (t : Z) (snd : bool) (r : list N)
| call_move_base (direction : Z)
| call_fire_projectile
| call_advance_asteroids
| call_advance_projectiles.

Definition call (c : Call) (s : State) : option State :=
  match c with
  | call_env t snd r => Some (set_env t snd r s)
  | call_move_base direction =>
      if is_game_over (game s) =? 0 then Some (snd (move_base 0 1 direction s)) else None
  | call_fire_projectile =>
      if is_game_over (game s) =? 0 then
        match fire_projectile 4 s with Some (_, s') => Some s' | None => None end
      else None
  | call_advance_asteroids =>
      if is_game_over (game s) =? 0 then
        match advance_asteroids s with Some (_, s') => Some s' | None => None end
      else None
  | call_advance_projectiles =>
      if is_game_over (game s) =? 0 then
        match advance_projectiles s with Some (_, s') => Some s' | None => None end
      else None
  end.

Fixpoint play (calls : list Call) (s : State) : option State :=
  match calls with
  | [] => Some s
  | c :: rest => match call c s with Some s' => play rest s' | None => None end
  end.

(** Draws for a fourth new game: asteroids in row 3 of the columns 0 to 6,
    two in column 7 at (7,4) and (7,5), and eleven in the rows 8 to 12 of
    the columns 4 to 6. *)
Definition full_top_draws : list N :=
  [0; 0;  1; 0;  2; 0;  3; 0;  4; 0;  5; 0;  6; 0;  7; 1;  7; 2;
   4; 5;  4; 6;  4; 7;  4; 8;  4; 9;
   5; 5;  5; 6;  5; 7;  5; 8;  5; 9;  6; 5]%N.

(** The asteroids advance once, to row 2 in the columns 0 to 6.  With draws
    for the columns 0 to 7 pending, the base fires at the asteroids right
    above it in the columns 3, 2, 1, 4, 5 and 6, and from column 7 shoots
    the two asteroids of that column; the eight hits put eight asteroids
    into row 15.  Then the base goes to column 0, under the asteroid that
    is left in row 2. *)
Definition full_top_calls : list Call :=
  [call_advance_asteroids;
   call_env 0 true [0; 1; 2; 3; 4; 5; 6; 7]%N;
   call_fire_projectile;
   call_move_base 0; call_fire_projectile;
   call_move_base 0; call_fire_projectile;
   call_move_base 1; call_move_base 1; call_move_base 1; call_fire_projectile;
   call_move_base 1; call_fire_projectile;
   call_move_base 1; call_fire_projectile;
   call_move_base 1; call_fire_projectile; call_advance_projectiles;
   call_fire_projectile; call_advance_projectiles; call_advance_projectiles;
   call_move_base 0; call_move_base 0; call_move_base 0; call_move_base 0;
   call_move_base 0; call_move_base 0; call_move_base 0].

Definition full_top_start : State :=
  state_after (new_game 20) (power_up 20 4 0 true full_top_draws).

Definition full_top_game : State :=
  match play full_top_calls full_top_start with
  | Some s => s
  | None => full_top_start
  end.

(** Draws for a fifth new game: asteroids in row 3 of all the columns, one
    at (4,4), and eleven in the rows 8 to 12 of the columns 5 to 7. *)
Definition stuck_top_draws : list N :=
  [0; 0;  1; 0;  2; 0;  3; 0;  4; 0;  5; 0;  6; 0;  7; 0;  4; 1;
   5; 5;  5; 6;  5; 7;  5; 8;  5; 9;
   6; 5;  6; 6;  6; 7;  6; 8;  6; 9;  7; 5]%N.

(** The asteroids advance once, to row 2 in every column.  With draws for
    the columns 0, 1, 2, 4, 5, 6, 7 and 3 pending, the base fires at the
    asteroid above it in column 3, fires a projectile there, which goes up
    to the top row, and fires at the asteroids above it in the other seven
    columns; the eight hits fill row 15.  Then it fires a second projectile
    in column 4, into the cell below the asteroid at (4,3). *)
Definition stuck_top_calls : list Call :=
  [call_advance_asteroids;
   call_env 0 true [0; 1; 2; 4; 5; 6; 7; 3]%N;
   call_fire_projectile; call_fire_projectile]
  ++ replicate 13 call_advance_projectiles
  ++ [call_move_base 0; call_fire_projectile;
      call_move_base 0; call_fire_projectile;
      call_move_base 0; call_fire_projectile;
      call_move_base 1; call_move_base 1; call_move_base 1; call_move_base 1;
      call_fire_projectile;
      call_move_base 1; call_fire_projectile;
      call_move_base 1; call_fire_projectile;
      call_move_base 1; call_fire_projectile;
      call_move_base 0; call_move_base 0; call_move_base 0;
      call_fire_projectile].

Definition stuck_top_start : State :=
  state_after (new_game 20) (power_up 20 4 0 true stuck_top_draws).

Definition stuck_top_game : State :=
  match play stuck_top_calls stuck_top_start with
  | Some s => s
  | None => stuck_top_start
  end.

(** * Facts *)

(** ** Rounding to 24 significant bits *)

Lemma round_to_even_between n d :
  0 <= d ->
  n / 2 ^ d <= round_to_even n d <= n / 2 ^ d + 1 /\
  (n mod 2 ^ d = 0 -> round_to_even n d = n / 2 ^ d).
Proof.
  intros Hd. unfold round_to_even.
  assert (HG : 0 < 2 ^ d) by (apply Z.pow_pos_nonneg; lia).
  pose proof (Z.mod_pos_bound n (2 ^ d) HG) as Hr.
  split.
  - destruct (2 * (n mod 2 ^ d) <? 2 ^ d); [lia|].
    destruct (2 ^ d <? 2 * (n mod 2 ^ d)); [lia|].
    destruct (Z.even (n / 2 ^ d)); lia.
  - intros ->. destruct (Z.ltb_spec (2 * 0) (2 ^ d)); [reflexivity|lia].
Qed.

(** The multiples of [2 ^ d] around [n]: none lies strictly between [n]
    and its rounding. *)
Lemma round_to_even_grid n d k :
  0 <= d ->
  (n <= k * 2 ^ d -> round_to_even n d <= k) /\
  (k * 2 ^ d <= n -> k <= round_to_even n d).
Proof.
  intros Hd.
  assert (HG : 0 < 2 ^ d) by (apply Z.pow_pos_nonneg; lia).
  destruct (round_to_even_between n d Hd) as [[Hlo Hhi] Hexact].
  pose proof (Z.div_mod n (2 ^ d) ltac:(lia)) as Hn.
  pose proof (Z.mod_pos_bound n (2 ^ d) HG) as Hr.
  split; intros Hk.
  - destruct (Z.eq_dec (n mod 2 ^ d) 0) as [H0|H0].
    + rewrite (Hexact H0). rewrite H0 in Hn. nia.
    + assert (n / 2 ^ d < k) by nia. lia.
  - assert (k <= n / 2 ^ d) by nia. lia.
Qed.

Lemma round24_small n : Z.abs n < 2 ^ 24 -> round24 n = n.
Proof.
  intros Hn. unfold round24.
  destruct (Z.leb_spec (Z.log2 (Z.abs n) - 23) 0) as [_|Hd]; [reflexivity|].
  exfalso.
  assert (Hpos : 0 < Z.abs n).
  { destruct (Z.eq_dec (Z.abs n) 0) as [H0|]; [rewrite H0 in Hd; change (Z.log2 0) with 0 in Hd; lia|lia]. }
  apply Z.log2_lt_pow2 in Hn; lia.
Qed.

(** A value with a mantissa of 24 bits is not changed. *)
Lemma round24_exact m k : Z.abs m < 2 ^ 24 -> 0 <= k -> round24 (m * 2 ^ k) = m * 2 ^ k.
Proof.
  intros Hm Hk. unfold round24.
  destruct (Z.leb_spec (Z.log2 (Z.abs (m * 2 ^ k)) - 23) 0) as [_|Hd]; [reflexivity|].
  assert (HK : 0 < 2 ^ k) by (apply Z.pow_pos_nonneg; lia).
  assert (Hpos : 0 < Z.abs m).
  { destruct (Z.eq_dec m 0) as [->|]; [|lia]. rewrite Z.mul_0_l in Hd. change (Z.log2 (Z.abs 0)) with 0 in Hd. lia. }
  rewrite Z.abs_mul, (Z.abs_eq (2 ^ k)) in Hd by lia.
  rewrite Z.log2_mul_pow2 in Hd by lia.
  apply Z.log2_lt_pow2 in Hm; [|lia].
  set (d := Z.log2 (Z.abs (m * 2 ^ k)) - 23).
  assert (Hdk : 0 < d <= k).
  { unfold d. rewrite Z.abs_mul, (Z.abs_eq (2 ^ k)) by lia.
    rewrite Z.log2_mul_pow2 by lia. lia. }
  assert (Hsplit : m * 2 ^ k = (m * 2 ^ (k - d)) * 2 ^ d).
  { rewrite <- Z.mul_assoc, <- Z.pow_add_r by lia. f_equal. f_equal. lia. }
  destruct (round_to_even_between (m * 2 ^ k) d ltac:(lia)) as [_ Hexact].
  assert (HG : 0 < 2 ^ d) by (apply Z.pow_pos_nonneg; lia).
  rewrite Hexact.
  - rewrite Hsplit at 1. rewrite Z.div_mul by lia. symmetry. exact Hsplit.
  - rewrite Hsplit. apply Z.mod_mul. lia.
Qed.

(** What [round24] leaves alone, of the binade of [2 ^ (d + 23)], is a
    multiple of [2 ^ d]. *)
Lemma round24_fixed_multiple y d :
  0 < d -> 2 ^ (d + 23) <= Z.abs y < 2 ^ (d + 24) -> round24 y = y ->
  exists k, y = k * 2 ^ d.
Proof.
  intros Hd Hy Hfix. unfold round24 in Hfix.
  assert (Hlog : Z.log2 (Z.abs y) = d + 23).
  { apply Z.log2_unique; [lia|]. replace (Z.succ (d + 23)) with (d + 24) by lia. exact Hy. }
  rewrite Hlog in Hfix. replace (d + 23 - 23) with d in Hfix by lia.
  destruct (Z.leb_spec d 0); [lia|].
  exists (round_to_even y d). symmetry. exact Hfix.
Qed.

Lemma round24_binade x :
  0 < Z.log2 (Z.abs x) - 23 ->
  2 ^ (Z.log2 (Z.abs x) - 23 + 23) <= Z.abs x < 2 ^ (Z.log2 (Z.abs x) - 23 + 24).
Proof.
  intros Hd.
  assert (Hpos : 0 < Z.abs x).
  { destruct (Z.eq_dec (Z.abs x) 0) as [H0|]; [rewrite H0 in Hd; change (Z.log2 0) with 0 in Hd; lia|lia]. }
  pose proof (Z.log2_spec (Z.abs x) Hpos) as Hspec.
  replace (Z.log2 (Z.abs x) - 23 + 23) with (Z.log2 (Z.abs x)) by lia.
  replace (Z.log2 (Z.abs x) - 23 + 24) with (Z.succ (Z.log2 (Z.abs x))) by lia.
  exact Hspec.
Qed.

(** Rounding does not step over a value that it leaves alone. *)
Lemma round24_le x y : x <= y -> round24 y = y -> round24 x <= y.
Proof.
  intros Hxy Hfix. unfold round24.
  destruct (Z.leb_spec (Z.log2 (Z.abs x) - 23) 0) as [_|Hd]; [exact Hxy|].
  pose proof (round24_binade x Hd) as Hx.
  set (d := Z.log2 (Z.abs x) - 23) in *.
  assert (HG : 0 < 2 ^ d) by (apply Z.pow_pos_nonneg; lia).
  rewrite !Z.pow_add_r in Hx by lia.
  destruct (round_to_even_between x d ltac:(lia)) as [[Hlo Hhi] _].
  pose proof (Z.div_mod x (2 ^ d) ltac:(lia)) as Hdiv.
  pose proof (Z.mod_pos_bound x (2 ^ d) HG) as Hr.
  destruct (Z.lt_trichotomy x 0) as [Hneg|[->|Hpos]]; [| change (Z.log2 (Z.abs 0)) with 0 in Hd; lia |].
  - rewrite Z.abs_neq in Hx by lia.
    destruct (Z.le_gt_cases (- (2 ^ 23 * 2 ^ d)) y) as [Hy|Hy].
    + destruct (round_to_even_grid x d (- 2 ^ 23) ltac:(lia)) as [Hup _]. nia.
    + destruct (round24_fixed_multiple y d Hd) as [k ->]; [|exact Hfix|].
      * rewrite Z.abs_neq by lia. rewrite !Z.pow_add_r by lia. lia.
      * destruct (round_to_even_grid x d k ltac:(lia)) as [Hup _]. nia.
  - rewrite Z.abs_eq in Hx by lia.
    destruct (Z.le_gt_cases (2 ^ 24 * 2 ^ d) y) as [Hy|Hy].
    + assert (x / 2 ^ d < 2 ^ 24) by (apply Z.div_lt_upper_bound; lia). nia.
    + destruct (round24_fixed_multiple y d Hd) as [k ->]; [|exact Hfix|].
      * rewrite Z.abs_eq by lia. rewrite !Z.pow_add_r by lia. lia.
      * destruct (round_to_even_grid x d k ltac:(lia)) as [Hup _]. nia.
Qed.

Lemma round24_ge x y : y <= x -> round24 y = y -> y <= round24 x.
Proof.
  intros Hxy Hfix. unfold round24.
  destruct (Z.leb_spec (Z.log2 (Z.abs x) - 23) 0) as [_|Hd]; [exact Hxy|].
  pose proof (round24_binade x Hd) as Hx.
  set (d := Z.log2 (Z.abs x) - 23) in *.
  assert (HG : 0 < 2 ^ d) by (apply Z.pow_pos_nonneg; lia).
  rewrite !Z.pow_add_r in Hx by lia.
  destruct (round_to_even_between x d ltac:(lia)) as [[Hlo Hhi] _].
  pose proof (Z.div_mod x (2 ^ d) ltac:(lia)) as Hdiv.
  pose proof (Z.mod_pos_bound x (2 ^ d) HG) as Hr.
  destruct (Z.lt_trichotomy x 0) as [Hneg|[->|Hpos]]; [| change (Z.log2 (Z.abs 0)) with 0 in Hd; lia |].
  - rewrite Z.abs_neq in Hx by lia.
    destruct (Z.le_gt_cases y (- (2 ^ 24 * 2 ^ d))) as [Hy|Hy].
    + assert (- 2 ^ 24 <= x / 2 ^ d) by (apply Z.div_le_lower_bound; lia). nia.
    + destruct (round24_fixed_multiple y d Hd) as [k ->]; [|exact Hfix|].
      * rewrite Z.abs_neq by lia. rewrite !Z.pow_add_r by lia. lia.
      * destruct (round_to_even_grid x d k ltac:(lia)) as [_ Hdown]. nia.
  - rewrite Z.abs_eq in Hx by lia.
    destruct (Z.le_gt_cases y (2 ^ 23 * 2 ^ d)) as [Hy|Hy].
    + destruct (round_to_even_grid x d (2 ^ 23) ltac:(lia)) as [_ Hdown]. nia.
    + destruct (round24_fixed_multiple y d Hd) as [k ->]; [|exact Hfix|].
      * rewrite Z.abs_eq by lia. rewrite !Z.pow_add_r by lia. lia.
      * destruct (round_to_even_grid x d k ltac:(lia)) as [_ Hdown]. nia.
Qed.

Section Facts.

Variables MAX_ASTEROIDS MAX_PROJECTILES : Z.
Variables MOVE_LEFT MOVE_RIGHT : Z.
Variable basehit_step_due : Z -> Z -> Z -> bool.
Variable NO_BUTTON_PUSHED : Z.
Variables COLOUR_GREEN COLOUR_RED COLOUR_YELLOW : Z.

(** The counts are [int8_t] variables, so the arrays cannot hold more than
    127 entries. *)
Hypothesis MAX_ASTEROIDS_fits : 0 <= MAX_ASTEROIDS <= 127.
Hypothesis MAX_PROJECTILES_fits : 0 <= MAX_PROJECTILES <= 127.

(** The two directions are different constants. *)
Hypothesis MOVE_distinct : MOVE_LEFT <> MOVE_RIGHT.

(** The buttons are numbered 0 to 3; "no button" is none of them
    (project.c, lines 286-287: [button_pushed()] gives -1 then). *)
Hypothesis NO_BUTTON_PUSHED_apart : ~ 0 <= NO_BUTTON_PUSHED <= 3.

Set Default Proof Using "Type".

(** In this section the operations and the predicates are those of the
    parameters above. *)
Local Abbreviation initialise_game := (initialise_game MAX_ASTEROIDS).
Local Abbreviation new_game := (new_game MAX_ASTEROIDS).
Local Abbreviation move_base := (move_base MOVE_LEFT MOVE_RIGHT).
Local Abbreviation move_base_sequence := (move_base_sequence MOVE_LEFT MOVE_RIGHT).
Local Abbreviation fire_projectile := (fire_projectile MAX_PROJECTILES).
Local Abbreviation handle_basehit_sound := (handle_basehit_sound basehit_step_due).
Local Abbreviation power_up := (power_up MAX_ASTEROIDS MAX_PROJECTILES).
Local Abbreviation reachable :=
  (reachable MAX_ASTEROIDS MAX_PROJECTILES MOVE_LEFT MOVE_RIGHT basehit_step_due).
Local Abbreviation wf_asteroids := (wf_asteroids MAX_ASTEROIDS).
Local Abbreviation wf_projectiles := (wf_projectiles MAX_PROJECTILES).
Local Abbreviation wf_game := (wf_game MAX_ASTEROIDS MAX_PROJECTILES).
Local Abbreviation projectiles_inv := (projectiles_inv MAX_PROJECTILES).
Local Abbreviation typed_game := (typed_game MAX_ASTEROIDS MAX_PROJECTILES).
Local Abbreviation wfa_count := (wfa_count MAX_ASTEROIDS).
Local Abbreviation wfa_NoDup := (wfa_NoDup MAX_ASTEROIDS).
Local Abbreviation wfp_count := (wfp_count MAX_PROJECTILES).
Local Abbreviation wf_base := (wf_base MAX_ASTEROIDS MAX_PROJECTILES).
Local Abbreviation wf_asteroids_ok := (wf_asteroids_ok MAX_ASTEROIDS MAX_PROJECTILES).
Local Abbreviation wf_projectiles_ok := (wf_projectiles_ok MAX_ASTEROIDS MAX_PROJECTILES).
Local Abbreviation pi_index := (pi_index MAX_PROJECTILES).
Local Abbreviation pi_typed := (pi_typed MAX_PROJECTILES).
Local Abbreviation read_keys := (read_keys NO_BUTTON_PUSHED).
Local Abbreviation process_input := (process_input MAX_PROJECTILES MOVE_LEFT MOVE_RIGHT).
Local Abbreviation handle_input :=
  (handle_input NO_BUTTON_PUSHED MAX_PROJECTILES MOVE_LEFT MOVE_RIGHT).
Local Abbreviation redraw_all_asteroids := (redraw_all_asteroids COLOUR_GREEN).
Local Abbreviation redraw_all_projectiles := (redraw_all_projectiles COLOUR_RED).
Local Abbreviation redraw_whole_display :=
  (redraw_whole_display COLOUR_GREEN COLOUR_RED COLOUR_YELLOW).

(** ** Machine integers and positions *)

Lemma uint8_small z : 0 <= z < 256 -> uint8 z = z.
Proof. intros H. unfold uint8. apply Z.mod_small. exact H. Qed.

Lemma uint8_is_byte z : is_byte (uint8 z).
Proof. unfold is_byte, uint8. apply Z.mod_pos_bound. lia. Qed.

Lemma int8_small z : -128 <= z < 128 -> int8 z = z.
Proof. intros H. unfold int8. rewrite Z.mod_small; lia. Qed.

Lemma GAME_POSITION_eq x y : GAME_POSITION x y = 16 * x + y mod 16.
Proof.
  unfold GAME_POSITION.
  change 15 with (Z.ones 4). rewrite Z.land_ones by lia.
  rewrite Z.shiftl_mul_pow2 by lia. change (2 ^ 4) with 16.
  rewrite <- Z.add_nocarry_lor; [lia|].
  apply Z.bits_inj'. intros n Hn.
  rewrite Z.land_spec, Z.bits_0.
  destruct (Z.ltb_spec n 4) as [Hlt|Hge].
  - replace (x * 16) with (x * 2 ^ 4) by lia.
    rewrite Z.mul_pow2_bits_low by lia. reflexivity.
  - replace (y mod 16) with (y mod 2 ^ 4) by reflexivity.
    rewrite Z.mod_pow2_bits_high by lia. apply andb_false_r.
Qed.

Lemma GAME_POSITION_cell x y :
  0 <= x < 16 -> 0 <= y < 16 -> uint8 (GAME_POSITION x y) = 16 * x + y.
Proof.
  intros Hx Hy. rewrite GAME_POSITION_eq, (Z.mod_small y) by lia.
  apply uint8_small. lia.
Qed.

Lemma GET_X_POSITION_eq p : GET_X_POSITION p = p / 16.
Proof. unfold GET_X_POSITION. rewrite Z.shiftr_div_pow2 by lia. reflexivity. Qed.

Lemma GET_Y_POSITION_eq p : GET_Y_POSITION p = p mod 16.
Proof.
  unfold GET_Y_POSITION. change 15 with (Z.ones 4).
  rewrite Z.land_ones by lia. reflexivity.
Qed.

(** The row of a stored position is its low nibble. *)
Lemma GET_Y_GAME_POSITION x y :
  0 <= y < 16 -> GET_Y_POSITION (uint8 (GAME_POSITION x y)) = y.
Proof.
  intros Hy. rewrite GET_Y_POSITION_eq, GAME_POSITION_eq. unfold uint8.
  rewrite Z.mod_mod_divide by (exists 16; lia).
  rewrite (Z.mod_small y) by lia.
  rewrite Z.add_comm, Z.mul_comm, Z.mod_add by lia.
  apply Z.mod_small; lia.
Qed.

(** Moving a stored position one row up, when it is not in the top row. *)
Lemma move_up_eq p :
  is_byte p -> GET_Y_POSITION p <> 15 ->
  uint8 (GAME_POSITION (GET_X_POSITION p) (uint8 (GET_Y_POSITION p + 1))) = p + 1.
Proof.
  unfold is_byte. intros Hp Hy.
  rewrite GET_X_POSITION_eq, GET_Y_POSITION_eq in *.
  assert (0 <= p mod 16 < 16) by (apply Z.mod_pos_bound; lia).
  assert (0 <= p / 16 < 16) by (split; [apply Z.div_pos|apply Z.div_lt_upper_bound]; lia).
  rewrite (uint8_small (p mod 16 + 1)) by lia.
  rewrite GAME_POSITION_cell by lia.
  pose proof (Z.div_mod p 16). lia.
Qed.

(** ** Array reads and writes *)

Lemma rd_lookup (a : list Z) i v :
  0 <= i -> a !! Z.to_nat i = Some v -> rd a i = v.
Proof.
  intros Hi Hl. unfold rd. destruct (Z.ltb_spec i 0); [lia|].
  rewrite Hl. reflexivity.
Qed.

Lemma rd_nat (a : list Z) (n : nat) v : a !! n = Some v -> rd a (Z.of_nat n) = v.
Proof. intros H. apply rd_lookup; [lia|]. rewrite Nat2Z.id. exact H. Qed.

Lemma lookup_rd (a : list Z) i :
  0 <= i < Z.of_nat (length a) -> a !! Z.to_nat i = Some (rd a i).
Proof.
  intros Hi. destruct (lookup_lt_is_Some_2 a (Z.to_nat i)) as [v Hv]; [lia|].
  rewrite (rd_lookup a i v); [exact Hv|lia|exact Hv].
Qed.

Lemma wr_insert (a : list Z) i v : 0 <= i -> wr a i v = <[Z.to_nat i := v]> a.
Proof. intros Hi. unfold wr. destruct (Z.ltb_spec i 0); [lia|reflexivity]. Qed.

Lemma length_wr (a : list Z) i v : length (wr a i v) = length a.
Proof. unfold wr. destruct (i <? 0); [reflexivity|apply length_insert]. Qed.

Lemma Forall_wr (P : Z -> Prop) (a : list Z) i v :
  Forall P a -> P v -> Forall P (wr a i v).
Proof.
  intros Ha Hv. unfold wr. destruct (i <? 0); [exact Ha|].
  apply Forall_insert; assumption.
Qed.

(** ** The search loop *)

Lemma position_search_spec (a : list Z) p n i :
  0 <= i -> i + Z.of_nat n <= 128 ->
  (position_search a p n i = -1 /\
   forall j, i <= j < i + Z.of_nat n -> rd a j <> p)
  \/ (i <= position_search a p n i < i + Z.of_nat n /\
      rd a (position_search a p n i) = p /\
      forall j, i <= j < position_search a p n i -> rd a j <> p).
Proof.
  revert i. induction n as [|n IH]; intros i Hi Hn.
  - left. split; [reflexivity|]. intros j Hj. lia.
  - cbn [position_search].
    destruct (Z.eqb_spec (rd a i) p) as [Heq|Hne].
    + right. rewrite int8_small by lia.
      split; [lia|]. split; [exact Heq|]. intros j Hj. lia.
    + rewrite uint8_small by lia.
      destruct (IH (i + 1)) as [[Hr Hall]|(Hr & Hp & Hall)]; [lia|lia| |].
      * left. split; [exact Hr|]. intros j Hj.
        destruct (Z.eq_dec j i) as [->|]; [exact Hne|]. apply Hall. lia.
      * right. split; [lia|]. split; [exact Hp|]. intros j Hj.
        destruct (Z.eq_dec j i) as [->|]; [exact Hne|]. apply Hall. lia.
Qed.

Lemma elem_of_take_rd (a : list Z) (n : Z) p :
  n <= Z.of_nat (length a) ->
  p ∈ take (Z.to_nat n) a <-> exists j, 0 <= j < n /\ rd a j = p.
Proof.
  intros Hn. rewrite list_elem_of_lookup. split.
  - intros [k Hk]. apply lookup_take_Some in Hk as [Hk Hlt].
    exists (Z.of_nat k). split; [lia|]. apply rd_nat. exact Hk.
  - intros (j & Hj & Hp). exists (Z.to_nat j).
    rewrite lookup_take_lt by lia. rewrite lookup_rd by lia. congruence.
Qed.

Lemma position_search_none (a : list Z) p (n : Z) :
  n <= 127 -> n <= Z.of_nat (length a) ->
  position_search a p (Z.to_nat n) 0 = -1 <-> p ∉ take (Z.to_nat n) a.
Proof.
  intros Hn Hlen. rewrite elem_of_take_rd by exact Hlen.
  destruct (position_search_spec a p (Z.to_nat n) 0) as [[Hr Hall]|(Hr & Hp & Hall)];
    [lia|lia| |].
  - split; [|intros _; exact Hr]. intros _ (j & Hj & Hjp).
    apply (Hall j); [lia|exact Hjp].
  - split; [lia|]. intros Hnot. exfalso. apply Hnot.
    exists (position_search a p (Z.to_nat n) 0). split; [lia|exact Hp].
Qed.

Lemma position_search_found (a : list Z) p (n : Z) :
  n <= 127 -> n <= Z.of_nat (length a) ->
  position_search a p (Z.to_nat n) 0 <> -1 ->
  0 <= position_search a p (Z.to_nat n) 0 < n /\
  take (Z.to_nat n) a !! Z.to_nat (position_search a p (Z.to_nat n) 0) = Some p.
Proof.
  intros Hn Hlen Hne.
  destruct (position_search_spec a p (Z.to_nat n) 0) as [[Hr Hall]|(Hr & Hp & Hall)];
    [lia|lia|contradiction|].
  split; [lia|]. rewrite lookup_take_lt by lia.
  rewrite lookup_rd by lia. congruence.
Qed.

Lemma asteroid_at_none x y (s : Game) :
  numAsteroids s <= 127 -> numAsteroids s <= Z.of_nat (length (asteroids s)) ->
  asteroid_at x y s = -1 <-> checked_position x y ∉ live_asteroids s.
Proof. intros. unfold asteroid_at. apply position_search_none; assumption. Qed.

Lemma asteroid_at_found x y (s : Game) :
  numAsteroids s <= 127 -> numAsteroids s <= Z.of_nat (length (asteroids s)) ->
  asteroid_at x y s <> -1 ->
  0 <= asteroid_at x y s < numAsteroids s /\
  live_asteroids s !! Z.to_nat (asteroid_at x y s) = Some (checked_position x y).
Proof. intros. unfold asteroid_at. apply position_search_found; assumption. Qed.

Lemma projectile_at_none x y (s : Game) :
  numProjectiles s <= 127 -> numProjectiles s <= Z.of_nat (length (projectiles s)) ->
  projectile_at x y s = -1 <-> checked_position x y ∉ live_projectiles s.
Proof. intros. unfold projectile_at. apply position_search_none; assumption. Qed.

Lemma projectile_at_found x y (s : Game) :
  numProjectiles s <= 127 -> numProjectiles s <= Z.of_nat (length (projectiles s)) ->
  projectile_at x y s <> -1 ->
  0 <= projectile_at x y s < numProjectiles s /\
  live_projectiles s !! Z.to_nat (projectile_at x y s) = Some (checked_position x y).
Proof. intros. unfold projectile_at. apply position_search_found; assumption. Qed.

(** ** Removing from an array with count *)

(** Overwriting slot [i] with the last element and dropping the last slot
    leaves the other elements, in another order. *)
Lemma swap_remove_Permutation (l : list Z) (i : nat) (x : Z) :
  (i < length l)%nat ->
  <[i := x]> l ≡ₚ delete i (l ++ [x]).
Proof.
  intros Hi.
  rewrite insert_take_drop by exact Hi.
  rewrite delete_take_drop.
  rewrite take_app_le by lia.
  rewrite drop_app_le by lia.
  rewrite <- Permutation_middle.
  rewrite (Permutation_app_comm (drop (S i) l) [x]). cbn.
  rewrite <- Permutation_middle. reflexivity.
Qed.

Lemma take_pred_snoc (a : list Z) (n : Z) :
  0 < n <= Z.of_nat (length a) ->
  take (Z.to_nat n) a = take (Z.to_nat (n - 1)) a ++ [rd a (n - 1)].
Proof.
  intros Hn.
  replace (Z.to_nat n) with (S (Z.to_nat (n - 1))) by lia.
  apply take_S_r. apply lookup_rd. lia.
Qed.

Lemma remove_asteroid_count i g :
  0 <= i < numAsteroids g -> numAsteroids g <= 128 ->
  numAsteroids (remove_asteroid i g) = numAsteroids g - 1.
Proof.
  intros Hi Hn. unfold remove_asteroid.
  destruct (Z.ltb_spec i 0); [lia|].
  destruct (Z.geb_spec i (numAsteroids g)); [lia|]. cbn [orb].
  destruct (i <? numAsteroids g - 1); cbn; apply int8_small; lia.
Qed.

Lemma remove_asteroid_live i g :
  0 <= i < numAsteroids g -> numAsteroids g <= 128 ->
  numAsteroids g <= Z.of_nat (length (asteroids g)) ->
  live_asteroids (remove_asteroid i g) ≡ₚ delete (Z.to_nat i) (live_asteroids g).
Proof.
  intros Hi Hn Hlen. unfold live_asteroids.
  rewrite remove_asteroid_count by assumption.
  rewrite (take_pred_snoc (asteroids g) (numAsteroids g)) by lia.
  unfold remove_asteroid.
  destruct (Z.ltb_spec i 0); [lia|].
  destruct (Z.geb_spec i (numAsteroids g)); [lia|]. cbn [orb].
  destruct (Z.ltb_spec i (numAsteroids g - 1)) as [Hlt|Hge]; cbn.
  - rewrite wr_insert by lia.
    rewrite take_insert_lt by lia.
    apply swap_remove_Permutation. rewrite length_take. lia.
  - assert (i = numAsteroids g - 1) as -> by lia.
    rewrite delete_take_drop.
    rewrite take_app_le by (rewrite length_take; lia).
    rewrite take_take, Nat.min_id.
    rewrite drop_ge by (rewrite length_app, length_take; cbn; lia).
    rewrite app_nil_r. reflexivity.
Qed.

Lemma remove_asteroid_length i g :
  length (asteroids (remove_asteroid i g)) = length (asteroids g).
Proof.
  unfold remove_asteroid.
  destruct ((i <? 0) || (i >=? numAsteroids g)); [reflexivity|].
  destruct (i <? numAsteroids g - 1); cbn; [apply length_wr|reflexivity].
Qed.

Lemma rd_is_byte (a : list Z) i : Forall is_byte a -> is_byte (rd a i).
Proof.
  intros Ha. unfold rd. destruct (i <? 0); [unfold is_byte; lia|].
  destruct (a !! Z.to_nat i) as [v|] eqn:Hv; cbn.
  - eapply Forall_lookup_1; eassumption.
  - unfold is_byte; lia.
Qed.

Lemma remove_asteroid_bytes i g :
  Forall is_byte (asteroids g) -> Forall is_byte (asteroids (remove_asteroid i g)).
Proof.
  intros Ha. unfold remove_asteroid.
  destruct ((i <? 0) || (i >=? numAsteroids g)); [exact Ha|].
  destruct (i <? numAsteroids g - 1); cbn; [|exact Ha].
  apply Forall_wr; [exact Ha|]. apply rd_is_byte. exact Ha.
Qed.

(** [remove_asteroid] touches the asteroids only. *)
Lemma remove_asteroid_frame i g :
  basePosition (remove_asteroid i g) = basePosition g /\
  numProjectiles (remove_asteroid i g) = numProjectiles g /\
  projectiles (remove_asteroid i g) = projectiles g /\
  lives (remove_asteroid i g) = lives g.
Proof.
  unfold remove_asteroid.
  destruct ((i <? 0) || (i >=? numAsteroids g)); [repeat split|].
  destruct (i <? numAsteroids g - 1); cbn; repeat split.
Qed.

Lemma close_gap_lookup (p : list Z) (n : nat) (i : Z) (j : nat) :
  1 <= i -> i + Z.of_nat n <= Z.of_nat (length p) -> i + Z.of_nat n < 256 ->
  close_gap p n i !! j =
  if decide (i - 1 <= Z.of_nat j < i - 1 + Z.of_nat n) then p !! S j else p !! j.
Proof.
  revert p i. induction n as [|n IH]; intros p i Hi Hlen H256.
  - cbn. destruct (decide _); [lia|reflexivity].
  - cbn [close_gap]. rewrite uint8_small by lia.
    rewrite IH by (rewrite ?length_wr; lia).
    rewrite !wr_insert by lia.
    destruct (decide (i + 1 - 1 <= Z.of_nat j < i + 1 - 1 + Z.of_nat n)) as [Hin|Hout].
    + rewrite list_lookup_insert_ne by lia.
      destruct (decide _); [reflexivity|lia].
    + destruct (decide (Z.of_nat j = i - 1)) as [Heq|Hne].
      * replace (Z.to_nat (i - 1)) with j by lia.
        rewrite list_lookup_insert_eq by lia.
        destruct (decide _); [|lia].
        replace (S j) with (Z.to_nat i) by lia.
        symmetry. apply lookup_rd. lia.
      * rewrite list_lookup_insert_ne by lia.
        destruct (decide _); [lia|reflexivity].
Qed.

Lemma length_close_gap (p : list Z) n i : length (close_gap p n i) = length p.
Proof.
  revert p i. induction n as [|n IH]; intros p i; cbn; [reflexivity|].
  rewrite IH. apply length_wr.
Qed.

Lemma close_gap_bytes (p : list Z) n i :
  Forall is_byte p -> Forall is_byte (close_gap p n i).
Proof.
  revert p i. induction n as [|n IH]; intros p i Hp; cbn; [exact Hp|].
  apply IH. apply Forall_wr; [exact Hp|]. apply rd_is_byte. exact Hp.
Qed.

Lemma remove_projectile_count i g :
  0 <= i < numProjectiles g -> numProjectiles g <= 128 ->
  numProjectiles (remove_projectile i g) = numProjectiles g - 1.
Proof.
  intros Hi Hn. unfold remove_projectile.
  destruct (Z.ltb_spec i 0); [lia|].
  destruct (Z.geb_spec i (numProjectiles g)); [lia|]. cbn.
  apply int8_small; lia.
Qed.

Lemma remove_projectile_live i g :
  0 <= i < numProjectiles g -> numProjectiles g <= 128 ->
  numProjectiles g <= Z.of_nat (length (projectiles g)) ->
  live_projectiles (remove_projectile i g) = delete (Z.to_nat i) (live_projectiles g).
Proof.
  intros Hi Hn Hlen. unfold live_projectiles.
  rewrite remove_projectile_count by assumption.
  unfold remove_projectile.
  destruct (Z.ltb_spec i 0); [lia|].
  destruct (Z.geb_spec i (numProjectiles g)); [lia|]. cbn.
  rewrite uint8_small by lia.
  apply list_eq. intros j.
  destruct (decide (j < Z.to_nat (numProjectiles g - 1))%nat) as [Hj|Hj].
  - rewrite lookup_take_lt by exact Hj.
    rewrite close_gap_lookup by lia.
    destruct (decide (Z.of_nat j < i)) as [Hlt|Hge].
    + rewrite list_lookup_delete_lt by lia.
      rewrite lookup_take_lt by lia.
      destruct (decide _); [lia|reflexivity].
    + rewrite list_lookup_delete_ge by lia.
      rewrite lookup_take_lt by lia.
      destruct (decide _); [reflexivity|lia].
  - rewrite lookup_take_ge by lia.
    symmetry. apply lookup_ge_None.
    rewrite length_delete, length_take by (apply lookup_lt_is_Some; rewrite length_take; lia).
    lia.
Qed.

Lemma remove_projectile_length i g :
  length (projectiles (remove_projectile i g)) = length (projectiles g).
Proof.
  unfold remove_projectile.
  destruct ((i <? 0) || (i >=? numProjectiles g)); [reflexivity|].
  cbn. apply length_close_gap.
Qed.

Lemma remove_projectile_bytes i g :
  Forall is_byte (projectiles g) -> Forall is_byte (projectiles (remove_projectile i g)).
Proof.
  intros Hp. unfold remove_projectile.
  destruct ((i <? 0) || (i >=? numProjectiles g)); [exact Hp|].
  cbn. apply close_gap_bytes. exact Hp.
Qed.

(** [remove_projectile] touches the projectiles only. *)
Lemma remove_projectile_frame i g :
  basePosition (remove_projectile i g) = basePosition g /\
  numAsteroids (remove_projectile i g) = numAsteroids g /\
  asteroids (remove_projectile i g) = asteroids g /\
  lives (remove_projectile i g) = lives g.
Proof.
  unfold remove_projectile.
  destruct ((i <? 0) || (i >=? numProjectiles g)); cbn; repeat split.
Qed.

(** ** List facts *)

Lemma NoDup_delete (l : list Z) i : NoDup l -> NoDup (delete i l).
Proof. intros Hl. eapply sublist_NoDup; [exact Hl|apply sublist_delete]. Qed.

Lemma elem_of_delete_NoDup (l : list Z) i p q :
  NoDup l -> l !! i = Some p -> q ∈ delete i l <-> q ∈ l /\ q <> p.
Proof.
  intros Hl Hi.
  rewrite delete_take_drop.
  pose proof (take_drop_middle l i p Hi) as Hsplit.
  set (l1 := take i l) in *. set (l2 := drop (S i) l) in *.
  rewrite <- Hsplit in Hl |- *. clearbody l1 l2. clear Hsplit Hi.
  apply NoDup_app in Hl as (_ & Hdisj & Hr).
  apply NoDup_cons in Hr as [Hnotin _].
  rewrite !elem_of_app, elem_of_cons. split.
  - intros [Hq|Hq].
    + split; [left; exact Hq|]. intros ->. apply (Hdisj p Hq). left.
    + split; [right; right; exact Hq|]. intros ->. contradiction.
  - intros [[Hq|[Hq|Hq]] Hne]; [left; exact Hq|contradiction|right; exact Hq].
Qed.

Lemma NoDup_snoc (l : list Z) x : NoDup l -> x ∉ l -> NoDup (l ++ [x]).
Proof.
  intros Hl Hx. apply NoDup_app. split; [exact Hl|]. split.
  - intros y Hy Hin. apply list_elem_of_singleton in Hin as ->. contradiction.
  - apply NoDup_singleton.
Qed.

(** ** Removing and adding keeps the data well formed *)

(** Changes that leave the asteroids, or the projectiles, alone. *)
Lemma wf_asteroids_same g g' :
  numAsteroids g' = numAsteroids g -> asteroids g' = asteroids g ->
  wf_asteroids g -> wf_asteroids g'.
Proof.
  intros Hn Ha []. constructor; unfold live_asteroids; rewrite ?Hn, ?Ha; assumption.
Qed.

Lemma wf_projectiles_same g g' :
  numProjectiles g' = numProjectiles g -> projectiles g' = projectiles g ->
  wf_projectiles g -> wf_projectiles g'.
Proof. intros Hn Hp []. constructor; rewrite ?Hn, ?Hp; assumption. Qed.

Lemma live_projectiles_same g g' :
  numProjectiles g' = numProjectiles g -> projectiles g' = projectiles g ->
  live_projectiles g' = live_projectiles g.
Proof. intros Hn Hp. unfold live_projectiles. rewrite Hn, Hp. reflexivity. Qed.

Lemma live_asteroids_same g g' :
  numAsteroids g' = numAsteroids g -> asteroids g' = asteroids g ->
  live_asteroids g' = live_asteroids g.
Proof. intros Hn Ha. unfold live_asteroids. rewrite Hn, Ha. reflexivity. Qed.

(** A change of the asteroids only keeps the game well formed when it
    keeps the asteroids well formed. *)
Lemma wf_game_asteroids_changed g g' :
  wf_game g -> wf_asteroids g' ->
  basePosition g' = basePosition g ->
  numProjectiles g' = numProjectiles g -> projectiles g' = projectiles g ->
  wf_game g'.
Proof.
  intros [Hb _ HP HPn] HA Hb' Hn Hp. constructor.
  - rewrite Hb'. exact Hb.
  - exact HA.
  - exact (wf_projectiles_same _ _ Hn Hp HP).
  - rewrite (live_projectiles_same _ _ Hn Hp). exact HPn.
Qed.

Lemma remove_found_asteroid_wf x y g :
  wf_asteroids g -> asteroid_at x y g <> -1 ->
  let g' := remove_asteroid (asteroid_at x y g) g in
  wf_asteroids g' /\
  numAsteroids g' = numAsteroids g - 1 /\
  (forall q, q ∈ live_asteroids g' <-> q ∈ live_asteroids g /\ q <> checked_position x y).
Proof using MAX_ASTEROIDS_fits.
  intros [Hn Hlen Hbytes Hnodup] Hat g'.
  destruct (asteroid_at_found x y g) as [Hi Hlook]; [lia|lia|exact Hat|].
  pose proof (remove_asteroid_live (asteroid_at x y g) g Hi ltac:(lia) ltac:(lia)) as Hperm.
  pose proof (remove_asteroid_count (asteroid_at x y g) g Hi ltac:(lia)) as Hcount.
  fold g' in Hperm, Hcount.
  split; [|split; [exact Hcount|]].
  - constructor.
    + lia.
    + unfold g'. rewrite remove_asteroid_length. exact Hlen.
    + apply remove_asteroid_bytes. exact Hbytes.
    + rewrite Hperm. apply NoDup_delete. exact Hnodup.
  - intros q. rewrite Hperm. apply elem_of_delete_NoDup; assumption.
Qed.

Lemma remove_found_asteroid x y g :
  wf_game g -> asteroid_at x y g <> -1 ->
  let g' := remove_asteroid (asteroid_at x y g) g in
  wf_game g' /\
  numAsteroids g' = numAsteroids g - 1 /\
  (forall q, q ∈ live_asteroids g' <-> q ∈ live_asteroids g /\ q <> checked_position x y).
Proof using MAX_ASTEROIDS_fits.
  intros Hwf Hat g'.
  destruct (remove_found_asteroid_wf x y g (wf_asteroids_ok _ Hwf) Hat) as (HA & Hcount & Hlive).
  destruct (remove_asteroid_frame (asteroid_at x y g) g) as (Hb & Hnp & Hp & Hl).
  split; [|split; [exact Hcount|exact Hlive]].
  exact (wf_game_asteroids_changed g g' Hwf HA Hb Hnp Hp).
Qed.

Lemma remove_projectile_typed i g :
  wf_projectiles g -> 0 <= i < numProjectiles g ->
  wf_projectiles (remove_projectile i g) /\
  numProjectiles (remove_projectile i g) = numProjectiles g - 1 /\
  live_projectiles (remove_projectile i g) = delete (Z.to_nat i) (live_projectiles g).
Proof using MAX_PROJECTILES_fits.
  intros [Hn Hlen Hbytes] Hi.
  pose proof (remove_projectile_live i g Hi ltac:(lia) ltac:(lia)) as Hlive.
  pose proof (remove_projectile_count i g Hi ltac:(lia)) as Hcount.
  split; [|split; [exact Hcount|exact Hlive]].
  constructor.
  - lia.
  - rewrite remove_projectile_length. exact Hlen.
  - apply remove_projectile_bytes. exact Hbytes.
Qed.

Lemma remove_projectile_wf i g :
  wf_game g -> 0 <= i < numProjectiles g ->
  wf_game (remove_projectile i g) /\
  numProjectiles (remove_projectile i g) = numProjectiles g - 1.
Proof using MAX_PROJECTILES_fits.
  intros [Hb HA HP HPn] Hi.
  destruct (remove_projectile_typed i g HP Hi) as (HP' & Hcount & Hlive).
  destruct (remove_projectile_frame i g) as (Hb' & Hna & Ha & Hl).
  split; [|exact Hcount].
  constructor.
  - rewrite Hb'. exact Hb.
  - exact (wf_asteroids_same _ _ Hna Ha HA).
  - exact HP'.
  - rewrite Hlive. apply NoDup_delete. exact HPn.
Qed.

Lemma remove_found_projectile x y g :
  wf_game g -> projectile_at x y g <> -1 ->
  let g' := remove_projectile (projectile_at x y g) g in
  wf_game g' /\ numProjectiles g' = numProjectiles g - 1.
Proof using MAX_PROJECTILES_fits.
  intros Hwf Hat g'.
  pose proof (wf_projectiles_ok _ Hwf) as [Hn Hlen _].
  destruct (projectile_at_found x y g) as [Hi _]; [lia|lia|exact Hat|].
  exact (remove_projectile_wf _ g Hwf Hi).
Qed.

Lemma add_asteroid_live posn g :
  0 <= numAsteroids g < Z.of_nat (length (asteroids g)) -> numAsteroids g < 127 ->
  numAsteroids (add_asteroid posn g) = numAsteroids g + 1 /\
  live_asteroids (add_asteroid posn g) = live_asteroids g ++ [uint8 posn].
Proof.
  intros Hn H127. unfold add_asteroid, live_asteroids. cbn.
  rewrite int8_small by lia. split; [reflexivity|].
  replace (numAsteroids g + 1 - 1) with (numAsteroids g) by lia.
  rewrite wr_insert by lia.
  replace (Z.to_nat (numAsteroids g + 1)) with (S (Z.to_nat (numAsteroids g))) by lia.
  erewrite take_S_r by (apply list_lookup_insert_eq; lia).
  rewrite take_insert_ge by lia. reflexivity.
Qed.

Lemma add_asteroid_wf posn g :
  wf_asteroids g -> numAsteroids g < MAX_ASTEROIDS -> uint8 posn ∉ live_asteroids g ->
  wf_asteroids (add_asteroid posn g) /\
  numAsteroids (add_asteroid posn g) = numAsteroids g + 1 /\
  live_asteroids (add_asteroid posn g) = live_asteroids g ++ [uint8 posn].
Proof using MAX_ASTEROIDS_fits.
  intros [Hn Hlen Hbytes Hnodup] Hlt Hfree.
  destruct (add_asteroid_live posn g) as [Hcount Hlive]; [lia|lia|].
  split; [|split; [exact Hcount|exact Hlive]].
  constructor.
  - lia.
  - cbn. rewrite length_wr. exact Hlen.
  - cbn. apply Forall_wr; [exact Hbytes|apply uint8_is_byte].
  - rewrite Hlive. apply NoDup_snoc; assumption.
Qed.

(** ** Running a computation *)

Lemma bind_Some {A B : Type} (m : M A) (k : A -> M B) s b s'' :
  bind m k s = Some (b, s'') ->
  exists a s', m s = Some (a, s') /\ k a s' = Some (b, s'').
Proof.
  unfold bind. destruct (m s) as [[a s']|]; [|discriminate].
  intros H. exists a, s'. split; [reflexivity|exact H].
Qed.

Lemma lift_Some f s u s' : lift f s = Some (u, s') -> s' = f s.
Proof. unfold lift. intros H. injection H as _ <-. reflexivity. Qed.

Lemma ret_Some {A : Type} (a b : A) s s' : ret a s = Some (b, s') -> b = a /\ s' = s.
Proof. unfold ret. intros H. injection H as <- <-. split; reflexivity. Qed.

(** Splits a run of a sequence of steps into the runs of the steps. *)
Ltac run_inv H :=
  repeat match type of H with
  | bind _ _ _ = Some _ =>
      let a := fresh "a" in let s := fresh "s" in let H1 := fresh "Hstep" in
      apply bind_Some in H as (a & s & H1 & H);
      try (apply lift_Some in H1; subst s)
  | lift _ _ = Some _ => apply lift_Some in H
  | ret _ _ = Some _ => apply ret_Some in H
  end.

Lemma checked_position_cell x y :
  0 <= x < 16 -> 0 <= y < 16 -> checked_position x y = 16 * x + y.
Proof.
  intros Hx Hy. unfold checked_position.
  rewrite (uint8_small x), (uint8_small y) by lia.
  apply GAME_POSITION_cell; assumption.
Qed.

(** ** The retry loop of the top row *)

Lemma random_column (r : N) :
  0 <= uint8 (Z.rem (Z.of_N r) FIELD_WIDTH) < 8.
Proof.
  unfold FIELD_WIDTH.
  pose proof (Z.rem_bound_pos (Z.of_N r) 8 ltac:(lia) ltac:(lia)).
  rewrite uint8_small; lia.
Qed.

Lemma top_row_search_Some draws g new_x rest :
  top_row_search draws g = Some (new_x, rest) ->
  0 <= new_x < 8 /\ asteroid_at new_x 15 g = -1 /\
  exists used, draws = used ++ rest.
Proof.
  induction draws as [|r draws IH]; cbn [top_row_search]; [discriminate|].
  destruct (Z.eqb_spec (asteroid_at (uint8 (Z.rem (Z.of_N r) FIELD_WIDTH)) 15 g) (-1))
    as [Hfree|Hbusy].
  - intros H. injection H as <- <-.
    split; [apply random_column|]. split; [exact Hfree|]. exists [r]. reflexivity.
  - intros H. destruct (IH H) as (Hx & Hf & used & ->).
    split; [exact Hx|]. split; [exact Hf|]. exists (r :: used). reflexivity.
Qed.

Lemma top_row_loop_Some s new_x s' :
  top_row_loop s = Some (new_x, s') ->
  0 <= new_x < 8 /\ asteroid_at new_x 15 (game s) = -1 /\
  exists rest, s' = set_rand rest s.
Proof.
  unfold top_row_loop.
  destruct (top_row_search (rand s) (game s)) as [[x rest]|] eqn:Hs; [|discriminate].
  intros H. injection H as <- <-.
  destruct (top_row_search_Some _ _ _ _ Hs) as (Hx & Hfree & _).
  split; [exact Hx|]. split; [exact Hfree|]. exists rest. reflexivity.
Qed.

Lemma regen_asteroid_Some s u s' :
  regen_asteroid s = Some (u, s') ->
  exists new_x rest,
    0 <= new_x < 8 /\ asteroid_at new_x 15 (game s) = -1 /\
    s' = with_game (add_asteroid (GAME_POSITION new_x 15)) (set_rand rest s).
Proof.
  unfold regen_asteroid. intros H. run_inv H.
  destruct (top_row_loop_Some _ _ _ Hstep) as (Hx & Hfree & rest & ->).
  exists a, rest. split; [exact Hx|]. split; [exact Hfree|]. exact H.
Qed.

(** A regeneration into a bag with a free slot: one more asteroid, in the
    top row, in a cell that had none. *)
Lemma regen_asteroid_asteroids s u s' :
  wf_asteroids (game s) -> numAsteroids (game s) < MAX_ASTEROIDS ->
  regen_asteroid s = Some (u, s') ->
  wf_asteroids (game s') /\
  numAsteroids (game s') = numAsteroids (game s) + 1 /\
  (exists new_x, 0 <= new_x < 8 /\ (16 * new_x + 15 ∉ live_asteroids (game s)) /\
     live_asteroids (game s') = live_asteroids (game s) ++ [16 * new_x + 15]) /\
  basePosition (game s') = basePosition (game s) /\
  lives (game s') = lives (game s) /\
  numProjectiles (game s') = numProjectiles (game s) /\
  projectiles (game s') = projectiles (game s) /\
  score s' = score s /\
  sequencer s' = sequencer s.
Proof using MAX_ASTEROIDS_fits.
  intros HA Hlt H.
  destruct (regen_asteroid_Some _ _ _ H) as (x & rest & Hx & Hfree & ->). cbn.
  pose proof HA as [Hn Hlen _ _].
  apply asteroid_at_none in Hfree; [|lia|lia].
  rewrite checked_position_cell in Hfree by lia.
  assert (Hbyte : uint8 (GAME_POSITION x 15) = 16 * x + 15)
    by (apply GAME_POSITION_cell; lia).
  destruct (add_asteroid_wf (GAME_POSITION x 15) (game s) HA Hlt) as (HA1 & Hcount & Hlive).
  { rewrite Hbyte. exact Hfree. }
  split; [exact HA1|]. split; [exact Hcount|].
  split; [|repeat split].
  exists x. rewrite Hlive, Hbyte. repeat split; try lia; assumption.
Qed.

Lemma regen_asteroid_wf s u s' :
  wf_game (game s) -> numAsteroids (game s) < MAX_ASTEROIDS ->
  regen_asteroid s = Some (u, s') ->
  wf_game (game s') /\
  numAsteroids (game s') = numAsteroids (game s) + 1 /\
  (exists new_x, 0 <= new_x < 8 /\ (16 * new_x + 15 ∉ live_asteroids (game s)) /\
     live_asteroids (game s') = live_asteroids (game s) ++ [16 * new_x + 15]) /\
  basePosition (game s') = basePosition (game s) /\
  lives (game s') = lives (game s) /\
  numProjectiles (game s') = numProjectiles (game s) /\
  projectiles (game s') = projectiles (game s) /\
  score s' = score s /\
  sequencer s' = sequencer s.
Proof using MAX_ASTEROIDS_fits.
  intros Hwf Hlt H.
  destruct (regen_asteroid_asteroids s u s' (wf_asteroids_ok _ Hwf) Hlt H)
    as (HA & Hrest).
  split; [|exact Hrest].
  destruct Hrest as (_ & _ & Hb & _ & Hnp & Hp & _).
  exact (wf_game_asteroids_changed _ _ Hwf HA Hb Hnp Hp).
Qed.

(** ** move_base *)

Lemma wf_game_set_lives v g : wf_game g -> wf_game (set_lives v g).
Proof.
  intros [Hb [] [] HPn]. constructor; [exact Hb| | |exact HPn]; constructor; assumption.
Qed.

Lemma wf_game_set_basePosition v g :
  wf_game g -> 0 <= v <= 7 -> wf_game (set_basePosition v g).
Proof.
  intros [Hb [] [] HPn] Hv.
  constructor; [exact Hv| | |exact HPn]; constructor; assumption.
Qed.

(** One collision block: an asteroid found in the cell costs a life and is
    removed; nothing is put in its place. *)
Lemma ram_check_spec x y s :
  wf_game (game s) ->
  let s' := ram_check x y s in
  wf_game (game s') /\
  basePosition (game s') = basePosition (game s) /\
  score s' = score s /\ rand s' = rand s /\
  numProjectiles (game s') = numProjectiles (game s) /\
  projectiles (game s') = projectiles (game s) /\
  ((asteroid_at x y (game s) = -1 /\ s' = s)
   \/ (asteroid_at x y (game s) <> -1 /\
       numAsteroids (game s') = numAsteroids (game s) - 1 /\
       lives (game s') = lives (game s) - 1)).
Proof using MAX_ASTEROIDS_fits.
  intros Hwf s'. unfold ram_check in s'.
  destruct (Z.eqb_spec (asteroid_at x y (game s)) (-1)) as [Hfree|Hbusy];
    cbn [negb] in s'; subst s'.
  - split; [exact Hwf|]. do 5 (split; [reflexivity|]).
    left. split; [exact Hfree|reflexivity].
  - cbn.
    change (asteroid_at x y (set_lives (lives (game s) - 1) (game s)))
      with (asteroid_at x y (game s)).
    assert (Hwf1 : wf_game (set_lives (lives (game s) - 1) (game s)))
      by (apply wf_game_set_lives; exact Hwf).
    destruct (remove_found_asteroid x y _ Hwf1 Hbusy) as (Hwf2 & Hcount & _).
    destruct (remove_asteroid_frame (asteroid_at x y (game s))
                (set_lives (lives (game s) - 1) (game s))) as (Hb & Hnp & Hp & Hl).
    split; [exact Hwf2|]. split; [exact Hb|].
    split; [reflexivity|]. split; [reflexivity|].
    split; [exact Hnp|]. split; [exact Hp|].
    right. split; [exact Hbusy|]. split; [exact Hcount|exact Hl].
Qed.

Lemma move_base_spec direction s :
  wf_game (game s) ->
  let s' := snd (move_base direction s) in
  wf_game (game s') /\
  lives (game s) - 2 <= lives (game s') <= lives (game s) /\
  numAsteroids (game s') - numAsteroids (game s) = lives (game s') - lives (game s) /\
  score s' = score s.
Proof using MAX_ASTEROIDS_fits.
  assert (Hboth : forall x1 x2 d,
    wf_game (game s) -> 0 <= basePosition (game s) + d <= 7 -> -1 <= d <= 1 ->
    let s1 := ram_check x1 0 s in
    let s2 := ram_check (x2 s1) 1 s1 in
    let s' := with_game (fun g => set_basePosition (int8 (basePosition g + d)) g) s2 in
    wf_game (game s') /\
    lives (game s) - 2 <= lives (game s') <= lives (game s) /\
    numAsteroids (game s') - numAsteroids (game s) = lives (game s') - lives (game s) /\
    score s' = score s).
  { intros x1 x2 d Hwf Hrange Hd s1 s2 s'.
    destruct (ram_check_spec x1 0 s Hwf) as (Hwf1 & Hb1 & Hsc1 & _ & _ & _ & Hc1).
    fold s1 in Hwf1, Hb1, Hsc1, Hc1.
    destruct (ram_check_spec (x2 s1) 1 s1 Hwf1) as (Hwf2 & Hb2 & Hsc2 & _ & _ & _ & Hc2).
    fold s2 in Hwf2, Hb2, Hsc2, Hc2.
    subst s'. cbn. split.
    { apply wf_game_set_basePosition; [exact Hwf2|].
      rewrite Hb2, Hb1. rewrite int8_small; lia. }
    rewrite Hsc2, Hsc1.
    assert (Hl1 : lives (game s) - 1 <= lives (game s1) <= lives (game s) /\
                  numAsteroids (game s1) - numAsteroids (game s)
                  = lives (game s1) - lives (game s)).
    { destruct Hc1 as [[_ Hc1]|(_ & Hn1 & Hl1)]; [rewrite Hc1|]; lia. }
    assert (Hl2 : lives (game s1) - 1 <= lives (game s2) <= lives (game s1) /\
                  numAsteroids (game s2) - numAsteroids (game s1)
                  = lives (game s2) - lives (game s1)).
    { destruct Hc2 as [[_ Hc2]|(_ & Hn2 & Hl2)]; [rewrite Hc2|]; lia. }
    repeat split; lia. }
  intros Hwf s'. unfold move_base in s'.
  pose proof (wf_base _ Hwf) as Hrange.
  destruct ((direction =? MOVE_LEFT) && negb (basePosition (game s) =? 0)) eqn:Hleft;
    [|destruct ((direction =? MOVE_RIGHT) && negb (basePosition (game s) =? 7)) eqn:Hright].
  - apply andb_true_iff in Hleft as [_ Hb]. apply negb_true_iff, Z.eqb_neq in Hb.
    apply (Hboth (basePosition (game s) - 2) (fun s1 => basePosition (game s1) - 1) (-1));
      [exact Hwf|lia|lia].
  - apply andb_true_iff in Hright as [_ Hb]. apply negb_true_iff, Z.eqb_neq in Hb.
    apply (Hboth (basePosition (game s) + 2) (fun s1 => basePosition (game s1) + 1) 1);
      [exact Hwf|lia|lia].
  - cbn [snd] in s'. subst s'. split; [exact Hwf|]. repeat split; lia.
Qed.

(** ** fire_projectile *)

Lemma add_projectile_live g :
  0 <= numProjectiles g < Z.of_nat (length (projectiles g)) -> numProjectiles g < 127 ->
  numProjectiles (add_projectile g) = numProjectiles g + 1 /\
  live_projectiles (add_projectile g)
  = live_projectiles g ++ [uint8 (GAME_POSITION (basePosition g) 2)].
Proof.
  intros Hn H127. unfold add_projectile, live_projectiles. cbn.
  rewrite int8_small by lia. split; [reflexivity|].
  rewrite uint8_small by lia.
  rewrite wr_insert by lia.
  replace (Z.to_nat (numProjectiles g + 1)) with (S (Z.to_nat (numProjectiles g))) by lia.
  erewrite take_S_r by (apply list_lookup_insert_eq; lia).
  rewrite take_insert_ge by lia. reflexivity.
Qed.

Lemma add_projectile_wf g :
  wf_game g -> numProjectiles g < MAX_PROJECTILES ->
  projectile_at (basePosition g) 2 g = -1 ->
  wf_game (add_projectile g) /\
  numProjectiles (add_projectile g) = numProjectiles g + 1.
Proof using MAX_PROJECTILES_fits.
  intros [Hb HA [Hn Hlen Hbytes] HPn] Hlt Hfree.
  destruct (add_projectile_live g) as [Hcount Hlive]; [lia|lia|].
  apply projectile_at_none in Hfree; [|lia|lia].
  split; [|exact Hcount].
  constructor.
  - exact Hb.
  - apply (wf_asteroids_same g); [reflexivity|reflexivity|exact HA].
  - constructor.
    + lia.
    + cbn. rewrite length_wr. exact Hlen.
    + cbn. apply Forall_wr; [exact Hbytes|apply uint8_is_byte].
  - rewrite Hlive. apply NoDup_snoc; [exact HPn|].
    unfold checked_position in Hfree.
    rewrite (uint8_small (basePosition g)), (uint8_small 2) in Hfree by lia.
    exact Hfree.
Qed.

Lemma fire_projectile_spec s r s' :
  wf_game (game s) -> fire_projectile s = Some (r, s') ->
  wf_game (game s') /\
  basePosition (game s') = basePosition (game s) /\
  lives (game s') = lives (game s) /\
  numAsteroids (game s') = numAsteroids (game s).
Proof using MAX_ASTEROIDS_fits MAX_PROJECTILES_fits.
  intros Hwf H. unfold fire_projectile in H.
  destruct (Z.ltb_spec (numProjectiles (game s)) MAX_PROJECTILES) as [Hcap|Hcap];
    cbn [andb] in H.
  2:{ injection H as <- <-. split; [exact Hwf|]. repeat split. }
  destruct (Z.eqb_spec (projectile_at (basePosition (game s)) 2 (game s)) (-1))
    as [Hfree|Hbusy].
  2:{ injection H as <- <-. split; [exact Hwf|]. repeat split. }
  cbn [game shoot_sound with_sequencer] in H.
  destruct (Z.eqb_spec (asteroid_at (basePosition (game s)) 2 (game s)) (-1))
    as [Hnone|Hast]; cbn [negb] in H.
  - injection H as <- <-. cbn.
    destruct (add_projectile_wf (game s) Hwf Hcap Hfree) as [Hwf1 _].
    split; [exact Hwf1|]. repeat split.
  - run_inv H. destruct H as [-> ->]. cbn.
    match goal with Hr : regen_asteroid _ = Some _ |- _ => rename Hr into Hregen end.
    destruct (remove_found_asteroid _ _ _ Hwf Hast) as (Hwf1 & Hcount & _).
    destruct (remove_asteroid_frame (asteroid_at (basePosition (game s)) 2 (game s)) (game s))
      as (Hb & Hnp & Hp & Hl).
    pose proof (wfa_count _ (wf_asteroids_ok _ Hwf)) as Hmax.
    apply regen_asteroid_wf in Hregen as (Hwf2 & Hcount2 & _ & Hb2 & Hl2 & _);
      [|exact Hwf1|cbn; lia].
    cbn in Hcount2, Hb2, Hl2.
    split; [exact Hwf2|]. repeat split; lia.
Qed.

(** ** advance_asteroids *)

(** The steps taken when an asteroid and a projectile meet. *)
Lemma projectile_hit_steps px py ax ay s u s' :
  wf_game (game s) -> numAsteroids (game s) < MAX_ASTEROIDS ->
  projectile_at px py (game s) <> -1 ->
  (lift hit_sound >>
   lift (with_game (fun g => remove_projectile (projectile_at px py g) g)) >>
   lift (add_to_score 1) >>
   regen_asteroid >>
   lift (enable_asteroid_animation ax ay)) s = Some (u, s') ->
  wf_game (game s') /\
  numAsteroids (game s') = numAsteroids (game s) + 1 /\
  (exists new_x, 0 <= new_x < 8 /\
     live_asteroids (game s') = live_asteroids (game s) ++ [16 * new_x + 15]) /\
  basePosition (game s') = basePosition (game s) /\
  lives (game s') = lives (game s) /\
  numProjectiles (game s') = numProjectiles (game s) - 1 /\
  score s' = score s + 1.
Proof using MAX_ASTEROIDS_fits MAX_PROJECTILES_fits.
  intros Hwf Hlt Hproj H. run_inv H. subst s'. cbn.
  match goal with Hr : regen_asteroid _ = Some _ |- _ => rename Hr into Hregen end.
  cbn in Hregen.
  destruct (remove_found_projectile px py _ Hwf Hproj) as (Hwf1 & Hcount1).
  destruct (remove_projectile_frame (projectile_at px py (game s)) (game s))
    as (Hb & Hna & Ha & Hl).
  apply regen_asteroid_wf in Hregen
    as (Hwf2 & Hcount2 & (nx & Hnx & _ & Hlive) & Hb2 & Hl2 & Hnp2 & _ & Hsc2 & _);
    [|exact Hwf1|cbn; lia].
  cbn in Hcount2, Hlive, Hb2, Hl2, Hnp2, Hsc2.
  split; [exact Hwf2|]. split; [lia|]. split.
  { exists nx. split; [exact Hnx|]. rewrite Hlive. unfold live_asteroids.
    rewrite Hna, Ha. reflexivity. }
  repeat split; lia.
Qed.

(** The steps taken when an asteroid meets the base. *)
Lemma base_hit_steps s u s' :
  wf_game (game s) -> numAsteroids (game s) < MAX_ASTEROIDS ->
  (lift (with_game (fun g => set_lives (lives g - 1) g)) >>
   lift enable_basehit_sound >>
   regen_asteroid) s = Some (u, s') ->
  wf_game (game s') /\
  numAsteroids (game s') = numAsteroids (game s) + 1 /\
  (exists new_x, 0 <= new_x < 8 /\
     live_asteroids (game s') = live_asteroids (game s) ++ [16 * new_x + 15]) /\
  basePosition (game s') = basePosition (game s) /\
  lives (game s') = lives (game s) - 1 /\
  numProjectiles (game s') = numProjectiles (game s) /\
  projectiles (game s') = projectiles (game s) /\
  score s' = score s.
Proof using MAX_ASTEROIDS_fits.
  intros Hwf Hlt H. run_inv H.
  apply regen_asteroid_wf in H
    as (Hwf2 & Hcount2 & (nx & Hnx & _ & Hlive) & Hb2 & Hl2 & Hnp2 & Hp2 & Hsc2 & _);
    [|cbn; apply wf_game_set_lives; exact Hwf|cbn; lia].
  cbn in Hcount2, Hlive, Hb2, Hl2, Hnp2, Hp2, Hsc2.
  split; [exact Hwf2|]. split; [lia|]. split.
  { exists nx. split; [exact Hnx|]. exact Hlive. }
  repeat split; assumption.
Qed.

Lemma advance_cell_spec x y s u s' :
  0 <= x < 8 -> 0 <= y < 16 ->
  wf_game (game s) ->
  (1 <= y -> 16 * x + y - 1 ∉ live_asteroids (game s)) ->
  advance_cell x y s = Some (u, s') ->
  wf_game (game s') /\
  (y < 15 -> 16 * x + y ∉ live_asteroids (game s')) /\
  basePosition (game s') = basePosition (game s) /\
  numAsteroids (game s') = numAsteroids (game s) /\
  lives (game s)
    - (if base_collision (basePosition (game s)) x y then 1 else 0)
    <= lives (game s') <= lives (game s).
Proof using MAX_ASTEROIDS_fits MAX_PROJECTILES_fits.
  intros Hx Hy Hwf Hbelow H. unfold advance_cell in H.
  pose proof (checked_position_cell x y ltac:(lia) ltac:(lia)) as Hcell.
  pose proof (wf_asteroids_ok _ Hwf) as [Hn0 Hlen0 _ _].
  destruct (Z.eqb_spec (asteroid_at x y (game s)) (-1)) as [Hnone|Hast]; cbn [negb] in H.
  { injection H as <- <-. split; [exact Hwf|]. split.
    - intros _. apply asteroid_at_none in Hnone; [|lia|lia]. rewrite <- Hcell. exact Hnone.
    - repeat split; try lia. destruct (base_collision _ _ _); lia. }
  destruct (remove_found_asteroid x y _ Hwf Hast) as (Hwf1 & Hcount1 & Hlive1).
  destruct (remove_asteroid_frame (asteroid_at x y (game s)) (game s)) as (Hb1 & Hnp1 & Hp1 & Hl1).
  rewrite Hcell in Hlive1.
  cbn [game with_game] in H.
  set (s1 := with_game (fun g => remove_asteroid (asteroid_at x y g) g) s) in *.
  change (remove_asteroid (asteroid_at x y (game s)) (game s)) with (game s1) in *.
  clearbody s1.
  assert (Hgone : 16 * x + y ∉ live_asteroids (game s1)).
  { intros Hin. apply Hlive1 in Hin. lia. }
  assert (Hbelow1 : 1 <= y -> 16 * x + y - 1 ∉ live_asteroids (game s1)).
  { intros Hy1 Hin. apply Hlive1 in Hin as [Hin _]. exact (Hbelow Hy1 Hin). }
  assert (Hroom : numAsteroids (game s1) < MAX_ASTEROIDS) by lia.
  destruct (Z.eqb_spec (projectile_at x y (game s1)) (-1)) as [Hp_here|Hp_here];
    cbn [negb] in H.
  2:{ apply projectile_hit_steps in H
        as (Hwf2 & Hn2 & (nx & Hnx & Hlive2) & Hb2 & Hl2 & _); [|assumption..].
      split; [exact Hwf2|]. split.
      { intros Hy15. rewrite Hlive2, elem_of_app, list_elem_of_singleton.
        intros [Hin|Heq]; [contradiction|lia]. }
      repeat split; try lia. destruct (base_collision _ _ _); lia. }
  destruct (Z.eqb_spec (projectile_at x (y - 1) (game s1)) (-1)) as [Hp_below|Hp_below];
    cbn [negb] in H.
  2:{ apply projectile_hit_steps in H
        as (Hwf2 & Hn2 & (nx & Hnx & Hlive2) & Hb2 & Hl2 & _); [|assumption..].
      split; [exact Hwf2|]. split.
      { intros Hy15. rewrite Hlive2, elem_of_app, list_elem_of_singleton.
        intros [Hin|Heq]; [contradiction|lia]. }
      repeat split; try lia. destruct (base_collision _ _ _); lia. }
  rewrite Hb1 in H.
  destruct (base_collision (basePosition (game s)) x y) eqn:Hbase.
  { apply base_hit_steps in H
      as (Hwf2 & Hn2 & (nx & Hnx & Hlive2) & Hb2 & Hl2 & _); [|assumption..].
    split; [exact Hwf2|]. split.
    { intros Hy15. rewrite Hlive2, elem_of_app, list_elem_of_singleton.
      intros [Hin|Heq]; [contradiction|lia]. }
    repeat split; lia. }
  assert (Hadd : forall posn,
    0 <= posn < 256 -> posn ∉ live_asteroids (game s1) -> (y < 15 -> posn <> 16 * x + y) ->
    game s' = add_asteroid posn (game s1) ->
    wf_game (game s') /\
    (y < 15 -> 16 * x + y ∉ live_asteroids (game s')) /\
    basePosition (game s') = basePosition (game s) /\
    numAsteroids (game s') = numAsteroids (game s) /\
    lives (game s) - 0 <= lives (game s') <= lives (game s)).
  { intros posn Hbyte Hfree Hne ->.
    destruct (add_asteroid_wf posn (game s1) (wf_asteroids_ok _ Hwf1) Hroom)
      as (HA2 & Hn2 & Hlive2).
    { rewrite uint8_small by lia. exact Hfree. }
    rewrite uint8_small in Hlive2 by lia.
    split.
    { apply (wf_game_asteroids_changed (game s1)); [exact Hwf1|exact HA2|reflexivity..]. }
    split.
    { intros Hy15. rewrite Hlive2, elem_of_app, list_elem_of_singleton.
      intros [Hin|Heq]; [contradiction|]. apply (Hne Hy15). lia. }
    rewrite Hn2.
    change (basePosition (add_asteroid posn (game s1))) with (basePosition (game s1)).
    change (lives (add_asteroid posn (game s1))) with (lives (game s1)).
    repeat split; lia. }
  destruct (Z.eqb_spec y 0) as [Hy0|Hy0]; cbn [negb] in H.
  - run_inv H.
    apply top_row_loop_Some in Hstep as (Hnx & Hfree & rest & ->).
    cbn in Hfree.
    pose proof (wf_asteroids_ok _ Hwf1) as [Hn1 Hlen1 _ _].
    apply asteroid_at_none in Hfree;
      [|cbn; rewrite int8_small; lia
       |cbn; rewrite int8_small by lia; lia].
    rewrite checked_position_cell in Hfree by lia.
    apply (Hadd (16 * a + 15)); [lia| |lia|].
    + intros Hin. apply Hfree. unfold live_asteroids in *. cbn.
      rewrite int8_small by lia.
      apply list_elem_of_lookup in Hin as [k Hk].
      apply lookup_take_Some in Hk as [Hk Hlt].
      apply list_elem_of_lookup. exists k. rewrite lookup_take_lt by lia. exact Hk.
    + subst s'. cbn. unfold add_asteroid. cbn.
      rewrite GAME_POSITION_cell by lia.
      rewrite (uint8_small (16 * a + 15)) by lia. reflexivity.
  - injection H as _ <-.
    apply (Hadd (16 * x + y - 1)); [lia|apply Hbelow1; lia|lia|].
    cbn. unfold add_asteroid. cbn.
    rewrite GAME_POSITION_cell by lia.
    replace (16 * x + y - 1) with (16 * x + (y - 1)) by lia.
    rewrite (uint8_small (16 * x + (y - 1))) by lia. reflexivity.
Qed.

Lemma for_loop_invariant (I : Z -> State -> Prop) (body : Z -> M unit) n i0 :
  (forall k s u s',
     i0 <= k < i0 + Z.of_nat n -> I k s -> body k s = Some (u, s') -> I (k + 1) s') ->
  forall s u s',
    I i0 s -> for_loop n i0 body s = Some (u, s') -> I (i0 + Z.of_nat n) s'.
Proof.
  revert i0. induction n as [|n IH]; intros i0 Hbody s u s' Hi H.
  - cbn in H. apply ret_Some in H as [_ ->].
    replace (i0 + Z.of_nat 0) with i0 by lia. exact Hi.
  - cbn [for_loop] in H. apply bind_Some in H as (a & s1 & Hfirst & Hrest).
    replace (i0 + Z.of_nat (S n)) with ((i0 + 1) + Z.of_nat n) by lia.
    apply (IH (i0 + 1)) with (s := s1) (u := u); [| |exact Hrest].
    + intros k t v t' Hk. apply Hbody. lia.
    + apply (Hbody i0 s a s1); [lia|exact Hi|exact Hfirst].
Qed.

Lemma collisions_before_next b x y :
  0 <= x -> 0 <= y < 16 ->
  collisions_before b (Z.to_nat (16 * x + y + 1))
  = collisions_before b (Z.to_nat (16 * x + y))
    + (if base_collision b x y then 1 else 0).
Proof.
  intros Hx Hy.
  replace (Z.to_nat (16 * x + y + 1)) with (S (Z.to_nat (16 * x + y))) by lia.
  cbn [collisions_before]. rewrite Z2Nat.id by lia.
  replace ((16 * x + y) / 16) with x by (apply Z.div_unique with y; lia).
  replace ((16 * x + y) mod 16) with y by (apply Z.mod_unique with x; lia).
  reflexivity.
Qed.

Lemma collisions_before_nonneg b c : 0 <= collisions_before b c.
Proof.
  induction c as [|c IH]; cbn [collisions_before]; [lia|].
  destruct (base_collision _ _ _); lia.
Qed.

(** At most three cells of the field pass the collision test. *)
Lemma collisions_before_field b :
  0 <= b <= 7 -> collisions_before b 128 <= 3.
Proof.
  intros Hb.
  assert (Hcases : b = 0 \/ b = 1 \/ b = 2 \/ b = 3 \/ b = 4 \/ b = 5 \/ b = 6 \/ b = 7)
    by lia.
  destruct Hcases as [->|[->|[->|[->|[->|[->|[->| ->]]]]]]];
    apply Z.leb_le; vm_compute; reflexivity.
Qed.

Lemma advance_asteroids_spec s u s' :
  wf_game (game s) -> advance_asteroids s = Some (u, s') ->
  wf_game (game s') /\
  basePosition (game s') = basePosition (game s) /\
  numAsteroids (game s') = numAsteroids (game s) /\
  lives (game s) - 3 <= lives (game s') <= lives (game s).
Proof using MAX_ASTEROIDS_fits MAX_PROJECTILES_fits.
  intros Hwf H. unfold advance_asteroids in H.
  set (b := basePosition (game s)). set (n0 := numAsteroids (game s)).
  set (l0 := lives (game s)).
  pose (K := fun (x : Z) (t : State) =>
    wf_game (game t) /\ basePosition (game t) = b /\ numAsteroids (game t) = n0 /\
    l0 - collisions_before b (Z.to_nat (16 * x)) <= lives (game t) <= l0).
  assert (HK0 : K 0 s).
  { unfold K. split; [exact Hwf|]. do 2 (split; [reflexivity|]).
    change (Z.to_nat (16 * 0)) with 0%nat. cbn [collisions_before]. unfold l0. lia. }
  assert (Hcolumn : forall x t v t',
    0 <= x < 0 + Z.of_nat 8 -> K x t ->
    for_loop 16 0 (fun y => advance_cell x y) t = Some (v, t') -> K (x + 1) t').
  { intros x t v t' Hx (Hwft & Hbt & Hnt & Hlt) Hcol.
    pose (J := fun (y : Z) (r : State) =>
      wf_game (game r) /\ (1 <= y <= 15 -> 16 * x + y - 1 ∉ live_asteroids (game r)) /\
      basePosition (game r) = b /\ numAsteroids (game r) = n0 /\
      l0 - collisions_before b (Z.to_nat (16 * x + y)) <= lives (game r) <= l0).
    assert (HJ0 : J 0 t).
    { unfold J. split; [exact Hwft|]. split; [lia|].
      replace (16 * x + 0) with (16 * x) by lia. repeat split; lia. }
    assert (Hcell : forall y r w r',
      0 <= y < 0 + Z.of_nat 16 -> J y r -> advance_cell x y r = Some (w, r') ->
      J (y + 1) r').
    { intros y r w r' Hy (Hwfr & Hbelow & Hbr & Hnr & Hlr) Hcell.
      apply advance_cell_spec in Hcell as (Hwf' & Hgone & Hb' & Hn' & Hl');
        [|lia|lia|exact Hwfr|intros Hy1; apply Hbelow; lia].
      unfold J. split; [exact Hwf'|]. split.
      { intros Hy1. replace (16 * x + (y + 1) - 1) with (16 * x + y) by lia.
        apply Hgone. lia. }
      replace (16 * x + (y + 1)) with (16 * x + y + 1) by lia.
      rewrite collisions_before_next by lia.
      rewrite Hbr in Hl'. repeat split; lia. }
    destruct (for_loop_invariant J _ 16 0 Hcell t v t' HJ0 Hcol)
      as (Hwf' & _ & Hb' & Hn' & Hl').
    unfold K. split; [exact Hwf'|].
    replace (16 * (x + 1)) with (16 * x + (0 + Z.of_nat 16)) by lia.
    repeat split; lia. }
  pose proof (for_loop_invariant K _ 8 0 Hcolumn s u s' HK0 H) as HK.
  destruct HK as (Hwf' & Hb' & Hn' & Hl').
  change (Z.to_nat (16 * (0 + Z.of_nat 8))) with 128%nat in Hl'.
  pose proof (collisions_before_field b ltac:(apply (wf_base _ Hwf))).
  split; [exact Hwf'|]. repeat split; lia.
Qed.

(** ** advance_projectiles *)

Lemma take_delete_same (l : list Z) k :
  (k <= length l)%nat -> take k (delete k l) = take k l.
Proof.
  intros Hk. rewrite delete_take_drop.
  rewrite take_app_le by (rewrite length_take; lia).
  rewrite take_take. f_equal. lia.
Qed.

Lemma drop_delete_same (l : list Z) k :
  (k <= length l)%nat -> drop k (delete k l) = drop (S k) l.
Proof.
  intros Hk. rewrite delete_take_drop.
  rewrite drop_app_ge by (rewrite length_take; lia).
  rewrite length_take. replace (k - k `min` length l)%nat with 0%nat by lia.
  reflexivity.
Qed.

Lemma take_S_insert (l : list Z) k v :
  (k < length l)%nat -> take (S k) (<[k := v]> l) = take k l ++ [v].
Proof.
  intros Hk. erewrite take_S_r by (apply list_lookup_insert_eq; exact Hk).
  rewrite take_insert_ge by lia. reflexivity.
Qed.

Lemma drop_S_insert (l : list Z) k v : drop (S k) (<[k := v]> l) = drop (S k) l.
Proof. apply drop_insert_lt. lia. Qed.

Lemma drop_S_lookup (l : list Z) k q :
  l !! k = Some q -> drop k l = q :: drop (S k) l.
Proof. intros H. apply drop_S. exact H. Qed.

Lemma live_projectiles_lookup g k :
  wf_projectiles g -> 0 <= k < numProjectiles g ->
  live_projectiles g !! Z.to_nat k = Some (rd (projectiles g) k) /\
  is_byte (rd (projectiles g) k).
Proof.
  intros [Hn Hlen Hbytes] Hk. split.
  - unfold live_projectiles. rewrite lookup_take_lt by lia. apply lookup_rd. lia.
  - apply rd_is_byte. exact Hbytes.
Qed.

(** A round that removes projectile [k]. *)
Lemma projectiles_inv_remove k g :
  projectiles_inv k g -> k < numProjectiles g ->
  projectiles_inv k (remove_projectile k g) /\
  numProjectiles (remove_projectile k g) = numProjectiles g - 1.
Proof using MAX_PROJECTILES_fits.
  intros [HP Hk Hmoved Hwait Hapart] Hlt.
  destruct (remove_projectile_typed k g HP ltac:(lia)) as (HP' & Hcount & Hlive).
  destruct (live_projectiles_lookup g k HP ltac:(lia)) as [Hq _].
  pose proof HP as [Hn Hlen _].
  assert (Hlive_len : length (live_projectiles g) = Z.to_nat (numProjectiles g)).
  { unfold live_projectiles. rewrite length_take. lia. }
  split; [|exact Hcount].
  constructor.
  - exact HP'.
  - lia.
  - rewrite Hlive, take_delete_same by lia. exact Hmoved.
  - rewrite Hlive, drop_delete_same by lia.
    rewrite (drop_S_lookup _ _ _ Hq) in Hwait.
    apply NoDup_cons in Hwait as [_ Hwait]. exact Hwait.
  - intros q. rewrite Hlive, take_delete_same, drop_delete_same by lia.
    intros Hin. apply Hapart. rewrite (drop_S_lookup _ _ _ Hq). right. exact Hin.
Qed.

(** A round that moves projectile [k] one row up. *)
Lemma projectiles_inv_move k g :
  projectiles_inv k g -> k < numProjectiles g ->
  GET_Y_POSITION (rd (projectiles g) k) <> 15 ->
  projectiles_inv (k + 1)
    (set_projectiles (wr (projectiles g) k (rd (projectiles g) k + 1)) g).
Proof.
  intros [HP Hk Hmoved Hwait Hapart] Hlt Hrow.
  destruct (live_projectiles_lookup g k HP ltac:(lia)) as [Hq Hbyte].
  pose proof HP as [Hn Hlen Hbytes].
  set (q := rd (projectiles g) k) in *.
  assert (Hlive_len : length (live_projectiles g) = Z.to_nat (numProjectiles g)).
  { unfold live_projectiles. rewrite length_take. lia. }
  assert (Hlive : live_projectiles (set_projectiles (wr (projectiles g) k (q + 1)) g)
                  = <[Z.to_nat k := q + 1]> (live_projectiles g)).
  { unfold live_projectiles. cbn. rewrite wr_insert by lia.
    apply take_insert_lt. lia. }
  assert (Hq15 : q mod 16 <> 15) by (rewrite <- GET_Y_POSITION_eq; exact Hrow).
  assert (Hq16 : 0 <= q mod 16 < 16) by (apply Z.mod_pos_bound; lia).
  rewrite (drop_S_lookup _ _ _ Hq) in Hwait.
  apply NoDup_cons in Hwait as [Hq_notin Hwait].
  constructor.
  - constructor; cbn.
    + exact Hn.
    + rewrite length_wr. exact Hlen.
    + apply Forall_wr; [exact Hbytes|]. unfold is_byte in *.
      pose proof (Z.div_mod q 16 ltac:(lia)). lia.
  - cbn. lia.
  - rewrite Hlive. replace (Z.to_nat (k + 1)) with (S (Z.to_nat k)) by lia.
    rewrite take_S_insert by lia.
    apply NoDup_snoc; [exact Hmoved|].
    apply Hapart; [|exact Hrow].
    rewrite (drop_S_lookup _ _ _ Hq). left.
  - rewrite Hlive. replace (Z.to_nat (k + 1)) with (S (Z.to_nat k)) by lia.
    rewrite drop_S_insert. exact Hwait.
  - intros p. rewrite Hlive. replace (Z.to_nat (k + 1)) with (S (Z.to_nat k)) by lia.
    rewrite drop_S_insert, take_S_insert by lia.
    intros Hin Hp15. rewrite elem_of_app, list_elem_of_singleton.
    intros [Hmv|Heq].
    + revert Hmv. apply Hapart; [|exact Hp15].
      rewrite (drop_S_lookup _ _ _ Hq). right. exact Hin.
    + apply Hq_notin. replace q with p by lia. exact Hin.
Qed.

Lemma asteroid_at_same x y g g' :
  numAsteroids g' = numAsteroids g -> asteroids g' = asteroids g ->
  asteroid_at x y g' = asteroid_at x y g.
Proof. intros Hn Ha. unfold asteroid_at. rewrite Hn, Ha. reflexivity. Qed.

Lemma projectiles_inv_same k g g' :
  numProjectiles g' = numProjectiles g -> projectiles g' = projectiles g ->
  projectiles_inv k g -> projectiles_inv k g'.
Proof.
  intros Hn Hp [HP Hk Hmoved Hwait Hapart].
  constructor; rewrite ?(live_projectiles_same _ _ Hn Hp), ?Hn; try assumption.
  exact (wf_projectiles_same _ _ Hn Hp HP).
Qed.

(** One round of the loop of [advance_projectiles]. *)
Lemma advance_projectile_spec k s next s' :
  wf_asteroids (game s) -> projectiles_inv k (game s) ->
  k < numProjectiles (game s) ->
  advance_projectile k s = Some (next, s') ->
  wf_asteroids (game s') /\
  projectiles_inv next (game s') /\
  numProjectiles (game s') - next = numProjectiles (game s) - k - 1 /\
  basePosition (game s') = basePosition (game s) /\
  lives (game s') = lives (game s) /\
  numAsteroids (game s') = numAsteroids (game s).
Proof using MAX_ASTEROIDS_fits MAX_PROJECTILES_fits.
  intros HA Hinv Hlt H. unfold advance_projectile in H.
  pose proof (pi_index _ _ Hinv) as Hk.
  pose proof (pi_typed _ _ Hinv) as HP.
  destruct (live_projectiles_lookup (game s) k HP ltac:(lia)) as [_ Hbyte].
  remember (rd (projectiles (game s)) k) as q eqn:Hq.
  assert (Hrow : 0 <= GET_Y_POSITION q < 16).
  { rewrite GET_Y_POSITION_eq. apply Z.mod_pos_bound. lia. }
  rewrite (uint8_small (GET_Y_POSITION q + 1)) in H by lia.
  unfold FIELD_HEIGHT in H.
  destruct (Z.eqb_spec (GET_Y_POSITION q + 1) 16) as [Htop|Hnot_top].
  - injection H as <- <-. cbn.
    destruct (projectiles_inv_remove k (game s) Hinv Hlt) as [Hinv' Hcount].
    destruct (remove_projectile_frame k (game s)) as (Hb & Hna & Ha & Hl).
    split; [exact (wf_asteroids_same _ _ Hna Ha HA)|].
    split; [exact Hinv'|]. repeat split; lia.
  - destruct (Z.eqb_spec (asteroid_at (GET_X_POSITION q) (GET_Y_POSITION q + 1) (game s)) (-1))
      as [Hfree|Hast]; cbn [negb] in H.
    + injection H as <- <-. cbn.
      rewrite int8_small by (pose proof (wfp_count _ HP); lia).
      replace (uint8 (GAME_POSITION (GET_X_POSITION q) (GET_Y_POSITION q + 1))) with (q + 1).
      2:{ rewrite <- (move_up_eq q Hbyte ltac:(lia)).
          rewrite (uint8_small (GET_Y_POSITION q + 1)) by lia. reflexivity. }
      split; [apply (wf_asteroids_same (game s)); [reflexivity|reflexivity|exact HA]|].
      split; [|repeat split; lia].
      rewrite Hq. apply projectiles_inv_move; [exact Hinv|exact Hlt|].
      rewrite <- Hq. lia.
    + run_inv H. destruct H as [-> ->]. cbn.
      match goal with Hr : regen_asteroid _ = Some _ |- _ => rename Hr into Hregen end.
      destruct (projectiles_inv_remove k (game s) Hinv Hlt) as [Hinv1 Hcount1].
      destruct (remove_projectile_frame k (game s)) as (Hb1 & Hna1 & Ha1 & Hl1).
      set (g1 := remove_projectile k (game s)) in *.
      assert (HA1 : wf_asteroids g1) by exact (wf_asteroids_same _ _ Hna1 Ha1 HA).
      assert (Hast1 : asteroid_at (GET_X_POSITION q) (GET_Y_POSITION q + 1) g1 <> -1).
      { rewrite (asteroid_at_same _ _ _ _ Hna1 Ha1). exact Hast. }
      destruct (remove_found_asteroid_wf _ _ g1 HA1 Hast1) as (HA2 & Hcount2 & _).
      destruct (remove_asteroid_frame
                  (asteroid_at (GET_X_POSITION q) (GET_Y_POSITION q + 1) g1) g1)
        as (Hb2 & Hnp2 & Hp2 & Hl2).
      apply regen_asteroid_asteroids in Hregen
        as (HA3 & Hcount3 & _ & Hb3 & Hl3 & Hnp3 & Hp3 & _);
        [|exact HA2|cbn; pose proof (wfa_count _ HA); fold g1; lia].
      cbn in Hcount3, Hb3, Hl3, Hnp3, Hp3. fold g1 in Hcount3, Hb3, Hl3, Hnp3, Hp3.
      split; [exact HA3|]. split.
      { apply (projectiles_inv_same k g1); [congruence|congruence|exact Hinv1]. }
      repeat split; lia.
Qed.

(** The loop of [advance_projectiles] ends with every projectile visited:
    [fuel] rounds are enough when [fuel] is at least the number of
    projectiles still to visit. *)
Lemma advance_projectiles_loop_exit fuel k s next s' :
  wf_asteroids (game s) -> projectiles_inv k (game s) ->
  numProjectiles (game s) - k <= Z.of_nat fuel ->
  advance_projectiles_loop fuel k s = Some (next, s') ->
  next = numProjectiles (game s') /\
  wf_asteroids (game s') /\
  projectiles_inv next (game s') /\
  basePosition (game s') = basePosition (game s) /\
  lives (game s') = lives (game s) /\
  numAsteroids (game s') = numAsteroids (game s).
Proof using MAX_ASTEROIDS_fits MAX_PROJECTILES_fits.
  revert k s. induction fuel as [|fuel IH]; intros k s HA Hinv Hfuel H;
    cbn [advance_projectiles_loop] in H;
    pose proof (pi_index _ _ Hinv) as Hk;
    destruct (Z.ltb_spec k (numProjectiles (game s))) as [Hlt|Hge]; try lia;
    try (injection H as <- <-; split; [lia|]; split; [exact HA|];
         split; [exact Hinv|]; repeat split; reflexivity).
  apply bind_Some in H as (k1 & s1 & Hround & Hrest).
  apply advance_projectile_spec in Hround as (HA1 & Hinv1 & Hleft & Hb1 & Hl1 & Hn1);
    [|exact HA|exact Hinv|exact Hlt].
  apply IH in Hrest as (Hnext & HA2 & Hinv2 & Hb2 & Hl2 & Hn2);
    [|exact HA1|exact Hinv1|lia].
  split; [exact Hnext|]. split; [exact HA2|]. split; [exact Hinv2|].
  repeat split; congruence.
Qed.

Lemma advance_projectiles_spec s u s' :
  wf_game (game s) -> advance_projectiles s = Some (u, s') ->
  wf_game (game s') /\
  basePosition (game s') = basePosition (game s) /\
  lives (game s') = lives (game s) /\
  numAsteroids (game s') = numAsteroids (game s).
Proof using MAX_ASTEROIDS_fits MAX_PROJECTILES_fits.
  intros [Hb HA HP HPn] H. unfold advance_projectiles in H.
  run_inv H. destruct H as [_ ->].
  match goal with Hl : advance_projectiles_loop _ _ _ = Some _ |- _ =>
    apply advance_projectiles_loop_exit in Hl as (Hnext & HA' & Hinv' & Hb' & Hl' & Hn')
  end.
  - split; [|repeat split; assumption].
    destruct Hinv' as [HP' _ Hmoved _ _]. constructor.
    + rewrite Hb'. exact Hb.
    + exact HA'.
    + exact HP'.
    + rewrite Hnext in Hmoved. unfold live_projectiles in *.
      rewrite take_take, Nat.min_id in Hmoved. exact Hmoved.
  - exact HA.
  - pose proof (wfp_count _ HP). constructor.
    + exact HP.
    + lia.
    + cbn. apply NoDup_nil_2.
    + cbn. exact HPn.
    + intros q _ _. cbn. apply not_elem_of_nil.
  - pose proof (wfp_count _ HP). lia.
Qed.

(** ** initialise_game and new_game *)

Lemma initial_cell_search_Some draws g x y rest :
  initial_cell_search draws g = Some (x, y, rest) ->
  0 <= x < 8 /\ 3 <= y < 16 /\ asteroid_at x y g = -1.
Proof.
  assert (Hboth : forall draws,
    (initial_cell_search draws g = Some (x, y, rest) ->
     0 <= x < 8 /\ 3 <= y < 16 /\ asteroid_at x y g = -1) /\
    (forall r, initial_cell_search (r :: draws) g = Some (x, y, rest) ->
     0 <= x < 8 /\ 3 <= y < 16 /\ asteroid_at x y g = -1)).
  { clear draws. induction draws as [|ry draws [IH1 IH2]].
    - split; [discriminate|]. intros r. discriminate.
    - split; [apply IH2|]. intros rx. cbn [initial_cell_search].
      unfold FIELD_WIDTH, FIELD_HEIGHT.
      pose proof (Z.rem_bound_pos (Z.of_N rx) 8 ltac:(lia) ltac:(lia)) as Hrx.
      pose proof (Z.rem_bound_pos (Z.of_N ry) (16 - 3) ltac:(lia) ltac:(lia)) as Hry.
      destruct (Z.eqb_spec
                  (asteroid_at (uint8 (Z.rem (Z.of_N rx) 8))
                     (uint8 (3 + Z.rem (Z.of_N ry) (16 - 3))) g) (-1)) as [Hfree|Hbusy].
      + intros H. injection H as <- <- <-.
        rewrite !uint8_small by lia. rewrite !uint8_small in Hfree by lia.
        split; [lia|]. split; [lia|exact Hfree].
      + exact IH1. }
  apply Hboth.
Qed.

Lemma initial_cell_loop_Some s xy s' :
  initial_cell_loop s = Some (xy, s') ->
  0 <= fst xy < 8 /\ 3 <= snd xy < 16 /\ asteroid_at (fst xy) (snd xy) (game s) = -1 /\
  exists rest, s' = set_rand rest s.
Proof.
  unfold initial_cell_loop.
  destruct (initial_cell_search (rand s) (game s)) as [[[x y] rest]|] eqn:Hs; [|discriminate].
  intros H. injection H as <- <-. cbn [fst snd].
  destruct (initial_cell_search_Some _ _ _ _ _ Hs) as (Hx & Hy & Hfree).
  split; [exact Hx|]. split; [exact Hy|]. split; [exact Hfree|].
  exists rest. reflexivity.
Qed.

Lemma GET_Y_cell x y : 0 <= y < 16 -> GET_Y_POSITION (16 * x + y) = y.
Proof.
  intros Hy. rewrite GET_Y_POSITION_eq.
  rewrite Z.add_comm, Z.mul_comm, Z.mod_add by lia. apply Z.mod_small. lia.
Qed.

Lemma initialise_game_spec s u s' :
  typed_game (game s) -> initialise_game s = Some (u, s') ->
  wf_game (game s') /\
  basePosition (game s') = 3 /\
  numProjectiles (game s') = 0 /\
  numAsteroids (game s') = MAX_ASTEROIDS /\
  lives (game s') = 4 /\
  score s' = score s /\
  sequencer s' = sequencer s /\
  (forall p, p ∈ live_asteroids (game s') -> 3 <= GET_Y_POSITION p <= 15).
Proof using MAX_ASTEROIDS_fits MAX_PROJECTILES_fits.
  intros [HlenA HbytesA HlenP HbytesP] H. unfold initialise_game in H.
  apply bind_Some in H as (a & s0 & Hreset & Hloop).
  apply lift_Some in Hreset.
  pose (I := fun (i : Z) (t : State) =>
    wf_asteroids (game t) /\ wf_projectiles (game t) /\
    numAsteroids (game t) = i /\ i <= MAX_ASTEROIDS /\
    basePosition (game t) = 3 /\ numProjectiles (game t) = 0 /\ lives (game t) = 4 /\
    score t = score s /\ sequencer t = sequencer s /\
    (forall p, p ∈ live_asteroids (game t) -> 3 <= GET_Y_POSITION p <= 15)).
  assert (HI0 : I 0 s0).
  { subst s0. unfold I. cbn. split.
    { constructor; cbn; [lia|exact HlenA|exact HbytesA|apply NoDup_nil_2]. }
    split.
    { constructor; cbn; [lia|exact HlenP|exact HbytesP]. }
    split; [reflexivity|]. split; [lia|]. do 5 (split; [reflexivity|]).
    intros p Hp. apply elem_of_nil in Hp. contradiction. }
  assert (Hbody : forall i t v t',
    0 <= i < 0 + Z.of_nat (Z.to_nat MAX_ASTEROIDS) -> I i t ->
    (let* xy := initial_cell_loop in
     lift (with_game (fun g =>
       let g := set_asteroids
                  (wr (asteroids g) i (uint8 (GAME_POSITION (fst xy) (snd xy)))) g in
       set_numAsteroids (int8 (numAsteroids g + 1)) g))) t = Some (v, t') ->
    I (i + 1) t').
  { intros i t v t' Hi (HA & HP & Hn & Hmax & Hb & Hnp & Hl & Hsc & Hsq & Hrows) Hrun.
    run_inv Hrun.
    apply initial_cell_loop_Some in Hstep as (Hx & Hy & Hfree & rest & ->).
    destruct a0 as [x y]. cbn [fst snd] in *.
    pose proof HA as [HnA HlA HbA HdA].
    apply asteroid_at_none in Hfree; [|lia|lia].
    rewrite checked_position_cell in Hfree by lia.
    rewrite GAME_POSITION_cell in Hrun by lia.
    set (g' := set_numAsteroids (int8 (numAsteroids (game t) + 1))
                 (set_asteroids (wr (asteroids (game t)) i (16 * x + y)) (game t))).
    assert (Hg : game t' = g') by (subst t'; reflexivity).
    assert (Hsc' : score t' = score t) by (subst t'; reflexivity).
    assert (Hsq' : sequencer t' = sequencer t) by (subst t'; reflexivity).
    clear Hrun.
    assert (Hn' : numAsteroids g' = i + 1).
    { unfold g'. cbn. rewrite int8_small by lia. lia. }
    assert (Hlive : live_asteroids g' = live_asteroids (game t) ++ [16 * x + y]).
    { unfold live_asteroids. rewrite Hn'. unfold g'. cbn.
      rewrite wr_insert by lia. rewrite Hn.
      replace (Z.to_nat (i + 1)) with (S (Z.to_nat i)) by lia.
      apply take_S_insert. lia. }
    unfold I. rewrite Hg, Hsc', Hsq'. split.
    { constructor.
      - lia.
      - unfold g'. cbn. rewrite length_wr. exact HlA.
      - unfold g'. cbn. apply Forall_wr; [exact HbA|]. unfold is_byte. lia.
      - rewrite Hlive. apply NoDup_snoc; [exact HdA|exact Hfree]. }
    split; [exact (wf_projectiles_same (game t) g' eq_refl eq_refl HP)|].
    split; [exact Hn'|]. split; [lia|].
    do 5 (split; [assumption|]).
    intros p. rewrite Hlive, elem_of_app, list_elem_of_singleton.
    intros [Hp| ->]; [apply Hrows; exact Hp|]. rewrite GET_Y_cell by lia. lia. }
  destruct (for_loop_invariant I _ _ 0 Hbody s0 u s' HI0 Hloop)
    as (HA & HP & Hn & _ & Hb & Hnp & Hl & Hsc & Hsq & Hrows).
  split.
  { constructor; [lia|exact HA|exact HP|].
    unfold live_projectiles. rewrite Hnp. cbn. apply NoDup_nil_2. }
  repeat split; try assumption; try lia; apply Hrows; assumption.
Qed.

Lemma typed_game_of_wf g : wf_game g -> typed_game g.
Proof. intros [_ [_ HlA HbA _] [_ HlP HbP] _]. constructor; assumption. Qed.

Lemma typed_game_power_up t snd r : typed_game (game (power_up t snd r)).
Proof using MAX_ASTEROIDS_fits MAX_PROJECTILES_fits.
  constructor; cbn.
  - rewrite length_replicate. lia.
  - apply Forall_replicate. unfold is_byte. lia.
  - rewrite length_replicate. lia.
  - apply Forall_replicate. unfold is_byte. lia.
Qed.

Lemma new_game_spec s u s' :
  typed_game (game s) -> new_game s = Some (u, s') ->
  wf_game (game s') /\
  basePosition (game s') = 3 /\
  numProjectiles (game s') = 0 /\
  numAsteroids (game s') = MAX_ASTEROIDS /\
  lives (game s') = 4 /\
  score s' = 0 /\
  (forall p, p ∈ live_asteroids (game s') -> 3 <= GET_Y_POSITION p <= 15).
Proof using MAX_ASTEROIDS_fits MAX_PROJECTILES_fits.
  intros Htyped H. unfold new_game in H. run_inv H. subst s'. cbn.
  match goal with Hi : initialise_game _ = Some _ |- _ =>
    apply initialise_game_spec in Hi
      as (Hwf & Hb & Hnp & Hna & Hl & _ & _ & Hrows); [|exact Htyped]
  end.
  split; [exact Hwf|]. repeat split; try assumption; apply Hrows; assumption.
Qed.

Lemma is_game_over_spec g : is_game_over g = 1 <-> lives g < 1.
Proof.
  unfold is_game_over. destruct (Z.ltb_spec (lives g) 1); split; intros; try lia; discriminate.
Qed.

Lemma game_not_over g : is_game_over g = 0 -> 1 <= lives g.
Proof.
  unfold is_game_over. destruct (Z.ltb_spec (lives g) 1); intros; [discriminate|lia].
Qed.

(** What every state of the program satisfies. *)
Lemma reachable_invariant s :
  reachable s -> wf_game (game s) /\ -2 <= lives (game s) <= 4.
Proof using MAX_ASTEROIDS_fits MAX_PROJECTILES_fits.
  induction 1 as
    [t snd r s Hnew
    |s s' _ [Hwf Hl] Hover Hnew
    |s t snd r _ IH
    |s direction _ [Hwf Hl] Hplay
    |s r s' _ [Hwf Hl] Hplay Hfire
    |s s' _ [Hwf Hl] Hplay Hadv
    |s s' _ [Hwf Hl] Hplay Hadv
    |s _ IH _
    |s _ IH _
    |s _ IH _ _].
  - apply new_game_spec in Hnew as (Hwf & _ & _ & _ & Hl & _);
      [|apply typed_game_power_up].
    split; [exact Hwf|lia].
  - apply new_game_spec in Hnew as (Hwf' & _ & _ & _ & Hl' & _);
      [|apply typed_game_of_wf; exact Hwf].
    split; [exact Hwf'|lia].
  - exact IH.
  - apply game_not_over in Hplay.
    destruct (move_base_spec direction s Hwf) as (Hwf' & Hl' & _).
    split; [exact Hwf'|lia].
  - apply game_not_over in Hplay.
    apply fire_projectile_spec in Hfire as (Hwf' & _ & Hl' & _); [|exact Hwf].
    split; [exact Hwf'|lia].
  - apply game_not_over in Hplay.
    apply advance_asteroids_spec in Hadv as (Hwf' & _ & _ & Hl'); [|exact Hwf].
    split; [exact Hwf'|lia].
  - apply game_not_over in Hplay.
    apply advance_projectiles_spec in Hadv as (Hwf' & _ & Hl' & _); [|exact Hwf].
    split; [exact Hwf'|lia].
  - exact IH.
  - exact IH.
  - exact IH.
Qed.

(** * The claims *)

Lemma wf_game_cells_apart g : wf_game g -> cells_apart g.
Proof. intros [_ [_ _ _ HA] _ HP]. split; assumption. Qed.

(** C2: in every state the program reaches, no two asteroids share a cell
    and no two projectiles share a cell; each engine operation
    ([initialise_game], [move_base], [fire_projectile], [advance_asteroids],
    [advance_projectiles], and [regen_asteroid] when the bag has room) takes
    well-formed game data, which has the cells apart, to well-formed game
    data. *)
Theorem cells_never_shared :
  (forall s, reachable s -> cells_apart (game s)) /\
  (forall s u s', typed_game (game s) ->
     initialise_game s = Some (u, s') -> cells_apart (game s')) /\
  (forall s, wf_game (game s) ->
     (forall direction, wf_game (game (snd (move_base direction s)))) /\
     (forall r s', fire_projectile s = Some (r, s') -> wf_game (game s')) /\
     (forall u s', advance_asteroids s = Some (u, s') -> wf_game (game s')) /\
     (forall u s', advance_projectiles s = Some (u, s') -> wf_game (game s')) /\
     (forall u s', numAsteroids (game s) < MAX_ASTEROIDS ->
        regen_asteroid s = Some (u, s') -> wf_game (game s'))).
Proof using MAX_ASTEROIDS_fits MAX_PROJECTILES_fits.
  split; [|split].
  - intros s Hs. apply wf_game_cells_apart. apply reachable_invariant. exact Hs.
  - intros s u s' Htyped Hinit. apply wf_game_cells_apart.
    apply (initialise_game_spec s u s' Htyped Hinit).
  - intros s Hwf. split; [|split; [|split; [|split]]].
    + intros direction. apply (move_base_spec direction s Hwf).
    + intros r s' H. apply (fire_projectile_spec s r s' Hwf H).
    + intros u s' H. apply (advance_asteroids_spec s u s' Hwf H).
    + intros u s' H. apply (advance_projectiles_spec s u s' Hwf H).
    + intros u s' Hroom H. apply (regen_asteroid_wf s u s' Hwf Hroom H).
Qed.

(** C7, as amended: in every state the program reaches, [lives] is at most
    4 and at least -2 (one call of [move_base] can take two lives, one pass
    of [advance_asteroids] three, and both are only called with a life
    left), and [is_game_over] answers 1 exactly when [lives < 1]. *)
Theorem lives_range s :
  reachable s ->
  -2 <= lives (game s) <= 4 /\
  (is_game_over (game s) = 1 <-> lives (game s) < 1).
Proof using MAX_ASTEROIDS_fits MAX_PROJECTILES_fits.
  intros Hs. split.
  - apply reachable_invariant. exact Hs.
  - apply is_game_over_spec.
Qed.

(** C1: the asteroid count is kept by [fire_projectile], [advance_asteroids]
    and [advance_projectiles], which call [regen_asteroid] after every
    removal; [move_base] removes the asteroid of an occupied ram cell and
    regenerates nothing, so it leaves as many asteroids fewer as it takes
    lives. *)
Theorem move_base_loses_asteroids s :
  wf_game (game s) ->
  (forall r s', fire_projectile s = Some (r, s') ->
     numAsteroids (game s') = numAsteroids (game s)) /\
  (forall u s', advance_asteroids s = Some (u, s') ->
     numAsteroids (game s') = numAsteroids (game s)) /\
  (forall u s', advance_projectiles s = Some (u, s') ->
     numAsteroids (game s') = numAsteroids (game s)) /\
  (forall direction,
     numAsteroids (game (snd (move_base direction s))) - numAsteroids (game s)
     = lives (game (snd (move_base direction s))) - lives (game s)) /\
  (basePosition (game s) <> 0 ->
   asteroid_at (basePosition (game s) - 2) 0 (game s) <> -1 ->
   numAsteroids (game (snd (move_base MOVE_LEFT s))) < numAsteroids (game s)).
Proof using MAX_ASTEROIDS_fits MAX_PROJECTILES_fits.
  intros Hwf. split; [|split; [|split; [|split]]].
  - intros r s' H. apply (fire_projectile_spec s r s' Hwf H).
  - intros u s' H. apply (advance_asteroids_spec s u s' Hwf H).
  - intros u s' H. apply (advance_projectiles_spec s u s' Hwf H).
  - intros direction. apply (move_base_spec direction s Hwf).
  - intros Hb Hast. unfold move_base.
    rewrite Z.eqb_refl. destruct (Z.eqb_spec (basePosition (game s)) 0) as [|_]; [contradiction|].
    cbn [andb negb snd]. cbn [game with_game numAsteroids set_basePosition].
    destruct (ram_check_spec (basePosition (game s) - 2) 0 s Hwf)
      as (Hwf1 & _ & _ & _ & _ & _ & [[Hnone _]|(_ & Hn1 & _)]); [contradiction|].
    set (s1 := ram_check (basePosition (game s) - 2) 0 s) in *.
    destruct (ram_check_spec (basePosition (game s1) - 1) 1 s1 Hwf1)
      as (_ & _ & _ & _ & _ & _ & [[_ Hsame]|(_ & Hn2 & _)]).
    + rewrite Hsame. lia.
    + lia.
Qed.

Lemma ram_check_basePosition x y s :
  basePosition (game (ram_check x y s)) = basePosition (game s).
Proof.
  unfold ram_check. destruct (negb (asteroid_at x y (game s) =? -1)); [|reflexivity].
  cbn. rewrite (proj1 (remove_asteroid_frame _ _)). reflexivity.
Qed.

Lemma move_base_basePosition direction s :
  0 <= basePosition (game s) <= 7 ->
  0 <= basePosition (game (snd (move_base direction s))) <= 7.
Proof.
  intros Hb. unfold move_base.
  destruct ((direction =? MOVE_LEFT) && negb (basePosition (game s) =? 0)) eqn:Hleft;
    [|destruct ((direction =? MOVE_RIGHT) && negb (basePosition (game s) =? 7)) eqn:Hright].
  - apply andb_true_iff in Hleft as [_ Hne]. apply negb_true_iff, Z.eqb_neq in Hne.
    cbn [snd game with_game basePosition set_basePosition].
    rewrite !ram_check_basePosition. rewrite int8_small; lia.
  - apply andb_true_iff in Hright as [_ Hne]. apply negb_true_iff, Z.eqb_neq in Hne.
    cbn [snd game with_game basePosition set_basePosition].
    rewrite !ram_check_basePosition. rewrite int8_small; lia.
  - exact Hb.
Qed.

(** C3: through every sequence of calls of [move_base] the base centre stays
    within 0..7, and a call that would take it outside (left at 0, right at
    7) returns 0 and leaves the whole state as it was. *)
Theorem base_stays_in_field :
  (forall directions s,
     0 <= basePosition (game s) <= 7 ->
     0 <= basePosition (game (move_base_sequence directions s)) <= 7) /\
  (forall direction s,
     (direction = MOVE_LEFT /\ basePosition (game s) = 0)
     \/ (direction = MOVE_RIGHT /\ basePosition (game s) = 7) ->
     move_base direction s = (0, s)).
Proof using MOVE_distinct.
  split.
  - induction directions as [|direction rest IH]; intros s Hb; cbn [move_base_sequence].
    + exact Hb.
    + apply IH. apply move_base_basePosition. exact Hb.
  - intros direction s [[-> Hb]|[-> Hb]]; unfold move_base; rewrite Hb.
    + rewrite Z.eqb_refl. cbn.
      destruct (Z.eqb_spec MOVE_LEFT MOVE_RIGHT) as [Heq|_]; [contradiction|reflexivity].
    + destruct (Z.eqb_spec MOVE_RIGHT MOVE_LEFT) as [Heq|_]; [symmetry in Heq; contradiction|].
      cbn. rewrite Z.eqb_refl. reflexivity.
Qed.

(** ** Firing at an asteroid in the firing cell *)

Lemma top_row_search_free draws g :
  Exists (fun r => asteroid_at (uint8 (Z.rem (Z.of_N r) FIELD_WIDTH)) 15 g = -1) draws ->
  exists new_x rest, top_row_search draws g = Some (new_x, rest).
Proof.
  induction 1 as [r draws Hfree|r draws _ IH]; cbn [top_row_search].
  - rewrite Hfree. cbn. eauto.
  - destruct (asteroid_at _ 15 g =? -1); [eauto|exact IH].
Qed.

(** With every cell of the top row taken no draw is accepted. *)
Lemma top_row_search_full draws g :
  (forall x, 0 <= x < 8 -> asteroid_at x 15 g <> -1) ->
  top_row_search draws g = None.
Proof.
  intros Hfull. induction draws as [|r draws IH]; cbn [top_row_search]; [reflexivity|].
  destruct (Z.eqb_spec (asteroid_at (uint8 (Z.rem (Z.of_N r) FIELD_WIDTH)) 15 g) (-1))
    as [Hfree|_]; [|exact IH].
  exfalso. exact (Hfull _ (random_column r) Hfree).
Qed.

(** With a draw for a free column among the pending draws, a regeneration
    ends. *)
Lemma regen_asteroid_ends s :
  Exists (fun r => asteroid_at (uint8 (Z.rem (Z.of_N r) FIELD_WIDTH)) 15 (game s) = -1)
         (rand s) ->
  exists s', regen_asteroid s = Some (tt, s').
Proof.
  intros Hfree. destruct (top_row_search_free _ _ Hfree) as (x & rest & Hs).
  unfold regen_asteroid, bind, top_row_loop. rewrite Hs. cbn. eauto.
Qed.

(** The top row is as full before as after the removal of an asteroid of
    another row. *)
Lemma asteroid_at_top_after_removal x y c g :
  wf_game g -> 0 <= x < 16 -> 0 <= y < 15 -> 0 <= c < 8 ->
  asteroid_at x y g <> -1 ->
  asteroid_at c 15 g = -1 ->
  asteroid_at c 15 (remove_asteroid (asteroid_at x y g) g) = -1.
Proof using MAX_ASTEROIDS_fits.
  intros Hwf Hx Hy Hc Hast Hfree.
  destruct (remove_found_asteroid x y g Hwf Hast) as (Hwf1 & Hn1 & Hlive1).
  pose proof (wf_asteroids_ok _ Hwf) as [Hn Hlen _ _].
  pose proof (wf_asteroids_ok _ Hwf1) as [Hn' Hlen' _ _].
  apply asteroid_at_none in Hfree; [|lia|lia].
  apply asteroid_at_none; [lia|lia|].
  intros Hin. apply Hlive1 in Hin as [Hin _]. exact (Hfree Hin).
Qed.

(** The top row is as full after the removal of an asteroid of another
    row as before. *)
Lemma top_row_full_after_removal x y g :
  wf_game g -> 0 <= x < 16 -> 0 <= y < 15 ->
  asteroid_at x y g <> -1 ->
  (forall c, 0 <= c < 8 -> asteroid_at c 15 g <> -1) ->
  forall c, 0 <= c < 8 -> asteroid_at c 15 (remove_asteroid (asteroid_at x y g) g) <> -1.
Proof using MAX_ASTEROIDS_fits.
  intros Hwf Hx Hy Hast Hfull c Hc Hfree.
  destruct (remove_found_asteroid x y g Hwf Hast) as (Hwf1 & Hn1 & Hlive1).
  pose proof (wf_asteroids_ok _ Hwf) as [Hn Hlen _ _].
  pose proof (wf_asteroids_ok _ Hwf1) as [Hn' Hlen' _ _].
  apply asteroid_at_none in Hfree; [|lia|lia].
  apply (Hfull c Hc). apply asteroid_at_none; [lia|lia|].
  intros Hin. apply Hfree. apply Hlive1. split; [exact Hin|].
  rewrite !checked_position_cell by lia. lia.
Qed.

(** With room for a projectile, no projectile in the firing cell, an
    asteroid in it and every cell of the top row taken, [fire_projectile]
    does not return, whatever the draws: the regeneration does not end. *)
Lemma fire_projectile_stuck s :
  wf_game (game s) ->
  numProjectiles (game s) < MAX_PROJECTILES ->
  projectile_at (basePosition (game s)) 2 (game s) = -1 ->
  asteroid_at (basePosition (game s)) 2 (game s) <> -1 ->
  (forall c, 0 <= c < 8 -> asteroid_at c 15 (game s) <> -1) ->
  fire_projectile s = None.
Proof using MAX_ASTEROIDS_fits.
  intros Hwf Hcap Hproj Hast Hfull.
  pose proof (wf_base _ Hwf) as Hb.
  unfold fire_projectile.
  destruct (Z.ltb_spec (numProjectiles (game s)) MAX_PROJECTILES); [|lia].
  rewrite Hproj. cbn [andb Z.eqb game shoot_sound with_sequencer].
  destruct (Z.eqb_spec (asteroid_at (basePosition (game s)) 2 (game s)) (-1));
    [contradiction|].
  cbn [negb]. unfold bind at 1. cbn [lift].
  unfold bind at 1. unfold regen_asteroid, bind, top_row_loop.
  cbn [game with_game rand].
  rewrite top_row_search_full; [reflexivity|].
  exact (top_row_full_after_removal (basePosition (game s)) 2 (game s) Hwf
           ltac:(lia) ltac:(lia) Hast Hfull).
Qed.

(** C4, as amended: with room for a projectile, no projectile in the
    firing cell and an asteroid in it, and a draw for a free column of the
    top row among the pending draws, [fire_projectile] returns 1, removes
    that asteroid, adds 1 to the score, puts one new asteroid in row 15 and
    leaves the projectiles as they were.  (When every cell of the top row
    is taken there is no such draw, and the call does not return:
    [fire_projectile_stuck].) *)
Theorem fire_at_asteroid s :
  wf_game (game s) ->
  numProjectiles (game s) < MAX_PROJECTILES ->
  projectile_at (basePosition (game s)) 2 (game s) = -1 ->
  asteroid_at (basePosition (game s)) 2 (game s) <> -1 ->
  Exists (fun r => asteroid_at (uint8 (Z.rem (Z.of_N r) FIELD_WIDTH)) 15 (game s) = -1)
         (rand s) ->
  exists s' new_x,
    fire_projectile s = Some (1, s') /\
    score s' = score s + 1 /\
    numAsteroids (game s') = numAsteroids (game s) /\
    0 <= new_x < 8 /\
    (forall q, q ∈ live_asteroids (game s') <->
               (q ∈ live_asteroids (game s) /\ q <> 16 * basePosition (game s) + 2)
               \/ q = 16 * new_x + 15) /\
    (16 * new_x + 15 ∉ live_asteroids (game s)) /\
    NoDup (live_asteroids (game s')) /\
    numProjectiles (game s') = numProjectiles (game s) /\
    projectiles (game s') = projectiles (game s).
Proof using MAX_ASTEROIDS_fits.
  intros Hwf Hcap Hproj Hast Hdraw.
  pose proof (wf_base _ Hwf) as Hb.
  set (b := basePosition (game s)) in *.
  set (s1 := with_game (fun g => remove_asteroid (asteroid_at (basePosition g) 2 g) g)
               (shoot_sound s)).
  destruct (remove_found_asteroid b 2 (game s) Hwf Hast) as (Hwf1 & Hn1 & Hlive1).
  rewrite checked_position_cell in Hlive1 by lia.
  destruct (remove_asteroid_frame (asteroid_at b 2 (game s)) (game s)) as (Hb1 & Hnp1 & Hp1 & Hl1).
  assert (Hdraw1 : Exists
    (fun r => asteroid_at (uint8 (Z.rem (Z.of_N r) FIELD_WIDTH)) 15 (game s1) = -1) (rand s1)).
  { change (rand s1) with (rand s). apply (Exists_impl _ _ _ Hdraw). intros r Hfree.
    apply (asteroid_at_top_after_removal b 2 _ (game s) Hwf); [lia|lia| |exact Hast|exact Hfree].
    apply random_column. }
  destruct (regen_asteroid_ends s1 Hdraw1) as [s2 Hregen].
  pose proof (wfa_count _ (wf_asteroids_ok _ Hwf)) as Hmax.
  destruct (regen_asteroid_wf s1 tt s2 Hwf1 ltac:(change (game s1) with
              (remove_asteroid (asteroid_at b 2 (game s)) (game s)); lia) Hregen)
    as (Hwf2 & Hn2 & (nx & Hnx & Hnew & Hlive2) & _ & _ & Hnp2 & Hp2 & Hsc2 & _).
  change (game s1) with (remove_asteroid (asteroid_at b 2 (game s)) (game s)) in *.
  change (score s1) with (score s) in Hsc2.
  exists (enable_asteroid_animation (basePosition (game (add_to_score 1 (hit_sound s2)))) 2
            (add_to_score 1 (hit_sound s2))), nx.
  split.
  { unfold fire_projectile. fold b.
    destruct (Z.ltb_spec (numProjectiles (game s)) MAX_PROJECTILES); [|lia].
    rewrite Hproj. cbn [andb Z.eqb game shoot_sound with_sequencer]. fold b.
    destruct (Z.eqb_spec (asteroid_at b 2 (game s)) (-1)); [contradiction|].
    cbn [negb]. unfold bind at 1. cbn [lift].
    unfold bind at 1. fold (shoot_sound s). fold s1. rewrite Hregen.
    reflexivity. }
  cbn. split; [lia|]. split; [lia|]. split; [exact Hnx|]. split.
  { intros q. rewrite Hlive2, elem_of_app, list_elem_of_singleton, Hlive1. reflexivity. }
  split.
  { intros Hin. apply Hnew. apply Hlive1. split; [exact Hin|lia]. }
  split; [apply (wfa_NoDup _ (wf_asteroids_ok _ Hwf2))|].
  split; [lia|congruence].
Qed.

(** ** A new game *)

Lemma for_loop_runs (I : Z -> State -> Prop) (body : Z -> M unit) n i0 :
  (forall k s, i0 <= k < i0 + Z.of_nat n -> I k s ->
     exists s', body k s = Some (tt, s') /\ I (k + 1) s') ->
  forall s, I i0 s ->
    exists s', for_loop n i0 body s = Some (tt, s') /\ I (i0 + Z.of_nat n) s'.
Proof.
  revert i0. induction n as [|n IH]; intros i0 Hbody s Hi.
  - exists s. split; [reflexivity|]. replace (i0 + Z.of_nat 0) with i0 by lia. exact Hi.
  - destruct (Hbody i0 s ltac:(lia) Hi) as (s1 & Hfirst & Hi1).
    destruct (IH (i0 + 1) ltac:(intros k t Hk; apply Hbody; lia) s1 Hi1) as (s' & Hrest & Hi').
    exists s'. split.
    + cbn [for_loop]. unfold bind. rewrite Hfirst. exact Hrest.
    + replace (i0 + Z.of_nat (S n)) with (i0 + 1 + Z.of_nat n) by lia. exact Hi'.
Qed.

(** With room on the field (8 columns of 13 rows) there are draws with
    which [initialise_game] ends. *)
Lemma initialise_game_ends s :
  MAX_ASTEROIDS <= 104 -> typed_game (game s) ->
  exists s',
    initialise_game (set_rand (spread_draws 0 (Z.to_nat MAX_ASTEROIDS)) s) = Some (tt, s').
Proof.
  intros Hroom [HlenA HbytesA HlenP HbytesP].
  pose (I := fun (k : Z) (t : State) =>
    numAsteroids (game t) = k /\
    Z.of_nat (length (asteroids (game t))) = MAX_ASTEROIDS /\
    rand t = spread_draws k (Z.to_nat (MAX_ASTEROIDS - k)) /\
    (forall q, q ∈ live_asteroids (game t) ->
       exists j, 0 <= j < k /\ q = 16 * (j mod 8) + (3 + j / 8))).
  unfold initialise_game, bind at 1. cbn [lift].
  match goal with |- exists s', for_loop ?n ?i ?body ?s0 = _ =>
    destruct (for_loop_runs I body n i) with (s := s0) as (s' & Hrun & _)
  end.
  - intros k t Hk (Hn & Hlen & Hrand & Hcells).
    replace (Z.to_nat (MAX_ASTEROIDS - k)) with (S (Z.to_nat (MAX_ASTEROIDS - (k + 1))))
      in Hrand by lia.
    cbn [spread_draws] in Hrand.
    assert (Hc : 0 <= k mod 8 < 8) by (apply Z.mod_pos_bound; lia).
    assert (Hr : 0 <= k / 8 < 13).
    { split; [apply Z.div_pos; lia|apply Z.div_lt_upper_bound; lia]. }
    assert (Hfree : asteroid_at (k mod 8) (3 + k / 8) (game t) = -1).
    { apply asteroid_at_none; [lia|lia|].
      rewrite checked_position_cell by lia.
      intros Hin. destruct (Hcells _ Hin) as (j & Hj & Heq).
      assert (0 <= j mod 8 < 8) by (apply Z.mod_pos_bound; lia).
      assert (0 <= j / 8 < 13).
      { split; [apply Z.div_pos; lia|apply Z.div_lt_upper_bound; lia]. }
      pose proof (Z.div_mod k 8 ltac:(lia)). pose proof (Z.div_mod j 8 ltac:(lia)). lia. }
    unfold bind, initial_cell_loop. rewrite Hrand. cbn [initial_cell_search].
    unfold FIELD_WIDTH, FIELD_HEIGHT.
    rewrite !Z2N.id by lia.
    rewrite !Z.rem_mod_nonneg by lia.
    rewrite Z.mod_mod by lia.
    rewrite (Z.mod_small (k / 8) (16 - 3)) by lia.
    rewrite (uint8_small (k mod 8)), (uint8_small (3 + k / 8)) by lia.
    rewrite Hfree. cbn [Z.eqb lift fst snd].
    eexists. split; [reflexivity|].
    unfold I. cbn.
    rewrite int8_small by lia.
    split; [lia|]. split; [rewrite length_wr; exact Hlen|].
    split; [reflexivity|].
    intros q. unfold live_asteroids. cbn.
    rewrite wr_insert by lia. rewrite Hn.
    replace (Z.to_nat (k + 1)) with (S (Z.to_nat k)) by lia.
    rewrite take_S_insert by lia.
    rewrite elem_of_app, list_elem_of_singleton.
    rewrite GAME_POSITION_cell by lia.
    intros [Hin| ->].
    + unfold live_asteroids in Hcells. rewrite Hn in Hcells.
      destruct (Hcells q Hin) as (j & Hj & Heq). exists j. split; [lia|exact Heq].
    + exists k. split; [lia|reflexivity].
  - unfold I. cbn. split; [reflexivity|]. split; [exact HlenA|].
    split; [rewrite Z.sub_0_r; reflexivity|].
    intros q Hin. apply elem_of_nil in Hin. contradiction.
  - exists s'. exact Hrun.
Qed.

(** C5, as amended: [initialise_game] sets 4 lives, the base at 3, no
    projectile and [MAX_ASTEROIDS] asteroids, each in row 3 or above, and
    leaves the score as it was; the score is 0 after [new_game], which
    clears it after the call of [initialise_game]; and when the field has
    room for the asteroids there are draws with which [new_game] ends. *)
Theorem new_game_fresh s :
  typed_game (game s) ->
  (forall u s', new_game s = Some (u, s') ->
     lives (game s') = 4 /\ score s' = 0 /\ basePosition (game s') = 3 /\
     numProjectiles (game s') = 0 /\ numAsteroids (game s') = MAX_ASTEROIDS /\
     (forall p, p ∈ live_asteroids (game s') -> 3 <= GET_Y_POSITION p <= 15)) /\
  (forall u s', initialise_game s = Some (u, s') ->
     lives (game s') = 4 /\ score s' = score s /\ basePosition (game s') = 3 /\
     numProjectiles (game s') = 0 /\ numAsteroids (game s') = MAX_ASTEROIDS /\
     (forall p, p ∈ live_asteroids (game s') -> 3 <= GET_Y_POSITION p <= 15)) /\
  (MAX_ASTEROIDS <= 104 ->
   exists s', new_game (set_rand (spread_draws 0 (Z.to_nat MAX_ASTEROIDS)) s)
              = Some (tt, s')).
Proof using MAX_ASTEROIDS_fits MAX_PROJECTILES_fits.
  intros Htyped. split; [|split].
  - intros u s' H.
    apply new_game_spec in H as (_ & Hb & Hnp & Hna & Hl & Hsc & Hrows); [|exact Htyped].
    repeat split; try assumption; apply Hrows; assumption.
  - intros u s' H.
    apply initialise_game_spec in H as (_ & Hb & Hnp & Hna & Hl & Hsc & _ & Hrows);
      [|exact Htyped].
    repeat split; try assumption; apply Hrows; assumption.
  - intros Hroom. destruct (initialise_game_ends s Hroom Htyped) as [s1 Hinit].
    unfold new_game, bind. rewrite Hinit. cbn. eauto.
Qed.

(** ** A projectile in the top row *)




Lemma top_row_count_nonneg l : 0 <= top_row_count l.
Proof.
  induction l as [|q l IH]; cbn [top_row_count]; [lia|].
  destruct (GET_Y_POSITION q =? 15); lia.
Qed.


Lemma asteroid_at_above p g :
  is_byte p -> GET_Y_POSITION p <> 15 ->
  asteroid_at (GET_X_POSITION p) (uint8 (GET_Y_POSITION p + 1)) g
  = asteroid_at (GET_X_POSITION p) (GET_Y_POSITION p + 1) g /\
  checked_position (GET_X_POSITION p) (GET_Y_POSITION p + 1) = p + 1.
Proof.
  intros Hp Hy.
  assert (Hrow : 0 <= GET_Y_POSITION p < 16).
  { rewrite GET_Y_POSITION_eq. apply Z.mod_pos_bound. lia. }
  rewrite (uint8_small (GET_Y_POSITION p + 1)) by lia.
  split; [reflexivity|].
  unfold checked_position.
  assert (Hcol : 0 <= GET_X_POSITION p < 16).
  { rewrite GET_X_POSITION_eq. destruct Hp.
    split; [apply Z.div_pos|apply Z.div_lt_upper_bound]; lia. }
  rewrite (uint8_small (GET_X_POSITION p)) by lia.
  rewrite <- (uint8_small (GET_Y_POSITION p + 1)) at 1 by lia.
  rewrite (uint8_small (uint8 (GET_Y_POSITION p + 1))) by (rewrite uint8_small; lia).
  apply move_up_eq; assumption.
Qed.

(** The round of [advance_projectiles] for a projectile below the top row
    with no asteroid above it. *)
Lemma advance_projectile_moves k s :
  wf_asteroids (game s) -> wf_projectiles (game s) ->
  0 <= k < numProjectiles (game s) ->
  GET_Y_POSITION (rd (projectiles (game s)) k) <> 15 ->
  rd (projectiles (game s)) k + 1 ∉ live_asteroids (game s) ->
  advance_projectile k s
  = Some (k + 1,
          with_game (fun g =>
            set_projectiles (wr (projectiles g) k (rd (projectiles g) k + 1)) g) s).
Proof using MAX_ASTEROIDS_fits MAX_PROJECTILES_fits.
  intros HA HP Hk Hrow Hfree.
  destruct (live_projectiles_lookup (game s) k HP Hk) as [_ Hbyte].
  pose proof (wfp_count _ HP) as Hn.
  unfold advance_projectile.
  set (p := rd (projectiles (game s)) k) in *.
  assert (Hrange : 0 <= GET_Y_POSITION p < 16)
    by (rewrite GET_Y_POSITION_eq; apply Z.mod_pos_bound; lia).
  destruct (asteroid_at_above p (game s) Hbyte Hrow) as [_ Hcell].
  destruct (Z.eqb_spec (uint8 (GET_Y_POSITION p + 1)) FIELD_HEIGHT) as [Htop|_].
  { exfalso. unfold FIELD_HEIGHT in Htop. rewrite uint8_small in Htop by lia. lia. }
  pose proof HA as [Hna Hlen _ _].
  assert (Hnone : asteroid_at (GET_X_POSITION p) (uint8 (GET_Y_POSITION p + 1)) (game s) = -1).
  { rewrite (uint8_small (GET_Y_POSITION p + 1)) by lia.
    apply asteroid_at_none; [lia|lia|]. rewrite Hcell. exact Hfree. }
  rewrite Hnone. cbn [negb Z.eqb].
  rewrite int8_small by lia.
  rewrite (move_up_eq p Hbyte Hrow). reflexivity.
Qed.

Lemma live_projectiles_moved k g v :
  wf_projectiles g -> 0 <= k < numProjectiles g ->
  live_projectiles (set_projectiles (wr (projectiles g) k v) g)
  = <[Z.to_nat k := v]> (live_projectiles g).
Proof.
  intros [Hn Hlen _] Hk. unfold live_projectiles. cbn.
  rewrite wr_insert by lia. apply take_insert_lt. lia.
Qed.

Lemma wf_projectiles_moved k g v :
  wf_projectiles g -> is_byte v ->
  wf_projectiles (set_projectiles (wr (projectiles g) k v) g).
Proof.
  intros [Hn Hlen Hb] Hv. split; cbn.
  - exact Hn.
  - rewrite length_wr. exact Hlen.
  - apply Forall_wr; assumption.
Qed.

(** The round of a projectile in the top row. *)
Lemma advance_projectile_top k s :
  wf_projectiles (game s) -> 0 <= k < numProjectiles (game s) ->
  GET_Y_POSITION (rd (projectiles (game s)) k) = 15 ->
  advance_projectile k s = Some (k, with_game (remove_projectile k) s).
Proof.
  intros HP Hk Htop. unfold advance_projectile. rewrite Htop. reflexivity.
Qed.





(** The round of [advance_projectiles] at a projectile that is below an
    asteroid, both below the top row, when every cell of the top row is
    taken: the regeneration does not end, whatever the draws. *)
Lemma advance_projectile_stuck k s :
  wf_game (game s) -> 0 <= k < numProjectiles (game s) ->
  GET_Y_POSITION (rd (projectiles (game s)) k) < 14 ->
  asteroid_at (GET_X_POSITION (rd (projectiles (game s)) k))
              (GET_Y_POSITION (rd (projectiles (game s)) k) + 1) (game s) <> -1 ->
  (forall c, 0 <= c < 8 -> asteroid_at c 15 (game s) <> -1) ->
  advance_projectile k s = None.
Proof using MAX_ASTEROIDS_fits MAX_PROJECTILES_fits.
  intros Hwf Hk Hrow Hast Hfull.
  pose proof (wf_projectiles_ok _ Hwf) as HP.
  destruct (live_projectiles_lookup (game s) k HP Hk) as [_ Hbyte].
  unfold advance_projectile.
  set (p := rd (projectiles (game s)) k) in *.
  assert (Hy : 0 <= GET_Y_POSITION p < 16)
    by (rewrite GET_Y_POSITION_eq; apply Z.mod_pos_bound; lia).
  assert (Hx : 0 <= GET_X_POSITION p < 16).
  { rewrite GET_X_POSITION_eq. destruct Hbyte.
    split; [apply Z.div_pos|apply Z.div_lt_upper_bound]; lia. }
  rewrite (uint8_small (GET_Y_POSITION p + 1)) by lia. unfold FIELD_HEIGHT.
  destruct (Z.eqb_spec (GET_Y_POSITION p + 1) 16); [lia|].
  destruct (Z.eqb_spec (asteroid_at (GET_X_POSITION p) (GET_Y_POSITION p + 1) (game s)) (-1));
    [contradiction|].
  cbn [negb]. unfold bind at 1. cbn [lift]. unfold bind at 1. cbn [lift].
  unfold bind at 1. cbn [lift]. unfold bind at 1. cbn [lift].
  unfold bind at 1. unfold regen_asteroid, bind, top_row_loop.
  cbn [game with_game rand add_to_score set_score hit_sound with_sequencer].
  destruct (remove_projectile_frame k (game s)) as (_ & Hna1 & Ha1 & _).
  pose proof (proj1 (remove_projectile_wf k (game s) Hwf Hk)) as Hwf1.
  set (g1 := remove_projectile k (game s)) in *.
  rewrite top_row_search_full; [reflexivity|].
  apply (top_row_full_after_removal (GET_X_POSITION p) (GET_Y_POSITION p + 1) g1 Hwf1);
    [lia|lia| |].
  - rewrite (asteroid_at_same _ _ _ _ Hna1 Ha1). assumption.
  - intros c Hc. rewrite (asteroid_at_same _ _ _ _ Hna1 Ha1). exact (Hfull c Hc).
Qed.

(** The call of [advance_projectiles] with two projectiles, the first in
    the top row and the second below an asteroid, when every cell of the
    top row is taken: the first is removed, and the regeneration after the
    hit of the second does not end. *)
Lemma advance_projectiles_stuck s :
  wf_game (game s) -> numProjectiles (game s) = 2 ->
  GET_Y_POSITION (rd (projectiles (game s)) 0) = 15 ->
  GET_Y_POSITION (rd (projectiles (game s)) 1) < 14 ->
  asteroid_at (GET_X_POSITION (rd (projectiles (game s)) 1))
              (GET_Y_POSITION (rd (projectiles (game s)) 1) + 1) (game s) <> -1 ->
  (forall c, 0 <= c < 8 -> asteroid_at c 15 (game s) <> -1) ->
  advance_projectiles s = None.
Proof using MAX_ASTEROIDS_fits MAX_PROJECTILES_fits.
  intros Hwf Hn Htop Hrow Hast Hfull.
  pose proof (wf_projectiles_ok _ Hwf) as HP.
  destruct (live_projectiles_lookup (game s) 1 HP ltac:(lia)) as [Hsecond _].
  destruct (remove_projectile_typed 0 (game s) HP ltac:(lia)) as (HP1 & Hcount1 & Hlive1).
  destruct (remove_projectile_frame 0 (game s)) as (_ & Hna1 & Ha1 & _).
  pose proof (proj1 (remove_projectile_wf 0 (game s) Hwf ltac:(lia))) as Hwf1.
  set (s1 := with_game (remove_projectile 0) s).
  change (remove_projectile 0 (game s)) with (game s1) in *.
  destruct (live_projectiles_lookup (game s1) 0 HP1 ltac:(lia)) as [Hfirst1 _].
  assert (Hsame : rd (projectiles (game s1)) 0 = rd (projectiles (game s)) 1).
  { rewrite Hlive1 in Hfirst1. change (Z.to_nat 0) with 0%nat in Hfirst1.
    change (Z.to_nat 1) with 1%nat in Hsecond.
    destruct (live_projectiles (game s)) as [|q0 [|q1 rest]]; cbn in *; congruence. }
  assert (Hstuck : advance_projectile 0 s1 = None).
  { apply advance_projectile_stuck.
    - exact Hwf1.
    - lia.
    - rewrite Hsame. exact Hrow.
    - rewrite Hsame. rewrite (asteroid_at_same _ _ _ _ Hna1 Ha1). exact Hast.
    - intros c Hc. rewrite (asteroid_at_same _ _ _ _ Hna1 Ha1). exact (Hfull c Hc). }
  unfold advance_projectiles. rewrite Hn. change (Z.to_nat 2) with 2%nat.
  unfold bind at 1. cbn [advance_projectiles_loop]. rewrite Hn.
  change (0 <? 2) with true. cbn iota.
  unfold bind at 1. rewrite (advance_projectile_top 0 s HP ltac:(lia) Htop).
  fold s1. rewrite Hcount1, Hn. change (0 <? 2 - 1) with true. cbn iota.
  unfold bind at 1. rewrite Hstuck. reflexivity.
Qed.





(** ** The asteroid interval *)

(** The product [get_score()*1.8] as the test computes it is at most 499
    for the scores up to 277, and 500 or more from 278 on. *)
Lemma score_product_bounds score :
  (0 <= score <= 277 -> round24 (round24 score * double_1_8) <= 499 * double_unit) /\
  (278 <= score -> 500 * double_unit <= round24 (round24 score * double_1_8)).
Proof.
  unfold double_unit, double_1_8. split; intros Hscore.
  - assert (H0 : 0 <= round24 score)
      by (apply round24_ge; [lia|apply round24_small; lia]).
    assert (H277 : round24 score <= 277)
      by (apply round24_le; [lia|apply round24_small; lia]).
    apply round24_le; [nia|]. apply round24_exact; lia.
  - assert (H278 : 278 <= round24 score)
      by (apply round24_ge; [lia|apply round24_small; lia]).
    apply round24_ge; [nia|]. apply round24_exact; lia.
Qed.

(** C8, as amended: the interval [500 - 1.8 * score] between two advances of
    the asteroids has no floor; it is positive exactly for the scores up to
    277.  As long as the clock is below [2^24] time units, the test of the
    game loop, as it is computed in [double], fails for these scores when
    no time has passed, and from 278 on it succeeds every time it is
    made. *)
Theorem asteroid_interval_sign score :
  (0 < asteroid_interval_tenths score <-> score <= 277) /\
  (forall current_time last_asteroid_time,
     278 <= score -> 0 <= last_asteroid_time -> last_asteroid_time + 500 < 2 ^ 24 ->
     last_asteroid_time <= current_time < 2 ^ 24 ->
     asteroids_due current_time last_asteroid_time score = true) /\
  (forall current_time last_asteroid_time,
     0 <= score <= 277 -> 0 <= current_time <= last_asteroid_time ->
     last_asteroid_time + 500 < 2 ^ 24 ->
     asteroids_due current_time last_asteroid_time score = false).
Proof.
  destruct (score_product_bounds score) as [Hlow Hhigh].
  split; [unfold asteroid_interval_tenths; lia|].
  split.
  - intros current_time last_asteroid_time Hscore Hlast Hsum Htime.
    specialize (Hhigh Hscore).
    unfold asteroids_due, double_of_uint32, uint32.
    rewrite (Z.mod_small (last_asteroid_time + 500)) by lia.
    rewrite (round24_small (last_asteroid_time + 500)) by lia.
    rewrite (round24_small current_time) by lia.
    apply Z.leb_le. unfold double_unit in *.
    apply round24_le; [lia|]. apply round24_exact; lia.
  - intros current_time last_asteroid_time Hscore Htime Hsum.
    specialize (Hlow Hscore).
    unfold asteroids_due, double_of_uint32, uint32.
    rewrite (Z.mod_small (last_asteroid_time + 500)) by lia.
    rewrite (round24_small (last_asteroid_time + 500)) by lia.
    rewrite (round24_small current_time) by lia.
    apply Z.leb_gt. unfold double_unit in *.
    assert (Hnext : (last_asteroid_time + 1) * 2 ^ 23
                    <= round24 ((last_asteroid_time + 500) * 2 ^ 23
                                - round24 (round24 score * double_1_8))).
    { apply round24_ge; [lia|]. apply round24_exact; lia. }
    lia.
Qed.

(** ** The base-hit alarm *)

(** C9, as amended: triggering the alarm, running or not, marks it active
    and puts it at step 1, and changes nothing else: the time stamp of the
    last step stays, so the first tone after the trigger is due as the test
    of [handle_basehit_sound] finds it from that old time stamp. *)
Theorem enable_basehit_sound_restarts s :
  base_hit_sound (sequencer (enable_basehit_sound s)) = 1 /\
  basehit_sequence (sequencer (enable_basehit_sound s)) = 1 /\
  basehit_time (sequencer (enable_basehit_sound s)) = basehit_time (sequencer s) /\
  game (enable_basehit_sound s) = game s /\
  clock (enable_basehit_sound s) = clock s /\
  basehit_sequence (sequencer (handle_basehit_sound (enable_basehit_sound s)))
  = (if basehit_step_due (clock s) 1 (basehit_time (sequencer s)) then 2 else 1).
Proof.
  do 5 (split; [reflexivity|]).
  unfold handle_basehit_sound, enable_basehit_sound. cbn.
  destruct (basehit_step_due (clock s) 1 (basehit_time (sequencer s))); reflexivity.
Qed.

(** ** The retry loops *)

Lemma initial_cell_search_full draws g :
  (forall x y, 0 <= x < 8 -> 3 <= y < 16 -> asteroid_at x y g <> -1) ->
  initial_cell_search draws g = None.
Proof.
  intros Hfull.
  assert (Hboth : initial_cell_search draws g = None /\
                  forall r, initial_cell_search (r :: draws) g = None).
  { induction draws as [|ry draws [IH1 IH2]].
    - split; [reflexivity|]. intros r. reflexivity.
    - split; [apply IH2|]. intros rx. cbn [initial_cell_search].
      destruct (Z.eqb_spec
                  (asteroid_at (uint8 (Z.rem (Z.of_N rx) FIELD_WIDTH))
                     (uint8 (3 + Z.rem (Z.of_N ry) (FIELD_HEIGHT - 3))) g) (-1))
        as [Hfree|_]; [|exact IH1].
      exfalso. revert Hfree. apply Hfull; [apply random_column|].
      unfold FIELD_HEIGHT. change (16 - 3) with 13.
      pose proof (Z.rem_bound_pos (Z.of_N ry) 13 ltac:(lia) ltac:(lia)).
      rewrite uint8_small; lia. }
  apply Hboth.
Qed.

Lemma projectile_at_same x y g g' :
  numProjectiles g' = numProjectiles g -> projectiles g' = projectiles g ->
  projectile_at x y g' = projectile_at x y g.
Proof. intros Hn Hp. unfold projectile_at. rewrite Hn, Hp. reflexivity. Qed.

(** C10: with an asteroid in each of the 8 cells of row 15 the retry loop of
    [regen_asteroid] never ends, whatever the draws, and neither does the
    same loop in [advance_asteroids] for an asteroid that leaves row 0 (the
    whole call, when that is the first cell of the scan), nor the loop of
    [initialise_game] with an asteroid in each cell of rows 3 to 15; a loop
    that ends ends on a cell that held no asteroid; and the loop of
    [regen_asteroid] does end when a draw for a free column is among the
    pending draws. *)
Theorem retry_loops :
  (forall s, (forall x, 0 <= x < 8 -> asteroid_at x 15 (game s) <> -1) ->
     top_row_loop s = None /\ regen_asteroid s = None) /\
  (forall s x,
     wf_game (game s) -> 0 <= x < 8 ->
     (forall c, 0 <= c < 8 -> asteroid_at c 15 (game s) <> -1) ->
     asteroid_at x 0 (game s) <> -1 ->
     projectile_at x 0 (game s) = -1 -> projectile_at x (-1) (game s) = -1 ->
     advance_cell x 0 s = None /\ (x = 0 -> advance_asteroids s = None)) /\
  (forall s,
     (forall x y, 0 <= x < 8 -> 3 <= y < 16 -> asteroid_at x y (game s) <> -1) ->
     initial_cell_loop s = None) /\
  (forall s new_x s', top_row_loop s = Some (new_x, s') ->
     0 <= new_x < 8 /\ asteroid_at new_x 15 (game s) = -1) /\
  (forall s u s', regen_asteroid s = Some (u, s') ->
     exists new_x, 0 <= new_x < 8 /\ asteroid_at new_x 15 (game s) = -1 /\
       game s' = add_asteroid (GAME_POSITION new_x 15) (game s)) /\
  (forall s xy s', initial_cell_loop s = Some (xy, s') ->
     0 <= fst xy < 8 /\ 3 <= snd xy < 16 /\
     asteroid_at (fst xy) (snd xy) (game s) = -1) /\
  (forall s,
     Exists (fun r => asteroid_at (uint8 (Z.rem (Z.of_N r) FIELD_WIDTH)) 15 (game s) = -1)
            (rand s) ->
     exists s', regen_asteroid s = Some (tt, s')).
Proof using MAX_ASTEROIDS_fits.
  split; [|split; [|split; [|split; [|split; [|split]]]]].
  - intros s Hfull.
    assert (Hloop : top_row_loop s = None).
    { unfold top_row_loop. rewrite top_row_search_full by exact Hfull. reflexivity. }
    split; [exact Hloop|]. unfold regen_asteroid, bind. rewrite Hloop. reflexivity.
  - intros s x Hwf Hx Hfull Hast Hp0 Hp15.
    assert (Hcell : advance_cell x 0 s = None).
    { unfold advance_cell.
      destruct (Z.eqb_spec (asteroid_at x 0 (game s)) (-1)) as [|_]; [contradiction|].
      cbn [negb game with_game].
      destruct (remove_found_asteroid x 0 (game s) Hwf Hast) as (Hwf1 & Hn1 & Hlive1).
      destruct (remove_asteroid_frame (asteroid_at x 0 (game s)) (game s))
        as (Hb1 & Hnp1 & Hp1 & _).
      set (g1 := remove_asteroid (asteroid_at x 0 (game s)) (game s)) in *.
      rewrite (projectile_at_same x 0 _ _ Hnp1 Hp1), Hp0.
      change (0 - 1) with (-1).
      rewrite (projectile_at_same x (-1) _ _ Hnp1 Hp1), Hp15.
      cbn [negb Z.eqb].
      assert (Hbase : base_collision (basePosition g1) x 0 = false).
      { unfold base_collision. cbn. rewrite !andb_false_r. reflexivity. }
      rewrite Hbase. cbn [negb Z.eqb].
      unfold bind. unfold top_row_loop. cbn [game with_game rand].
      fold g1. clearbody g1.
      rewrite top_row_search_full; [reflexivity|].
      intros c Hc Hfree.
      pose proof (wf_asteroids_ok _ Hwf) as [Hn Hlen _ _].
      pose proof (wf_asteroids_ok _ Hwf1) as [Hn' Hlen' _ _].
      apply asteroid_at_none in Hfree;
        [|cbn; rewrite int8_small; lia|cbn; rewrite int8_small; lia].
      apply (Hfull c Hc). apply asteroid_at_none; [lia|lia|].
      intros Hin. apply Hfree.
      rewrite checked_position_cell in * by lia.
      assert (Hin1 : 16 * c + 15 ∈ live_asteroids g1).
      { apply Hlive1. split; [exact Hin|]. rewrite ?checked_position_cell by lia. lia. }
      unfold live_asteroids in *. cbn. rewrite int8_small by lia.
      apply list_elem_of_lookup in Hin1 as [k Hk].
      apply lookup_take_Some in Hk as [Hk Hlt].
      apply list_elem_of_lookup. exists k. rewrite lookup_take_lt by lia. exact Hk. }
    split; [exact Hcell|]. intros ->.
    unfold advance_asteroids. cbn [for_loop]. unfold bind at 1 2.
    rewrite Hcell. reflexivity.
  - intros s Hfull. unfold initial_cell_loop.
    rewrite initial_cell_search_full by exact Hfull. reflexivity.
  - intros s new_x s' H.
    destruct (top_row_loop_Some _ _ _ H) as (Hx & Hfree & _). split; assumption.
  - intros s u s' H.
    destruct (regen_asteroid_Some _ _ _ H) as (x & rest & Hx & Hfree & ->).
    exists x. split; [exact Hx|]. split; [exact Hfree|reflexivity].
  - intros s xy s' H.
    destruct (initial_cell_loop_Some _ _ _ H) as (Hx & Hy & Hfree & _).
    split; [exact Hx|]. split; [exact Hy|exact Hfree].
  - intros s Hdraw. apply regen_asteroid_ends. exact Hdraw.
Qed.

(** * Further facts *)

(** ** The LEDs of the lives *)

Lemma byte_high_bits p k : is_byte p -> 8 <= k -> Z.testbit p k = false.
Proof.
  intros [H0 H1] Hk. destruct (Z.eq_dec p 0) as [->|Hne]; [apply Z.bits_0|].
  apply Z.bits_above_log2; [lia|].
  assert (Z.log2 p < 8); [|lia].
  apply Z.log2_lt_pow2; [lia|]. change (2 ^ 8) with 256. lia.
Qed.

Lemma uint8_testbit z k :
  0 <= k -> Z.testbit (uint8 z) k = if k <? 8 then Z.testbit z k else false.
Proof.
  intros Hk. unfold uint8. change 256 with (2 ^ 8).
  destruct (Z.ltb_spec k 8).
  - apply Z.mod_pow2_bits_low. lia.
  - apply Z.mod_pow2_bits_high. lia.
Qed.

Lemma update_led_testbit l p k :
  is_byte p -> 0 <= k ->
  Z.testbit (update_led l p) k
  = if (l =? 4) && ((k =? 2) || (k =? 3) || (k =? 4) || (k =? 5)) then true
    else if ((l =? 3) && (k =? 5)) || ((l =? 2) && (k =? 2))
            || ((l =? 1) && (k =? 4)) || ((l =? 0) && (k =? 3)) then false
    else Z.testbit p k.
Proof.
  intros Hp Hk. unfold update_led.
  destruct (Z.ltb_spec k 8) as [Hlow|Hhigh].
  - assert (Hcases : k = 0 \/ k = 1 \/ k = 2 \/ k = 3 \/ k = 4 \/ k = 5 \/ k = 6 \/ k = 7)
      by lia.
    destruct (Z.eqb_spec l 4) as [->|?]; [|destruct (Z.eqb_spec l 3) as [->|?];
      [|destruct (Z.eqb_spec l 2) as [->|?]; [|destruct (Z.eqb_spec l 1) as [->|?];
      [|destruct (Z.eqb_spec l 0) as [->|?]]]]];
      try rewrite uint8_testbit by lia;
      try rewrite Z.lor_spec; try rewrite Z.land_spec;
      destruct Hcases as [->|[->|[->|[->|[->|[->|[->| ->]]]]]]]; cbn;
      rewrite ?orb_true_r, ?orb_false_r, ?andb_true_r, ?andb_false_r; reflexivity.
  - assert (Hother : (k =? 2) = false /\ (k =? 3) = false /\ (k =? 4) = false
                     /\ (k =? 5) = false) by (repeat split; apply Z.eqb_neq; lia).
    destruct Hother as (-> & -> & -> & ->).
    rewrite !andb_false_r. cbn [orb].
    destruct (Z.eqb_spec l 4) as [->|?]; [|destruct (Z.eqb_spec l 3) as [->|?];
      [|destruct (Z.eqb_spec l 2) as [->|?]; [|destruct (Z.eqb_spec l 1) as [->|?];
      [|destruct (Z.eqb_spec l 0) as [->|?]]]]];
      try rewrite uint8_testbit by lia;
      try (destruct (Z.ltb_spec k 8); [lia|]);
      try reflexivity; symmetry; apply byte_high_bits; assumption.
Qed.

Lemma update_led_byte l p : is_byte p -> is_byte (update_led l p).
Proof.
  intros Hp. unfold update_led.
  destruct (l =? 4); [apply uint8_is_byte|].
  destruct (l =? 3); [apply uint8_is_byte|].
  destruct (l =? 2); [apply uint8_is_byte|].
  destruct (l =? 1); [apply uint8_is_byte|].
  destruct (l =? 0); [apply uint8_is_byte|exact Hp].
Qed.

Lemma lives_leds_update_led l p :
  is_byte p ->
  lives_leds (update_led l p)
  = (if l =? 4 then 1 else if l =? 2 then 0 else if Z.testbit p 2 then 1 else 0)
    + (if l =? 4 then 1 else if l =? 0 then 0 else if Z.testbit p 3 then 1 else 0)
    + (if l =? 4 then 1 else if l =? 1 then 0 else if Z.testbit p 4 then 1 else 0)
    + (if l =? 4 then 1 else if l =? 3 then 0 else if Z.testbit p 5 then 1 else 0).
Proof.
  intros Hp. unfold lives_leds. rewrite !update_led_testbit by (assumption || lia).
  destruct (Z.eqb_spec l 4) as [->|?]; [reflexivity|].
  destruct (Z.eqb_spec l 3) as [->|?]; [reflexivity|].
  destruct (Z.eqb_spec l 2) as [->|?]; [reflexivity|].
  destruct (Z.eqb_spec l 1) as [->|?]; [reflexivity|].
  destruct (Z.eqb_spec l 0) as [->|?]; reflexivity.
Qed.

(** The bits 2 to 5 of the port after the values from 4 down to [l] have
    been shown. *)
Lemma show_lives_down_bits l p :
  is_byte p -> 0 <= l <= 4 ->
  let port := show_lives (lives_down_to l) p in
  is_byte port /\
  Z.testbit port 2 = (3 <=? l) /\ Z.testbit port 3 = (1 <=? l) /\
  Z.testbit port 4 = (2 <=? l) /\ Z.testbit port 5 = (4 <=? l).
Proof.
  intros Hp Hl.
  assert (Hcases : l = 0 \/ l = 1 \/ l = 2 \/ l = 3 \/ l = 4) by lia.
  destruct Hcases as [->|[->|[->|[->| ->]]]];
    cbn [lives_down_to show_lives fold_left List.filter Z.leb Z.compare Pos.compare
         Pos.compare_cont];
    (split; [repeat apply update_led_byte; exact Hp|]);
    repeat (rewrite update_led_testbit by (repeat apply update_led_byte; assumption || lia));
    cbn; repeat split; reflexivity.
Qed.

(** X1: [update_led] leaves the bits of the port outside 2..5 as they
    were, and the whole port when [lives] is not one of 0..4; and when the
    values 4, 3, ... down to [l] have been shown one after the other, the
    number of LEDs that are on is [l]. *)
Theorem update_led_counts_down PORTA :
  is_byte PORTA ->
  (forall l, is_byte (update_led l PORTA)) /\
  (forall l k, 0 <= k -> k < 2 \/ 5 < k ->
     Z.testbit (update_led l PORTA) k = Z.testbit PORTA k) /\
  (forall l, l < 0 \/ 4 < l -> update_led l PORTA = PORTA) /\
  (forall l, 0 <= l <= 4 -> lives_leds (show_lives (lives_down_to l) PORTA) = l).
Proof.
  intros Hp. split; [|split; [|split]].
  - intros l. apply update_led_byte. exact Hp.
  - intros l k Hk Hout. rewrite update_led_testbit by assumption.
    assert (Hother : (k =? 2) = false /\ (k =? 3) = false /\ (k =? 4) = false
                     /\ (k =? 5) = false) by (repeat split; apply Z.eqb_neq; lia).
    destruct Hother as (-> & -> & -> & ->).
    rewrite !andb_false_r. reflexivity.
  - intros l Hl. unfold update_led.
    destruct (Z.eqb_spec l 4); [lia|]. destruct (Z.eqb_spec l 3); [lia|].
    destruct (Z.eqb_spec l 2); [lia|]. destruct (Z.eqb_spec l 1); [lia|].
    destruct (Z.eqb_spec l 0); [lia|reflexivity].
  - intros l Hl.
    destruct (show_lives_down_bits l PORTA Hp Hl) as (_ & H2 & H3 & H4 & H5).
    unfold lives_leds. rewrite H2, H3, H4, H5.
    assert (Hcases : l = 0 \/ l = 1 \/ l = 2 \/ l = 3 \/ l = 4) by lia.
    destruct Hcases as [->|[->|[->|[->| ->]]]]; reflexivity.
Qed.

(** ** Positions and the two arrays *)

(** X2: the macros [GAME_POSITION], [GET_X_POSITION] and [GET_Y_POSITION]
    are inverse to each other on bytes: a column below 16 and a row give a
    byte from which the column and the row modulo 16 are read back (the row
    is masked with [0x0F]), and every byte is the position of its column and
    row.  No cell of the columns 0..7 is [INVALID_POSITION], whose column
    is 15. *)
Theorem position_round_trip :
  (forall x y, 0 <= x < 16 ->
     is_byte (GAME_POSITION x y) /\
     GET_X_POSITION (GAME_POSITION x y) = x /\
     GET_Y_POSITION (GAME_POSITION x y) = y mod 16) /\
  (forall p, is_byte p ->
     GAME_POSITION (GET_X_POSITION p) (GET_Y_POSITION p) = p /\
     0 <= GET_X_POSITION p < 16 /\ 0 <= GET_Y_POSITION p < 16) /\
  (forall x y, 0 <= x <= 7 ->
     GAME_POSITION x y < 128 /\ GAME_POSITION x y <> INVALID_POSITION) /\
  GET_X_POSITION INVALID_POSITION = 15 /\ GET_Y_POSITION INVALID_POSITION = 15.
Proof.
  split; [|split; [|split; [|split; reflexivity]]].
  - intros x y Hx. rewrite GET_X_POSITION_eq, GET_Y_POSITION_eq, GAME_POSITION_eq.
    pose proof (Z.mod_pos_bound y 16 ltac:(lia)) as Hy.
    split; [unfold is_byte; lia|]. split.
    + rewrite Z.mul_comm, Z.div_add_l by lia. rewrite Z.div_small by lia. lia.
    + rewrite Z.add_comm, Z.mul_comm, Z.mod_add by lia. apply Z.mod_mod. lia.
  - intros p [Hp0 Hp1]. rewrite GAME_POSITION_eq, GET_X_POSITION_eq, GET_Y_POSITION_eq.
    pose proof (Z.mod_pos_bound p 16 ltac:(lia)) as Hy.
    pose proof (Z.div_mod p 16 ltac:(lia)) as Hdm.
    rewrite Z.mod_mod by lia.
    split; [lia|]. split; [|lia].
    split; [apply Z.div_pos; lia|apply Z.div_lt_upper_bound; lia].
  - intros x y Hx. rewrite GAME_POSITION_eq.
    pose proof (Z.mod_pos_bound y 16 ltac:(lia)) as Hy.
    unfold INVALID_POSITION. lia.
Qed.

Lemma checked_position_wraps x y : checked_position x (y + 16) = checked_position x y.
Proof.
  unfold checked_position. rewrite !GAME_POSITION_eq. f_equal. f_equal.
  unfold uint8.
  rewrite !Z.mod_mod_divide by (exists 16; reflexivity).
  change (y + 16) with (y + 1 * 16). apply Z.mod_add. lia.
Qed.

(** X3: [asteroid_at] and [projectile_at] give -1 when no entry below the
    count holds the position looked for, and otherwise the first index that
    holds it; entries from the count on are not looked at.  The row is taken
    modulo 16, so row -1 is row 15. *)
Theorem position_lookup g x y :
  numAsteroids g <= 127 -> numProjectiles g <= 127 ->
  ((asteroid_at x y g = -1 /\
    forall j, 0 <= j < numAsteroids g -> rd (asteroids g) j <> checked_position x y)
   \/ (0 <= asteroid_at x y g < numAsteroids g /\
       rd (asteroids g) (asteroid_at x y g) = checked_position x y /\
       forall j, 0 <= j < asteroid_at x y g ->
                 rd (asteroids g) j <> checked_position x y)) /\
  ((projectile_at x y g = -1 /\
    forall j, 0 <= j < numProjectiles g -> rd (projectiles g) j <> checked_position x y)
   \/ (0 <= projectile_at x y g < numProjectiles g /\
       rd (projectiles g) (projectile_at x y g) = checked_position x y /\
       forall j, 0 <= j < projectile_at x y g ->
                 rd (projectiles g) j <> checked_position x y)) /\
  asteroid_at x (y + 16) g = asteroid_at x y g /\
  projectile_at x (y + 16) g = projectile_at x y g.
Proof.
  intros Hna Hnp.
  assert (Hsearch : forall a n, n <= 127 ->
    (position_search a (checked_position x y) (Z.to_nat n) 0 = -1 /\
     forall j, 0 <= j < n -> rd a j <> checked_position x y)
    \/ (0 <= position_search a (checked_position x y) (Z.to_nat n) 0 < n /\
        rd a (position_search a (checked_position x y) (Z.to_nat n) 0)
        = checked_position x y /\
        forall j, 0 <= j < position_search a (checked_position x y) (Z.to_nat n) 0 ->
                  rd a j <> checked_position x y)).
  { intros a n Hn.
    destruct (position_search_spec a (checked_position x y) (Z.to_nat n) 0)
      as [[Hnone Hall]|(Hrange & Hat & Hfirst)]; [lia|lia| |].
    - left. split; [exact Hnone|]. intros j Hj. apply Hall. lia.
    - right. split; [lia|]. split; [exact Hat|exact Hfirst]. }
  split; [apply (Hsearch (asteroids g) (numAsteroids g) Hna)|].
  split; [apply (Hsearch (projectiles g) (numProjectiles g) Hnp)|].
  split.
  - unfold asteroid_at. fold (checked_position x (y + 16)). fold (checked_position x y).
    rewrite checked_position_wraps. reflexivity.
  - unfold projectile_at. fold (checked_position x (y + 16)). fold (checked_position x y).
    rewrite checked_position_wraps. reflexivity.
Qed.

Lemma rd_wr_same (a : list Z) i v :
  0 <= i < Z.of_nat (length a) -> rd (wr a i v) i = v.
Proof.
  intros Hi. rewrite wr_insert by lia. apply rd_lookup; [lia|].
  apply list_lookup_insert_eq. lia.
Qed.

Lemma rd_wr_other (a : list Z) i j v : 0 <= j -> i <> j -> rd (wr a i v) j = rd a j.
Proof.
  intros Hj Hne. unfold wr. destruct (Z.ltb_spec i 0); [reflexivity|].
  unfold rd. destruct (Z.ltb_spec j 0); [lia|].
  rewrite list_lookup_insert_ne by lia. reflexivity.
Qed.

(** X4: [remove_asteroid] with an index that is negative or not below the
    count changes nothing.  With an index below the count there is one
    asteroid less: the last one has taken the slot of the one removed, the
    others keep their slots, and the base, the projectiles and the lives are
    as before. *)
Theorem remove_asteroid_slot i g :
  numAsteroids g <= 127 -> numAsteroids g <= Z.of_nat (length (asteroids g)) ->
  (i < 0 \/ numAsteroids g <= i -> remove_asteroid i g = g) /\
  (0 <= i < numAsteroids g ->
   numAsteroids (remove_asteroid i g) = numAsteroids g - 1 /\
   (forall j, 0 <= j < numAsteroids g - 1 ->
      rd (asteroids (remove_asteroid i g)) j
      = if j =? i then rd (asteroids g) (numAsteroids g - 1) else rd (asteroids g) j) /\
   live_asteroids (remove_asteroid i g) ≡ₚ delete (Z.to_nat i) (live_asteroids g) /\
   basePosition (remove_asteroid i g) = basePosition g /\
   numProjectiles (remove_asteroid i g) = numProjectiles g /\
   projectiles (remove_asteroid i g) = projectiles g /\
   lives (remove_asteroid i g) = lives g).
Proof.
  intros Hn Hlen. split.
  - intros Hi. unfold remove_asteroid.
    destruct (Z.ltb_spec i 0); [reflexivity|].
    destruct (Z.geb_spec i (numAsteroids g)); [reflexivity|lia].
  - intros Hi.
    split; [apply remove_asteroid_count; lia|].
    split; [|split; [apply remove_asteroid_live; lia|apply remove_asteroid_frame]].
    intros j Hj. unfold remove_asteroid.
    destruct (Z.ltb_spec i 0); [lia|].
    destruct (Z.geb_spec i (numAsteroids g)); [lia|]. cbn [orb].
    destruct (Z.ltb_spec i (numAsteroids g - 1)) as [Hlt|Hge]; cbn.
    + destruct (Z.eqb_spec j i) as [->|Hne].
      * apply rd_wr_same. lia.
      * apply rd_wr_other; lia.
    + destruct (Z.eqb_spec j i) as [->|Hne]; [lia|reflexivity].
Qed.

Lemma asteroid_at_present x y g :
  numAsteroids g <= 127 -> numAsteroids g <= Z.of_nat (length (asteroids g)) ->
  asteroid_at x y g <> -1 <-> checked_position x y ∈ live_asteroids g.
Proof.
  intros Hn Hlen. rewrite (asteroid_at_none x y g Hn Hlen).
  split; [|intros Hin Hnot; exact (Hnot Hin)].
  intros Hnn. destruct (decide (checked_position x y ∈ live_asteroids g)) as [Hin|Hout];
    [exact Hin|contradiction].
Qed.

Lemma projectile_at_present x y g :
  numProjectiles g <= 127 -> numProjectiles g <= Z.of_nat (length (projectiles g)) ->
  projectile_at x y g <> -1 <-> checked_position x y ∈ live_projectiles g.
Proof.
  intros Hn Hlen. rewrite (projectile_at_none x y g Hn Hlen).
  split; [|intros Hin Hnot; exact (Hnot Hin)].
  intros Hnn. destruct (decide (checked_position x y ∈ live_projectiles g)) as [Hin|Hout];
    [exact Hin|contradiction].
Qed.

(** What [remove_asteroid(asteroid_at(x, y))] does to the cells. *)
Lemma remove_asteroid_at_cell x y g :
  wf_asteroids g ->
  (asteroid_at x y g = -1 -> remove_asteroid (asteroid_at x y g) g = g) /\
  asteroid_at x y (remove_asteroid (asteroid_at x y g) g) = -1 /\
  (forall x' y', checked_position x' y' <> checked_position x y ->
     (asteroid_at x' y' (remove_asteroid (asteroid_at x y g) g) = -1
      <-> asteroid_at x' y' g = -1)) /\
  (asteroid_at x y g <> -1 ->
   numAsteroids (remove_asteroid (asteroid_at x y g) g) = numAsteroids g - 1).
Proof using MAX_ASTEROIDS_fits.
  intros Hwf. pose proof Hwf as [Hn Hlen Hb Hnd].
  split.
  { intros ->. reflexivity. }
  destruct (Z.eq_dec (asteroid_at x y g) (-1)) as [Hfree|Hbusy].
  - rewrite Hfree. change (remove_asteroid (-1) g) with g.
    split; [exact Hfree|]. split; [reflexivity|contradiction].
  - destruct (remove_found_asteroid_wf x y g Hwf Hbusy) as (Hwf' & Hcount & Hlive).
    pose proof Hwf' as [Hn' Hlen' _ _].
    split; [|split; [|intros _; exact Hcount]].
    + apply asteroid_at_none; [lia|lia|]. rewrite Hlive. intros [_ Hne]. apply Hne. reflexivity.
    + intros x' y' Hne.
      rewrite (asteroid_at_none x' y' (remove_asteroid (asteroid_at x y g) g))
        by lia.
      rewrite (asteroid_at_none x' y' g) by lia.
      rewrite Hlive. split.
      * intros Hnot Hin. apply Hnot. split; assumption.
      * intros Hnot [Hin _]. exact (Hnot Hin).
Qed.

(** X5: [remove_asteroid(asteroid_at(x, y))], as the engine writes it,
    frees the cell: afterwards [asteroid_at] finds nothing there, every other
    cell is occupied exactly when it was before, and the count is one less;
    when the cell was free already, nothing changes. *)
Theorem remove_asteroid_frees_cell x y g :
  wf_asteroids g ->
  (asteroid_at x y g = -1 -> remove_asteroid (asteroid_at x y g) g = g) /\
  asteroid_at x y (remove_asteroid (asteroid_at x y g) g) = -1 /\
  (forall x' y', checked_position x' y' <> checked_position x y ->
     (asteroid_at x' y' (remove_asteroid (asteroid_at x y g) g) = -1
      <-> asteroid_at x' y' g = -1)) /\
  (asteroid_at x y g <> -1 ->
   numAsteroids (remove_asteroid (asteroid_at x y g) g) = numAsteroids g - 1).
Proof using MAX_ASTEROIDS_fits. exact (remove_asteroid_at_cell x y g). Qed.

(** X6: [remove_projectile] with an index that is negative or not below
    the count changes nothing.  With an index below the count there is one
    projectile less and the others are in the order they were in, the later
    ones one slot down; the base, the asteroids and the lives are as
    before. *)
Theorem remove_projectile_keeps_order i g :
  numProjectiles g <= 127 -> numProjectiles g <= Z.of_nat (length (projectiles g)) ->
  (i < 0 \/ numProjectiles g <= i -> remove_projectile i g = g) /\
  (0 <= i < numProjectiles g ->
   numProjectiles (remove_projectile i g) = numProjectiles g - 1 /\
   live_projectiles (remove_projectile i g) = delete (Z.to_nat i) (live_projectiles g) /\
   basePosition (remove_projectile i g) = basePosition g /\
   numAsteroids (remove_projectile i g) = numAsteroids g /\
   asteroids (remove_projectile i g) = asteroids g /\
   lives (remove_projectile i g) = lives g).
Proof.
  intros Hn Hlen. split.
  - intros Hi. unfold remove_projectile.
    destruct (Z.ltb_spec i 0); [reflexivity|].
    destruct (Z.geb_spec i (numProjectiles g)); [reflexivity|lia].
  - intros Hi.
    split; [apply remove_projectile_count; lia|].
    split; [apply remove_projectile_live; lia|apply remove_projectile_frame].
Qed.

(** ** Shots *)

Lemma asteroid_free_after_removal x y c r g :
  wf_asteroids g -> asteroid_at c r g = -1 ->
  asteroid_at c r (remove_asteroid (asteroid_at x y g) g) = -1.
Proof using MAX_ASTEROIDS_fits.
  intros Hwf Hfree.
  destruct (Z.eq_dec (checked_position c r) (checked_position x y)) as [Heq|Hne].
  - unfold asteroid_at at 1. fold (checked_position c r). rewrite Heq.
    exact (proj1 (proj2 (remove_asteroid_at_cell x y g Hwf))).
  - apply (proj1 (proj2 (proj2 (remove_asteroid_at_cell x y g Hwf)))); assumption.
Qed.

(** X7: [fire_projectile] gives 0 when the projectile array is full or a
    projectile is in the firing cell (base column, row 2), and then the
    state is as it was: no projectile, no sound stamp, no draw.  A call
    that returns gives 0 or 1, and 0 in that case only.  Not every call
    returns: with room, a free firing cell, an asteroid in it and the top
    row full, the call does not return, whatever the draws. *)
Theorem fire_projectile_refuses s :
  (MAX_PROJECTILES <= numProjectiles (game s)
   \/ projectile_at (basePosition (game s)) 2 (game s) <> -1 ->
   fire_projectile s = Some (0, s)) /\
  (forall r s', fire_projectile s = Some (r, s') ->
     (r = 0 /\ s' = s /\
      (MAX_PROJECTILES <= numProjectiles (game s)
       \/ projectile_at (basePosition (game s)) 2 (game s) <> -1))
     \/ (r = 1 /\ numProjectiles (game s) < MAX_PROJECTILES /\
         projectile_at (basePosition (game s)) 2 (game s) = -1)) /\
  (wf_game (game s) ->
   numProjectiles (game s) < MAX_PROJECTILES ->
   projectile_at (basePosition (game s)) 2 (game s) = -1 ->
   asteroid_at (basePosition (game s)) 2 (game s) <> -1 ->
   (forall c, 0 <= c < 8 -> asteroid_at c 15 (game s) <> -1) ->
   forall t snd r, fire_projectile (set_env t snd r s) = None).
Proof using MAX_ASTEROIDS_fits.
  split; [|split].
  3:{ intros Hwf Hcap Hproj Hast Hfull t snd r.
      apply fire_projectile_stuck; assumption. }
  all: unfold fire_projectile;
    destruct (Z.ltb_spec (numProjectiles (game s)) MAX_PROJECTILES) as [Hcap|Hcap];
    cbn [andb].
  - intros [H|H]; [lia|].
    destruct (Z.eqb_spec (projectile_at (basePosition (game s)) 2 (game s)) (-1));
      [contradiction|reflexivity].
  - intros _. reflexivity.
  - destruct (Z.eqb_spec (projectile_at (basePosition (game s)) 2 (game s)) (-1))
      as [Hfree|Hbusy].
    + intros r s' H. right.
      cbn [game shoot_sound with_sequencer] in H.
      destruct (negb (asteroid_at (basePosition (game s)) 2 (game s) =? -1)).
      * run_inv H. destruct H as [-> _]. repeat split; assumption.
      * injection H as <- _. repeat split; assumption.
    + intros r s' H. injection H as <- <-. left.
      split; [reflexivity|]. split; [reflexivity|right; exact Hbusy].
  - intros r s' H. injection H as <- <-. left.
    split; [reflexivity|]. split; [reflexivity|left; exact Hcap].
Qed.

(** X8: with room in the projectile array and neither a projectile nor
    an asteroid in the firing cell, [fire_projectile] gives 1 and puts one
    projectile into the firing cell, after the others; the asteroids, the
    base, the lives, the score and the draws are as before, and the time of
    the shot is stamped when the sound is switched on. *)
Theorem fire_projectile_shoots s :
  wf_game (game s) ->
  numProjectiles (game s) < MAX_PROJECTILES ->
  projectile_at (basePosition (game s)) 2 (game s) = -1 ->
  asteroid_at (basePosition (game s)) 2 (game s) = -1 ->
  exists s',
    fire_projectile s = Some (1, s') /\
    wf_game (game s') /\
    numProjectiles (game s') = numProjectiles (game s) + 1 /\
    live_projectiles (game s')
    = live_projectiles (game s) ++ [16 * basePosition (game s) + 2] /\
    projectile_at (basePosition (game s)) 2 (game s') = numProjectiles (game s) /\
    asteroids (game s') = asteroids (game s) /\
    numAsteroids (game s') = numAsteroids (game s) /\
    basePosition (game s') = basePosition (game s) /\
    lives (game s') = lives (game s) /\
    score s' = score s /\ rand s' = rand s /\
    start_shoot_time (sequencer s')
    = (if sound_enabled s then clock s else start_shoot_time (sequencer s)).
Proof using MAX_ASTEROIDS_fits MAX_PROJECTILES_fits.
  intros Hwf Hcap Hfree Hnone.
  pose proof (wf_base _ Hwf) as Hb.
  pose proof (wf_projectiles_ok _ Hwf) as [Hn Hlen _].
  unfold fire_projectile.
  destruct (Z.ltb_spec (numProjectiles (game s)) MAX_PROJECTILES); [|lia].
  rewrite Hfree. cbn [andb Z.eqb]. cbn [game shoot_sound with_sequencer].
  rewrite Hnone. cbn [negb Z.eqb].
  eexists. split; [reflexivity|].
  destruct (add_projectile_wf (game s) Hwf Hcap Hfree) as [Hwf1 Hcount1].
  destruct (add_projectile_live (game s)) as [_ Hlive1]; [lia|lia|].
  rewrite GAME_POSITION_cell in Hlive1 by lia.
  cbn [game with_game score rand sequencer with_sequencer].
  split; [exact Hwf1|]. split; [exact Hcount1|]. split; [exact Hlive1|].
  split.
  { pose proof (wf_projectiles_ok _ Hwf1) as [Hn1 Hlen1 _].
    destruct (position_search_spec (projectiles (add_projectile (game s)))
                (checked_position (basePosition (game s)) 2)
                (Z.to_nat (numProjectiles (add_projectile (game s)))) 0)
      as [[_ Hall]|(Hrange & Hat & Hfirst)]; [lia|lia| |].
    - exfalso. apply (Hall (numProjectiles (game s))); [lia|].
      rewrite checked_position_cell by lia.
      apply rd_lookup; [lia|].
      assert (Hl : live_projectiles (add_projectile (game s))
                   !! Z.to_nat (numProjectiles (game s))
                   = Some (16 * basePosition (game s) + 2)).
      { rewrite Hlive1. rewrite lookup_app_r by (unfold live_projectiles; rewrite length_take; lia).
        unfold live_projectiles. rewrite length_take.
        replace (Z.to_nat (numProjectiles (game s))
                 - Z.to_nat (numProjectiles (game s))
                     `min` length (projectiles (game s)))%nat with 0%nat by lia.
        reflexivity. }
      unfold live_projectiles in Hl. apply lookup_take_Some in Hl as [Hl _]. exact Hl.
    - unfold projectile_at. fold (checked_position (basePosition (game s)) 2).
      set (i := position_search _ _ _ _) in *.
      destruct (Z.eq_dec i (numProjectiles (game s))) as [Heq|Hne]; [exact Heq|].
      exfalso.
      assert (Hin : checked_position (basePosition (game s)) 2
                    ∈ live_projectiles (game s)).
      { apply elem_of_take_rd; [lia|]. exists i. split; [lia|].
        rewrite <- Hat. unfold add_projectile. cbn.
        rewrite rd_wr_other; [reflexivity|lia|].
        rewrite uint8_small by lia. lia. }
      apply (projectile_at_none _ _ (game s)) in Hfree; [|lia|lia].
      exact (Hfree Hin). }
  unfold add_projectile. cbn.
  repeat split; try reflexivity.
  destruct (sound_enabled s); reflexivity.
Qed.
(** The regeneration that follows the removal of the asteroid of a cell:
    [s1] is any state with the asteroids left by the removal and the draws
    of [s]. *)
Lemma regen_after_removal x y s s1 :
  wf_asteroids (game s) -> asteroid_at x y (game s) <> -1 ->
  Exists (fun r => asteroid_at (uint8 (Z.rem (Z.of_N r) FIELD_WIDTH)) 15 (game s) = -1)
         (rand s) ->
  numAsteroids (game s1)
  = numAsteroids (remove_asteroid (asteroid_at x y (game s)) (game s)) ->
  asteroids (game s1) = asteroids (remove_asteroid (asteroid_at x y (game s)) (game s)) ->
  rand s1 = rand s ->
  exists new_x rest,
    regen_asteroid s1
    = Some (tt, with_game (add_asteroid (GAME_POSITION new_x 15)) (set_rand rest s1)) /\
    0 <= new_x < 8 /\
    wf_asteroids (add_asteroid (GAME_POSITION new_x 15) (game s1)) /\
    numAsteroids (add_asteroid (GAME_POSITION new_x 15) (game s1))
    = numAsteroids (game s) /\
    (forall q, q ∈ live_asteroids (add_asteroid (GAME_POSITION new_x 15) (game s1)) <->
               (q ∈ live_asteroids (game s) /\ q <> checked_position x y)
               \/ q = 16 * new_x + 15) /\
    (16 * new_x + 15 ∈ live_asteroids (game s) ->
     16 * new_x + 15 = checked_position x y).
Proof using MAX_ASTEROIDS_fits.
  intros Hwf Hast Hdraw Hn1 Ha1 Hr1.
  destruct (remove_found_asteroid_wf x y (game s) Hwf Hast) as (Hwf0 & Hcount0 & Hlive0).
  assert (Hwf1 : wf_asteroids (game s1)).
  { apply (wf_asteroids_same _ _ Hn1 Ha1 Hwf0). }
  assert (Hlive1 : live_asteroids (game s1)
                   = live_asteroids (remove_asteroid (asteroid_at x y (game s)) (game s))).
  { apply live_asteroids_same; assumption. }
  assert (Hdraw1 : Exists
    (fun r => asteroid_at (uint8 (Z.rem (Z.of_N r) FIELD_WIDTH)) 15 (game s1) = -1)
    (rand s1)).
  { rewrite Hr1. apply (Exists_impl _ _ _ Hdraw). intros r Hfree.
    rewrite (asteroid_at_same _ _ _ _ Hn1 Ha1).
    apply asteroid_free_after_removal; assumption. }
  destruct (regen_asteroid_ends s1 Hdraw1) as [s2 Hregen].
  pose proof (wfa_count _ Hwf) as Hmax.
  destruct (regen_asteroid_Some _ _ _ Hregen) as (nx & rest & Hnx & Hfree & ->).
  assert (Hroom : numAsteroids (game s1) < MAX_ASTEROIDS) by lia.
  destruct (regen_asteroid_asteroids s1 tt _ Hwf1 Hroom Hregen)
    as (Hwf2 & Hn2 & (nx' & Hnx' & Hnew & Hlive2) & _).
  cbn [game with_game set_rand] in Hwf2, Hn2, Hlive2.
  assert (Hsame : nx' = nx).
  { pose proof Hwf1 as [Hc1 Hlen1 _ _].
    destruct (add_asteroid_live (GAME_POSITION nx 15) (game s1)) as [_ Hl].
    - lia.
    - lia.
    - rewrite Hl in Hlive2. apply app_inv_head in Hlive2.
      rewrite GAME_POSITION_cell in Hlive2 by lia. injection Hlive2 as Heq. lia. }
  subst nx'.
  exists nx, rest. split; [exact Hregen|]. split; [exact Hnx|].
  split; [exact Hwf2|]. split; [lia|]. split.
  - intros q. rewrite Hlive2, elem_of_app, list_elem_of_singleton, Hlive1, Hlive0.
    reflexivity.
  - intros Hin. destruct (Z.eq_dec (16 * nx + 15) (checked_position x y)) as [Heq|Hne];
      [exact Heq|].
    exfalso. apply Hnew. rewrite Hlive1. apply Hlive0. split; assumption.
Qed.

Lemma remove_asteroid_same i g g' :
  numAsteroids g' = numAsteroids g -> asteroids g' = asteroids g ->
  numAsteroids (remove_asteroid i g') = numAsteroids (remove_asteroid i g) /\
  asteroids (remove_asteroid i g') = asteroids (remove_asteroid i g).
Proof.
  intros Hn Ha. unfold remove_asteroid. rewrite Hn, Ha.
  destruct ((i <? 0) || (i >=? numAsteroids g)); [split; assumption|].
  destruct (i <? numAsteroids g - 1); cbn; rewrite ?Hn, ?Ha; split; reflexivity.
Qed.

(** X9: the round of [advance_projectiles] that visits a projectile with
    an asteroid in the cell above it, when a draw for a free column of the
    top row is pending: the projectile and that asteroid are removed, the
    score goes up by one, one asteroid appears in the top row, and the same
    index is visited next.  The other projectiles keep their order; the
    lives and the base are as before. *)
Theorem projectile_hits_asteroid s k :
  wf_asteroids (game s) -> wf_projectiles (game s) ->
  0 <= k < numProjectiles (game s) ->
  GET_Y_POSITION (rd (projectiles (game s)) k) <> 15 ->
  asteroid_at (GET_X_POSITION (rd (projectiles (game s)) k))
              (GET_Y_POSITION (rd (projectiles (game s)) k) + 1) (game s) <> -1 ->
  Exists (fun r => asteroid_at (uint8 (Z.rem (Z.of_N r) FIELD_WIDTH)) 15 (game s) = -1)
         (rand s) ->
  exists s' new_x,
    advance_projectile k s = Some (k, s') /\
    numProjectiles (game s') = numProjectiles (game s) - 1 /\
    live_projectiles (game s') = delete (Z.to_nat k) (live_projectiles (game s)) /\
    numAsteroids (game s') = numAsteroids (game s) /\
    0 <= new_x < 8 /\
    (forall q, q ∈ live_asteroids (game s') <->
               (q ∈ live_asteroids (game s) /\ q <> rd (projectiles (game s)) k + 1)
               \/ q = 16 * new_x + 15) /\
    score s' = score s + 1 /\
    lives (game s') = lives (game s) /\
    basePosition (game s') = basePosition (game s).
Proof using MAX_ASTEROIDS_fits MAX_PROJECTILES_fits.
  intros HA HP Hk Hrow Hast Hdraw.
  destruct (live_projectiles_lookup (game s) k HP Hk) as [_ Hbyte].
  set (p := rd (projectiles (game s)) k) in *.
  destruct (asteroid_at_above p (game s) Hbyte Hrow) as [Habove Hcell].
  destruct (remove_projectile_typed k (game s) HP Hk) as (HP1 & Hcount1 & Hlive1).
  destruct (remove_projectile_frame k (game s)) as (Hb1 & Hna1 & Ha1 & Hl1).
  set (x := GET_X_POSITION p) in *. set (y := GET_Y_POSITION p + 1) in *.
  set (g1 := remove_projectile k (game s)) in *.
  assert (Hat1 : asteroid_at x y g1 = asteroid_at x y (game s))
    by (apply asteroid_at_same; assumption).
  set (s4 := add_to_score 1 (hit_sound
               (with_game (fun g => remove_asteroid (asteroid_at x y g) g)
                  (with_game (remove_projectile k) s)))).
  destruct (remove_asteroid_frame (asteroid_at x y g1) g1) as (Hb2 & Hnp2 & Hp2 & Hl2).
  destruct (regen_after_removal x y s s4 HA Hast Hdraw) as (nx & rest & Hregen & Hnx & _ & Hn5 & Hlive5 & _).
  { change (game s4) with (remove_asteroid (asteroid_at x y g1) g1). rewrite Hat1.
    apply remove_asteroid_same; assumption. }
  { change (game s4) with (remove_asteroid (asteroid_at x y g1) g1). rewrite Hat1.
    apply remove_asteroid_same; assumption. }
  { reflexivity. }
  eexists. exists nx. split.
  { unfold advance_projectile. fold p.
    assert (Hrange : 0 <= GET_Y_POSITION p < 16)
      by (rewrite GET_Y_POSITION_eq; apply Z.mod_pos_bound; lia).
    rewrite (uint8_small (GET_Y_POSITION p + 1)) by lia. fold x y.
    destruct (Z.eqb_spec y FIELD_HEIGHT) as [Htop|_].
    { exfalso. unfold FIELD_HEIGHT in Htop. subst y. lia. }
    destruct (Z.eqb_spec (asteroid_at x y (game s)) (-1)) as [|_]; [contradiction|].
    cbn [negb]. unfold bind at 1. cbn [lift]. unfold bind at 1. cbn [lift].
    unfold bind at 1. cbn [lift]. unfold bind at 1. cbn [lift].
    unfold bind at 1. fold s4. rewrite Hregen.
    unfold bind at 1. cbn [lift]. reflexivity. }
  cbn [game with_game enable_asteroid_animation with_sequencer score set_rand].
  change (game s4) with (remove_asteroid (asteroid_at x y g1) g1) in *.
  change (score s4) with (score s + 1).
  split.
  { unfold add_asteroid. cbn. rewrite Hnp2. exact Hcount1. }
  split.
  { rewrite <- Hlive1. apply live_projectiles_same.
    - unfold add_asteroid. cbn. exact Hnp2.
    - unfold add_asteroid. cbn. exact Hp2. }
  split; [exact Hn5|]. split; [exact Hnx|]. split.
  { intros q. rewrite Hlive5, Hcell. reflexivity. }
  split; [reflexivity|]. split.
  - unfold add_asteroid. cbn. rewrite Hl2. exact Hl1.
  - unfold add_asteroid. cbn. rewrite Hb2. exact Hb1.
Qed.

(** The loop of [advance_projectiles] from index [k] on, when none of the
    projectiles from [k] on is in the top row or below an asteroid. *)
Lemma advance_projectiles_loop_moves fuel k s :
  wf_asteroids (game s) -> wf_projectiles (game s) ->
  0 <= k <= numProjectiles (game s) ->
  numProjectiles (game s) - k <= Z.of_nat fuel ->
  Forall (fun p => GET_Y_POSITION p <> 15 /\ p + 1 ∉ live_asteroids (game s))
         (drop (Z.to_nat k) (live_projectiles (game s))) ->
  exists s',
    advance_projectiles_loop fuel k s = Some (numProjectiles (game s), s') /\
    numProjectiles (game s') = numProjectiles (game s) /\
    live_projectiles (game s')
    = take (Z.to_nat k) (live_projectiles (game s))
      ++ map Z.succ (drop (Z.to_nat k) (live_projectiles (game s))) /\
    asteroids (game s') = asteroids (game s) /\
    numAsteroids (game s') = numAsteroids (game s) /\
    basePosition (game s') = basePosition (game s) /\
    lives (game s') = lives (game s) /\
    score s' = score s /\ rand s' = rand s /\ sequencer s' = sequencer s.
Proof using MAX_ASTEROIDS_fits MAX_PROJECTILES_fits.
  revert k s. induction fuel as [|fuel IH]; intros k s HA HP Hk Hfuel Hall;
    cbn [advance_projectiles_loop];
    destruct (Z.ltb_spec k (numProjectiles (game s))) as [Hlt|Hge]; try lia.
  1,3: assert (k = numProjectiles (game s)) as -> by lia;
       exists s; split; [reflexivity|]; split; [reflexivity|];
       split; [|repeat split; reflexivity];
       assert (Hlen : length (live_projectiles (game s))
                      = Z.to_nat (numProjectiles (game s)))
         by (destruct HP as [? Hl ?]; unfold live_projectiles; rewrite length_take; lia);
       rewrite drop_ge by lia; rewrite take_ge by lia;
       cbn [map]; rewrite app_nil_r; reflexivity.
  destruct (live_projectiles_lookup (game s) k HP ltac:(lia)) as [Hq Hbyte].
  set (p := rd (projectiles (game s)) k) in *.
  rewrite (drop_S_lookup _ _ _ Hq) in Hall.
  apply Forall_cons in Hall as [[Hrow Hfree] Hrest].
  unfold bind. rewrite (advance_projectile_moves k s HA HP ltac:(lia) Hrow Hfree).
  fold p.
  set (s1 := with_game (fun g =>
               set_projectiles (wr (projectiles g) k (rd (projectiles g) k + 1)) g) s).
  assert (Hp1 : is_byte (p + 1)).
  { destruct Hbyte as [Hp0 Hp255]. split; [lia|].
    assert (p <> 255); [|lia]. intros ->. apply Hrow. reflexivity. }
  assert (HP1 : wf_projectiles (game s1)) by (apply wf_projectiles_moved; assumption).
  assert (Hlive1 : live_projectiles (game s1)
                   = <[Z.to_nat k := p + 1]> (live_projectiles (game s)))
    by (apply live_projectiles_moved; [assumption|lia]).
  assert (Hlen : length (live_projectiles (game s)) = Z.to_nat (numProjectiles (game s))).
  { destruct HP as [Hn Hl _]. unfold live_projectiles. rewrite length_take. lia. }
  destruct (IH (k + 1) s1) as (s' & Hrun & Hn' & Hlive' & Ha' & Hna' & Hb' & Hl' & Hsc' & Hr' & Hq').
  - apply (wf_asteroids_same (game s) (game s1)); [reflexivity|reflexivity|exact HA].
  - exact HP1.
  - cbn. lia.
  - cbn. lia.
  - change (live_asteroids (game s1)) with (live_asteroids (game s)).
    rewrite Hlive1. replace (Z.to_nat (k + 1)) with (S (Z.to_nat k)) by lia.
    rewrite drop_S_insert. exact Hrest.
  - exists s'. split; [exact Hrun|]. split; [exact Hn'|]. split.
    + rewrite Hlive', Hlive1.
      replace (Z.to_nat (k + 1)) with (S (Z.to_nat k)) by lia.
      rewrite take_S_insert by lia. rewrite drop_S_insert.
      rewrite (drop_S_lookup _ _ _ Hq). cbn [map].
      rewrite <- app_assoc. reflexivity.
    + repeat split; assumption.
Qed.

(** X10: when no projectile is in the top row or in the cell below an
    asteroid, [advance_projectiles] moves every projectile one row up, in
    the order they were in; the asteroids, the base, the lives, the score,
    the draws and the sequencer are as before. *)
Theorem projectiles_move_up s :
  wf_game (game s) ->
  Forall (fun p => GET_Y_POSITION p <> 15 /\ p + 1 ∉ live_asteroids (game s))
         (live_projectiles (game s)) ->
  exists s',
    advance_projectiles s = Some (tt, s') /\
    numProjectiles (game s') = numProjectiles (game s) /\
    live_projectiles (game s') = map Z.succ (live_projectiles (game s)) /\
    asteroids (game s') = asteroids (game s) /\
    numAsteroids (game s') = numAsteroids (game s) /\
    basePosition (game s') = basePosition (game s) /\
    lives (game s') = lives (game s) /\
    score s' = score s /\ rand s' = rand s /\ sequencer s' = sequencer s.
Proof using MAX_ASTEROIDS_fits MAX_PROJECTILES_fits.
  intros [Hb HA HP HPn] Hall.
  pose proof (wfp_count _ HP) as Hn.
  destruct (advance_projectiles_loop_moves (Z.to_nat (numProjectiles (game s))) 0 s HA HP)
    as (s' & Hrun & Hrest); [lia|lia|exact Hall|].
  exists s'. split.
  - unfold advance_projectiles, bind. rewrite Hrun. reflexivity.
  - exact Hrest.
Qed.

(** ** One cell of advance_asteroids *)

Lemma advance_cell_empty x y s :
  asteroid_at x y (game s) = -1 -> advance_cell x y s = Some (tt, s).
Proof. intros H. unfold advance_cell. rewrite H. reflexivity. Qed.

(** The asteroids after [remove_asteroid] and [numAsteroids++]: those left
    by the removal and the stale last slot; all of them were there before
    the removal. *)
Lemma stale_slot_cells i g q :
  wf_asteroids g -> 0 <= i < numAsteroids g ->
  q ∈ live_asteroids
        (set_numAsteroids (int8 (numAsteroids (remove_asteroid i g) + 1))
           (remove_asteroid i g)) ->
  q ∈ live_asteroids g.
Proof using MAX_ASTEROIDS_fits.
  intros [Hn Hlen _ _] Hi. unfold live_asteroids. cbn [numAsteroids asteroids set_numAsteroids].
  rewrite remove_asteroid_count by lia.
  replace (numAsteroids g - 1 + 1) with (numAsteroids g) by lia.
  rewrite int8_small by lia.
  unfold remove_asteroid.
  destruct (Z.ltb_spec i 0); [lia|].
  destruct (Z.geb_spec i (numAsteroids g)); [lia|]. cbn [orb].
  destruct (Z.ltb_spec i (numAsteroids g - 1)) as [Hlt|Hge]; cbn; [|exact (fun H => H)].
  rewrite wr_insert by lia. rewrite take_insert_lt by lia.
  intros Hin. apply list_elem_of_lookup in Hin as [j Hj].
  destruct (decide (j = Z.to_nat i)) as [->|Hne].
  - rewrite list_lookup_insert_eq in Hj by (rewrite length_take; lia).
    injection Hj as <-.
    apply list_elem_of_lookup. exists (Z.to_nat (numAsteroids g - 1)).
    rewrite lookup_take_lt by lia. apply lookup_rd. lia.
  - rewrite list_lookup_insert_ne in Hj by lia.
    apply list_elem_of_lookup. exists j. exact Hj.
Qed.

(** What an asteroid that is moved or regenerated leaves: the asteroids
    after the removal and the new position. *)
Lemma replaced_asteroid x y posn g :
  wf_game g -> asteroid_at x y g <> -1 -> is_byte posn ->
  (posn ∈ live_asteroids g -> posn = checked_position x y) ->
  let g' := add_asteroid posn (remove_asteroid (asteroid_at x y g) g) in
  wf_game g' /\
  numAsteroids g' = numAsteroids g /\
  (forall q, q ∈ live_asteroids g' <->
             (q ∈ live_asteroids g /\ q <> checked_position x y) \/ q = posn) /\
  basePosition g' = basePosition g /\ lives g' = lives g /\
  numProjectiles g' = numProjectiles g /\ projectiles g' = projectiles g.
Proof using MAX_ASTEROIDS_fits.
  intros Hwf Hast Hbyte Hnew g'.
  destruct (remove_found_asteroid x y g Hwf Hast) as (Hwf1 & Hcount1 & Hlive1).
  destruct (remove_asteroid_frame (asteroid_at x y g) g) as (Hb1 & Hnp1 & Hp1 & Hl1).
  pose proof (wfa_count _ (wf_asteroids_ok _ Hwf)) as Hmax.
  destruct (add_asteroid_wf posn _ (wf_asteroids_ok _ Hwf1)) as (HA2 & Hn2 & Hlive2).
  { lia. }
  { destruct Hbyte. rewrite uint8_small by lia. intros Hin. apply Hlive1 in Hin as [Hin Hne].
    exact (Hne (Hnew Hin)). }
  rewrite uint8_small in Hlive2 by (destruct Hbyte; lia).
  subst g'. split.
  { apply (wf_game_asteroids_changed _ _ Hwf1 HA2); reflexivity. }
  split; [lia|]. split.
  { intros q. rewrite Hlive2, elem_of_app, list_elem_of_singleton, Hlive1. reflexivity. }
  unfold add_asteroid. cbn. repeat split; assumption.
Qed.

Lemma cell_is_byte x y : 0 <= x < 8 -> 0 <= y < 16 -> is_byte (16 * x + y).
Proof. unfold is_byte. lia. Qed.

(** The asteroid of the cell is moved one row down. *)
Lemma advance_cell_moves x y s :
  wf_game (game s) -> 0 <= x < 8 -> 1 <= y < 16 ->
  asteroid_at x y (game s) <> -1 ->
  projectile_at x y (game s) = -1 -> projectile_at x (y - 1) (game s) = -1 ->
  base_collision (basePosition (game s)) x y = false ->
  advance_cell x y s
  = Some (tt, with_game (fun g =>
                add_asteroid (GAME_POSITION x (y - 1))
                  (remove_asteroid (asteroid_at x y g) g)) s).
Proof using MAX_ASTEROIDS_fits.
  intros Hwf Hx Hy Hast Hp Hq Hbase. unfold advance_cell.
  destruct (Z.eqb_spec (asteroid_at x y (game s)) (-1)) as [|_]; [contradiction|].
  cbn [negb game with_game].
  destruct (remove_asteroid_frame (asteroid_at x y (game s)) (game s)) as (Hb1 & Hnp1 & Hp1 & _).
  rewrite (projectile_at_same x y _ _ Hnp1 Hp1), Hp.
  rewrite (projectile_at_same x (y - 1) _ _ Hnp1 Hp1), Hq.
  cbn [negb Z.eqb]. rewrite Hb1, Hbase.
  destruct (Z.eqb_spec y 0); [lia|]. reflexivity.
Qed.

(** What the move leaves. *)
Lemma advance_cell_moves_spec x y s :
  wf_game (game s) -> 0 <= x < 8 -> 1 <= y < 16 ->
  asteroid_at x y (game s) <> -1 ->
  projectile_at x y (game s) = -1 -> projectile_at x (y - 1) (game s) = -1 ->
  base_collision (basePosition (game s)) x y = false ->
  exists s',
    advance_cell x y s = Some (tt, s') /\
    numAsteroids (game s') = numAsteroids (game s) /\
    (forall q, q ∈ live_asteroids (game s') <->
               (q ∈ live_asteroids (game s) /\ q <> 16 * x + y) \/ q = 16 * x + y - 1) /\
    asteroid_at x (y - 1) (game s') <> -1 /\
    asteroid_at x y (game s') = -1 /\
    basePosition (game s') = basePosition (game s) /\
    lives (game s') = lives (game s) /\
    numProjectiles (game s') = numProjectiles (game s) /\
    projectiles (game s') = projectiles (game s) /\
    score s' = score s /\ rand s' = rand s /\ sequencer s' = sequencer s.
Proof using MAX_ASTEROIDS_fits.
  intros Hwf Hx Hy Hast Hp Hq Hbase.
  eexists. split; [apply advance_cell_moves; assumption|].
  cbn [game with_game score rand sequencer].
  pose proof (wf_asteroids_ok _ Hwf) as [Hn Hlen _ _].
  assert (Hcells : forall q,
    q ∈ live_asteroids (add_asteroid (GAME_POSITION x (y - 1))
                          (remove_asteroid (asteroid_at x y (game s)) (game s))) <->
    (q ∈ live_asteroids (game s) /\ q <> 16 * x + y) \/ q = 16 * x + y - 1).
  { intros q.
    destruct (add_asteroid_live (GAME_POSITION x (y - 1))
                (remove_asteroid (asteroid_at x y (game s)) (game s))) as [_ Hlive2].
    { rewrite remove_asteroid_length.
      destruct (asteroid_at_found x y (game s)) as [Hi _]; [lia|lia|exact Hast|].
      rewrite remove_asteroid_count by lia. lia. }
    { destruct (asteroid_at_found x y (game s)) as [Hi _]; [lia|lia|exact Hast|].
      rewrite remove_asteroid_count by lia. lia. }
    rewrite Hlive2, elem_of_app, list_elem_of_singleton.
    destruct (remove_found_asteroid x y (game s) Hwf Hast) as (_ & _ & Hlive1).
    rewrite Hlive1. rewrite checked_position_cell by lia.
    rewrite GAME_POSITION_cell by lia.
    replace (16 * x + (y - 1)) with (16 * x + y - 1) by lia. reflexivity. }
  assert (Hcount : numAsteroids (add_asteroid (GAME_POSITION x (y - 1))
                      (remove_asteroid (asteroid_at x y (game s)) (game s)))
                   = numAsteroids (game s)).
  { destruct (asteroid_at_found x y (game s)) as [Hi _]; [lia|lia|exact Hast|].
    destruct (add_asteroid_live (GAME_POSITION x (y - 1))
                (remove_asteroid (asteroid_at x y (game s)) (game s))) as [Hc _].
    { rewrite remove_asteroid_length, remove_asteroid_count by lia. lia. }
    { rewrite remove_asteroid_count by lia. lia. }
    rewrite Hc, remove_asteroid_count by lia. lia. }
  assert (Hlength : length (asteroids (add_asteroid (GAME_POSITION x (y - 1))
                      (remove_asteroid (asteroid_at x y (game s)) (game s))))
                    = length (asteroids (game s))).
  { unfold add_asteroid. cbn. rewrite length_wr. apply remove_asteroid_length. }
  destruct (remove_asteroid_frame (asteroid_at x y (game s)) (game s)) as (Hb1 & Hnp1 & Hp1 & Hl1).
  split; [exact Hcount|]. split; [exact Hcells|]. split.
  { apply asteroid_at_present; [lia|lia|]. rewrite checked_position_cell by lia.
    apply Hcells. right. lia. }
  split.
  { apply asteroid_at_none; [lia|lia|]. rewrite checked_position_cell by lia.
    rewrite Hcells. intros [[_ Hne]|Heq]; lia. }
  unfold add_asteroid. cbn. repeat split; assumption.
Qed.

(** X11: [advance_asteroids], at a cell above the bottom row that holds
    an asteroid, with no projectile in the cell or in the cell below and
    with the cell not one of the three in front of the base, moves the
    asteroid one row down: the cell below is occupied afterwards, the cell
    itself is not unless it was the cell below, every other cell is as
    before, and nothing else changes. *)
Theorem asteroid_moves_down x y s :
  wf_game (game s) -> 0 <= x < 8 -> 1 <= y < 16 ->
  asteroid_at x y (game s) <> -1 ->
  projectile_at x y (game s) = -1 -> projectile_at x (y - 1) (game s) = -1 ->
  base_collision (basePosition (game s)) x y = false ->
  exists s',
    advance_cell x y s = Some (tt, s') /\
    numAsteroids (game s') = numAsteroids (game s) /\
    (forall q, q ∈ live_asteroids (game s') <->
               (q ∈ live_asteroids (game s) /\ q <> 16 * x + y) \/ q = 16 * x + y - 1) /\
    asteroid_at x (y - 1) (game s') <> -1 /\
    asteroid_at x y (game s') = -1 /\
    basePosition (game s') = basePosition (game s) /\
    lives (game s') = lives (game s) /\
    numProjectiles (game s') = numProjectiles (game s) /\
    projectiles (game s') = projectiles (game s) /\
    score s' = score s /\ rand s' = rand s /\ sequencer s' = sequencer s.
Proof using MAX_ASTEROIDS_fits. exact (advance_cell_moves_spec x y s). Qed.

Lemma add_asteroid_frame posn g :
  basePosition (add_asteroid posn g) = basePosition g /\
  numProjectiles (add_asteroid posn g) = numProjectiles g /\
  projectiles (add_asteroid posn g) = projectiles g /\
  lives (add_asteroid posn g) = lives g.
Proof. unfold add_asteroid. cbn. repeat split; reflexivity. Qed.

Lemma projectile_at_wraps x g : projectile_at x (0 - 1) g = projectile_at x 15 g.
Proof.
  unfold projectile_at. fold (checked_position x (0 - 1)). fold (checked_position x 15).
  rewrite <- (checked_position_wraps x (0 - 1)). reflexivity.
Qed.

(** The asteroid of the cell meets a projectile, in the cell itself
    ([py = y]) or, with none there, in the cell below ([py = y - 1]). *)
Lemma advance_cell_hits x y py s :
  wf_game (game s) -> 0 <= x < 8 -> 0 <= y < 16 ->
  asteroid_at x y (game s) <> -1 ->
  (py = y /\ projectile_at x y (game s) <> -1)
  \/ (py = y - 1 /\ projectile_at x y (game s) = -1 /\
      projectile_at x (y - 1) (game s) <> -1) ->
  Exists (fun r => asteroid_at (uint8 (Z.rem (Z.of_N r) FIELD_WIDTH)) 15 (game s) = -1)
         (rand s) ->
  exists s' new_x,
    advance_cell x y s = Some (tt, s') /\
    numProjectiles (game s') = numProjectiles (game s) - 1 /\
    live_projectiles (game s')
    = delete (Z.to_nat (projectile_at x py (game s))) (live_projectiles (game s)) /\
    numAsteroids (game s') = numAsteroids (game s) /\
    0 <= new_x < 8 /\
    (forall q, q ∈ live_asteroids (game s') <->
               (q ∈ live_asteroids (game s) /\ q <> 16 * x + y) \/ q = 16 * new_x + 15) /\
    score s' = score s + 1 /\
    lives (game s') = lives (game s) /\
    basePosition (game s') = basePosition (game s) /\
    sequencer s'
    = sequencer (enable_asteroid_animation x py (hit_sound s)).
Proof using MAX_ASTEROIDS_fits MAX_PROJECTILES_fits.
  intros Hwf Hx Hy Hast Hproj Hdraw.
  pose proof (wf_asteroids_ok _ Hwf) as HA.
  pose proof (wf_projectiles_ok _ Hwf) as HP.
  pose proof (wfp_count _ HP) as Hnp.
  pose proof HP as [_ Hplen _].
  destruct (remove_asteroid_frame (asteroid_at x y (game s)) (game s)) as (Hb1 & Hnp1 & Hp1 & Hl1).
  set (g1 := remove_asteroid (asteroid_at x y (game s)) (game s)) in *.
  assert (Hpy : projectile_at x py (game s) <> -1) by (destruct Hproj as [[-> H]|(-> & _ & H)]; exact H).
  destruct (projectile_at_found x py (game s)) as [Hidx _]; [lia|lia|exact Hpy|].
  assert (Hat1 : projectile_at x py g1 = projectile_at x py (game s))
    by (apply projectile_at_same; assumption).
  set (k := projectile_at x py (game s)) in *.
  assert (HP1 : wf_projectiles g1) by (apply (wf_projectiles_same (game s)); assumption).
  destruct (remove_projectile_typed k g1 HP1 ltac:(lia)) as (_ & Hcount2 & Hlive2).
  destruct (remove_projectile_frame k g1) as (Hb2 & Hna2 & Ha2 & Hl2).
  set (s4 := add_to_score 1
               (with_game (fun g => remove_projectile (projectile_at x py g) g)
                  (hit_sound (with_game (fun g => remove_asteroid (asteroid_at x y g) g) s)))).
  assert (Hg4 : game s4 = remove_projectile k g1).
  { unfold s4. cbn. fold g1. rewrite Hat1. reflexivity. }
  destruct (regen_after_removal x y s s4 HA Hast Hdraw)
    as (nx & rest & Hregen & Hnx & _ & Hn5 & Hlive5 & _).
  { rewrite Hg4. exact Hna2. }
  { rewrite Hg4. exact Ha2. }
  { reflexivity. }
  rewrite checked_position_cell in Hlive5 by lia.
  eexists. exists nx. split.
  { unfold advance_cell.
    destruct (Z.eqb_spec (asteroid_at x y (game s)) (-1)) as [|_]; [contradiction|].
    cbn [negb].
    change (game (with_game (fun g => remove_asteroid (asteroid_at x y g) g) s)) with g1.
    rewrite (projectile_at_same x y (game s) g1 Hnp1 Hp1).
    rewrite (projectile_at_same x (y - 1) (game s) g1 Hnp1 Hp1).
    destruct Hproj as [[Hpy' Hhere]|(Hpy' & Hhere & Hbelow)]; subst py.
    - destruct (Z.eqb_spec (projectile_at x y (game s)) (-1)) as [|_]; [contradiction|].
      cbn [negb]. unfold bind. cbn [lift].
      match goal with |- context [regen_asteroid ?st] => change st with s4 end.
      rewrite Hregen. reflexivity.
    - rewrite Hhere.
      destruct (Z.eqb_spec (projectile_at x (y - 1) (game s)) (-1)) as [|_]; [contradiction|].
      cbn [negb Z.eqb]. unfold bind. cbn [lift].
      match goal with |- context [regen_asteroid ?st] => change st with s4 end.
      rewrite Hregen. reflexivity. }
  cbn [game with_game enable_asteroid_animation with_sequencer score set_rand sequencer].
  destruct (add_asteroid_frame (GAME_POSITION nx 15) (game s4)) as (Hb5 & Hnp5 & Hp5 & Hl5).
  split; [rewrite Hnp5, Hg4, Hcount2; lia|].
  split.
  { rewrite (live_projectiles_same _ _ Hnp5 Hp5), Hg4, Hlive2.
    rewrite (live_projectiles_same _ _ Hnp1 Hp1). reflexivity. }
  split; [exact Hn5|]. split; [exact Hnx|]. split; [exact Hlive5|].
  split; [reflexivity|].
  split; [rewrite Hl5, Hg4, Hl2; exact Hl1|].
  split; [rewrite Hb5, Hg4, Hb2; exact Hb1|].
  reflexivity.
Qed.

(** X12: [advance_asteroids], at a cell that holds an asteroid, with a
    projectile in the cell or (none there) in the cell below, and a draw for
    a free column of the top row pending: the asteroid and that projectile
    are removed, the score goes up by one, one asteroid appears in the top
    row, the other projectiles keep their order, and the lives and the base
    are as before. *)
Theorem asteroid_meets_projectile x y s :
  wf_game (game s) -> 0 <= x < 8 -> 1 <= y < 16 ->
  asteroid_at x y (game s) <> -1 ->
  projectile_at x y (game s) <> -1 \/ projectile_at x (y - 1) (game s) <> -1 ->
  Exists (fun r => asteroid_at (uint8 (Z.rem (Z.of_N r) FIELD_WIDTH)) 15 (game s) = -1)
         (rand s) ->
  exists s' new_x hit,
    advance_cell x y s = Some (tt, s') /\
    hit = (if projectile_at x y (game s) =? -1
           then projectile_at x (y - 1) (game s) else projectile_at x y (game s)) /\
    numProjectiles (game s') = numProjectiles (game s) - 1 /\
    live_projectiles (game s') = delete (Z.to_nat hit) (live_projectiles (game s)) /\
    numAsteroids (game s') = numAsteroids (game s) /\
    0 <= new_x < 8 /\
    (forall q, q ∈ live_asteroids (game s') <->
               (q ∈ live_asteroids (game s) /\ q <> 16 * x + y) \/ q = 16 * new_x + 15) /\
    score s' = score s + 1 /\
    lives (game s') = lives (game s) /\
    basePosition (game s') = basePosition (game s).
Proof using MAX_ASTEROIDS_fits MAX_PROJECTILES_fits.
  intros Hwf Hx Hy Hast Hproj Hdraw.
  destruct (Z.eqb_spec (projectile_at x y (game s)) (-1)) as [Hnone|Hhere].
  - destruct (advance_cell_hits x y (y - 1) s Hwf Hx ltac:(lia) Hast) as (s' & nx & H);
      [right; split; [reflexivity|]; split; [exact Hnone|]; destruct Hproj; [contradiction|assumption]
      |exact Hdraw|].
    exists s', nx, (projectile_at x (y - 1) (game s)).
    destruct H as (H1 & H2 & H3 & H4 & H5 & H6 & H7 & H8 & H9 & _).
    split; [exact H1|]. split; [reflexivity|]. split; [exact H2|]. split; [exact H3|].
    split; [exact H4|]. split; [exact H5|]. split; [exact H6|].
    split; [exact H7|]. split; [exact H8|exact H9].
  - destruct (advance_cell_hits x y y s Hwf Hx ltac:(lia) Hast) as (s' & nx & H);
      [left; split; [reflexivity|exact Hhere]|exact Hdraw|].
    exists s', nx, (projectile_at x y (game s)).
    destruct H as (H1 & H2 & H3 & H4 & H5 & H6 & H7 & H8 & H9 & _).
    split; [exact H1|]. split; [reflexivity|]. split; [exact H2|]. split; [exact H3|].
    split; [exact H4|]. split; [exact H5|]. split; [exact H6|].
    split; [exact H7|]. split; [exact H8|exact H9].
Qed.

(** X13: at a cell of the bottom row [advance_asteroids] looks for the
    projectile "below" in row [y - 1 = -1], which [projectile_at] reads as
    row 15.  So, on well-formed data, an asteroid in the bottom row with a
    projectile in the top row of its column and none in its own cell counts
    as hit: when a draw for a free column of the top row is pending, that
    projectile is removed, the score goes up by one and the asteroid is
    regenerated in the top row.  When no animation is running the explosion
    is recorded at row -1; when one is running the cell recorded stays. *)
Theorem bottom_asteroid_hits_top_projectile x s :
  wf_game (game s) -> 0 <= x < 8 ->
  asteroid_at x 0 (game s) <> -1 ->
  projectile_at x 0 (game s) = -1 ->
  projectile_at x 15 (game s) <> -1 ->
  Exists (fun r => asteroid_at (uint8 (Z.rem (Z.of_N r) FIELD_WIDTH)) 15 (game s) = -1)
         (rand s) ->
  exists s' new_x,
    advance_cell x 0 s = Some (tt, s') /\
    numProjectiles (game s') = numProjectiles (game s) - 1 /\
    live_projectiles (game s')
    = delete (Z.to_nat (projectile_at x 15 (game s))) (live_projectiles (game s)) /\
    (16 * x + 15 ∉ live_projectiles (game s')) /\
    numAsteroids (game s') = numAsteroids (game s) /\
    0 <= new_x < 8 /\
    (forall q, q ∈ live_asteroids (game s') <->
               (q ∈ live_asteroids (game s) /\ q <> 16 * x) \/ q = 16 * new_x + 15) /\
    score s' = score s + 1 /\
    lives (game s') = lives (game s) /\
    (asteroid_animation_on (sequencer s) = 0 ->
     animation_x (sequencer s') = x /\ animation_y (sequencer s') = -1 /\
     asteroid_animation_on (sequencer s') = 1) /\
    (asteroid_animation_on (sequencer s) <> 0 ->
     animation_x (sequencer s') = animation_x (sequencer s) /\
     animation_y (sequencer s') = animation_y (sequencer s) /\
     asteroid_animation_on (sequencer s') = asteroid_animation_on (sequencer s)).
Proof using MAX_ASTEROIDS_fits MAX_PROJECTILES_fits.
  intros Hwf Hx Hast Hhere Htop Hdraw.
  rewrite <- projectile_at_wraps in Htop.
  destruct (advance_cell_hits x 0 (0 - 1) s Hwf Hx ltac:(lia) Hast) as (s' & nx & H);
    [right; split; [reflexivity|]; split; assumption|exact Hdraw|].
  destruct H as (H1 & H2 & H3 & H4 & H5 & H6 & H7 & H8 & _ & H10).
  rewrite projectile_at_wraps in H3, Htop.
  exists s', nx. split; [exact H1|]. split; [exact H2|]. split; [exact H3|].
  split.
  { rewrite H3.
    pose proof (wf_projectiles_ok _ Hwf) as HP. pose proof (wfp_count _ HP) as Hn.
    pose proof HP as [_ Hlen _].
    destruct (projectile_at_found x 15 (game s)) as [_ Hl]; [lia|lia|exact Htop|].
    rewrite checked_position_cell in Hl by lia.
    intros Hin.
    apply (elem_of_delete_NoDup _ _ _ _ (wf_projectiles_NoDup _ _ _ Hwf) Hl) in Hin.
    destruct Hin as [_ Hne]. apply Hne. reflexivity. }
  split; [exact H4|]. split; [exact H5|]. split.
  { intros q. rewrite H6. replace (16 * x + 0) with (16 * x) by lia. reflexivity. }
  split; [exact H7|]. split; [exact H8|].
  assert (Hsame : asteroid_animation_on (sequencer (hit_sound s))
                  = asteroid_animation_on (sequencer s) /\
                  animation_x (sequencer (hit_sound s)) = animation_x (sequencer s) /\
                  animation_y (sequencer (hit_sound s)) = animation_y (sequencer s))
    by (unfold hit_sound; cbn; destruct (sound_enabled s); repeat split; reflexivity).
  destruct Hsame as (Hon & Hax & Hay).
  rewrite H10. unfold enable_asteroid_animation. cbn [sequencer with_sequencer].
  rewrite Hon. split.
  - intros Hoff. rewrite Hoff. cbn. repeat split; reflexivity.
  - intros Hrunning.
    destruct (Z.eqb_spec (asteroid_animation_on (sequencer s)) 0) as [|_]; [contradiction|].
    split; [exact Hax|]. split; [exact Hay|exact Hon].
Qed.

(** X14: [advance_asteroids], at one of the three cells in front of the
    base that holds an asteroid, with no projectile in the cell or in the
    cell below, and a draw for a free column of the top row pending: a life
    is lost, the alarm is started from its first step, and the asteroid is
    regenerated in the top row; the projectiles, the score and the base are
    as before. *)
Theorem asteroid_hits_base x y s :
  wf_game (game s) -> 0 <= x < 8 -> 0 <= y < 16 ->
  asteroid_at x y (game s) <> -1 ->
  projectile_at x y (game s) = -1 -> projectile_at x (y - 1) (game s) = -1 ->
  base_collision (basePosition (game s)) x y = true ->
  Exists (fun r => asteroid_at (uint8 (Z.rem (Z.of_N r) FIELD_WIDTH)) 15 (game s) = -1)
         (rand s) ->
  exists s' new_x,
    advance_cell x y s = Some (tt, s') /\
    lives (game s') = lives (game s) - 1 /\
    base_hit_sound (sequencer s') = 1 /\ basehit_sequence (sequencer s') = 1 /\
    numAsteroids (game s') = numAsteroids (game s) /\
    0 <= new_x < 8 /\
    (forall q, q ∈ live_asteroids (game s') <->
               (q ∈ live_asteroids (game s) /\ q <> 16 * x + y) \/ q = 16 * new_x + 15) /\
    numProjectiles (game s') = numProjectiles (game s) /\
    projectiles (game s') = projectiles (game s) /\
    score s' = score s /\
    basePosition (game s') = basePosition (game s).
Proof using MAX_ASTEROIDS_fits.
  intros Hwf Hx Hy Hast Hp Hq Hbase Hdraw.
  pose proof (wf_asteroids_ok _ Hwf) as HA.
  destruct (remove_asteroid_frame (asteroid_at x y (game s)) (game s)) as (Hb1 & Hnp1 & Hp1 & Hl1).
  set (g1 := remove_asteroid (asteroid_at x y (game s)) (game s)) in *.
  set (s3 := enable_basehit_sound
               (with_game (fun g => set_lives (lives g - 1) g)
                  (with_game (fun g => remove_asteroid (asteroid_at x y g) g) s))).
  destruct (regen_after_removal x y s s3 HA Hast Hdraw)
    as (nx & rest & Hregen & Hnx & _ & Hn5 & Hlive5 & _);
    [reflexivity|reflexivity|reflexivity|].
  rewrite checked_position_cell in Hlive5 by lia.
  eexists. exists nx. split.
  { unfold advance_cell.
    destruct (Z.eqb_spec (asteroid_at x y (game s)) (-1)) as [|_]; [contradiction|].
    cbn [negb].
    change (game (with_game (fun g => remove_asteroid (asteroid_at x y g) g) s)) with g1.
    rewrite (projectile_at_same x y (game s) g1 Hnp1 Hp1), Hp.
    rewrite (projectile_at_same x (y - 1) (game s) g1 Hnp1 Hp1), Hq.
    cbn [negb Z.eqb]. rewrite Hb1, Hbase.
    unfold bind. cbn [lift].
    match goal with |- context [regen_asteroid ?st] => change st with s3 end.
    rewrite Hregen. reflexivity. }
  cbn [game with_game score set_rand sequencer].
  destruct (add_asteroid_frame (GAME_POSITION nx 15) (game s3)) as (Hb5 & Hnp5 & Hp5 & Hl5).
  change (game s3) with (set_lives (lives g1 - 1) g1) in *.
  split; [rewrite Hl5; cbn; lia|].
  split; [reflexivity|]. split; [reflexivity|].
  split; [exact Hn5|]. split; [exact Hnx|]. split; [exact Hlive5|].
  split; [rewrite Hnp5; exact Hnp1|].
  split; [rewrite Hp5; exact Hp1|].
  split; [reflexivity|].
  rewrite Hb5. exact Hb1.
Qed.

(** X15: [advance_asteroids], at a cell of the bottom row that holds an
    asteroid, with no projectile in the cell or in the top row of its
    column, and a draw for a column whose top cell is free pending: the
    asteroid leaves the field and appears in the top row of a column that
    was free there; no life is lost, the score and the projectiles are as
    before. *)
Theorem asteroid_leaves_bottom x s :
  wf_game (game s) -> 0 <= x < 8 ->
  asteroid_at x 0 (game s) <> -1 ->
  projectile_at x 0 (game s) = -1 -> projectile_at x 15 (game s) = -1 ->
  Exists (fun r => asteroid_at (uint8 (Z.rem (Z.of_N r) FIELD_WIDTH)) 15 (game s) = -1)
         (rand s) ->
  exists s' new_x,
    advance_cell x 0 s = Some (tt, s') /\
    0 <= new_x < 8 /\
    (16 * new_x + 15 ∉ live_asteroids (game s)) /\
    (forall q, q ∈ live_asteroids (game s') <->
               (q ∈ live_asteroids (game s) /\ q <> 16 * x) \/ q = 16 * new_x + 15) /\
    wf_game (game s') /\
    numAsteroids (game s') = numAsteroids (game s) /\
    lives (game s') = lives (game s) /\
    numProjectiles (game s') = numProjectiles (game s) /\
    projectiles (game s') = projectiles (game s) /\
    score s' = score s /\ sequencer s' = sequencer s /\
    basePosition (game s') = basePosition (game s).
Proof using MAX_ASTEROIDS_fits.
  intros Hwf Hx Hast Hp Hq Hdraw.
  pose proof (wf_asteroids_ok _ Hwf) as HA.
  pose proof HA as [Hn Hlen _ _].
  pose proof (wf_base _ Hwf) as Hbase.
  destruct (asteroid_at_found x 0 (game s)) as [Hidx _]; [lia|lia|exact Hast|].
  destruct (remove_asteroid_frame (asteroid_at x 0 (game s)) (game s)) as (Hb1 & Hnp1 & Hp1 & Hl1).
  set (g1 := remove_asteroid (asteroid_at x 0 (game s)) (game s)) in *.
  set (s2 := with_game (fun g => set_numAsteroids (int8 (numAsteroids g + 1)) g)
               (with_game (fun g => remove_asteroid (asteroid_at x 0 g) g) s)).
  assert (Hstale : forall c, asteroid_at c 15 (game s) = -1 ->
                             asteroid_at c 15 (game s2) = -1).
  { intros c Hfree.
    assert (Hn2 : numAsteroids (game s2) = numAsteroids (game s)).
    { cbn. fold g1. unfold g1. rewrite remove_asteroid_count by lia.
      rewrite int8_small by lia. lia. }
    apply asteroid_at_none; [lia| |].
    { rewrite Hn2. cbn. rewrite remove_asteroid_length. lia. }
    apply (asteroid_at_none c 15 (game s)) in Hfree; [|lia|lia].
    intros Hin. apply Hfree. apply (stale_slot_cells (asteroid_at x 0 (game s)));
      [exact HA|lia|exact Hin]. }
  assert (Hdraw2 : Exists
    (fun r => asteroid_at (uint8 (Z.rem (Z.of_N r) FIELD_WIDTH)) 15 (game s2) = -1)
    (rand s2)).
  { apply (Exists_impl _ _ _ Hdraw). intros r. apply Hstale. }
  destruct (top_row_search_free _ _ Hdraw2) as (nx & rest & Hsearch).
  destruct (top_row_search_Some _ _ _ _ Hsearch) as (Hnx & Hfree2 & _).
  assert (Hfree1 : 16 * nx + 15 ∉ live_asteroids g1).
  { apply asteroid_at_none in Hfree2.
    - rewrite checked_position_cell in Hfree2 by lia.
      intros Hin. apply Hfree2. unfold live_asteroids in *. cbn. fold g1.
      unfold g1 at 1. rewrite remove_asteroid_count by lia.
      rewrite int8_small by lia.
      unfold g1 in Hin at 1. rewrite remove_asteroid_count in Hin by lia.
      apply list_elem_of_lookup in Hin as [k Hk].
      apply lookup_take_Some in Hk as [Hk Hlt].
      apply list_elem_of_lookup. exists k. rewrite lookup_take_lt by lia. exact Hk.
    - cbn. fold g1. unfold g1. rewrite remove_asteroid_count by lia.
      rewrite int8_small by lia. lia.
    - cbn. fold g1. unfold g1 at 1. rewrite remove_asteroid_count by lia.
      rewrite int8_small by lia. unfold g1. rewrite remove_asteroid_length. lia. }
  destruct (remove_found_asteroid x 0 (game s) Hwf Hast) as (Hwf1 & Hcount1 & Hlive1).
  fold g1 in Hwf1, Hcount1, Hlive1.
  rewrite checked_position_cell in Hlive1 by lia.
  replace (16 * x + 0) with (16 * x) in Hlive1 by lia.
  assert (Hnew : 16 * nx + 15 ∉ live_asteroids (game s)).
  { intros Hin. apply Hfree1. apply Hlive1. split; [exact Hin|lia]. }
  destruct (add_asteroid_wf (GAME_POSITION nx 15) g1 (wf_asteroids_ok _ Hwf1))
    as (HA2 & Hn2 & Hlive2).
  { lia. }
  { rewrite GAME_POSITION_cell by lia. exact Hfree1. }
  rewrite GAME_POSITION_cell in Hlive2 by lia.
  exists (with_game (fun g => add_asteroid (GAME_POSITION nx 15)
                                (remove_asteroid (asteroid_at x 0 g) g)) (set_rand rest s)), nx.
  split.
  { unfold advance_cell.
    destruct (Z.eqb_spec (asteroid_at x 0 (game s)) (-1)) as [|_]; [contradiction|].
    cbn [negb].
    change (game (with_game (fun g => remove_asteroid (asteroid_at x 0 g) g) s)) with g1.
    rewrite (projectile_at_same x 0 (game s) g1 Hnp1 Hp1), Hp.
    rewrite (projectile_at_same x (0 - 1) (game s) g1 Hnp1 Hp1), projectile_at_wraps, Hq.
    cbn [negb Z.eqb]. rewrite Hb1.
    assert (Hno : base_collision (basePosition (game s)) x 0 = false).
    { unfold base_collision. cbn. rewrite !andb_false_r. reflexivity. }
    rewrite Hno. unfold bind, top_row_loop.
    match goal with |- context [top_row_search ?r ?g] =>
      change (top_row_search r g) with (top_row_search (rand s2) (game s2)) end.
    rewrite Hsearch. reflexivity. }
  cbn [game with_game score set_rand sequencer]. fold g1.
  destruct (add_asteroid_frame (GAME_POSITION nx 15) g1) as (Hb5 & Hnp5 & Hp5 & Hl5).
  split; [exact Hnx|]. split; [exact Hnew|]. split.
  { intros q. rewrite Hlive2, elem_of_app, list_elem_of_singleton, Hlive1. reflexivity. }
  split.
  { apply (wf_game_asteroids_changed _ _ Hwf1 HA2); assumption. }
  split; [lia|].
  split; [rewrite Hl5; exact Hl1|].
  split; [rewrite Hnp5; exact Hnp1|].
  split; [rewrite Hp5; exact Hp1|].
  split; [reflexivity|]. split; [reflexivity|].
  rewrite Hb5. exact Hb1.
Qed.

(** ** A whole pass of advance_asteroids *)

Lemma moved_before_next_out (L : list Z) c :
  c ∉ L -> map (moved_before (c + 1)) L = map (moved_before c) L.
Proof.
  intros Hout. apply map_ext_in. intros q Hin. apply list_elem_of_In in Hin.
  unfold moved_before.
  destruct (Z.ltb_spec q (c + 1)), (Z.ltb_spec q c); try lia.
  assert (q = c) as -> by lia. contradiction.
Qed.

Lemma moved_before_next_in (L : list Z) c q' :
  c ∈ L ->
  q' ∈ map (moved_before (c + 1)) L
  <-> (q' ∈ map (moved_before c) L /\ q' <> c) \/ q' = c - 1.
Proof.
  intros Hc. rewrite !list_elem_of_fmap. split.
  - intros (q & -> & Hq). unfold moved_before.
    destruct (Z.ltb_spec q (c + 1)), (Z.ltb_spec q c).
    + left. split; [|lia]. exists q.
      destruct (Z.ltb_spec q c); [|lia]. split; [reflexivity|exact Hq].
    + right. lia.
    + lia.
    + left. split; [|lia]. exists q.
      destruct (Z.ltb_spec q c); [lia|]. split; [reflexivity|exact Hq].
  - intros [[(q & -> & Hq) Hne]| ->].
    + exists q. split; [|exact Hq]. unfold moved_before in *.
      destruct (Z.ltb_spec q (c + 1)), (Z.ltb_spec q c); lia.
    + exists c. split; [|exact Hc]. unfold moved_before.
      destruct (Z.ltb_spec c (c + 1)); lia.
Qed.

Lemma moved_before_at (L : list Z) c :
  c ∈ map (moved_before c) L <-> c ∈ L.
Proof.
  rewrite list_elem_of_fmap. split.
  - intros (q & Heq & Hq). unfold moved_before in Heq.
    destruct (Z.ltb_spec q c); [lia|]. subst q. exact Hq.
  - intros Hc. exists c. split; [|exact Hc]. unfold moved_before.
    destruct (Z.ltb_spec c c); lia.
Qed.

Lemma moved_before_below (L : list Z) c : c - 1 ∉ map (moved_before c) L.
Proof.
  rewrite list_elem_of_fmap. intros (q & Heq & _). unfold moved_before in Heq.
  destruct (Z.ltb_spec q c); lia.
Qed.

Lemma cell_of_byte x y :
  0 <= x < 8 -> 0 <= y < 16 ->
  GET_X_POSITION (16 * x + y) = x /\ GET_Y_POSITION (16 * x + y) = y.
Proof.
  intros Hx Hy. rewrite GET_X_POSITION_eq, GET_Y_POSITION_eq. split.
  - rewrite Z.mul_comm, Z.div_add_l by lia. rewrite Z.div_small by lia. lia.
  - rewrite Z.add_comm, Z.mul_comm, Z.mod_add by lia. apply Z.mod_small. lia.
Qed.

(** X16: when every asteroid is in a column of the field and above the
    bottom row, none is in the cell of a projectile or in the cell above
    one, and none is in one of the three cells in front of the base,
    [advance_asteroids] ends without a draw and moves every asteroid one
    row down; the projectiles, the base, the lives, the score and the
    sequencer are as before. *)
Theorem asteroids_move_down s :
  wf_game (game s) ->
  Forall (fun q => q < 128 /\ GET_Y_POSITION q <> 0 /\
                   (q ∉ live_projectiles (game s)) /\ (q - 1 ∉ live_projectiles (game s)) /\
                   base_collision (basePosition (game s))
                                  (GET_X_POSITION q) (GET_Y_POSITION q) = false)
         (live_asteroids (game s)) ->
  exists s',
    advance_asteroids s = Some (tt, s') /\
    wf_game (game s') /\
    live_asteroids (game s') ≡ₚ map Z.pred (live_asteroids (game s)) /\
    numAsteroids (game s') = numAsteroids (game s) /\
    basePosition (game s') = basePosition (game s) /\
    lives (game s') = lives (game s) /\
    numProjectiles (game s') = numProjectiles (game s) /\
    projectiles (game s') = projectiles (game s) /\
    score s' = score s /\ rand s' = rand s /\ sequencer s' = sequencer s.
Proof using MAX_ASTEROIDS_fits MAX_PROJECTILES_fits.
  intros Hwf Hall.
  set (L := live_asteroids (game s)) in *.
  pose (I := fun (c : Z) (t : State) =>
    wf_game (game t) /\
    (forall q, q ∈ live_asteroids (game t) <-> q ∈ map (moved_before c) L) /\
    numAsteroids (game t) = numAsteroids (game s) /\
    basePosition (game t) = basePosition (game s) /\
    lives (game t) = lives (game s) /\
    numProjectiles (game t) = numProjectiles (game s) /\
    projectiles (game t) = projectiles (game s) /\
    score t = score s /\ rand t = rand s /\ sequencer t = sequencer s).
  assert (Hstep : forall x y t,
    0 <= x < 8 -> 0 <= y < 16 -> I (16 * x + y) t ->
    exists t', advance_cell x y t = Some (tt, t') /\ I (16 * x + y + 1) t').
  { intros x y t Hx Hy (Hwft & Hcells & Hn & Hb & Hl & Hnp & Hp & Hsc & Hr & Hq).
    pose proof (wf_asteroids_ok _ Hwft) as [Hcount Hlen _ _].
    destruct (Z.eq_dec (asteroid_at x y (game t)) (-1)) as [Hnone|Hast].
    - exists t. split; [apply advance_cell_empty; exact Hnone|].
      assert (Hout : 16 * x + y ∉ L).
      { apply asteroid_at_none in Hnone; [|lia|lia].
        rewrite checked_position_cell in Hnone by lia.
        intros Hin. apply Hnone. apply Hcells. apply moved_before_at. exact Hin. }
      unfold I. rewrite (moved_before_next_out L _ Hout).
      split; [exact Hwft|]. split; [exact Hcells|]. repeat split; assumption.
    - assert (Hin : 16 * x + y ∈ L).
      { apply asteroid_at_present in Hast; [|lia|lia].
        rewrite checked_position_cell in Hast by lia.
        apply moved_before_at. apply Hcells. exact Hast. }
      rewrite Forall_forall in Hall.
      destruct (Hall _ Hin) as (_ & Hrow & Hp0 & Hp1 & Hbase).
      destruct (cell_of_byte x y Hx Hy) as [Hcx Hcy].
      rewrite Hcx, Hcy in Hbase. rewrite Hcy in Hrow.
      pose proof (wf_projectiles_ok _ Hwft) as HPt.
      pose proof (wfp_count _ HPt) as Hnpt. pose proof HPt as [_ Hplen _].
      assert (Hlp : live_projectiles (game t) = live_projectiles (game s))
        by (apply live_projectiles_same; assumption).
      assert (Hhere : projectile_at x y (game t) = -1).
      { apply projectile_at_none; [lia|lia|].
        rewrite checked_position_cell, Hlp by lia. exact Hp0. }
      assert (Hbelow : projectile_at x (y - 1) (game t) = -1).
      { apply projectile_at_none; [lia|lia|].
        rewrite checked_position_cell, Hlp by lia.
        replace (16 * x + (y - 1)) with (16 * x + y - 1) by lia. exact Hp1. }
      destruct (advance_cell_moves_spec x y t Hwft Hx ltac:(lia) Hast Hhere Hbelow)
        as (t' & Hrun & Hn' & Hcells' & _ & _ & Hb' & Hl' & Hnp' & Hp' & Hsc' & Hr' & Hq').
      { rewrite Hb. exact Hbase. }
      exists t'. split; [exact Hrun|].
      destruct (advance_cell_spec x y t tt t' Hx Hy Hwft) as (Hwft' & _); [|exact Hrun|].
      { intros _ Hbad. apply (moved_before_below L (16 * x + y)). apply Hcells.
        exact Hbad. }
      unfold I. split; [exact Hwft'|]. split.
      { intros q. rewrite Hcells', (moved_before_next_in L _ q Hin), Hcells. reflexivity. }
      repeat split; congruence. }
  assert (Hcolumn : forall x t,
    0 <= x < 0 + Z.of_nat 8 -> I (16 * x) t ->
    exists t', for_loop 16 0 (fun y => advance_cell x y) t = Some (tt, t')
               /\ I (16 * (x + 1)) t').
  { intros x t Hx Ht.
    destruct (for_loop_runs (fun y r => I (16 * x + y) r) (fun y => advance_cell x y) 16 0)
      with (s := t) as (t' & Hrun & Ht').
    - intros y r Hy Hr. replace (16 * x + (y + 1)) with (16 * x + y + 1) by lia.
      apply Hstep; [lia|lia|exact Hr].
    - replace (16 * x + 0) with (16 * x) by lia. exact Ht.
    - exists t'. split; [exact Hrun|].
      replace (16 * (x + 1)) with (16 * x + (0 + Z.of_nat 16)) by lia. exact Ht'. }
  destruct (for_loop_runs (fun x r => I (16 * x) r)
              (fun x => for_loop 16 0 (fun y => advance_cell x y)) 8 0 Hcolumn s)
    as (s' & Hrun & Hwf' & Hcells' & Hrest).
  { unfold I. split; [exact Hwf|]. split; [|repeat split; reflexivity].
    intros q. change (16 * 0) with 0.
    assert (Hid : map (moved_before 0) L = L).
    { rewrite <- (map_id L) at 2. apply map_ext_in. intros a Ha.
      apply list_elem_of_In in Ha.
      pose proof (wf_asteroids_ok _ Hwf) as [_ _ Hbytes _].
      assert (Hbyte : is_byte a).
      { rewrite Forall_forall in Hbytes. apply Hbytes.
        apply (subseteq_take (Z.to_nat (numAsteroids (game s)))). exact Ha. }
      unfold moved_before. destruct Hbyte. destruct (Z.ltb_spec a 0); [lia|reflexivity]. }
    rewrite Hid. reflexivity. }
  exists s'. split; [exact Hrun|]. split; [exact Hwf'|]. split; [|exact Hrest].
  change (16 * (0 + Z.of_nat 8)) with 128 in Hcells'.
  assert (Hmap : map (moved_before 128) L = map Z.pred L).
  { apply map_ext_in. intros a Ha. apply list_elem_of_In in Ha.
    rewrite Forall_forall in Hall. destruct (Hall _ Ha) as (Hlt & _).
    unfold moved_before. destruct (Z.ltb_spec a 128); lia. }
  rewrite Hmap in Hcells'.
  apply NoDup_Permutation.
  - apply (wfa_NoDup _ (wf_asteroids_ok _ Hwf')).
  - apply NoDup_fmap_2; [intros a b; lia|].
    apply (wfa_NoDup _ (wf_asteroids_ok _ Hwf)).
  - exact Hcells'.
Qed.

(** ** The alarm and the explosion *)

Lemma handle_basehit_sound_due s :
  basehit_step_due (clock s) (basehit_sequence (sequencer s)) (basehit_time (sequencer s))
  = true ->
  basehit_sequence (sequencer (handle_basehit_sound s))
  = basehit_sequence (sequencer s) + 1 /\
  basehit_time (sequencer (handle_basehit_sound s)) = clock s /\
  base_hit_sound (sequencer (handle_basehit_sound s))
  = (if basehit_sequence (sequencer s) + 1 =? 4 then 0 else base_hit_sound (sequencer s)) /\
  game (handle_basehit_sound s) = game s /\ score (handle_basehit_sound s) = score s /\
  clock (handle_basehit_sound s) = clock s.
Proof.
  intros Hdue. unfold handle_basehit_sound. cbn [sequencer with_sequencer game score clock].
  rewrite Hdue. cbn [basehit_sequence set_basehit_time set_basehit_sequence].
  destruct (basehit_sequence (sequencer s) + 1 =? 4); cbn; repeat split; reflexivity.
Qed.

Lemma handle_basehit_sound_waits s :
  basehit_step_due (clock s) (basehit_sequence (sequencer s)) (basehit_time (sequencer s))
  = false ->
  basehit_sequence (sequencer s) <> 4 ->
  handle_basehit_sound s = s.
Proof.
  intros Hdue Hstep. unfold handle_basehit_sound. unfold with_sequencer.
  rewrite Hdue.
  destruct (Z.eqb_spec (basehit_sequence (sequencer s)) 4); [contradiction|].
  destruct s. reflexivity.
Qed.

(** X17: after [enable_basehit_sound] the alarm takes three steps: the
    calls of [handle_basehit_sound] at which a step is due take the step
    number from 1 to 4 and stamp the time, and the third of them switches
    the alarm off; a call at which no step is due changes nothing.  The
    game data and the score are not touched. *)
Theorem alarm_takes_three_steps s t1 t2 t3 :
  basehit_step_due t1 1 (basehit_time (sequencer s)) = true ->
  basehit_step_due t2 2 t1 = true ->
  basehit_step_due t3 3 t2 = true ->
  let s1 := handle_basehit_sound (at_time t1 (enable_basehit_sound s)) in
  let s2 := handle_basehit_sound (at_time t2 s1) in
  let s3 := handle_basehit_sound (at_time t3 s2) in
  (base_hit_sound (sequencer s1) = 1 /\ basehit_sequence (sequencer s1) = 2) /\
  (base_hit_sound (sequencer s2) = 1 /\ basehit_sequence (sequencer s2) = 3) /\
  (base_hit_sound (sequencer s3) = 0 /\ basehit_sequence (sequencer s3) = 4 /\
   basehit_time (sequencer s3) = t3) /\
  (game s3 = game s /\ score s3 = score s) /\
  (forall t, basehit_step_due t 2 t1 = false ->
             handle_basehit_sound (at_time t s1) = at_time t s1).
Proof.
  intros H1 H2 H3 s1 s2 s3.
  assert (F1 : basehit_sequence (sequencer s1) = 2 /\
               basehit_time (sequencer s1) = t1 /\
               base_hit_sound (sequencer s1) = 1 /\
               game s1 = game s /\ score s1 = score s /\ clock s1 = t1)
    by exact (handle_basehit_sound_due (at_time t1 (enable_basehit_sound s)) H1).
  clearbody s1. destruct F1 as (Hq1 & Ht1 & Hon1 & Hg1 & Hsc1 & Hc1).
  assert (Hdue2 : basehit_step_due (clock (at_time t2 s1))
                    (basehit_sequence (sequencer (at_time t2 s1)))
                    (basehit_time (sequencer (at_time t2 s1))) = true).
  { cbn. rewrite Hq1, Ht1. exact H2. }
  pose proof (handle_basehit_sound_due (at_time t2 s1) Hdue2) as F2.
  fold s2 in F2. clearbody s2.
  cbn [sequencer at_time set_env game score clock] in F2. rewrite Hq1, Hon1 in F2.
  change (2 + 1) with 3 in F2. cbn [Z.eqb Pos.eqb] in F2.
  destruct F2 as (Hq2 & Ht2 & Hon2 & Hg2 & Hsc2 & Hc2).
  assert (Hdue3 : basehit_step_due (clock (at_time t3 s2))
                    (basehit_sequence (sequencer (at_time t3 s2)))
                    (basehit_time (sequencer (at_time t3 s2))) = true).
  { cbn. rewrite Hq2, Ht2. exact H3. }
  pose proof (handle_basehit_sound_due (at_time t3 s2) Hdue3) as F3.
  fold s3 in F3. clearbody s3.
  cbn [sequencer at_time set_env game score clock] in F3. rewrite Hq2 in F3.
  change (3 + 1) with 4 in F3. cbn [Z.eqb Pos.eqb] in F3.
  destruct F3 as (Hq3 & Ht3 & Hon3 & Hg3 & Hsc3 & Hc3).
  split; [split; [exact Hon1|exact Hq1]|].
  split; [split; [exact Hon2|exact Hq2]|].
  split; [split; [exact Hon3|split; [exact Hq3|exact Ht3]]|].
  split; [split; congruence|].
  intros t Hwait. apply handle_basehit_sound_waits.
  - cbn. rewrite Hq1, Ht1. exact Hwait.
  - cbn. rewrite Hq1. discriminate.
Qed.

Lemma handle_asteroid_animation_due s :
  10 <= clock s < 4294967296 ->
  asteroid_animation_time (sequencer s) + 10 <= clock s ->
  handle_asteroid_animation s
  = with_sequencer (fun q =>
      set_animation (animation_x q) (animation_y q)
        (if asteroid_sequence q =? 4 then 0 else asteroid_animation_on q)
        (asteroid_sequence q + 1) (clock s) q) s.
Proof.
  intros Hc Hdue. unfold handle_asteroid_animation, with_sequencer.
  unfold uint32. rewrite Z.mod_small by lia.
  destruct (Z.geb_spec (clock s - 10) (asteroid_animation_time (sequencer s))); [|lia].
  reflexivity.
Qed.

Lemma handle_asteroid_animation_waits s :
  10 <= clock s < 4294967296 ->
  clock s < asteroid_animation_time (sequencer s) + 10 ->
  handle_asteroid_animation s = s.
Proof.
  intros Hc Hwait. unfold handle_asteroid_animation, with_sequencer.
  unfold uint32. rewrite Z.mod_small by lia.
  destruct (Z.geb_spec (clock s - 10) (asteroid_animation_time (sequencer s))); [lia|].
  destruct s. reflexivity.
Qed.

Lemma animation_frame_step s t x y on sq t0 q0 :
  sequencer s = set_animation x y on sq t0 q0 ->
  10 <= t < 4294967296 -> t0 + 10 <= t ->
  sequencer (handle_asteroid_animation (at_time t s))
  = set_animation x y (if sq =? 4 then 0 else on) (sq + 1) t q0 /\
  game (handle_asteroid_animation (at_time t s)) = game s /\
  score (handle_asteroid_animation (at_time t s)) = score s.
Proof.
  intros Hq Ht Hdue.
  rewrite handle_asteroid_animation_due.
  - cbn [sequencer with_sequencer at_time set_env game score clock].
    rewrite Hq. repeat split; reflexivity.
  - exact Ht.
  - cbn [sequencer at_time set_env clock]. rewrite Hq. cbn. exact Hdue.
Qed.

(** X18: [enable_asteroid_animation], when no animation is running,
    records the cell and starts the animation; it then takes four frames,
    each at a call of [handle_asteroid_animation] made ten or more time
    units after the last frame, and the fourth frame ends it.  A call made
    earlier changes nothing, and so does [enable_asteroid_animation] while
    the animation is running: the cell of a second hit is not recorded. *)
Theorem animation_takes_four_frames s x y t1 t2 t3 t4 :
  asteroid_animation_on (sequencer s) = 0 ->
  0 <= clock s -> clock s + 10 <= t1 -> t1 + 10 <= t2 -> t2 + 10 <= t3 ->
  t3 + 10 <= t4 -> t4 < 4294967296 ->
  let s0 := enable_asteroid_animation x y s in
  let s1 := handle_asteroid_animation (at_time t1 s0) in
  let s2 := handle_asteroid_animation (at_time t2 s1) in
  let s3 := handle_asteroid_animation (at_time t3 s2) in
  let s4 := handle_asteroid_animation (at_time t4 s3) in
  (asteroid_animation_on (sequencer s0) = 1 /\ asteroid_sequence (sequencer s0) = 1) /\
  (asteroid_animation_on (sequencer s1) = 1 /\ asteroid_sequence (sequencer s1) = 2) /\
  (asteroid_animation_on (sequencer s2) = 1 /\ asteroid_sequence (sequencer s2) = 3) /\
  (asteroid_animation_on (sequencer s3) = 1 /\ asteroid_sequence (sequencer s3) = 4) /\
  (asteroid_animation_on (sequencer s4) = 0 /\ asteroid_sequence (sequencer s4) = 5) /\
  (animation_x (sequencer s4) = x /\ animation_y (sequencer s4) = y) /\
  (game s4 = game s /\ score s4 = score s) /\
  (forall x' y' t, enable_asteroid_animation x' y' (at_time t s1) = at_time t s1) /\
  (forall t, t1 <= t < t1 + 10 -> handle_asteroid_animation (at_time t s1) = at_time t s1).
Proof.
  intros Hoff Hc H1 H2 H3 H4 Hmax s0 s1 s2 s3 s4.
  assert (F0 : sequencer s0 = set_animation x y 1 1 (clock s) (sequencer s) /\
               game s0 = game s /\ score s0 = score s).
  { unfold s0, enable_asteroid_animation. cbn. rewrite Hoff. repeat split; reflexivity. }
  clearbody s0. destruct F0 as (Q0 & G0 & S0).
  pose proof (animation_frame_step s0 t1 _ _ _ _ _ _ Q0 ltac:(lia) ltac:(lia)) as F1.
  fold s1 in F1. clearbody s1. destruct F1 as (Q1 & G1 & S1).
  change (1 + 1) with 2 in Q1. cbn [Z.eqb Pos.eqb] in Q1.
  pose proof (animation_frame_step s1 t2 _ _ _ _ _ _ Q1 ltac:(lia) ltac:(lia)) as F2.
  fold s2 in F2. clearbody s2. destruct F2 as (Q2 & G2 & S2).
  change (2 + 1) with 3 in Q2. cbn [Z.eqb Pos.eqb] in Q2.
  pose proof (animation_frame_step s2 t3 _ _ _ _ _ _ Q2 ltac:(lia) ltac:(lia)) as F3.
  fold s3 in F3. clearbody s3. destruct F3 as (Q3 & G3 & S3).
  change (3 + 1) with 4 in Q3. cbn [Z.eqb Pos.eqb] in Q3.
  pose proof (animation_frame_step s3 t4 _ _ _ _ _ _ Q3 ltac:(lia) ltac:(lia)) as F4.
  fold s4 in F4. clearbody s4. destruct F4 as (Q4 & G4 & S4).
  change (4 + 1) with 5 in Q4. cbn [Z.eqb Pos.eqb] in Q4.
  rewrite Q0, Q1, Q2, Q3, Q4.
  split; [split; reflexivity|]. split; [split; reflexivity|].
  split; [split; reflexivity|]. split; [split; reflexivity|].
  split; [split; reflexivity|]. split; [split; reflexivity|].
  split; [split; congruence|].
  split.
  - intros x' y' t. unfold enable_asteroid_animation, with_sequencer.
    cbn [sequencer at_time set_env]. rewrite Q1. cbn.
    unfold at_time, set_env. rewrite Q1. reflexivity.
  - intros t Ht. apply handle_asteroid_animation_waits.
    + cbn. lia.
    + cbn [sequencer at_time set_env clock]. rewrite Q1. cbn. lia.
Qed.

(** ** A move of the base into two asteroids *)

Lemma ram_check_hit x y s :
  wf_game (game s) -> asteroid_at x y (game s) <> -1 ->
  game (ram_check x y s)
  = remove_asteroid (asteroid_at x y (game s)) (set_lives (lives (game s) - 1) (game s)) /\
  wf_game (game (ram_check x y s)) /\
  lives (game (ram_check x y s)) = lives (game s) - 1 /\
  numAsteroids (game (ram_check x y s)) = numAsteroids (game s) - 1 /\
  basePosition (game (ram_check x y s)) = basePosition (game s) /\
  (forall q, q ∈ live_asteroids (game (ram_check x y s))
             <-> q ∈ live_asteroids (game s) /\ q <> checked_position x y) /\
  base_hit_sound (sequencer (ram_check x y s)) = 1 /\
  basehit_sequence (sequencer (ram_check x y s)) = 1.
Proof using MAX_ASTEROIDS_fits.
  intros Hwf Hast. unfold ram_check.
  destruct (Z.eqb_spec (asteroid_at x y (game s)) (-1)) as [|_]; [contradiction|].
  cbn [negb game with_game enable_basehit_sound with_sequencer sequencer].
  change (asteroid_at x y (set_lives (lives (game s) - 1) (game s)))
    with (asteroid_at x y (game s)).
  assert (Hwf1 : wf_game (set_lives (lives (game s) - 1) (game s)))
    by (apply wf_game_set_lives; exact Hwf).
  assert (Hast1 : asteroid_at x y (set_lives (lives (game s) - 1) (game s)) <> -1)
    by exact Hast.
  destruct (remove_found_asteroid x y _ Hwf1 Hast1) as (Hwf2 & Hcount & Hlive).
  destruct (remove_asteroid_frame (asteroid_at x y (game s))
              (set_lives (lives (game s) - 1) (game s))) as (Hb & _ & _ & Hl).
  change (asteroid_at x y (set_lives (lives (game s) - 1) (game s)))
    with (asteroid_at x y (game s)) in *.
  split; [reflexivity|]. split; [exact Hwf2|]. split; [exact Hl|].
  split; [exact Hcount|]. split; [exact Hb|]. split; [exact Hlive|].
  split; reflexivity.
Qed.

(** The move to the left when both ram cells hold an asteroid. *)
Lemma move_base_double_ram s :
  wf_game (game s) -> basePosition (game s) <> 0 ->
  asteroid_at (basePosition (game s) - 2) 0 (game s) <> -1 ->
  asteroid_at (basePosition (game s) - 1) 1 (game s) <> -1 ->
  fst (move_base MOVE_LEFT s) = 1 /\
  lives (game (snd (move_base MOVE_LEFT s))) = lives (game s) - 2 /\
  numAsteroids (game (snd (move_base MOVE_LEFT s))) = numAsteroids (game s) - 2 /\
  basePosition (game (snd (move_base MOVE_LEFT s))) = basePosition (game s) - 1.
Proof using MAX_ASTEROIDS_fits.
  intros Hwf Hb Hfirst Hsecond.
  pose proof (wf_base _ Hwf) as Hrange.
  pose proof (wf_asteroids_ok _ Hwf) as [Hn Hlen _ _].
  set (b := basePosition (game s)) in *.
  destruct (ram_check_hit (b - 2) 0 s Hwf Hfirst)
    as (_ & Hwf1 & Hl1 & Hn1 & Hb1 & Hcells1 & _).
  fold b in Hb1.
  set (s1 := ram_check (b - 2) 0 s) in *.
  assert (Hsecond1 : asteroid_at (basePosition (game s1) - 1) 1 (game s1) <> -1).
  { rewrite Hb1. pose proof (wf_asteroids_ok _ Hwf1) as [Hn' Hlen' _ _].
    apply asteroid_at_present; [lia|lia|]. apply Hcells1. split.
    - apply asteroid_at_present; [lia|lia|exact Hsecond].
    - destruct (Z.eq_dec b 1) as [Hb1'|Hb1'].
      + intros Heq. rewrite Hb1' in Heq. vm_compute in Heq. discriminate Heq.
      + rewrite !checked_position_cell by lia. lia. }
  destruct (ram_check_hit (basePosition (game s1) - 1) 1 s1 Hwf1 Hsecond1)
    as (_ & Hwf2 & Hl2 & Hn2 & Hb2 & _).
  unfold move_base. rewrite Z.eqb_refl. fold b.
  destruct (Z.eqb_spec b 0) as [|_]; [contradiction|].
  cbn [andb negb fst snd game with_game basePosition lives numAsteroids set_basePosition].
  fold s1.
  split; [reflexivity|]. split; [lia|]. split; [lia|].
  rewrite Hb2, Hb1. apply int8_small. lia.
Qed.

(** X19: [move_base] calls [update_terminal], and with it
    [update_led], once, after both ram cells have been dealt with.  When
    both hold an asteroid two lives go at once and the value between is
    never shown.  With two lives or more before the move, the LEDs, which
    showed the lives before, show one life more than there is; with one
    life before the move the lives are -1 after it, for which [update_led]
    has no case, and the one LED stays on. *)
Theorem double_ram_leaves_a_led_on s PORTA :
  wf_game (game s) -> is_byte PORTA -> basePosition (game s) <> 0 ->
  asteroid_at (basePosition (game s) - 2) 0 (game s) <> -1 ->
  asteroid_at (basePosition (game s) - 1) 1 (game s) <> -1 ->
  1 <= lives (game s) <= 4 ->
  lives_leds (show_lives (lives_down_to (lives (game s))) PORTA) = lives (game s) /\
  lives (game (snd (move_base MOVE_LEFT s))) = lives (game s) - 2 /\
  (2 <= lives (game s) ->
   lives_leds (update_terminal (snd (move_base MOVE_LEFT s))
                 (show_lives (lives_down_to (lives (game s))) PORTA))
   = lives (game (snd (move_base MOVE_LEFT s))) + 1) /\
  (lives (game s) = 1 ->
   lives (game (snd (move_base MOVE_LEFT s))) = -1 /\
   lives_leds (update_terminal (snd (move_base MOVE_LEFT s))
                 (show_lives (lives_down_to (lives (game s))) PORTA))
   = 1).
Proof using MAX_ASTEROIDS_fits.
  intros Hwf Hp Hb Hfirst Hsecond Hl.
  destruct (move_base_double_ram s Hwf Hb Hfirst Hsecond) as (_ & Hlives & _).
  destruct (show_lives_down_bits (lives (game s)) PORTA Hp ltac:(lia))
    as (Hbyte & H2 & H3 & H4 & H5).
  assert (Hcases : lives (game s) = 1 \/ lives (game s) = 2
                   \/ lives (game s) = 3 \/ lives (game s) = 4) by lia.
  split.
  { unfold lives_leds. rewrite H2, H3, H4, H5.
    destruct Hcases as [->|[->|[->| ->]]]; reflexivity. }
  split; [exact Hlives|].
  unfold update_terminal. rewrite Hlives.
  rewrite lives_leds_update_led by exact Hbyte.
  rewrite H2, H3, H4, H5.
  split.
  - intros Htwo. destruct Hcases as [H1|[->|[->| ->]]]; [lia|reflexivity..].
  - intros ->. split; reflexivity.
Qed.

(** ** The keys *)

Lemma no_button_tests :
  (NO_BUTTON_PUSHED =? NO_BUTTON_PUSHED) = true /\
  (NO_BUTTON_PUSHED =? 3) = false /\ (NO_BUTTON_PUSHED =? 2) = false /\
  (NO_BUTTON_PUSHED =? 1) = false /\ (NO_BUTTON_PUSHED =? 0) = false.
Proof using NO_BUTTON_PUSHED_apart.
  split; [apply Z.eqb_refl|]. repeat split; apply Z.eqb_neq; lia.
Qed.

(** The input variables after a character has been read with no button
    pushed. *)
Lemma read_keys_char c incoming n :
  read_keys NO_BUTTON_PUSHED true (c :: incoming) n
  = (if (n =? 0) && (to_char c =? ESCAPE_CHAR) then mkKeys (-1) (-1) (uint8 (n + 1))
     else if (n =? 1) && (to_char c =? chr "[") then mkKeys (-1) (-1) (uint8 (n + 1))
     else if n =? 2 then mkKeys (-1) (to_char c) 0
     else mkKeys (to_char c) (-1) 0,
     incoming).
Proof using Type.
  unfold read_keys. rewrite Z.eqb_refl.
  destruct ((n =? 0) && (to_char c =? ESCAPE_CHAR)); [reflexivity|].
  destruct ((n =? 1) && (to_char c =? chr "[")); [reflexivity|].
  destruct (n =? 2); reflexivity.
Qed.

(** The action when no button is pushed and no character has come in. *)
Lemma process_no_input incoming n s :
  process_input NO_BUTTON_PUSHED (mkKeys (-1) (-1) n) incoming s = Some (incoming, s).
Proof using NO_BUTTON_PUSHED_apart.
  destruct no_button_tests as (_ & H3 & H2 & H1 & H0).
  unfold process_input. cbn [serial_input escape_sequence_char].
  rewrite H3, H2, H1, H0. reflexivity.
Qed.

(** X20: the cursor keys arrive as three characters, ESC, [ and a
    letter, one in each round of the loop of [play_game].  With no button
    pushed the first two rounds do nothing to the game, and the third acts
    on the letter alone: D moves the base to the left, C to the right, A
    fires, and every other character, also one that is a key by itself
    (L, R, space, P), does nothing; then the next character starts
    afresh. *)
Theorem cursor_key_sequences incoming s :
  handle_input NO_BUTTON_PUSHED true (ESCAPE_CHAR :: incoming) 0 s
  = Some ((1, incoming), s) /\
  handle_input NO_BUTTON_PUSHED true (chr "[" :: incoming) 1 s
  = Some ((2, incoming), s) /\
  handle_input NO_BUTTON_PUSHED true (chr "D" :: incoming) 2 s
  = Some ((0, incoming), snd (move_base MOVE_LEFT s)) /\
  handle_input NO_BUTTON_PUSHED true (chr "C" :: incoming) 2 s
  = Some ((0, incoming), snd (move_base MOVE_RIGHT s)) /\
  handle_input NO_BUTTON_PUSHED true (chr "A" :: incoming) 2 s
  = (fire_projectile >> ret (0, incoming)) s /\
  (forall c, 0 <= c < 256 -> c <> chr "D" -> c <> chr "C" -> c <> chr "A" ->
     handle_input NO_BUTTON_PUSHED true (c :: incoming) 2 s = Some ((0, incoming), s)).
Proof using NO_BUTTON_PUSHED_apart.
  destruct no_button_tests as (_ & H3 & H2 & H1 & H0).
  split; [|split; [|split; [|split; [|split]]]].
  - unfold handle_input. rewrite read_keys_char. cbn [fst snd andb Z.eqb].
    change (to_char ESCAPE_CHAR =? ESCAPE_CHAR) with true. cbn [fst snd].
    unfold bind. rewrite process_no_input. reflexivity.
  - unfold handle_input. rewrite read_keys_char.
    change (to_char (chr "[") =? ESCAPE_CHAR) with false.
    change (to_char (chr "[") =? chr "[") with true.
    cbn [fst snd andb Z.eqb Pos.eqb]. unfold bind. rewrite process_no_input. reflexivity.
  - unfold handle_input. rewrite read_keys_char. cbn [fst snd andb Z.eqb Pos.eqb].
    unfold bind, process_input. cbn [serial_input escape_sequence_char].
    rewrite H3. change (to_char (chr "D") =? chr "D") with true. reflexivity.
  - unfold handle_input. rewrite read_keys_char. cbn [fst snd andb Z.eqb Pos.eqb].
    unfold bind, process_input. cbn [serial_input escape_sequence_char].
    rewrite H3, H2, H1, H0.
    change (to_char (chr "C") =? chr "D") with false.
    change (to_char (chr "C") =? chr "A") with false.
    change (to_char (chr "C") =? chr "B") with false.
    change (to_char (chr "C") =? chr "C") with true. reflexivity.
  - unfold handle_input. rewrite read_keys_char. cbn [fst snd andb Z.eqb Pos.eqb].
    unfold bind, process_input. cbn [serial_input escape_sequence_char].
    rewrite H3, H2.
    change (to_char (chr "A") =? chr "D") with false.
    change (to_char (chr "A") =? chr "A") with true.
    cbn [orb]. unfold bind. destruct (fire_projectile s) as [[r s']|]; reflexivity.
  - intros c Hc HD HC HA.
    unfold handle_input. rewrite read_keys_char. cbn [fst snd andb Z.eqb Pos.eqb].
    unfold bind, process_input. cbn [serial_input escape_sequence_char].
    rewrite H3, H2, H1, H0.
    assert (Hchar : to_char c = c \/ to_char c < 0).
    { unfold to_char, int8. destruct (Z_lt_le_dec c 128).
      - left. rewrite Z.mod_small by lia. lia.
      - right. replace (c + 128) with (c - 128 + 1 * 256) by lia.
        rewrite Z.mod_add by lia. rewrite Z.mod_small by lia. lia. }
    assert (HnD : (to_char c =? chr "D") = false)
      by (apply Z.eqb_neq; change (chr "D") with 68 in *; lia).
    assert (HnC : (to_char c =? chr "C") = false)
      by (apply Z.eqb_neq; change (chr "C") with 67 in *; lia).
    assert (HnA : (to_char c =? chr "A") = false)
      by (apply Z.eqb_neq; change (chr "A") with 65 in *; lia).
    rewrite HnD, HnC, HnA. cbn [orb Z.eqb].
    destruct (to_char c =? chr "B"); reflexivity.
Qed.
Lemma to_char_cases c : 0 <= c < 256 -> to_char c = c \/ to_char c < 0.
Proof.
  intros Hc. unfold to_char, int8. destruct (Z_lt_le_dec c 128).
  - left. rewrite Z.mod_small by lia. lia.
  - right. replace (c + 128) with (c - 128 + 1 * 256) by lia.
    rewrite Z.mod_add by lia. rewrite Z.mod_small by lia. lia.
Qed.

(** X21: a pushed button acts by its number (3 left, 2 fire, 0 right, 1
    nothing) and leaves the serial line and an escape sequence under way as
    they are.  With no button pushed and no character ready the round does
    nothing.  Outside an escape sequence L and l move the base to the left,
    R and r to the right, and the space bar fires.  A character other than
    [ after ESC ends the sequence and is taken as a key by itself: ESC
    followed by L moves the base, and a second ESC does not start a new
    sequence. *)
Theorem buttons_and_plain_keys available incoming n s :
  (handle_input 3 available incoming n s
   = Some ((n, incoming), snd (move_base MOVE_LEFT s)) /\
   handle_input 2 available incoming n s = (fire_projectile >> ret (n, incoming)) s /\
   handle_input 1 available incoming n s = Some ((n, incoming), s) /\
   handle_input 0 available incoming n s
   = Some ((n, incoming), snd (move_base MOVE_RIGHT s))) /\
  (handle_input NO_BUTTON_PUSHED false incoming n s = Some ((n, incoming), s) /\
   handle_input NO_BUTTON_PUSHED true [] n s = Some ((n, [] ), s)) /\
  (forall c, c = chr "L" \/ c = chr "l" ->
     handle_input NO_BUTTON_PUSHED true (c :: incoming) 0 s
     = Some ((0, incoming), snd (move_base MOVE_LEFT s))) /\
  (forall c, c = chr "R" \/ c = chr "r" ->
     handle_input NO_BUTTON_PUSHED true (c :: incoming) 0 s
     = Some ((0, incoming), snd (move_base MOVE_RIGHT s))) /\
  handle_input NO_BUTTON_PUSHED true (chr " " :: incoming) 0 s
  = (fire_projectile >> ret (0, incoming)) s /\
  (forall c, 0 <= c < 256 -> c <> chr "[" -> c <> ESCAPE_CHAR ->
     handle_input NO_BUTTON_PUSHED true (c :: incoming) 1 s
     = handle_input NO_BUTTON_PUSHED true (c :: incoming) 0 s) /\
  handle_input NO_BUTTON_PUSHED true (ESCAPE_CHAR :: incoming) 1 s
  = Some ((0, incoming), s).
Proof using NO_BUTTON_PUSHED_apart.
  destruct no_button_tests as (_ & H3 & H2 & H1 & H0).
  assert (Hbutton : forall b, 0 <= b <= 3 ->
    read_keys b available incoming n = (mkKeys (-1) (-1) n, incoming)).
  { intros b Hb. unfold read_keys.
    destruct (Z.eqb_spec b NO_BUTTON_PUSHED) as [->|_]; [contradiction|reflexivity]. }
  split; [|split; [|split; [|split; [|split; [|split]]]]].
  - split; [|split; [|split]]; unfold handle_input; rewrite Hbutton by lia;
      cbn [fst snd]; unfold bind, process_input;
      cbn [serial_input escape_sequence_char characters_into_escape_sequence Z.eqb Pos.eqb orb];
      try reflexivity.
    unfold bind. destruct (fire_projectile s) as [[r s']|]; reflexivity.
  - split; unfold handle_input, read_keys; rewrite Z.eqb_refl; cbn [fst snd];
      unfold bind; rewrite process_no_input; reflexivity.
  - intros c [-> | ->]; unfold handle_input; rewrite read_keys_char;
      cbn [fst snd andb Z.eqb Pos.eqb]; unfold bind, process_input;
      cbn [serial_input escape_sequence_char]; rewrite H3; reflexivity.
  - intros c [-> | ->]; unfold handle_input; rewrite read_keys_char;
      cbn [fst snd andb Z.eqb Pos.eqb]; unfold bind, process_input;
      cbn [serial_input escape_sequence_char]; rewrite H3, H2, H1, H0; reflexivity.
  - unfold handle_input. rewrite read_keys_char. cbn [fst snd andb Z.eqb Pos.eqb].
    unfold bind, process_input. cbn [serial_input escape_sequence_char].
    rewrite H3, H2.
    change (to_char (chr " ") =? chr "L") with false.
    change (to_char (chr " ") =? chr "l") with false.
    change (to_char (chr " ") =? chr " ") with true.
    cbn [orb Z.eqb]. unfold bind. destruct (fire_projectile s) as [[r s']|]; reflexivity.
  - intros c Hc Hbracket Hesc.
    unfold handle_input. rewrite !read_keys_char. cbn [andb Z.eqb Pos.eqb].
    destruct (to_char_cases c Hc) as [Hsame|Hneg].
    + rewrite Hsame.
      destruct (Z.eqb_spec c ESCAPE_CHAR) as [|_]; [contradiction|].
      destruct (Z.eqb_spec c (chr "[")) as [|_]; [contradiction|]. reflexivity.
    + destruct (Z.eqb_spec (to_char c) ESCAPE_CHAR) as [Heq|_];
        [unfold ESCAPE_CHAR in Heq; lia|].
      destruct (Z.eqb_spec (to_char c) (chr "[")) as [Heq|_];
        [change (chr "[") with 91 in Heq; lia|]. reflexivity.
  - unfold handle_input. rewrite read_keys_char. cbn [fst snd andb Z.eqb Pos.eqb].
    change (to_char ESCAPE_CHAR =? chr "[") with false. cbn [fst snd].
    unfold bind, process_input. cbn [serial_input escape_sequence_char].
    rewrite H3, H2, H1, H0. reflexivity.
Qed.

Lemma pause_wait_first before c rest :
  Forall (fun d => to_char d <> chr "p" /\ to_char d <> chr "P") before ->
  to_char c = chr "p" \/ to_char c = chr "P" ->
  pause_wait (before ++ c :: rest) = Some rest.
Proof.
  intros Hbefore Hc. induction Hbefore as [|d before [Hd1 Hd2] _ IH]; cbn [app pause_wait].
  - destruct Hc as [-> | ->]; reflexivity.
  - destruct (Z.eqb_spec (to_char d) (chr "p")); [contradiction|].
    destruct (Z.eqb_spec (to_char d) (chr "P")); [contradiction|]. exact IH.
Qed.

Lemma pause_wait_never incoming :
  Forall (fun d => to_char d <> chr "p" /\ to_char d <> chr "P") incoming ->
  pause_wait incoming = None.
Proof.
  intros Hall. induction Hall as [|d rest [Hd1 Hd2] _ IH]; cbn [pause_wait].
  - reflexivity.
  - destruct (Z.eqb_spec (to_char d) (chr "p")); [contradiction|].
    destruct (Z.eqb_spec (to_char d) (chr "P")); [contradiction|]. exact IH.
Qed.

(** X22: p or P outside an escape sequence pauses the game.  The pause
    reads and drops every character up to the next p or P, whatever it is,
    and leaves the game as it was; while no p or P comes in, it does not
    end. *)
Theorem pause_drops_the_keys c before d rest s :
  c = chr "p" \/ c = chr "P" ->
  Forall (fun k => to_char k <> chr "p" /\ to_char k <> chr "P") before ->
  to_char d = chr "p" \/ to_char d = chr "P" ->
  handle_input NO_BUTTON_PUSHED true (c :: before ++ d :: rest) 0 s
  = Some ((0, rest), s) /\
  handle_input NO_BUTTON_PUSHED true (c :: before) 0 s = None.
Proof using NO_BUTTON_PUSHED_apart.
  intros Hc Hbefore Hd.
  destruct no_button_tests as (_ & H3 & H2 & H1 & H0).
  assert (Hpause : forall incoming,
    handle_input NO_BUTTON_PUSHED true (c :: incoming) 0 s
    = match pause_wait incoming with
      | Some unread => Some ((0, unread), s)
      | None => None
      end).
  { intros incoming. unfold handle_input. rewrite read_keys_char.
    cbn [fst snd andb Z.eqb Pos.eqb].
    unfold bind, process_input. cbn [serial_input escape_sequence_char].
    rewrite H3, H2, H1, H0.
    destruct Hc as [-> | ->].
    - change (to_char (chr "p") =? ESCAPE_CHAR) with false. cbn [fst snd].
      cbn [serial_input escape_sequence_char characters_into_escape_sequence Z.eqb orb].
      change (to_char (chr "p") =? chr "L") with false.
      change (to_char (chr "p") =? chr "l") with false.
      change (to_char (chr "p") =? chr " ") with false.
      change (to_char (chr "p") =? chr "R") with false.
      change (to_char (chr "p") =? chr "r") with false.
      change (to_char (chr "p") =? chr "p") with true.
      cbn [orb]. destruct (pause_wait incoming); reflexivity.
    - change (to_char (chr "P") =? ESCAPE_CHAR) with false. cbn [fst snd].
      cbn [serial_input escape_sequence_char characters_into_escape_sequence Z.eqb orb].
      change (to_char (chr "P") =? chr "L") with false.
      change (to_char (chr "P") =? chr "l") with false.
      change (to_char (chr "P") =? chr " ") with false.
      change (to_char (chr "P") =? chr "R") with false.
      change (to_char (chr "P") =? chr "r") with false.
      change (to_char (chr "P") =? chr "p") with false.
      change (to_char (chr "P") =? chr "P") with true.
      cbn [orb]. destruct (pause_wait incoming); reflexivity. }
  split.
  - rewrite Hpause, (pause_wait_first before d rest Hbefore Hd). reflexivity.
  - rewrite Hpause, (pause_wait_never before Hbefore). reflexivity.
Qed.

(** ** The tone generator *)

(** X23: [freq_to_clock_period] gives the whole number of microseconds of
    a period, [1000000 / freq], for every frequency from 16 up to the
    largest [uint16_t]; below 16 the quotient does not fit the [uint16_t]
    result and the period returned is shorter than the true one. *)
Theorem clock_period_of_frequency freq :
  (16 <= freq < 65536 ->
   freq_to_clock_period freq = 1000000 / freq /\
   15 <= freq_to_clock_period freq <= 62500 /\
   freq_to_clock_period freq * freq <= 1000000 < (freq_to_clock_period freq + 1) * freq) /\
  (1 <= freq < 16 ->
   0 <= freq_to_clock_period freq < 65536 /\
   freq_to_clock_period freq < 1000000 / freq).
Proof.
  unfold freq_to_clock_period, uint16. split; intros Hf.
  - rewrite (Z.mod_small freq) by lia.
    assert (Hq : 15 <= 1000000 / freq <= 62500).
    { split; [apply Z.div_le_lower_bound; lia|apply Z.div_le_upper_bound; lia]. }
    rewrite Z.mod_small by lia.
    split; [reflexivity|]. split; [exact Hq|].
    pose proof (Z.mul_div_le 1000000 freq ltac:(lia)).
    pose proof (Z.mul_succ_div_gt 1000000 freq ltac:(lia)). lia.
  - rewrite (Z.mod_small freq) by lia.
    pose proof (Z.mod_pos_bound (1000000 / freq) 65536 ltac:(lia)) as Hm.
    split; [exact Hm|].
    assert (Hq : 65536 <= 1000000 / freq) by (apply Z.div_le_lower_bound; lia).
    lia.
Qed.

(** ** Pixels *)

(** X24: with the base centre in 0..7, [redraw_base] draws the cells
    of row 0 next to and under the centre that are columns of the field,
    then the cell of row 1 above the centre: four pixels, three when the
    centre is at an edge, all of them pixels of the matrix and all in the
    colour given. *)
Theorem redraw_base_pixels colour g :
  0 <= basePosition g <= 7 ->
  redraw_base colour g
  = map (fun x => LED_MATRIX_POSN_FROM_XY x 0 colour)
        (List.filter (fun x => (0 <=? x) && (x <? 8))
           [basePosition g - 1; basePosition g; basePosition g + 1])
    ++ [LED_MATRIX_POSN_FROM_XY (basePosition g) 1 colour] /\
  Forall in_matrix (redraw_base colour g) /\
  NoDup (map fst (redraw_base colour g)) /\
  length (redraw_base colour g)
  = (if (basePosition g =? 0) || (basePosition g =? 7) then 3%nat else 4%nat).
Proof.
  intros Hb. unfold redraw_base.
  assert (Hcases : basePosition g = 0 \/ basePosition g = 1 \/ basePosition g = 2
                   \/ basePosition g = 3 \/ basePosition g = 4 \/ basePosition g = 5
                   \/ basePosition g = 6 \/ basePosition g = 7) by lia.
  destruct Hcases as [->|[->|[->|[->|[->|[->|[->| ->]]]]]]];
    (split; [reflexivity|]); (split; [|split; [|reflexivity]]);
    cbn.
  all: try (unfold in_matrix; repeat constructor; cbn; lia).
  all: apply (bool_decide_unpack _); vm_compute; exact I.
Qed.

(** X25: [explosion] draws the cell, the two next to it in its row and
    the one in the row above, and the one in the row below only when that
    is row 3 or higher: an explosion in row 3 or higher leaves the rows 0 to
    2 alone.  There is no test against the edges of the matrix: for a cell
    of the field the pixels are all pixels of the matrix exactly when the
    cell is not in column 0 or 7 and not in row 15. *)
Theorem explosion_pixels x y colour :
  0 <= x <= 7 -> 0 <= y <= 15 ->
  (Forall in_matrix (explosion x y colour) <-> 1 <= x <= 6 /\ y <= 14) /\
  (3 <= y -> Forall (fun p => 3 <= fst (fst p)) (explosion x y colour)) /\
  length (explosion x y colour) = (if 4 <=? y then 5%nat else 4%nat) /\
  Forall (fun p => snd p = colour) (explosion x y colour).
Proof.
  intros Hx Hy. unfold explosion.
  replace (3 <=? y - 1) with (4 <=? y)
    by (destruct (Z.leb_spec 4 y), (Z.leb_spec 3 (y - 1)); lia || reflexivity).
  split; [|split; [|split]].
  - rewrite Forall_app, !Forall_cons. unfold in_matrix. cbn [fst snd].
    destruct (Z.leb_spec 4 y) as [Hy4|Hy4]; rewrite ?Forall_cons, ?Forall_nil;
      cbn [fst snd]; (split; [intros Hall; lia|intros Hall; repeat split; lia]).
  - intros H3. rewrite Forall_app, !Forall_cons. cbn [fst snd].
    destruct (Z.leb_spec 4 y) as [Hy4|Hy4]; rewrite ?Forall_cons, ?Forall_nil;
      cbn [fst snd]; repeat split; lia.
  - destruct (4 <=? y); reflexivity.
  - rewrite Forall_app, !Forall_cons. cbn [snd].
    destruct (4 <=? y); rewrite ?Forall_cons, ?Forall_nil; cbn [snd];
      repeat split; reflexivity.
Qed.

Lemma redraw_loop_map (a : list Z) (num colour : Z) (redraw : Z -> list Pixel) n i :
  (forall j, 0 <= j < num ->
     redraw j = [LED_MATRIX_POSN_FROM_GAME_POSN (rd a j) colour]) ->
  0 <= i -> i + Z.of_nat n <= num -> num <= 127 -> num <= Z.of_nat (length a) ->
  redraw_loop redraw n i
  = map (fun q => LED_MATRIX_POSN_FROM_GAME_POSN q colour)
        (take n (drop (Z.to_nat i) a)).
Proof.
  intros Hredraw. revert i. induction n as [|n IH]; intros i Hi Hin Hnum Hlen.
  - reflexivity.
  - cbn [redraw_loop]. rewrite Hredraw by lia.
    rewrite (drop_S_lookup a (Z.to_nat i) (rd a i)) by (apply lookup_rd; lia).
    cbn [take map app]. f_equal.
    rewrite uint8_small by lia. rewrite IH by lia.
    replace (Z.to_nat (i + 1)) with (S (Z.to_nat i)) by lia. reflexivity.
Qed.

Lemma pixel_of_position_in_matrix q colour :
  0 <= q < 128 -> in_matrix (LED_MATRIX_POSN_FROM_GAME_POSN q colour).
Proof.
  intros Hq. unfold in_matrix, LED_MATRIX_POSN_FROM_GAME_POSN, LED_MATRIX_POSN_FROM_XY.
  cbn [fst snd]. rewrite GET_X_POSITION_eq, GET_Y_POSITION_eq.
  pose proof (Z.mod_pos_bound q 16 ltac:(lia)).
  assert (0 <= q / 16 < 8)
    by (split; [apply Z.div_pos; lia|apply Z.div_lt_upper_bound; lia]).
  lia.
Qed.

Lemma pixel_of_position_inj q1 q2 c1 c2 :
  is_byte q1 -> is_byte q2 ->
  fst (LED_MATRIX_POSN_FROM_GAME_POSN q1 c1) = fst (LED_MATRIX_POSN_FROM_GAME_POSN q2 c2) ->
  q1 = q2.
Proof.
  unfold is_byte, LED_MATRIX_POSN_FROM_GAME_POSN, LED_MATRIX_POSN_FROM_XY.
  cbn [fst snd]. rewrite !GET_X_POSITION_eq, !GET_Y_POSITION_eq.
  intros H1 H2 Heq. injection Heq as Hy Hx.
  pose proof (Z.div_mod q1 16 ltac:(lia)). pose proof (Z.div_mod q2 16 ltac:(lia)). lia.
Qed.

(** X26: [redraw_all_asteroids] and [redraw_all_projectiles] draw one
    pixel for each asteroid and each projectile below the count, in the
    order of the array and in its colour, and nothing for the slots from
    the count on; the cell of column [x] and row [y] is drawn at the pixel
    [(y, 7 - x)].  Positions in the columns 0..7 give pixels of the matrix,
    and different positions give different pixels. *)
Theorem redraw_all_pixels g :
  wf_game g ->
  redraw_all_asteroids g
  = map (fun q => LED_MATRIX_POSN_FROM_GAME_POSN q COLOUR_GREEN) (live_asteroids g) /\
  redraw_all_projectiles g
  = map (fun q => LED_MATRIX_POSN_FROM_GAME_POSN q COLOUR_RED) (live_projectiles g) /\
  (forall x y c, 0 <= x < 16 -> 0 <= y < 16 ->
     LED_MATRIX_POSN_FROM_GAME_POSN (GAME_POSITION x y) c = (y, 7 - x, c)) /\
  (Forall (fun q => q < 128) (live_asteroids g) ->
   Forall in_matrix (redraw_all_asteroids g)) /\
  (Forall (fun q => q < 128) (live_projectiles g) ->
   Forall in_matrix (redraw_all_projectiles g)) /\
  NoDup (map fst (redraw_all_asteroids g)) /\
  NoDup (map fst (redraw_all_projectiles g)) /\
  (forall i c, numAsteroids g <= i < 256 -> redraw_asteroid i c g = []) /\
  (forall i c, numProjectiles g <= i < 256 -> redraw_projectile i c g = []).
Proof using MAX_ASTEROIDS_fits MAX_PROJECTILES_fits.
  intros [Hb [Hna Halen Habytes Hand] [Hnp Hplen Hpbytes] Hpnd].
  assert (EA : redraw_all_asteroids g
    = map (fun q => LED_MATRIX_POSN_FROM_GAME_POSN q COLOUR_GREEN) (live_asteroids g)).
  { unfold redraw_all_asteroids, live_asteroids.
    rewrite (redraw_loop_map (asteroids g) (numAsteroids g) COLOUR_GREEN); [reflexivity| |lia..].
    intros j Hj. unfold redraw_asteroid, COLOUR_ASTEROID. rewrite uint8_small by lia.
    destruct (Z.ltb_spec j (numAsteroids g)); [reflexivity|lia]. }
  assert (EP : redraw_all_projectiles g
    = map (fun q => LED_MATRIX_POSN_FROM_GAME_POSN q COLOUR_RED) (live_projectiles g)).
  { unfold redraw_all_projectiles, live_projectiles.
    rewrite (redraw_loop_map (projectiles g) (numProjectiles g) COLOUR_RED); [reflexivity| |lia..].
    intros j Hj. unfold redraw_projectile, COLOUR_PROJECTILE. rewrite uint8_small by lia.
    destruct (Z.ltb_spec j (numProjectiles g)); [reflexivity|lia]. }
  assert (Hlive_bytes : forall (a : list Z) n, Forall is_byte a -> Forall is_byte (take n a)).
  { intros a n Ha. apply Forall_take. exact Ha. }
  assert (Hnodup : forall (l : list Z) c, Forall is_byte l -> NoDup l ->
    NoDup (map fst (map (fun q => LED_MATRIX_POSN_FROM_GAME_POSN q c) l))).
  { intros l c Hbytes Hnd. rewrite map_map.
    induction Hnd as [|q l Hq Hnd IH]; [apply NoDup_nil_2|].
    apply Forall_cons in Hbytes as [Hqb Hlb].
    cbn [map]. apply NoDup_cons. split; [|apply IH; exact Hlb].
    intros Hin. apply list_elem_of_fmap in Hin as (q' & Heq & Hq').
    rewrite Forall_forall in Hlb.
    apply (pixel_of_position_inj q q' c c Hqb (Hlb _ Hq')) in Heq. subst q'.
    exact (Hq Hq'). }
  split; [exact EA|]. split; [exact EP|]. split.
  { intros x y c Hx Hy. unfold LED_MATRIX_POSN_FROM_GAME_POSN, LED_MATRIX_POSN_FROM_XY.
    rewrite GET_X_POSITION_eq, GET_Y_POSITION_eq, GAME_POSITION_eq.
    rewrite (Z.mod_small y 16) by lia.
    replace ((16 * x + y) / 16) with x
      by (rewrite Z.mul_comm, Z.div_add_l by lia; rewrite Z.div_small by lia; lia).
    replace ((16 * x + y) mod 16) with y
      by (rewrite Z.add_comm, Z.mul_comm, Z.mod_add by lia; rewrite Z.mod_small by lia; lia).
    reflexivity. }
  split.
  { intros Hfield. rewrite EA. apply Forall_fmap.
    assert (Hbytes : Forall is_byte (live_asteroids g)) by (apply Hlive_bytes; exact Habytes).
    rewrite Forall_forall in *. intros q Hq. cbn.
    apply pixel_of_position_in_matrix. destruct (Hbytes q Hq). specialize (Hfield q Hq). lia. }
  split.
  { intros Hfield. rewrite EP. apply Forall_fmap.
    assert (Hbytes : Forall is_byte (live_projectiles g)) by (apply Hlive_bytes; exact Hpbytes).
    rewrite Forall_forall in *. intros q Hq. cbn.
    apply pixel_of_position_in_matrix. destruct (Hbytes q Hq). specialize (Hfield q Hq). lia. }
  split; [rewrite EA; apply Hnodup; [apply Hlive_bytes; exact Habytes|exact Hand]|].
  split; [rewrite EP; apply Hnodup; [apply Hlive_bytes; exact Hpbytes|exact Hpnd]|].
  split.
  - intros i c Hi. unfold redraw_asteroid. rewrite uint8_small by lia.
    destruct (Z.ltb_spec i (numAsteroids g)); [lia|reflexivity].
  - intros i c Hi. unfold redraw_projectile. rewrite uint8_small by lia.
    destruct (Z.ltb_spec i (numProjectiles g)); [lia|reflexivity].
Qed.

(** ** What the program keeps *)

(** X27: in every state the program reaches, the asteroids that are
    missing from the full number are at most as many as the lives lost, and
    never more than five. *)
Theorem asteroids_missing s :
  reachable s ->
  0 <= MAX_ASTEROIDS - numAsteroids (game s) <= 4 - lives (game s) /\
  MAX_ASTEROIDS - numAsteroids (game s) <= 5.
Proof using MAX_ASTEROIDS_fits MAX_PROJECTILES_fits.
  intros Hreach.
  assert (Hboth : wf_game (game s) /\
                  MAX_ASTEROIDS - numAsteroids (game s) <= 4 - lives (game s) /\
                  MAX_ASTEROIDS - numAsteroids (game s) <= 5).
  { induction Hreach as
      [t snd r s Hnew
      |s s' Hreach _ Hover Hnew
      |s t snd r _ IH
      |s direction _ (Hwf & Hm & H5) Hplay
      |s r s' _ (Hwf & Hm & H5) Hplay Hfire
      |s s' _ (Hwf & Hm & H5) Hplay Hadv
      |s s' _ (Hwf & Hm & H5) Hplay Hadv
      |s _ IH _
      |s _ IH _
      |s _ IH _ _].
    - apply new_game_spec in Hnew as (Hwf & _ & _ & Hn & Hl & _);
        [|apply typed_game_power_up].
      split; [exact Hwf|lia].
    - apply new_game_spec in Hnew as (Hwf' & _ & _ & Hn & Hl & _);
        [|apply typed_game_of_wf; apply (reachable_invariant _ Hreach)].
      split; [exact Hwf'|lia].
    - exact IH.
    - apply game_not_over in Hplay.
      destruct (move_base_spec direction s Hwf) as (Hwf' & Hl' & Hn' & _).
      split; [exact Hwf'|lia].
    - apply game_not_over in Hplay.
      apply fire_projectile_spec in Hfire as (Hwf' & _ & Hl' & Hn'); [|exact Hwf].
      split; [exact Hwf'|lia].
    - apply game_not_over in Hplay.
      apply advance_asteroids_spec in Hadv as (Hwf' & _ & Hn' & Hl'); [|exact Hwf].
      split; [exact Hwf'|lia].
    - apply game_not_over in Hplay.
      apply advance_projectiles_spec in Hadv as (Hwf' & _ & Hl' & Hn'); [|exact Hwf].
      split; [exact Hwf'|lia].
    - exact IH.
    - exact IH.
    - exact IH. }
  destruct Hboth as (Hwf & Hm & H5).
  pose proof (wfa_count _ (wf_asteroids_ok _ Hwf)). lia.
Qed.

(** ** The positions stay on the field *)

Lemma remove_asteroid_keeps (P : Z -> Prop) i g :
  numAsteroids g <= 127 -> numAsteroids g <= Z.of_nat (length (asteroids g)) ->
  Forall P (live_asteroids g) -> Forall P (live_asteroids (remove_asteroid i g)).
Proof.
  intros Hn Hlen Hall.
  destruct (Z_lt_le_dec i 0) as [Hneg|Hpos];
    [|destruct (Z_lt_le_dec i (numAsteroids g)) as [Hlt|Hge]].
  - unfold remove_asteroid. destruct (Z.ltb_spec i 0); [exact Hall|lia].
  - rewrite (remove_asteroid_live i g) by lia. apply Forall_delete. exact Hall.
  - unfold remove_asteroid. destruct (Z.ltb_spec i 0); [exact Hall|].
    destruct (Z.geb_spec i (numAsteroids g)); [exact Hall|lia].
Qed.

Lemma remove_projectile_keeps (P : Z -> Prop) i g :
  numProjectiles g <= 127 -> numProjectiles g <= Z.of_nat (length (projectiles g)) ->
  Forall P (live_projectiles g) -> Forall P (live_projectiles (remove_projectile i g)).
Proof.
  intros Hn Hlen Hall.
  destruct (Z_lt_le_dec i 0) as [Hneg|Hpos];
    [|destruct (Z_lt_le_dec i (numProjectiles g)) as [Hlt|Hge]].
  - unfold remove_projectile. destruct (Z.ltb_spec i 0); [exact Hall|lia].
  - rewrite (remove_projectile_live i g) by lia. apply Forall_delete. exact Hall.
  - unfold remove_projectile. destruct (Z.ltb_spec i 0); [exact Hall|].
    destruct (Z.geb_spec i (numProjectiles g)); [exact Hall|lia].
Qed.

Lemma regen_asteroid_field s u s' :
  wf_asteroids (game s) -> numAsteroids (game s) < MAX_ASTEROIDS ->
  regen_asteroid s = Some (u, s') ->
  Forall asteroid_cell (live_asteroids (game s)) ->
  Forall asteroid_cell (live_asteroids (game s')) /\
  live_projectiles (game s') = live_projectiles (game s).
Proof using MAX_ASTEROIDS_fits.
  intros HA Hroom Hregen Hfield.
  destruct (regen_asteroid_asteroids s u s' HA Hroom Hregen)
    as (_ & _ & (nx & Hnx & _ & Hlive) & _ & _ & Hnp & Hp & _).
  split.
  - rewrite Hlive. apply Forall_app. split; [exact Hfield|].
    apply Forall_cons. split; [unfold asteroid_cell; lia|apply Forall_nil_2].
  - apply live_projectiles_same; assumption.
Qed.

Lemma add_asteroid_field posn g :
  0 <= numAsteroids g < Z.of_nat (length (asteroids g)) -> numAsteroids g < 127 ->
  asteroid_cell (uint8 posn) ->
  Forall asteroid_cell (live_asteroids g) ->
  Forall asteroid_cell (live_asteroids (add_asteroid posn g)).
Proof.
  intros Hn Hmax Hcell Hfield.
  destruct (add_asteroid_live posn g Hn Hmax) as [_ Hlive]. rewrite Hlive.
  apply Forall_app. split; [exact Hfield|].
  apply Forall_cons. split; [exact Hcell|apply Forall_nil_2].
Qed.

Lemma ram_check_field x y s :
  wf_game (game s) -> on_field (game s) -> on_field (game (ram_check x y s)).
Proof using MAX_ASTEROIDS_fits.
  intros Hwf [HfA HfP].
  destruct (ram_check_spec x y s Hwf) as (_ & _ & _ & _ & Hnp & Hp & _).
  pose proof (wf_asteroids_ok _ Hwf) as [Hn Hlen _ _].
  split.
  - unfold ram_check. destruct (negb (asteroid_at x y (game s) =? -1)); [|exact HfA].
    cbn [game with_game enable_basehit_sound with_sequencer].
    apply remove_asteroid_keeps; [cbn; lia|cbn; lia|exact HfA].
  - rewrite (live_projectiles_same _ _ Hnp Hp). exact HfP.
Qed.

Lemma move_base_field direction s :
  wf_game (game s) -> on_field (game s) ->
  on_field (game (snd (move_base direction s))).
Proof using MAX_ASTEROIDS_fits.
  intros Hwf Hf.
  assert (Hboth : forall x1 x2 v,
    on_field (game (with_game (fun g => set_basePosition (v g) g)
                      (ram_check (x2 (ram_check x1 0 s)) 1 (ram_check x1 0 s))))).
  { intros x1 x2 v.
    destruct (ram_check_spec x1 0 s Hwf) as (Hwf1 & _).
    pose proof (ram_check_field x1 0 s Hwf Hf) as Hf1.
    pose proof (ram_check_field (x2 (ram_check x1 0 s)) 1 _ Hwf1 Hf1) as Hf2.
    exact Hf2. }
  unfold move_base.
  destruct ((direction =? MOVE_LEFT) && negb (basePosition (game s) =? 0));
    [|destruct ((direction =? MOVE_RIGHT) && negb (basePosition (game s) =? 7))].
  - apply (Hboth _ (fun s1 => basePosition (game s1) - 1)
                   (fun g => int8 (basePosition g - 1))).
  - apply (Hboth _ (fun s1 => basePosition (game s1) + 1)
                   (fun g => int8 (basePosition g + 1))).
  - exact Hf.
Qed.

Lemma firing_cell b : 0 <= b <= 7 -> projectile_cell (16 * b + 2).
Proof.
  intros Hb. unfold projectile_cell. split; [lia|].
  rewrite GET_Y_cell by lia. lia.
Qed.

Lemma fire_projectile_field s r s' :
  wf_game (game s) -> on_field (game s) ->
  fire_projectile s = Some (r, s') -> on_field (game s').
Proof using MAX_ASTEROIDS_fits MAX_PROJECTILES_fits.
  intros Hwf [HfA HfP] H. unfold fire_projectile in H.
  pose proof (wf_base _ Hwf) as Hb.
  pose proof (wf_asteroids_ok _ Hwf) as HA. pose proof HA as [Hn Hlen _ _].
  pose proof (wf_projectiles_ok _ Hwf) as [Hnp Hplen _].
  destruct (Z.ltb_spec (numProjectiles (game s)) MAX_PROJECTILES) as [Hcap|Hcap];
    cbn [andb] in H.
  2:{ injection H as _ <-. split; assumption. }
  destruct (Z.eqb_spec (projectile_at (basePosition (game s)) 2 (game s)) (-1))
    as [Hfree|Hbusy].
  2:{ injection H as _ <-. split; assumption. }
  cbn [game shoot_sound with_sequencer] in H.
  destruct (Z.eqb_spec (asteroid_at (basePosition (game s)) 2 (game s)) (-1))
    as [Hnone|Hast]; cbn [negb] in H.
  - injection H as _ <-. change (on_field (add_projectile (game s))). split.
    + exact HfA.
    + destruct (add_projectile_live (game s)) as [_ Hlive]; [lia|lia|].
      rewrite Hlive. rewrite GAME_POSITION_cell by lia.
      apply Forall_app. split; [exact HfP|].
      apply Forall_cons. split; [apply firing_cell; exact Hb|apply Forall_nil_2].
  - run_inv H. destruct H as [_ ->].
    match goal with Hr : regen_asteroid _ = Some (_, ?t) |- _ =>
      rename Hr into Hregen; change (on_field (game t)) end.
    destruct (remove_found_asteroid_wf _ _ _ HA Hast) as (HA1 & Hcount1 & _).
    destruct (remove_asteroid_frame (asteroid_at (basePosition (game s)) 2 (game s)) (game s))
      as (_ & Hnp1 & Hp1 & _).
    apply regen_asteroid_field in Hregen as [HfA2 HfP2].
    + split; [exact HfA2|]. rewrite HfP2.
      change (Forall projectile_cell (live_projectiles
                (remove_asteroid (asteroid_at (basePosition (game s)) 2 (game s)) (game s)))).
      rewrite (live_projectiles_same _ _ Hnp1 Hp1). exact HfP.
    + exact HA1.
    + change (numAsteroids (remove_asteroid (asteroid_at (basePosition (game s)) 2 (game s))
                              (game s)) < MAX_ASTEROIDS). lia.
    + change (Forall asteroid_cell (live_asteroids
                (remove_asteroid (asteroid_at (basePosition (game s)) 2 (game s)) (game s)))).
      apply remove_asteroid_keeps; [lia|lia|exact HfA].
Qed.

Lemma advance_cell_field x y s u s' :
  0 <= x < 8 -> 0 <= y < 16 ->
  wf_game (game s) -> on_field (game s) ->
  advance_cell x y s = Some (u, s') -> on_field (game s').
Proof using MAX_ASTEROIDS_fits MAX_PROJECTILES_fits.
  intros Hx Hy Hwf [HfA HfP] H. unfold advance_cell in H.
  pose proof (wf_asteroids_ok _ Hwf) as HA. pose proof HA as [Hn Hlen _ _].
  pose proof (wf_projectiles_ok _ Hwf) as [Hnp Hplen _].
  destruct (Z.eqb_spec (asteroid_at x y (game s)) (-1)) as [Hnone|Hast]; cbn [negb] in H.
  { injection H as _ <-. split; assumption. }
  destruct (remove_found_asteroid_wf x y _ HA Hast) as (HA1 & Hcount1 & _).
  destruct (remove_asteroid_frame (asteroid_at x y (game s)) (game s)) as (Hb1 & Hnp1 & Hp1 & _).
  assert (HfA1 : Forall asteroid_cell
                   (live_asteroids (remove_asteroid (asteroid_at x y (game s)) (game s))))
    by (apply remove_asteroid_keeps; [lia|lia|exact HfA]).
  assert (HfP1 : Forall projectile_cell
                   (live_projectiles (remove_asteroid (asteroid_at x y (game s)) (game s))))
    by (rewrite (live_projectiles_same _ _ Hnp1 Hp1); exact HfP).
  cbn [game with_game] in H.
  set (g1 := remove_asteroid (asteroid_at x y (game s)) (game s)) in *.
  assert (Hhit : forall px py ax ay,
    (lift hit_sound >>
     lift (with_game (fun g => remove_projectile (projectile_at px py g) g)) >>
     lift (add_to_score 1) >>
     regen_asteroid >>
     lift (enable_asteroid_animation ax ay))
      (with_game (fun g => remove_asteroid (asteroid_at x y g) g) s) = Some (u, s') ->
    on_field (game s')).
  { intros px py ax ay Hrun. run_inv Hrun. subst s'.
    match goal with Hr : regen_asteroid _ = Some (_, ?t) |- _ =>
      rename Hr into Hregen; change (on_field (game t)) end.
    destruct (remove_projectile_frame (projectile_at px py g1) g1) as (_ & Hna2 & Ha2 & _).
    apply regen_asteroid_field in Hregen as [HfA3 HfP3].
    - split; [exact HfA3|]. rewrite HfP3.
      change (Forall projectile_cell
                (live_projectiles (remove_projectile (projectile_at px py g1) g1))).
      apply remove_projectile_keeps; [rewrite Hnp1; lia|rewrite Hnp1, Hp1; lia|exact HfP1].
    - change (wf_asteroids (remove_projectile (projectile_at px py g1) g1)).
      apply (wf_asteroids_same g1); assumption.
    - change (numAsteroids (remove_projectile (projectile_at px py g1) g1) < MAX_ASTEROIDS).
      lia.
    - change (Forall asteroid_cell
                (live_asteroids (remove_projectile (projectile_at px py g1) g1))).
      rewrite (live_asteroids_same _ _ Hna2 Ha2). exact HfA1. }
  destruct (negb (projectile_at x y g1 =? -1)); [exact (Hhit _ _ _ _ H)|].
  destruct (negb (projectile_at x (y - 1) g1 =? -1)); [exact (Hhit _ _ _ _ H)|].
  clear Hhit.
  destruct (base_collision (basePosition g1) x y).
  { run_inv H.
    apply regen_asteroid_field in H as [HfA3 HfP3].
    - split; [exact HfA3|]. rewrite HfP3. exact HfP1.
    - change (wf_asteroids (set_lives (lives g1 - 1) g1)).
      apply (wf_asteroids_same g1); [reflexivity|reflexivity|exact HA1].
    - change (numAsteroids g1 < MAX_ASTEROIDS). lia.
    - exact HfA1. }
  pose proof HA1 as [Hn1 Hlen1 _ _].
  assert (Hadd : forall posn, asteroid_cell (uint8 posn) ->
    game s' = add_asteroid posn g1 -> on_field (game s')).
  { intros posn Hcell ->. split.
    - apply add_asteroid_field; [lia|lia|exact Hcell|exact HfA1].
    - destruct (add_asteroid_frame posn g1) as (_ & Hnp2 & Hp2 & _).
      rewrite (live_projectiles_same _ _ Hnp2 Hp2). exact HfP1. }
  destruct (Z.eqb_spec y 0) as [Hy0|Hy0]; cbn [negb] in H.
  - run_inv H.
    apply top_row_loop_Some in Hstep as (Hnx & _ & rest & ->).
    apply (Hadd (GAME_POSITION a 15)).
    + rewrite GAME_POSITION_cell by lia. unfold asteroid_cell. lia.
    + subst s'. reflexivity.
  - injection H as _ <-. apply (Hadd (GAME_POSITION x (y - 1))).
    + rewrite GAME_POSITION_cell by lia. unfold asteroid_cell. lia.
    + reflexivity.
Qed.

Lemma advance_asteroids_field s u s' :
  wf_game (game s) -> on_field (game s) ->
  advance_asteroids s = Some (u, s') -> on_field (game s').
Proof using MAX_ASTEROIDS_fits MAX_PROJECTILES_fits.
  intros Hwf Hf H. unfold advance_asteroids in H.
  pose (K := fun (x : Z) (t : State) => wf_game (game t) /\ on_field (game t)).
  assert (Hcolumn : forall x t v t',
    0 <= x < 0 + Z.of_nat 8 -> K x t ->
    for_loop 16 0 (fun y => advance_cell x y) t = Some (v, t') -> K (x + 1) t').
  { intros x t v t' Hx (Hwft & Hft) Hcol.
    pose (J := fun (y : Z) (r : State) =>
      wf_game (game r) /\ (1 <= y <= 15 -> 16 * x + y - 1 ∉ live_asteroids (game r)) /\
      on_field (game r)).
    assert (Hcell : forall y r w r',
      0 <= y < 0 + Z.of_nat 16 -> J y r -> advance_cell x y r = Some (w, r') ->
      J (y + 1) r').
    { intros y r w r' Hy (Hwfr & Hbelow & Hfr) Hcell.
      pose proof (advance_cell_field x y r w r' ltac:(lia) ltac:(lia) Hwfr Hfr Hcell) as Hfr'.
      apply advance_cell_spec in Hcell as (Hwf' & Hgone & _);
        [|lia|lia|exact Hwfr|intros Hy1; apply Hbelow; lia].
      unfold J. split; [exact Hwf'|]. split; [|exact Hfr'].
      intros Hy1. replace (16 * x + (y + 1) - 1) with (16 * x + y) by lia.
      apply Hgone. lia. }
    destruct (for_loop_invariant J _ 16 0 Hcell t v t') as (Hwf' & _ & Hf').
    - unfold J. split; [exact Hwft|]. split; [lia|exact Hft].
    - exact Hcol.
    - split; assumption. }
  destruct (for_loop_invariant K _ 8 0 Hcolumn s u s') as (_ & Hf');
    [split; assumption|exact H|exact Hf'].
Qed.
Lemma projectile_cell_up p :
  projectile_cell p -> GET_Y_POSITION p <> 15 -> projectile_cell (p + 1).
Proof.
  unfold projectile_cell. rewrite !GET_Y_POSITION_eq. intros [Hp Hrow] Htop.
  pose proof (Z.mod_pos_bound p 16 ltac:(lia)) as Hm.
  pose proof (Z.div_mod p 16 ltac:(lia)) as Hdm.
  assert (Hup : (p + 1) mod 16 = p mod 16 + 1).
  { symmetry. apply (Z.mod_unique_pos (p + 1) 16 (p / 16)); lia. }
  rewrite Hup.
  assert (Hq : 0 <= p / 16 < 8)
    by (split; [apply Z.div_pos; lia|apply Z.div_lt_upper_bound; lia]).
  lia.
Qed.

Lemma advance_projectile_field k s next s' :
  wf_asteroids (game s) -> wf_projectiles (game s) ->
  0 <= k < numProjectiles (game s) -> on_field (game s) ->
  advance_projectile k s = Some (next, s') -> on_field (game s').
Proof using MAX_ASTEROIDS_fits MAX_PROJECTILES_fits.
  intros HA HP Hk [HfA HfP] H. unfold advance_projectile in H.
  pose proof HA as [Hn Hlen _ _]. pose proof HP as [Hnp Hplen _].
  destruct (live_projectiles_lookup (game s) k HP Hk) as [Hlook Hbyte].
  set (p := rd (projectiles (game s)) k) in *.
  assert (Hcell : projectile_cell p).
  { rewrite Forall_forall in HfP. apply HfP. apply list_elem_of_lookup. eauto. }
  assert (Hrow : 0 <= GET_Y_POSITION p < 16).
  { rewrite GET_Y_POSITION_eq. apply Z.mod_pos_bound. lia. }
  rewrite (uint8_small (GET_Y_POSITION p + 1)) in H by lia.
  unfold FIELD_HEIGHT in H.
  destruct (Z.eqb_spec (GET_Y_POSITION p + 1) 16) as [Htop|Hnot_top].
  - injection H as _ <-. change (on_field (remove_projectile k (game s))).
    destruct (remove_projectile_frame k (game s)) as (_ & Hna & Ha & _).
    split.
    + rewrite (live_asteroids_same _ _ Hna Ha). exact HfA.
    + apply remove_projectile_keeps; [lia|lia|exact HfP].
  - destruct (Z.eqb_spec (asteroid_at (GET_X_POSITION p) (GET_Y_POSITION p + 1) (game s)) (-1))
      as [Hfree|Hast]; cbn [negb] in H.
    + injection H as _ <-.
      change (on_field (set_projectiles
                (wr (projectiles (game s)) k
                    (uint8 (GAME_POSITION (GET_X_POSITION p) (GET_Y_POSITION p + 1))))
                (game s))).
      replace (uint8 (GAME_POSITION (GET_X_POSITION p) (GET_Y_POSITION p + 1))) with (p + 1).
      2:{ rewrite <- (move_up_eq p Hbyte ltac:(lia)).
          rewrite (uint8_small (GET_Y_POSITION p + 1)) by lia. reflexivity. }
      split; [exact HfA|].
      rewrite live_projectiles_moved by assumption.
      apply Forall_insert; [exact HfP|]. apply projectile_cell_up; [exact Hcell|lia].
    + run_inv H. destruct H as [_ ->].
      match goal with Hr : regen_asteroid _ = Some (_, ?t) |- _ =>
        rename Hr into Hregen; change (on_field (game t)) end.
      destruct (remove_projectile_frame k (game s)) as (_ & Hna1 & Ha1 & _).
      set (g1 := remove_projectile k (game s)) in *.
      set (i := asteroid_at (GET_X_POSITION p) (GET_Y_POSITION p + 1) g1) in *.
      assert (HA1 : wf_asteroids g1) by exact (wf_asteroids_same _ _ Hna1 Ha1 HA).
      assert (Hast1 : asteroid_at (GET_X_POSITION p) (GET_Y_POSITION p + 1) g1 <> -1).
      { rewrite (asteroid_at_same _ _ _ _ Hna1 Ha1). exact Hast. }
      destruct (remove_found_asteroid_wf _ _ g1 HA1 Hast1) as (HA2 & Hcount2 & _).
      fold i in HA2, Hcount2.
      destruct (remove_asteroid_frame i g1) as (_ & Hnp2 & Hp2 & _).
      apply regen_asteroid_field in Hregen as [HfA3 HfP3].
      * split; [exact HfA3|]. rewrite HfP3.
        change (Forall projectile_cell (live_projectiles (remove_asteroid i g1))).
        rewrite (live_projectiles_same _ _ Hnp2 Hp2).
        apply remove_projectile_keeps; [lia|lia|exact HfP].
      * exact HA2.
      * change (numAsteroids (remove_asteroid i g1) < MAX_ASTEROIDS). lia.
      * change (Forall asteroid_cell (live_asteroids (remove_asteroid i g1))).
        apply remove_asteroid_keeps; [lia|rewrite Hna1, Ha1; lia|].
        rewrite (live_asteroids_same _ _ Hna1 Ha1). exact HfA.
Qed.

Lemma advance_projectiles_loop_field fuel k s next s' :
  wf_asteroids (game s) -> projectiles_inv k (game s) ->
  on_field (game s) ->
  advance_projectiles_loop fuel k s = Some (next, s') -> on_field (game s').
Proof using MAX_ASTEROIDS_fits MAX_PROJECTILES_fits.
  revert k s. induction fuel as [|fuel IH]; intros k s HA Hinv Hf H;
    cbn [advance_projectiles_loop] in H;
    pose proof (pi_index _ _ Hinv) as Hk;
    destruct (Z.ltb_spec k (numProjectiles (game s))) as [Hlt|Hge];
    try (injection H as _ <-; exact Hf).
  apply bind_Some in H as (k1 & s1 & Hround & Hrest).
  pose proof (advance_projectile_field k s k1 s1 HA (pi_typed _ _ Hinv) ltac:(lia) Hf Hround)
    as Hf1.
  apply advance_projectile_spec in Hround as (HA1 & Hinv1 & _);
    [|exact HA|exact Hinv|exact Hlt].
  exact (IH k1 s1 HA1 Hinv1 Hf1 Hrest).
Qed.

Lemma advance_projectiles_field s u s' :
  wf_game (game s) -> on_field (game s) ->
  advance_projectiles s = Some (u, s') -> on_field (game s').
Proof using MAX_ASTEROIDS_fits MAX_PROJECTILES_fits.
  intros [Hb HA HP HPn] Hf H. unfold advance_projectiles in H. run_inv H.
  destruct H as [_ ->].
  match goal with Hl : advance_projectiles_loop _ _ _ = Some _ |- _ =>
    apply advance_projectiles_loop_field in Hl; [exact Hl|exact HA| |exact Hf]
  end.
  pose proof (wfp_count _ HP). constructor.
  - exact HP.
  - lia.
  - cbn. apply NoDup_nil_2.
  - cbn. exact HPn.
  - intros q _ _. cbn. apply not_elem_of_nil.
Qed.

Lemma initialise_game_field s u s' :
  typed_game (game s) -> initialise_game s = Some (u, s') -> on_field (game s').
Proof using MAX_ASTEROIDS_fits.
  intros [HlenA _ _ _] H. unfold initialise_game in H.
  apply bind_Some in H as (a & s0 & Hreset & Hloop).
  apply lift_Some in Hreset.
  pose (I := fun (i : Z) (t : State) =>
    numAsteroids (game t) = i /\ i <= MAX_ASTEROIDS /\
    Z.of_nat (length (asteroids (game t))) = MAX_ASTEROIDS /\
    numProjectiles (game t) = 0 /\
    Forall asteroid_cell (live_asteroids (game t))).
  assert (HI0 : I 0 s0).
  { subst s0. unfold I. cbn. split; [reflexivity|]. split; [lia|].
    split; [exact HlenA|]. split; [reflexivity|apply Forall_nil_2]. }
  assert (Hbody : forall i t v t',
    0 <= i < 0 + Z.of_nat (Z.to_nat MAX_ASTEROIDS) -> I i t ->
    (let* xy := initial_cell_loop in
     lift (with_game (fun g =>
       let g := set_asteroids
                  (wr (asteroids g) i (uint8 (GAME_POSITION (fst xy) (snd xy)))) g in
       set_numAsteroids (int8 (numAsteroids g + 1)) g))) t = Some (v, t') ->
    I (i + 1) t').
  { intros i t v t' Hi (Hn & Hmax & Hlen & Hnp & Hf) Hrun.
    run_inv Hrun.
    apply initial_cell_loop_Some in Hstep as (Hx & Hy & _ & rest & ->).
    destruct a0 as [x y]. cbn [fst snd] in *.
    rewrite GAME_POSITION_cell in Hrun by lia.
    set (g' := set_numAsteroids (int8 (numAsteroids (game t) + 1))
                 (set_asteroids (wr (asteroids (game t)) i (16 * x + y)) (game t))).
    assert (Hg : game t' = g') by (subst t'; reflexivity).
    clear Hrun.
    assert (Hn' : numAsteroids g' = i + 1).
    { unfold g'. cbn. rewrite int8_small by lia. lia. }
    assert (Hlive : live_asteroids g' = live_asteroids (game t) ++ [16 * x + y]).
    { unfold live_asteroids. rewrite Hn'. unfold g'. cbn.
      rewrite wr_insert by lia. rewrite Hn.
      replace (Z.to_nat (i + 1)) with (S (Z.to_nat i)) by lia.
      apply take_S_insert. lia. }
    unfold I. rewrite Hg. split; [exact Hn'|]. split; [lia|].
    split; [unfold g'; cbn; rewrite length_wr; exact Hlen|].
    split; [exact Hnp|].
    rewrite Hlive. apply Forall_app. split; [exact Hf|].
    apply Forall_cons. split; [unfold asteroid_cell; lia|apply Forall_nil_2]. }
  destruct (for_loop_invariant I _ _ 0 Hbody s0 u s' HI0 Hloop)
    as (_ & _ & _ & Hnp & Hf).
  split; [exact Hf|].
  unfold live_projectiles. rewrite Hnp. apply Forall_nil_2.
Qed.

Lemma new_game_field s u s' :
  typed_game (game s) -> new_game s = Some (u, s') -> on_field (game s').
Proof using MAX_ASTEROIDS_fits.
  intros Htyped H. unfold new_game in H.
  apply bind_Some in H as (a & s1 & Hinit & H).
  run_inv H. subst s'.
  exact (initialise_game_field s a s1 Htyped Hinit).
Qed.

(** X28: in every state the program reaches, every asteroid is in one
    of the columns 0..7 and every projectile is in one of the columns 0..7
    and in one of the rows 2..15: no position is outside the field, and
    none is [INVALID_POSITION]. *)
Theorem positions_stay_on_field s :
  reachable s ->
  on_field (game s) /\
  (forall q, q ∈ live_asteroids (game s) ->
     0 <= GET_X_POSITION q <= 7 /\ 0 <= GET_Y_POSITION q <= 15 /\ q <> INVALID_POSITION) /\
  (forall q, q ∈ live_projectiles (game s) ->
     0 <= GET_X_POSITION q <= 7 /\ 2 <= GET_Y_POSITION q <= 15 /\ q <> INVALID_POSITION).
Proof using MAX_ASTEROIDS_fits MAX_PROJECTILES_fits.
  intros Hreach.
  assert (Hf : on_field (game s)).
  { induction Hreach as
      [t snd r s Hnew
      |s s' Hreach _ Hover Hnew
      |s t snd r _ IH
      |s direction Hreach IH Hplay
      |s r s' Hreach IH Hplay Hfire
      |s s' Hreach IH Hplay Hadv
      |s s' Hreach IH Hplay Hadv
      |s _ IH _
      |s _ IH _
      |s _ IH _ _].
    - apply (new_game_field _ _ _ (typed_game_power_up t snd r) Hnew).
    - apply (new_game_field s tt s'); [|exact Hnew].
      apply typed_game_of_wf. apply (reachable_invariant _ Hreach).
    - exact IH.
    - apply move_base_field; [apply (reachable_invariant _ Hreach)|exact IH].
    - apply (fire_projectile_field s r s'); [apply (reachable_invariant _ Hreach)|exact IH|exact Hfire].
    - apply (advance_asteroids_field s tt s'); [apply (reachable_invariant _ Hreach)|exact IH|exact Hadv].
    - apply (advance_projectiles_field s tt s'); [apply (reachable_invariant _ Hreach)|exact IH|exact Hadv].
    - exact IH.
    - exact IH.
    - exact IH. }
  split; [exact Hf|]. destruct Hf as [HfA HfP].
  rewrite Forall_forall in HfA, HfP.
  assert (Hcell : forall q, 0 <= q < 128 ->
    0 <= GET_X_POSITION q <= 7 /\ 0 <= GET_Y_POSITION q <= 15 /\ q <> INVALID_POSITION).
  { intros q Hq. rewrite GET_X_POSITION_eq, GET_Y_POSITION_eq. unfold INVALID_POSITION.
    pose proof (Z.mod_pos_bound q 16 ltac:(lia)).
    assert (0 <= q / 16 < 8)
      by (split; [apply Z.div_pos; lia|apply Z.div_lt_upper_bound; lia]).
    lia. }
  split.
  - intros q Hq. apply Hcell. apply (HfA q Hq).
  - intros q Hq. destruct (HfP q Hq) as [Hrange Hrow].
    destruct (Hcell q Hrange) as (Hx & Hy & Hne). repeat split; lia.
Qed.

(** ** The steps of the alarm *)

Lemma alarm_kept_refl q : alarm_kept q q.
Proof. left. split; reflexivity. Qed.

Lemma alarm_kept_trans q1 q2 q3 : alarm_kept q1 q2 -> alarm_kept q2 q3 -> alarm_kept q1 q3.
Proof.
  unfold alarm_kept. intros [[H1 H2]|[H1 H2]] [[H3 H4]|[H3 H4]].
  - left. split; congruence.
  - right. split; assumption.
  - right. split; congruence.
  - right. split; assumption.
Qed.

Lemma alarm_kept_same q q' :
  base_hit_sound q' = base_hit_sound q -> basehit_sequence q' = basehit_sequence q ->
  alarm_kept q q'.
Proof. intros H1 H2. left. split; assumption. Qed.

Lemma alarm_on_step_kept q q' : alarm_kept q q' -> alarm_on_step q -> alarm_on_step q'.
Proof.
  unfold alarm_on_step. intros [[H1 H2]|[H1 H2]] Hq Hon.
  - rewrite H2. apply Hq. rewrite <- H1. exact Hon.
  - lia.
Qed.

Lemma hit_sound_alarm s : alarm_kept (sequencer s) (sequencer (hit_sound s)).
Proof.
  apply alarm_kept_same; unfold hit_sound; cbn; destruct (sound_enabled s); reflexivity.
Qed.

Lemma shoot_sound_alarm s : alarm_kept (sequencer s) (sequencer (shoot_sound s)).
Proof.
  apply alarm_kept_same; unfold shoot_sound; cbn; destruct (sound_enabled s); reflexivity.
Qed.

Lemma enable_asteroid_animation_alarm x y s :
  alarm_kept (sequencer s) (sequencer (enable_asteroid_animation x y s)).
Proof.
  apply alarm_kept_same; unfold enable_asteroid_animation; cbn;
    destruct (asteroid_animation_on (sequencer s) =? 0); reflexivity.
Qed.

Lemma regen_asteroid_alarm s u s' :
  regen_asteroid s = Some (u, s') -> sequencer s' = sequencer s.
Proof.
  intros H. apply regen_asteroid_Some in H as (x & rest & _ & _ & ->). reflexivity.
Qed.

Lemma ram_check_alarm x y s : alarm_kept (sequencer s) (sequencer (ram_check x y s)).
Proof.
  unfold ram_check. destruct (negb (asteroid_at x y (game s) =? -1)).
  - right. split; reflexivity.
  - apply alarm_kept_refl.
Qed.

Lemma move_base_alarm direction s :
  alarm_kept (sequencer s) (sequencer (snd (move_base direction s))).
Proof.
  assert (Hboth : forall x1 x2 v,
    alarm_kept (sequencer s)
      (sequencer (with_game (fun g => set_basePosition (v g) g)
                    (ram_check (x2 (ram_check x1 0 s)) 1 (ram_check x1 0 s))))).
  { intros x1 x2 v. cbn [sequencer with_game].
    exact (alarm_kept_trans _ _ _ (ram_check_alarm x1 0 s)
             (ram_check_alarm (x2 (ram_check x1 0 s)) 1 (ram_check x1 0 s))). }
  unfold move_base.
  destruct ((direction =? MOVE_LEFT) && negb (basePosition (game s) =? 0));
    [|destruct ((direction =? MOVE_RIGHT) && negb (basePosition (game s) =? 7))].
  - apply (Hboth _ (fun s1 => basePosition (game s1) - 1)
                   (fun g => int8 (basePosition g - 1))).
  - apply (Hboth _ (fun s1 => basePosition (game s1) + 1)
                   (fun g => int8 (basePosition g + 1))).
  - apply alarm_kept_refl.
Qed.

Lemma fire_projectile_alarm s r s' :
  fire_projectile s = Some (r, s') -> alarm_kept (sequencer s) (sequencer s').
Proof.
  intros H. unfold fire_projectile in H.
  destruct ((numProjectiles (game s) <? MAX_PROJECTILES)
            && (projectile_at (basePosition (game s)) 2 (game s) =? -1)).
  2:{ injection H as _ <-. apply alarm_kept_refl. }
  cbn [game shoot_sound with_sequencer] in H.
  destruct (negb (asteroid_at (basePosition (game s)) 2 (game s) =? -1)).
  - run_inv H. destruct H as [_ ->].
    match goal with Hr : regen_asteroid _ = Some _ |- _ =>
      apply regen_asteroid_alarm in Hr; rename Hr into Hregen end.
    apply (alarm_kept_trans _ _ _ (shoot_sound_alarm s)).
    eapply alarm_kept_trans; [|apply enable_asteroid_animation_alarm].
    cbn [sequencer add_to_score set_score].
    eapply alarm_kept_trans; [|apply hit_sound_alarm].
    rewrite Hregen. apply alarm_kept_refl.
  - injection H as _ <-. apply shoot_sound_alarm.
Qed.

Lemma advance_cell_alarm x y s u s' :
  advance_cell x y s = Some (u, s') -> alarm_kept (sequencer s) (sequencer s').
Proof.
  intros H. unfold advance_cell in H.
  destruct (negb (asteroid_at x y (game s) =? -1)).
  2:{ injection H as _ <-. apply alarm_kept_refl. }
  cbn [game with_game] in H.
  assert (Hhit : forall px py ax ay,
    (lift hit_sound >>
     lift (with_game (fun g => remove_projectile (projectile_at px py g) g)) >>
     lift (add_to_score 1) >>
     regen_asteroid >>
     lift (enable_asteroid_animation ax ay))
      (with_game (fun g => remove_asteroid (asteroid_at x y g) g) s) = Some (u, s') ->
    alarm_kept (sequencer s) (sequencer s')).
  { intros px py ax ay Hrun. run_inv Hrun. subst s'.
    match goal with Hr : regen_asteroid _ = Some _ |- _ =>
      apply regen_asteroid_alarm in Hr; rename Hr into Hregen end.
    eapply alarm_kept_trans; [|apply enable_asteroid_animation_alarm].
    rewrite Hregen. cbn [sequencer add_to_score set_score with_game].
    apply (hit_sound_alarm (with_game (fun g => remove_asteroid (asteroid_at x y g) g) s)). }
  destruct (negb (projectile_at x y _ =? -1)); [exact (Hhit _ _ _ _ H)|].
  destruct (negb (projectile_at x (y - 1) _ =? -1)); [exact (Hhit _ _ _ _ H)|].
  clear Hhit.
  destruct (base_collision _ x y).
  { run_inv H. apply regen_asteroid_alarm in H. rewrite H.
    right. split; reflexivity. }
  destruct (negb (y =? 0)).
  - injection H as _ <-. apply alarm_kept_refl.
  - run_inv H. apply top_row_loop_Some in Hstep as (_ & _ & rest & ->).
    subst s'. apply alarm_kept_refl.
Qed.

Lemma advance_asteroids_alarm s u s' :
  advance_asteroids s = Some (u, s') -> alarm_kept (sequencer s) (sequencer s').
Proof.
  intros H. unfold advance_asteroids in H.
  pose (K := fun (_ : Z) (t : State) => alarm_kept (sequencer s) (sequencer t)).
  assert (Hcolumn : forall x t v t',
    0 <= x < 0 + Z.of_nat 8 -> K x t ->
    for_loop 16 0 (fun y => advance_cell x y) t = Some (v, t') -> K (x + 1) t').
  { intros x t v t' _ Ht Hcol.
    assert (Hcell : forall y r w r',
      0 <= y < 0 + Z.of_nat 16 -> K y r -> advance_cell x y r = Some (w, r') ->
      K (y + 1) r').
    { intros y r w r' _ Hr Hrun.
      exact (alarm_kept_trans _ _ _ Hr (advance_cell_alarm x y r w r' Hrun)). }
    exact (for_loop_invariant K _ 16 0 Hcell t v t' Ht Hcol). }
  exact (for_loop_invariant K _ 8 0 Hcolumn s u s' (alarm_kept_refl _) H).
Qed.

Lemma advance_projectile_alarm k s next s' :
  advance_projectile k s = Some (next, s') -> alarm_kept (sequencer s) (sequencer s').
Proof.
  intros H. unfold advance_projectile in H.
  destruct (_ =? FIELD_HEIGHT).
  { injection H as _ <-. apply alarm_kept_refl. }
  destruct (negb (asteroid_at _ _ (game s) =? -1)).
  - run_inv H. destruct H as [_ ->].
    match goal with Hr : regen_asteroid _ = Some _ |- _ =>
      apply regen_asteroid_alarm in Hr; rename Hr into Hregen end.
    eapply alarm_kept_trans; [|apply enable_asteroid_animation_alarm].
    rewrite Hregen. cbn [sequencer add_to_score set_score].
    eapply alarm_kept_trans; [|apply hit_sound_alarm].
    apply alarm_kept_refl.
  - injection H as _ <-. apply alarm_kept_refl.
Qed.

Lemma advance_projectiles_alarm s u s' :
  advance_projectiles s = Some (u, s') -> alarm_kept (sequencer s) (sequencer s').
Proof.
  intros H. unfold advance_projectiles in H. run_inv H. destruct H as [_ ->].
  match goal with Hl : advance_projectiles_loop ?fuel ?k _ = Some _ |- _ =>
    revert Hl; generalize fuel; generalize k end.
  intros k fuel. revert k s.
  induction fuel as [|fuel IH]; intros k s H; cbn [advance_projectiles_loop] in H;
    destruct (k <? numProjectiles (game s));
    try (injection H as _ <-; apply alarm_kept_refl).
  apply bind_Some in H as (k1 & s1 & Hround & Hrest).
  exact (alarm_kept_trans _ _ _ (advance_projectile_alarm k s k1 s1 Hround)
           (IH k1 s1 Hrest)).
Qed.

Lemma initialise_game_alarm s u s' :
  initialise_game s = Some (u, s') -> sequencer s' = sequencer s.
Proof.
  intros H. unfold initialise_game in H.
  apply bind_Some in H as (a & s0 & Hreset & Hloop).
  apply lift_Some in Hreset.
  pose (I := fun (_ : Z) (t : State) => sequencer t = sequencer s).
  assert (HI0 : I 0 s0) by (subst s0; reflexivity).
  assert (Hbody : forall i t v t',
    0 <= i < 0 + Z.of_nat (Z.to_nat MAX_ASTEROIDS) -> I i t ->
    (let* xy := initial_cell_loop in
     lift (with_game (fun g =>
       let g := set_asteroids
                  (wr (asteroids g) i (uint8 (GAME_POSITION (fst xy) (snd xy)))) g in
       set_numAsteroids (int8 (numAsteroids g + 1)) g))) t = Some (v, t') ->
    I (i + 1) t').
  { intros i t v t' _ Ht Hrun. run_inv Hrun.
    apply initial_cell_loop_Some in Hstep as (_ & _ & _ & rest & ->).
    subst t'. exact Ht. }
  exact (for_loop_invariant I _ _ 0 Hbody s0 u s' HI0 Hloop).
Qed.

(** The alarm is served at its steps 1, 2 and 3 only: in every state the
    program reaches, the alarm is off or at one of these steps. *)
Lemma alarm_steps s : reachable s -> alarm_on_step (sequencer s).
Proof.
  induction 1 as [t snd r s Hnew|s s' _ IH Hover Hnew|s t snd r _ IH
                 |s direction _ IH Hplay|s r s' _ IH Hplay Hfire
                 |s s' _ IH Hplay Hadv|s s' _ IH Hplay Hadv
                 |s _ IH Hon|s _ IH Hover|s _ IH Hplay Hon].
  - unfold new_game in Hnew. apply bind_Some in Hnew as (a & s1 & Hinit & Hnew).
    apply initialise_game_alarm in Hinit. run_inv Hnew. subst s.
    unfold alarm_on_step. cbn. rewrite Hinit. cbn. intros Hon. contradiction.
  - unfold new_game in Hnew. apply bind_Some in Hnew as (a & s1 & Hinit & Hnew).
    run_inv Hnew. subst s'. unfold alarm_on_step. cbn. lia.
  - exact IH.
  - exact (alarm_on_step_kept _ _ (move_base_alarm direction s) IH).
  - exact (alarm_on_step_kept _ _ (fire_projectile_alarm s r s' Hfire) IH).
  - exact (alarm_on_step_kept _ _ (advance_asteroids_alarm s tt s' Hadv) IH).
  - exact (alarm_on_step_kept _ _ (advance_projectiles_alarm s tt s' Hadv) IH).
  - specialize (IH Hon). unfold alarm_on_step, handle_basehit_sound.
    cbn [sequencer with_sequencer].
    destruct (basehit_step_due (clock s) (basehit_sequence (sequencer s))
                (basehit_time (sequencer s))); cbn.
    + destruct (Z.eqb_spec (basehit_sequence (sequencer s) + 1) 4); cbn; [contradiction|lia].
    + destruct (Z.eqb_spec (basehit_sequence (sequencer s)) 4); cbn; lia.
  - unfold alarm_on_step. cbn. lia.
  - unfold alarm_on_step, handle_asteroid_animation. cbn [sequencer with_sequencer].
    destruct (uint32 (clock s - 10) >=? asteroid_animation_time (sequencer s)); cbn;
      exact IH.
Qed.

End Facts.

(** * The game played: the claims at its states *)

Lemma game_0_reachable : reachable_state game_0.
Proof.
  apply reach_start with (t := 0) (snd := true) (r := opening_draws).
  vm_compute. reflexivity.
Qed.

Lemma game_1_reachable : reachable_state game_1.
Proof.
  apply reach_advance_asteroids with (s := game_0);
    [exact game_0_reachable|vm_compute; reflexivity|vm_compute; reflexivity].
Qed.

Lemma game_2_reachable : reachable_state game_2.
Proof.
  apply reach_advance_asteroids with (s := game_1);
    [exact game_1_reachable|vm_compute; reflexivity|vm_compute; reflexivity].
Qed.

Lemma game_3_reachable : reachable_state game_3.
Proof.
  apply reach_advance_asteroids with (s := set_env 1500 true [0; 1; 2]%N game_2);
    [apply reach_env; exact game_2_reachable|vm_compute; reflexivity|vm_compute; reflexivity].
Qed.

Lemma game_4_reachable : reachable_state game_4.
Proof.
  apply (reach_move_base 20 4 0 1 alarm_step_due game_3 0);
    [exact game_3_reachable|vm_compute; reflexivity].
Qed.

Lemma game_2_armed_reachable : reachable_state game_2_armed.
Proof. apply reach_env. exact game_2_reachable. Qed.

Lemma game_3_fired_reachable : reachable_state game_3_fired.
Proof.
  apply reach_fire_projectile with (s := game_3) (r := 1);
    [exact game_3_reachable|vm_compute; reflexivity|vm_compute; reflexivity].
Qed.

Lemma advance_projectiles_times_reachable n s :
  reachable_state s ->
  (forall k, (k < n)%nat ->
     is_game_over (game (advance_projectiles_times k s)) = 0 /\
     advance_projectiles (advance_projectiles_times k s) <> None) ->
  reachable_state (advance_projectiles_times n s).
Proof.
  revert s. induction n as [|n IH]; intros s Hs Hsteps; [exact Hs|].
  cbn [advance_projectiles_times]. apply IH.
  - destruct (Hsteps 0%nat ltac:(lia)) as [Hplay Hends]. cbn in Hplay, Hends.
    unfold state_after.
    destruct (advance_projectiles s) as [[[] s']|] eqn:Hrun; [|contradiction].
    exact (reach_advance_projectiles 20 4 0 1 alarm_step_due s s' Hs Hplay Hrun).
  - intros k Hk. exact (Hsteps (S k) ltac:(lia)).
Qed.

Lemma game_3_top_reachable : reachable_state game_3_top.
Proof.
  apply advance_projectiles_times_reachable; [exact game_3_fired_reachable|].
  intros k Hk.
  assert (Hcases : In k (seq 0 13)) by (apply in_seq; lia).
  cbn in Hcases.
  repeat (destruct Hcases as [<-|Hcases];
          [split; [vm_compute; reflexivity|vm_compute; discriminate]|]).
  contradiction.
Qed.

Lemma crowded_game_reachable : reachable_state crowded_game.
Proof.
  apply reach_env.
  apply reach_start with (t := 0) (snd := true) (r := crowded_draws).
  vm_compute. reflexivity.
Qed.

Lemma game_3_alarm_reachable : reachable_state game_3_alarm.
Proof.
  apply reach_env. apply reach_handle_basehit_sound.
  - exact game_3_reachable.
  - vm_compute. discriminate.
Qed.

Lemma call_reachable c s s' :
  reachable_state s -> call c s = Some s' -> reachable_state s'.
Proof.
  intros Hs H. destruct c as [t snd r|direction| | |]; cbn [call] in H.
  - injection H as <-. apply reach_env. exact Hs.
  - destruct (Z.eqb_spec (is_game_over (game s)) 0) as [Hplay|_]; [|discriminate H].
    injection H as <-.
    exact (reach_move_base 20 4 0 1 alarm_step_due s direction Hs Hplay).
  - destruct (Z.eqb_spec (is_game_over (game s)) 0) as [Hplay|_]; [|discriminate H].
    destruct (fire_projectile 4 s) as [[r s1]|] eqn:Hrun; [|discriminate H].
    injection H as <-.
    exact (reach_fire_projectile 20 4 0 1 alarm_step_due s r s1 Hs Hplay Hrun).
  - destruct (Z.eqb_spec (is_game_over (game s)) 0) as [Hplay|_]; [|discriminate H].
    destruct (advance_asteroids s) as [[[] s1]|] eqn:Hrun; [|discriminate H].
    injection H as <-.
    exact (reach_advance_asteroids 20 4 0 1 alarm_step_due s s1 Hs Hplay Hrun).
  - destruct (Z.eqb_spec (is_game_over (game s)) 0) as [Hplay|_]; [|discriminate H].
    destruct (advance_projectiles s) as [[[] s1]|] eqn:Hrun; [|discriminate H].
    injection H as <-.
    exact (reach_advance_projectiles 20 4 0 1 alarm_step_due s s1 Hs Hplay Hrun).
Qed.

Lemma play_reachable calls s s' :
  reachable_state s -> play calls s = Some s' -> reachable_state s'.
Proof.
  revert s. induction calls as [|c calls IH]; intros s Hs H; cbn [play] in H.
  - injection H as <-. exact Hs.
  - destruct (call c s) as [s1|] eqn:Hcall; [|discriminate H].
    exact (IH s1 (call_reachable c s s1 Hs Hcall) H).
Qed.


Lemma full_top_game_reachable : reachable_state full_top_game.
Proof.
  apply (play_reachable full_top_calls full_top_start).
  - apply reach_start with (t := 0) (snd := true) (r := full_top_draws).
    vm_compute. reflexivity.
  - vm_compute. reflexivity.
Qed.

Lemma stuck_top_game_reachable : reachable_state stuck_top_game.
Proof.
  apply (play_reachable stuck_top_calls stuck_top_start).
  - apply reach_start with (t := 0) (snd := true) (r := stuck_top_draws).
    vm_compute. reflexivity.
  - vm_compute. reflexivity.
Qed.

Lemma stuck_top_game_full c : 0 <= c < 8 -> asteroid_at c 15 (game stuck_top_game) <> -1.
Proof.
  intros Hc.
  assert (Hcases : c = 0 \/ c = 1 \/ c = 2 \/ c = 3 \/ c = 4 \/ c = 5 \/ c = 6 \/ c = 7)
    by lia.
  destruct Hcases as [->|[->|[->|[->|[->|[->|[->| ->]]]]]]]; vm_compute; discriminate.
Qed.

Lemma full_top_game_full c : 0 <= c < 8 -> asteroid_at c 15 (game full_top_game) <> -1.
Proof.
  intros Hc.
  assert (Hcases : c = 0 \/ c = 1 \/ c = 2 \/ c = 3 \/ c = 4 \/ c = 5 \/ c = 6 \/ c = 7)
    by lia.
  destruct Hcases as [->|[->|[->|[->|[->|[->|[->| ->]]]]]]]; vm_compute; discriminate.
Qed.

Lemma capacity_20 : 0 <= 20 <= 127.
Proof. lia. Qed.

Lemma capacity_4 : 0 <= 4 <= 127.
Proof. lia. Qed.

Lemma reachable_state_wf s : reachable_state s -> wf_game 20 4 (game s).
Proof.
  intros Hs.
  exact (proj1 (reachable_invariant 20 4 0 1 alarm_step_due capacity_20 capacity_4 s Hs)).
Qed.

(** C2 at the state [game_4]. *)
Lemma cells_never_shared_witness : cells_apart (game game_4).
Proof.
  exact (proj1 (cells_never_shared 20 4 0 1 alarm_step_due capacity_20 capacity_4)
           game_4 game_4_reachable).
Defined.

(** C7 as stated fails: the program reaches [game_4], where [lives] is -1. *)
Lemma lives_below_zero :
  reachable_state game_4 /\ lives (game game_3) = 1 /\ lives (game game_4) = -1.
Proof.
  split; [exact game_4_reachable|]. split; vm_compute; reflexivity.
Qed.

(** C7, as amended, at the state [game_4]. *)
Lemma lives_range_witness :
  -2 <= lives (game game_4) <= 4 /\
  (is_game_over (game game_4) = 1 <-> lives (game game_4) < 1).
Proof.
  exact (lives_range 20 4 0 1 alarm_step_due capacity_20 capacity_4
           game_4 game_4_reachable).
Defined.

(** C1 at the state [game_3]: the base is at 3, asteroids are at (1,0) and
    (2,1), and the move to the left leaves 18 of the 20 asteroids. *)
Lemma move_base_loses_asteroids_witness :
  numAsteroids (game game_3) = 20 /\
  numAsteroids (game (snd (move_base 0 1 0 game_3))) = 18 /\
  numAsteroids (game (snd (move_base 0 1 0 game_3))) < numAsteroids (game game_3).
Proof.
  split; [vm_compute; reflexivity|]. split; [vm_compute; reflexivity|].
  apply (proj2 (proj2 (proj2 (proj2
           (move_base_loses_asteroids 20 4 0 1 capacity_20 capacity_4 game_3
              (reachable_state_wf game_3 game_3_reachable)))))).
  - vm_compute. discriminate.
  - vm_compute. discriminate.
Defined.

(** C3 from [game_0]: five moves keep the base on the field, and a move to
    the left is refused at the left edge. *)
Lemma base_stays_in_field_witness :
  0 <= basePosition (game (move_base_sequence 0 1 [0; 0; 0; 0; 1] game_0)) <= 7 /\
  move_base 0 1 0 game_0_left = (0, game_0_left).
Proof.
  assert (Hdistinct : 0 <> 1) by lia.
  destruct (base_stays_in_field 0 1 Hdistinct) as [Hseq Hrefuse]. split.
  - apply Hseq.
    assert (Hb : basePosition (game game_0) = 3) by (vm_compute; reflexivity).
    rewrite Hb. lia.
  - apply Hrefuse. left. split; [reflexivity|vm_compute; reflexivity].
Defined.

(** C4 at the state [game_2_armed]. *)
Lemma fire_at_asteroid_witness :
  exists s',
    fire_projectile 4 game_2_armed = Some (1, s') /\
    score s' = score game_2_armed + 1 /\
    numAsteroids (game s') = numAsteroids (game game_2_armed) /\
    numProjectiles (game s') = numProjectiles (game game_2_armed).
Proof.
  destruct (fire_at_asteroid 20 4 capacity_20 game_2_armed)
    as (s' & new_x & Hfire & Hscore & Hcount & _ & _ & _ & _ & Hnp & _).
  - exact (reachable_state_wf _ game_2_armed_reachable).
  - vm_compute. reflexivity.
  - vm_compute. reflexivity.
  - vm_compute. discriminate.
  - apply Exists_cons_hd. vm_compute. reflexivity.
  - exists s'. split; [exact Hfire|]. split; [exact Hscore|].
    split; [exact Hcount|exact Hnp].
Defined.

(** C4 as stated fails: the program reaches [full_top_game], where the
    base is in column 0, no projectile is in flight, an asteroid is in the
    firing cell (0,2) and the eight cells of row 15 are taken; there
    [fire_projectile] does not return, whatever the draws. *)
Lemma fire_at_asteroid_never_returns :
  reachable_state full_top_game /\
  numProjectiles (game full_top_game) < 4 /\
  projectile_at (basePosition (game full_top_game)) 2 (game full_top_game) = -1 /\
  asteroid_at (basePosition (game full_top_game)) 2 (game full_top_game) <> -1 /\
  (forall t snd r, fire_projectile 4 (set_env t snd r full_top_game) = None).
Proof.
  split; [exact full_top_game_reachable|].
  split; [vm_compute; reflexivity|].
  split; [vm_compute; reflexivity|].
  split; [vm_compute; discriminate|].
  intros t snd r.
  pose proof (reachable_state_wf _ full_top_game_reachable) as Hwf.
  assert (Hroom : numProjectiles (game full_top_game) < 4) by (vm_compute; reflexivity).
  assert (Hfree : projectile_at (basePosition (game full_top_game)) 2 (game full_top_game)
                  = -1) by (vm_compute; reflexivity).
  assert (Hast : asteroid_at (basePosition (game full_top_game)) 2 (game full_top_game)
                 <> -1) by (vm_compute; discriminate).
  pose proof full_top_game_full as Hfull.
  revert Hwf Hroom Hfree Hast Hfull. generalize full_top_game. intros s.
  exact (fire_projectile_stuck 20 4 capacity_20 (set_env t snd r s)).
Qed.

(** C5 for the new game [game_0]. *)
Lemma new_game_fresh_witness :
  lives (game game_0) = 4 /\ score game_0 = 0 /\ basePosition (game game_0) = 3 /\
  numProjectiles (game game_0) = 0 /\ numAsteroids (game game_0) = 20 /\
  (forall p, p ∈ live_asteroids (game game_0) -> 3 <= GET_Y_POSITION p <= 15).
Proof.
  apply (proj1 (new_game_fresh 20 4 capacity_20 capacity_4
                  (power_up 20 4 0 true opening_draws)
                  (typed_game_power_up 20 4 capacity_20 capacity_4 0 true opening_draws))
           tt game_0).
  vm_compute. reflexivity.
Defined.

(** C5 as stated fails for [initialise_game]: called in [full_top_game],
    where the score is 8, with the draws of the first game, it returns with
    the lives, the base, the projectiles and the asteroids set and the
    score still 8. *)
Lemma initialise_game_keeps_score :
  reachable_state full_top_game /\
  score full_top_game = 8 /\
  exists s',
    initialise_game 20 (set_env 0 true opening_draws full_top_game) = Some (tt, s') /\
    lives (game s') = 4 /\ basePosition (game s') = 3 /\
    numProjectiles (game s') = 0 /\ numAsteroids (game s') = 20 /\
    score s' = 8.
Proof.
  split; [exact full_top_game_reachable|].
  split; [vm_compute; reflexivity|].
  exists (state_after (initialise_game 20) (set_env 0 true opening_draws full_top_game)).
  split; [vm_compute; reflexivity|]. split; [vm_compute; reflexivity|].
  split; [vm_compute; reflexivity|]. split; [vm_compute; reflexivity|].
  split; vm_compute; reflexivity.
Qed.

(** A call of [advance_projectiles] does not always return: the program
    reaches [stuck_top_game], whose projectiles are at (3,15) and (4,2),
    with an asteroid at (4,3) and the eight cells of row 15 taken; there
    the call removes the first projectile, and the regeneration after the
    hit of the second does not end, whatever the draws. *)
Lemma stuck_top_game_never_returns :
  reachable_state stuck_top_game /\
  live_projectiles (game stuck_top_game) = [63; 66] /\
  (forall t snd r, advance_projectiles (set_env t snd r stuck_top_game) = None).
Proof.
  split; [exact stuck_top_game_reachable|].
  split; [vm_compute; reflexivity|].
  intros t snd r.
  pose proof (reachable_state_wf _ stuck_top_game_reachable) as Hwf.
  assert (Hn : numProjectiles (game stuck_top_game) = 2) by (vm_compute; reflexivity).
  assert (Htop : GET_Y_POSITION (rd (projectiles (game stuck_top_game)) 0) = 15)
    by (vm_compute; reflexivity).
  assert (Hrow : GET_Y_POSITION (rd (projectiles (game stuck_top_game)) 1) < 14)
    by (vm_compute; reflexivity).
  assert (Hast : asteroid_at (GET_X_POSITION (rd (projectiles (game stuck_top_game)) 1))
                   (GET_Y_POSITION (rd (projectiles (game stuck_top_game)) 1) + 1)
                   (game stuck_top_game) <> -1) by (vm_compute; discriminate).
  pose proof stuck_top_game_full as Hfull.
  revert Hwf Hn Htop Hrow Hast Hfull. generalize stuck_top_game. intros s.
  exact (advance_projectiles_stuck 20 4 capacity_20 capacity_4 (set_env t snd r s)).
Qed.


(** C8, as amended, at the scores 300 and 100. *)
Lemma asteroid_interval_sign_witness :
  asteroids_due 2000 1800 300 = true /\ asteroids_due 1800 1800 100 = false.
Proof.
  split.
  - apply (proj1 (proj2 (asteroid_interval_sign 300))); [lia|lia|lia|lia].
  - apply (proj2 (proj2 (asteroid_interval_sign 100))); [lia|lia|lia].
Defined.

(** C8 as stated fails: at score 278 the interval is -0.4 time units, and
    the asteroids are due even when no time has passed. *)
Lemma interval_negative_at_278 :
  asteroid_interval_tenths 278 = -4 /\ asteroids_due 1500 1500 278 = true.
Proof. split; vm_compute; reflexivity. Qed.

(** From [2^23] on the conversion of the times to [double] rounds them: at
    the times 8388609 and 8388608 and score 277 the test succeeds before
    the interval of 1.4 has passed, and at the time 33554434 and score 278
    it fails though the interval is negative. *)
Lemma asteroids_due_late_clock :
  asteroids_due 8388609 8388608 277 = true /\
  asteroids_due 33554434 33554434 278 = false.
Proof. split; vm_compute; reflexivity. Qed.

(** C9 as stated fails: in [game_3_alarm] the alarm runs, at step 2, with
    time stamp 1500; triggered again at time 1600 it is back at step 1 with
    the time stamp still 1500. *)
Lemma alarm_time_stamp_stays :
  reachable_state game_3_alarm /\
  base_hit_sound (sequencer game_3_alarm) = 1 /\
  basehit_sequence (sequencer game_3_alarm) = 2 /\
  clock game_3_alarm = 1600 /\
  basehit_sequence (sequencer (enable_basehit_sound game_3_alarm)) = 1 /\
  basehit_time (sequencer (enable_basehit_sound game_3_alarm)) = 1500.
Proof.
  split; [exact game_3_alarm_reachable|]. repeat split; vm_compute; reflexivity.
Qed.

(** C10 at the state [crowded_game]: row 15 is full and ten draws are
    pending; a regeneration does not end with them. *)
Lemma retry_loops_witness :
  top_row_loop crowded_game = None /\ regen_asteroid crowded_game = None.
Proof.
  apply (proj1 (retry_loops 20 4 capacity_20) crowded_game).
  intros x Hx.
  assert (Hcases : x = 0 \/ x = 1 \/ x = 2 \/ x = 3 \/ x = 4 \/ x = 5 \/ x = 6 \/ x = 7)
    by lia.
  destruct Hcases as [->|[->|[->|[->|[->|[->|[->| ->]]]]]]]; vm_compute; discriminate.
Defined.

(** * The game played: the further facts at its states *)

Lemma ram_game_0_reachable : reachable_state ram_game_0.
Proof.
  apply reach_start with (t := 0) (snd := true) (r := ram_draws).
  vm_compute. reflexivity.
Qed.

Lemma ram_game_1_reachable : reachable_state ram_game_1.
Proof.
  apply reach_advance_asteroids with (s := ram_game_0);
    [exact ram_game_0_reachable|vm_compute; reflexivity|vm_compute; reflexivity].
Qed.

Lemma ram_game_2_reachable : reachable_state ram_game_2.
Proof.
  apply reach_advance_asteroids with (s := ram_game_1);
    [exact ram_game_1_reachable|vm_compute; reflexivity|vm_compute; reflexivity].
Qed.

Lemma ram_game_reachable : reachable_state ram_game.
Proof.
  apply reach_advance_asteroids with (s := ram_game_2);
    [exact ram_game_2_reachable|vm_compute; reflexivity|vm_compute; reflexivity].
Qed.

Lemma game_1_fired_reachable : reachable_state game_1_fired.
Proof.
  apply reach_env.
  apply reach_fire_projectile with (s := game_1) (r := 1);
    [exact game_1_reachable|vm_compute; reflexivity|vm_compute; reflexivity].
Qed.

Lemma game_2_late_reachable : reachable_state game_2_late.
Proof. apply reach_env. exact game_2_reachable. Qed.

Lemma game_3_draw_reachable : reachable_state game_3_draw.
Proof. apply reach_env. exact game_3_reachable. Qed.

Lemma game_3_twice_reachable : reachable_state game_3_twice.
Proof.
  apply reach_fire_projectile
    with (s := state_after advance_projectiles game_3_fired) (r := 1).
  - apply reach_advance_projectiles with (s := game_3_fired);
      [exact game_3_fired_reachable|vm_compute; reflexivity|vm_compute; reflexivity].
  - vm_compute. reflexivity.
  - vm_compute. reflexivity.
Qed.

Lemma capacity_2 : 0 <= 2 <= 127.
Proof. lia. Qed.

Lemma capacity_1 : 0 <= 1 <= 127.
Proof. lia. Qed.

Lemma wrap_game_wf : wf_game 2 1 (game wrap_game).
Proof.
  split.
  - cbn. lia.
  - split.
    + cbn. lia.
    + reflexivity.
    + cbn. repeat constructor; unfold is_byte; lia.
    + apply (bool_decide_unpack _). vm_compute. exact I.
  - split.
    + cbn. lia.
    + reflexivity.
    + cbn. repeat constructor; unfold is_byte; lia.
  - apply (bool_decide_unpack _). vm_compute. exact I.
Qed.

Lemma no_button : ~ 0 <= -1 <= 3.
Proof. lia. Qed.

(** X1 at a port whose bits 0, 1, 6 and 7 are set. *)
Lemma update_led_counts_down_witness :
  lives_leds (show_lives (lives_down_to 2) 195) = 2 /\
  update_led 7 195 = 195 /\
  Z.testbit (update_led 0 195) 7 = Z.testbit 195 7.
Proof.
  assert (Hport : is_byte 195) by (unfold is_byte; lia).
  destruct (update_led_counts_down 195 Hport) as (_ & Hbits & Hout & Hdown).
  split; [apply Hdown; lia|]. split; [apply Hout; lia|apply Hbits; lia].
Defined.

(** X2 at the cell (5,9), which is the byte 89. *)
Lemma position_round_trip_witness :
  GET_X_POSITION (GAME_POSITION 5 9) = 5 /\
  GET_Y_POSITION (GAME_POSITION 5 9) = 9 mod 16 /\
  GAME_POSITION (GET_X_POSITION 89) (GET_Y_POSITION 89) = 89 /\
  GAME_POSITION 5 9 <> INVALID_POSITION.
Proof.
  destruct position_round_trip as (Hxy & Hp & Hfield & _).
  assert (Hx : 0 <= 5 < 16) by lia.
  assert (Hb : is_byte 89) by (unfold is_byte; lia).
  assert (Hf : 0 <= 5 <= 7) by lia.
  split; [exact (proj1 (proj2 (Hxy 5 9 Hx)))|].
  split; [exact (proj2 (proj2 (Hxy 5 9 Hx)))|].
  split; [exact (proj1 (Hp 89 Hb))|exact (proj2 (Hfield 5 9 Hf))].
Defined.

(** X3 at [game_3_twice] and the cell (3,2): the second projectile is
    there, and no asteroid. *)
Lemma position_lookup_witness :
  asteroid_at 3 2 (game game_3_twice) = -1 /\
  rd (projectiles (game game_3_twice)) (projectile_at 3 2 (game game_3_twice))
  = checked_position 3 2 /\
  projectile_at 3 (2 + 16) (game game_3_twice) = projectile_at 3 2 (game game_3_twice).
Proof.
  assert (Ha : numAsteroids (game game_3_twice) <= 127) by (vm_compute; discriminate).
  assert (Hp : numProjectiles (game game_3_twice) <= 127) by (vm_compute; discriminate).
  destruct (position_lookup (game game_3_twice) 3 2 Ha Hp)
    as (Hasteroid & Hprojectile & _ & Hrow).
  split; [|split; [|exact Hrow]].
  - destruct Hasteroid as [[Hnone _]|[Hfound _]]; [exact Hnone|].
    assert (Hv : asteroid_at 3 2 (game game_3_twice) = -1) by (vm_compute; reflexivity).
    rewrite Hv in Hfound. lia.
  - destruct Hprojectile as [[Hnone _]|(_ & Hfound & _)]; [|exact Hfound].
    assert (Hv : projectile_at 3 2 (game game_3_twice) = 1) by (vm_compute; reflexivity).
    rewrite Hv in Hnone. lia.
Defined.

(** X4 at [game_0]: index 20 is not below the count, and index 1 is. *)
Lemma remove_asteroid_slot_witness :
  remove_asteroid 20 (game game_0) = game game_0 /\
  numAsteroids (remove_asteroid 1 (game game_0)) = numAsteroids (game game_0) - 1 /\
  lives (remove_asteroid 1 (game game_0)) = lives (game game_0).
Proof.
  assert (Ha : numAsteroids (game game_0) <= 127) by (vm_compute; discriminate).
  assert (Hl : numAsteroids (game game_0) <= Z.of_nat (length (asteroids (game game_0))))
    by (vm_compute; discriminate).
  destruct (remove_asteroid_slot 20 (game game_0) Ha Hl) as [Hout _].
  destruct (remove_asteroid_slot 1 (game game_0) Ha Hl) as [_ Hin].
  split.
  - apply Hout. right. vm_compute. discriminate.
  - assert (Hi : 0 <= 1 < numAsteroids (game game_0))
      by (split; [lia|vm_compute; reflexivity]).
    destruct (Hin Hi) as (Hcount & _ & _ & _ & _ & _ & Hlives).
    split; [exact Hcount|exact Hlives].
Defined.

(** X5 at [game_0] and the cell (2,3), which holds an asteroid. *)
Lemma remove_asteroid_frees_cell_witness :
  asteroid_at 2 3 (remove_asteroid (asteroid_at 2 3 (game game_0)) (game game_0)) = -1 /\
  numAsteroids (remove_asteroid (asteroid_at 2 3 (game game_0)) (game game_0))
  = numAsteroids (game game_0) - 1.
Proof.
  destruct (remove_asteroid_frees_cell 20 capacity_20 2 3 (game game_0)
              (wf_asteroids_ok 20 4 _ (reachable_state_wf _ game_0_reachable)))
    as (_ & Hfree & _ & Hcount).
  split; [exact Hfree|]. apply Hcount. vm_compute. discriminate.
Defined.

(** X6 at [game_3_twice]: the first of the two projectiles is removed. *)
Lemma remove_projectile_keeps_order_witness :
  numProjectiles (remove_projectile 0 (game game_3_twice))
  = numProjectiles (game game_3_twice) - 1 /\
  live_projectiles (remove_projectile 0 (game game_3_twice))
  = delete (Z.to_nat 0) (live_projectiles (game game_3_twice)) /\
  remove_projectile 2 (game game_3_twice) = game game_3_twice.
Proof.
  assert (Hp : numProjectiles (game game_3_twice) <= 127) by (vm_compute; discriminate).
  assert (Hl : numProjectiles (game game_3_twice)
               <= Z.of_nat (length (projectiles (game game_3_twice))))
    by (vm_compute; discriminate).
  destruct (remove_projectile_keeps_order 0 (game game_3_twice) Hp Hl) as [_ Hin].
  destruct (remove_projectile_keeps_order 2 (game game_3_twice) Hp Hl) as [Hout _].
  assert (Hi : 0 <= 0 < numProjectiles (game game_3_twice))
    by (split; [lia|vm_compute; reflexivity]).
  destruct (Hin Hi) as (Hcount & Hlive & _).
  split; [exact Hcount|]. split; [exact Hlive|].
  apply Hout. right. vm_compute. discriminate.
Defined.

(** X7 at [game_3_fired], where the firing cell holds a projectile, and at
    [full_top_game], where it holds an asteroid and row 15 is full. *)
Lemma fire_projectile_refuses_witness :
  fire_projectile 4 game_3_fired = Some (0, game_3_fired) /\
  fire_projectile 4 (set_env 9 true [3; 5]%N full_top_game) = None.
Proof.
  split.
  - apply (proj1 (fire_projectile_refuses 20 4 capacity_20 game_3_fired)).
    right. vm_compute. discriminate.
  - apply (proj2 (proj2 (fire_projectile_refuses 20 4 capacity_20 full_top_game))
             (reachable_state_wf _ full_top_game_reachable)).
    + vm_compute. reflexivity.
    + vm_compute. reflexivity.
    + vm_compute. discriminate.
    + exact full_top_game_full.
Defined.

(** X8 at [game_3]. *)
Lemma fire_projectile_shoots_witness :
  exists s',
    fire_projectile 4 game_3 = Some (1, s') /\
    live_projectiles (game s')
    = live_projectiles (game game_3) ++ [16 * basePosition (game game_3) + 2] /\
    asteroids (game s') = asteroids (game game_3) /\
    score s' = score game_3.
Proof.
  destruct (fire_projectile_shoots 20 4 capacity_20 capacity_4 game_3)
    as (s' & Hfire & _ & _ & Hlive & _ & Hasteroids & _ & _ & _ & Hscore & _).
  - exact (reachable_state_wf _ game_3_reachable).
  - vm_compute. reflexivity.
  - vm_compute. reflexivity.
  - vm_compute. reflexivity.
  - exists s'. split; [exact Hfire|]. split; [exact Hlive|].
    split; [exact Hasteroids|exact Hscore].
Defined.

(** X9 at [game_1_fired]: the projectile is at (3,2) and an asteroid at
    (3,3). *)
Lemma projectile_hits_asteroid_witness :
  exists s',
    advance_projectile 0 game_1_fired = Some (0, s') /\
    numProjectiles (game s') = numProjectiles (game game_1_fired) - 1 /\
    numAsteroids (game s') = numAsteroids (game game_1_fired) /\
    score s' = score game_1_fired + 1.
Proof.
  pose proof (reachable_state_wf _ game_1_fired_reachable) as Hwf.
  destruct (projectile_hits_asteroid 20 4 capacity_20 capacity_4 game_1_fired 0)
    as (s' & new_x & Hrun & Hnp & _ & Hna & _ & _ & Hscore & _).
  - exact (wf_asteroids_ok 20 4 _ Hwf).
  - exact (wf_projectiles_ok 20 4 _ Hwf).
  - split; [lia|vm_compute; reflexivity].
  - vm_compute. discriminate.
  - vm_compute. discriminate.
  - apply Exists_cons_hd. vm_compute. reflexivity.
  - exists s'. split; [exact Hrun|]. split; [exact Hnp|]. split; [exact Hna|exact Hscore].
Defined.
(** X10 at [game_3_twice], whose projectiles are at (3,3) and (3,2). *)
Lemma projectiles_move_up_witness :
  exists s',
    advance_projectiles game_3_twice = Some (tt, s') /\
    live_projectiles (game s') = map Z.succ (live_projectiles (game game_3_twice)) /\
    asteroids (game s') = asteroids (game game_3_twice) /\
    score s' = score game_3_twice.
Proof.
  destruct (projectiles_move_up 20 4 capacity_20 capacity_4 game_3_twice)
    as (s' & Hrun & _ & Hlive & Hasteroids & _ & _ & _ & Hscore & _).
  - exact (reachable_state_wf _ game_3_twice_reachable).
  - assert (Hlive : live_projectiles (game game_3_twice) = [51; 50])
      by (vm_compute; reflexivity).
    rewrite Hlive.
    apply Forall_cons. split.
    { split; [vm_compute; discriminate|].
      apply (bool_decide_unpack _). vm_compute. exact I. }
    apply Forall_cons. split; [|apply Forall_nil_2].
    split; [vm_compute; discriminate|].
    apply (bool_decide_unpack _). vm_compute. exact I.
  - exists s'. split; [exact Hrun|]. split; [exact Hlive|].
    split; [exact Hasteroids|exact Hscore].
Defined.

(** X11 at [game_0] and the cell (2,3). *)
Lemma asteroid_moves_down_witness :
  exists s',
    advance_cell 2 3 game_0 = Some (tt, s') /\
    asteroid_at 2 (3 - 1) (game s') <> -1 /\
    asteroid_at 2 3 (game s') = -1 /\
    lives (game s') = lives (game game_0).
Proof.
  destruct (asteroid_moves_down 20 4 capacity_20 2 3 game_0)
    as (s' & Hrun & _ & _ & Hbelow & Hfree & _ & Hlives & _).
  - exact (reachable_state_wf _ game_0_reachable).
  - lia.
  - lia.
  - vm_compute. discriminate.
  - vm_compute. reflexivity.
  - vm_compute. reflexivity.
  - vm_compute. reflexivity.
  - exists s'. split; [exact Hrun|]. split; [exact Hbelow|].
    split; [exact Hfree|exact Hlives].
Defined.

(** X12 at [game_1_fired] and the cell (3,3): the projectile is in the cell
    below. *)
Lemma asteroid_meets_projectile_witness :
  exists s',
    advance_cell 3 3 game_1_fired = Some (tt, s') /\
    numProjectiles (game s') = numProjectiles (game game_1_fired) - 1 /\
    numAsteroids (game s') = numAsteroids (game game_1_fired) /\
    score s' = score game_1_fired + 1 /\
    lives (game s') = lives (game game_1_fired).
Proof.
  destruct (asteroid_meets_projectile 20 4 capacity_20 capacity_4 3 3 game_1_fired)
    as (s' & new_x & hit & Hrun & _ & Hnp & _ & Hna & _ & _ & Hscore & Hlives & _).
  - exact (reachable_state_wf _ game_1_fired_reachable).
  - lia.
  - lia.
  - vm_compute. discriminate.
  - right. vm_compute. discriminate.
  - apply Exists_cons_hd. vm_compute. reflexivity.
  - exists s'. split; [exact Hrun|]. split; [exact Hnp|]. split; [exact Hna|].
    split; [exact Hscore|exact Hlives].
Defined.

(** X13 at [wrap_game] and column 1: the asteroid is at (1,0) and the
    projectile at (1,15). *)
Lemma bottom_asteroid_hits_top_projectile_witness :
  exists s',
    advance_cell 1 0 wrap_game = Some (tt, s') /\
    numProjectiles (game s') = numProjectiles (game wrap_game) - 1 /\
    (16 * 1 + 15 ∉ live_projectiles (game s')) /\
    score s' = score wrap_game + 1 /\
    animation_y (sequencer s') = -1.
Proof.
  destruct (bottom_asteroid_hits_top_projectile 2 1 capacity_2 capacity_1 1 wrap_game)
    as (s' & new_x & Hrun & Hnp & _ & Hgone & _ & _ & _ & Hscore & _ & Hanimation & _).
  - exact wrap_game_wf.
  - lia.
  - vm_compute. discriminate.
  - vm_compute. reflexivity.
  - vm_compute. discriminate.
  - apply Exists_cons_hd. vm_compute. reflexivity.
  - exists s'. split; [exact Hrun|]. split; [exact Hnp|]. split; [exact Hgone|].
    split; [exact Hscore|].
    assert (Hoff : asteroid_animation_on (sequencer wrap_game) = 0) by reflexivity.
    exact (proj1 (proj2 (Hanimation Hoff))).
Defined.

(** X14 at [game_2_late] and the cell (3,2), right above the base. *)
Lemma asteroid_hits_base_witness :
  exists s',
    advance_cell 3 2 game_2_late = Some (tt, s') /\
    lives (game s') = lives (game game_2_late) - 1 /\
    base_hit_sound (sequencer s') = 1 /\
    numAsteroids (game s') = numAsteroids (game game_2_late) /\
    score s' = score game_2_late.
Proof.
  destruct (asteroid_hits_base 20 4 capacity_20 3 2 game_2_late)
    as (s' & new_x & Hrun & Hlives & Hsound & _ & Hna & _ & _ & _ & _ & Hscore & _).
  - exact (reachable_state_wf _ game_2_late_reachable).
  - lia.
  - lia.
  - vm_compute. discriminate.
  - vm_compute. reflexivity.
  - vm_compute. reflexivity.
  - vm_compute. reflexivity.
  - apply Exists_cons_hd. vm_compute. reflexivity.
  - exists s'. split; [exact Hrun|]. split; [exact Hlives|]. split; [exact Hsound|].
    split; [exact Hna|exact Hscore].
Defined.

(** X15 at [game_3_draw] and column 1: the asteroid is at (1,0). *)
Lemma asteroid_leaves_bottom_witness :
  exists s' new_x,
    advance_cell 1 0 game_3_draw = Some (tt, s') /\
    (16 * new_x + 15 ∈ live_asteroids (game s')) /\
    (16 * 1 ∉ live_asteroids (game s')) /\
    lives (game s') = lives (game game_3_draw) /\
    score s' = score game_3_draw.
Proof.
  destruct (asteroid_leaves_bottom 20 4 capacity_20 1 game_3_draw)
    as (s' & new_x & Hrun & Hx & Hnew & Hlive & _ & _ & Hlives & _ & _ & Hscore & _).
  - exact (reachable_state_wf _ game_3_draw_reachable).
  - lia.
  - vm_compute. discriminate.
  - vm_compute. reflexivity.
  - vm_compute. reflexivity.
  - apply Exists_cons_hd. vm_compute. reflexivity.
  - exists s', new_x. split; [exact Hrun|].
    split; [apply Hlive; right; reflexivity|].
    split; [|split; [exact Hlives|exact Hscore]].
    intros Hin. apply Hlive in Hin. destruct Hin as [[_ Hne]|Heq]; lia.
Defined.

(** X16 at [game_0], where every asteroid is in row 3 or higher and no
    projectile is in flight. *)
Lemma asteroids_move_down_witness :
  exists s',
    advance_asteroids game_0 = Some (tt, s') /\
    live_asteroids (game s') ≡ₚ map Z.pred (live_asteroids (game game_0)) /\
    lives (game s') = lives (game game_0) /\
    rand s' = rand game_0.
Proof.
  destruct (asteroids_move_down 20 4 capacity_20 capacity_4 game_0)
    as (s' & Hrun & _ & Hlive & _ & _ & Hlives & _ & _ & _ & Hrand & _).
  - exact (reachable_state_wf _ game_0_reachable).
  - assert (Hnone : live_projectiles (game game_0) = []) by (vm_compute; reflexivity).
    assert (Hb : basePosition (game game_0) = 3) by (vm_compute; reflexivity).
    assert (Hall : live_asteroids (game game_0)
                   = [35; 67; 52; 19; 36; 88; 89; 90; 91; 92;
                      104; 105; 106; 107; 108; 120; 121; 122; 123; 124])
      by (vm_compute; reflexivity).
    rewrite Hall, Hnone, Hb.
    repeat (apply Forall_cons; split;
            [split; [lia|]; split; [vm_compute; discriminate|];
             split; [apply not_elem_of_nil|];
             split; [apply not_elem_of_nil|vm_compute; reflexivity]|]).
    apply Forall_nil_2.
  - exists s'. split; [exact Hrun|]. split; [exact Hlive|].
    split; [exact Hlives|exact Hrand].
Defined.

(** X17 at [game_3], whose time stamp is 0, with calls at the times 1500,
    1700 and 2200, when the delays of 110.2, 180.3 and 414.3 time units
    have passed; at 1600 the second step is not due. *)
Lemma alarm_takes_three_steps_witness :
  base_hit_sound
    (sequencer (alarm_step 2200 (alarm_step 1700
                  (alarm_step 1500 (enable_basehit_sound game_3))))) = 0 /\
  basehit_sequence
    (sequencer (alarm_step 2200 (alarm_step 1700
                  (alarm_step 1500 (enable_basehit_sound game_3))))) = 4 /\
  game (alarm_step 2200 (alarm_step 1700
          (alarm_step 1500 (enable_basehit_sound game_3)))) = game game_3 /\
  alarm_step 1600 (alarm_step 1500 (enable_basehit_sound game_3))
  = at_time 1600 (alarm_step 1500 (enable_basehit_sound game_3)).
Proof.
  assert (H1 : alarm_step_due 1500 1 (basehit_time (sequencer game_3)) = true)
    by (vm_compute; reflexivity).
  assert (H2 : alarm_step_due 1700 2 1500 = true) by (vm_compute; reflexivity).
  assert (H3 : alarm_step_due 2200 3 1700 = true) by (vm_compute; reflexivity).
  assert (Hwait : alarm_step_due 1600 2 1500 = false) by (vm_compute; reflexivity).
  pose proof (alarm_takes_three_steps alarm_step_due game_3 1500 1700 2200 H1 H2 H3)
    as Hsteps.
  cbv zeta in Hsteps.
  destruct Hsteps as (_ & _ & (Hsound & Hstep & _) & (Hgame & _) & Hearly).
  split; [exact Hsound|]. split; [exact Hstep|]. split; [exact Hgame|].
  exact (Hearly 1600 Hwait).
Defined.

(** X18 at [game_0] and the cell (3,5), with frames at the times 10, 20, 30
    and 40. *)
Lemma animation_takes_four_frames_witness :
  asteroid_animation_on
    (sequencer (animation_frame 30 (animation_frame 20 (animation_frame 10
                  (enable_asteroid_animation 3 5 game_0))))) = 1 /\
  asteroid_animation_on
    (sequencer (animation_frame 40 (animation_frame 30 (animation_frame 20
                  (animation_frame 10 (enable_asteroid_animation 3 5 game_0)))))) = 0 /\
  game (animation_frame 40 (animation_frame 30 (animation_frame 20
          (animation_frame 10 (enable_asteroid_animation 3 5 game_0))))) = game game_0.
Proof.
  assert (Hoff : asteroid_animation_on (sequencer game_0) = 0) by (vm_compute; reflexivity).
  assert (Hc : clock game_0 = 0) by (vm_compute; reflexivity).
  assert (H0 : 0 <= clock game_0) by (rewrite Hc; lia).
  assert (H1 : clock game_0 + 10 <= 10) by (rewrite Hc; lia).
  assert (H2 : 10 + 10 <= 20) by lia.
  assert (H3 : 20 + 10 <= 30) by lia.
  assert (H4 : 30 + 10 <= 40) by lia.
  assert (H5 : 40 < 4294967296) by lia.
  pose proof (animation_takes_four_frames game_0 3 5 10 20 30 40 Hoff H0 H1 H2 H3 H4 H5)
    as Hframes.
  cbv zeta in Hframes.
  destruct Hframes as (_ & _ & _ & (Hon & _) & (Hend & _) & _ & (Hgame & _) & _).
  split; [exact Hon|]. split; [exact Hend|exact Hgame].
Defined.

(** X19 at [ram_game] and at [game_3], with the port clear before the
    lives are shown: in both the base is at 3 and asteroids are at (1,0) and
    (2,1); the lives are 4 in the first and 1 in the second. *)
Lemma double_ram_leaves_a_led_on_witness :
  (lives_leds (show_lives (lives_down_to (lives (game ram_game))) 0)
   = lives (game ram_game) /\
   lives (game (snd (move_base 0 1 0 ram_game))) = lives (game ram_game) - 2 /\
   lives_leds (update_terminal (snd (move_base 0 1 0 ram_game))
                 (show_lives (lives_down_to (lives (game ram_game))) 0))
   = lives (game (snd (move_base 0 1 0 ram_game))) + 1) /\
  (lives (game (snd (move_base 0 1 0 game_3))) = -1 /\
   lives_leds (update_terminal (snd (move_base 0 1 0 game_3))
                 (show_lives (lives_down_to (lives (game game_3))) 0))
   = 1).
Proof.
  assert (Hport : is_byte 0) by (unfold is_byte; lia).
  assert (Hl4 : lives (game ram_game) = 4) by (vm_compute; reflexivity).
  assert (Hl1 : lives (game game_3) = 1) by (vm_compute; reflexivity).
  split.
  - destruct (double_ram_leaves_a_led_on 20 4 0 1 capacity_20 ram_game 0)
      as (Hshown & Hlives & Htwo & _).
    + exact (reachable_state_wf _ ram_game_reachable).
    + exact Hport.
    + vm_compute. discriminate.
    + vm_compute. discriminate.
    + vm_compute. discriminate.
    + rewrite Hl4. lia.
    + split; [exact Hshown|]. split; [exact Hlives|]. apply Htwo. rewrite Hl4. lia.
  - destruct (double_ram_leaves_a_led_on 20 4 0 1 capacity_20 game_3 0)
      as (_ & _ & _ & Hone).
    + exact (reachable_state_wf _ game_3_reachable).
    + exact Hport.
    + vm_compute. discriminate.
    + vm_compute. discriminate.
    + vm_compute. discriminate.
    + rewrite Hl1. lia.
    + exact (Hone Hl1).
Defined.
(** X20 at [game_0], with -1 for no button: the three characters of the
    cursor key to the left, and ESC [ L, which does nothing. *)
Lemma cursor_key_sequences_witness :
  handle_input (-1) 4 0 1 (-1) true [ESCAPE_CHAR; chr "["; chr "D"] 0 game_0
  = Some ((1, [chr "["; chr "D"]), game_0) /\
  handle_input (-1) 4 0 1 (-1) true [chr "["; chr "D"] 1 game_0
  = Some ((2, [chr "D"]), game_0) /\
  handle_input (-1) 4 0 1 (-1) true [chr "D"] 2 game_0
  = Some ((0, []), snd (move_base 0 1 0 game_0)) /\
  handle_input (-1) 4 0 1 (-1) true [chr "L"] 2 game_0 = Some ((0, []), game_0).
Proof.
  split; [exact (proj1 (cursor_key_sequences 4 0 1 (-1) no_button
                          [chr "["; chr "D"] game_0))|].
  split; [exact (proj1 (proj2 (cursor_key_sequences 4 0 1 (-1) no_button
                                 [chr "D"] game_0)))|].
  destruct (cursor_key_sequences 4 0 1 (-1) no_button [] game_0)
    as (_ & _ & Hleft & _ & _ & Hother).
  split; [exact Hleft|].
  apply Hother.
  - vm_compute. split; [discriminate|reflexivity].
  - vm_compute. discriminate.
  - vm_compute. discriminate.
  - vm_compute. discriminate.
Defined.

(** X21 at [game_0]: button 3, the key l, and L after ESC. *)
Lemma buttons_and_plain_keys_witness :
  handle_input (-1) 4 0 1 3 true [chr "R"] 1 game_0
  = Some ((1, [chr "R"]), snd (move_base 0 1 0 game_0)) /\
  handle_input (-1) 4 0 1 (-1) true [chr "l"] 0 game_0
  = Some ((0, []), snd (move_base 0 1 0 game_0)) /\
  handle_input (-1) 4 0 1 (-1) true [chr "L"] 1 game_0
  = handle_input (-1) 4 0 1 (-1) true [chr "L"] 0 game_0.
Proof.
  split; [exact (proj1 (proj1 (buttons_and_plain_keys 4 0 1 (-1) no_button
                                 true [chr "R"] 1 game_0)))|].
  destruct (buttons_and_plain_keys 4 0 1 (-1) no_button true [] 0 game_0)
    as (_ & _ & Hleft & _ & _ & Hplain & _).
  split; [apply Hleft; right; reflexivity|].
  apply Hplain.
  - vm_compute. split; [discriminate|reflexivity].
  - vm_compute. discriminate.
  - vm_compute. discriminate.
Defined.

(** X22 at [game_0]: p, then L and the space bar, then P, then R. *)
Lemma pause_drops_the_keys_witness :
  handle_input (-1) 4 0 1 (-1) true
    (chr "p" :: [chr "L"; chr " "] ++ chr "P" :: [chr "R"]) 0 game_0
  = Some ((0, [chr "R"]), game_0) /\
  handle_input (-1) 4 0 1 (-1) true (chr "p" :: [chr "L"; chr " "]) 0 game_0 = None.
Proof.
  apply (pause_drops_the_keys 4 0 1 (-1) no_button (chr "p") [chr "L"; chr " "]
           (chr "P") [chr "R"] game_0).
  - left. reflexivity.
  - apply Forall_cons. split; [split; vm_compute; discriminate|].
    apply Forall_cons. split; [split; vm_compute; discriminate|apply Forall_nil_2].
  - right. reflexivity.
Defined.

(** X23 at 440 Hz and at 10 Hz. *)
Lemma clock_period_of_frequency_witness :
  freq_to_clock_period 440 = 1000000 / 440 /\
  freq_to_clock_period 10 < 1000000 / 10.
Proof.
  assert (Hhigh : 16 <= 440 < 65536) by lia.
  assert (Hlow : 1 <= 10 < 16) by lia.
  split.
  - exact (proj1 (proj1 (clock_period_of_frequency 440) Hhigh)).
  - exact (proj2 (proj2 (clock_period_of_frequency 10) Hlow)).
Defined.

(** X24 at [game_0_left], where the base is at the left edge. *)
Lemma redraw_base_pixels_witness :
  Forall in_matrix (redraw_base 3 (game game_0_left)) /\
  length (redraw_base 3 (game game_0_left))
  = (if (basePosition (game game_0_left) =? 0) || (basePosition (game game_0_left) =? 7)
     then 3%nat else 4%nat).
Proof.
  assert (Hb : 0 <= basePosition (game game_0_left) <= 7)
    by (vm_compute; split; discriminate).
  destruct (redraw_base_pixels 3 (game game_0_left) Hb) as (_ & Hin & _ & Hlen).
  split; [exact Hin|exact Hlen].
Defined.

(** X25 at the cells (0,5) and (3,5). *)
Lemma explosion_pixels_witness :
  ~ Forall in_matrix (explosion 0 5 1) /\
  Forall in_matrix (explosion 3 5 1) /\
  Forall (fun p => 3 <= fst (fst p)) (explosion 3 5 1).
Proof.
  assert (Hx0 : 0 <= 0 <= 7) by lia.
  assert (Hx3 : 0 <= 3 <= 7) by lia.
  assert (Hy : 0 <= 5 <= 15) by lia.
  destruct (explosion_pixels 0 5 1 Hx0 Hy) as (Hedge & _).
  destruct (explosion_pixels 3 5 1 Hx3 Hy) as (Hinside & Hrows & _).
  split; [|split].
  - intros Hall. apply Hedge in Hall. lia.
  - apply Hinside. lia.
  - apply Hrows. lia.
Defined.

(** X26 at [game_3_twice], with the colours 1 and 2. *)
Lemma redraw_all_pixels_witness :
  redraw_all_asteroids 1 (game game_3_twice)
  = map (fun q => LED_MATRIX_POSN_FROM_GAME_POSN q 1) (live_asteroids (game game_3_twice)) /\
  redraw_all_projectiles 2 (game game_3_twice)
  = map (fun q => LED_MATRIX_POSN_FROM_GAME_POSN q 2)
        (live_projectiles (game game_3_twice)) /\
  NoDup (map fst (redraw_all_asteroids 1 (game game_3_twice))).
Proof.
  destruct (redraw_all_pixels 20 4 1 2 capacity_20 capacity_4 (game game_3_twice)
              (reachable_state_wf _ game_3_twice_reachable))
    as (Hasteroids & Hprojectiles & _ & _ & _ & Hapart & _).
  split; [exact Hasteroids|]. split; [exact Hprojectiles|exact Hapart].
Defined.

(** X27 at [game_4], where 18 of the 20 asteroids are left and the lives
    are -1. *)
Lemma asteroids_missing_witness :
  0 <= 20 - numAsteroids (game game_4) <= 4 - lives (game game_4) /\
  20 - numAsteroids (game game_4) <= 5.
Proof.
  exact (asteroids_missing 20 4 0 1 alarm_step_due capacity_20 capacity_4
           game_4 game_4_reachable).
Defined.

(** X28 at [game_3_top], whose projectile is in the top row. *)
Lemma positions_stay_on_field_witness :
  on_field (game game_3_top) /\
  (forall q, q ∈ live_projectiles (game game_3_top) ->
     0 <= GET_X_POSITION q <= 7 /\ 2 <= GET_Y_POSITION q <= 15 /\ q <> INVALID_POSITION).
Proof.
  destruct (positions_stay_on_field 20 4 0 1 alarm_step_due capacity_20 capacity_4
              game_3_top game_3_top_reachable) as (Hfield & _ & Hprojectiles).
  split; [exact Hfield|exact Hprojectiles].
Defined.
